(** * Icon resolution and caching engine of gtk/gtkicontheme.c (GTK+ 3.12.1)

    A shallow embedding of the theme registry, the directory matcher, the
    lookup cache with its LRU side list, and the symbolic-pixbuf memo list,
    followed by the properties checked against the specification.

    Conventions of the embedding:
    - a C [int] is a [Z]; every arithmetic operation goes through [wrap], the
      two's-complement wrap-around to 32 bits.  ISO C leaves signed overflow
      undefined; statements that depend on the absence of overflow carry
      explicit range hypotheses;
    - a NULL-terminated [char **] is a [list string], a nullable pointer an
      [option];
    - a [GList] is a [list]; a [GHashTable] keyed by strings is a [gmap];
    - [gdouble] is the kernel's binary64 [float];
    - an assertion failure ([g_assert], [g_assert_not_reached]) is the
      [Abort] result; [OutOfFuel] is the only artefact of the model, returned
      when the recursion bound handed to [insert_theme] is used up;
    - calls into GObject, the file system and the main loop are recorded in
      a trace of events. *)

From Stdlib Require Import ZArith List Ascii String Bool Lia PrimFloat.
From stdpp Require Import base option list gmap strings.

Local Open Scope string_scope.
Local Open Scope list_scope.
Local Open Scope Z_scope.

(* ===================================================================== *)
(** * Part I: the embedding                                               *)
(* ===================================================================== *)

(** ** C integers *)

Definition G_MAXINT : Z := 2 ^ 31 - 1.
Definition G_MININT : Z := - 2 ^ 31.

Definition wrap (z : Z) : Z := (z + 2 ^ 31) mod 2 ^ 32 - 2 ^ 31.

Definition int_add (a b : Z) : Z := wrap (a + b).
Definition int_sub (a b : Z) : Z := wrap (a - b).
Definition int_mul (a b : Z) : Z := wrap (a * b).
(** [abs] of <stdlib.h>. *)
Definition int_abs (a : Z) : Z := wrap (Z.abs a).

Definition in_int (z : Z) : Prop := G_MININT <= z <= G_MAXINT.

(** ** Results of code that can hit an assertion *)

Inductive result (A : Type) : Type :=
| Ok (a : A)
| Abort
| OutOfFuel.
Arguments Ok {A} a.
Arguments Abort {A}.
Arguments OutOfFuel {A}.

#[global] Instance result_bind : MBind result :=
  fun A B (k : A -> result B) (r : result A) =>
    match r with
    | Ok a => k a
    | Abort => Abort
    | OutOfFuel => OutOfFuel
    end.

(** ** glib string helpers *)

(** [g_str_has_suffix]: compares the last [strlen suffix] bytes of [str]. *)
Definition g_str_has_suffix (str suffix : string) : bool :=
  let str_len := String.length str in
  let suffix_len := String.length suffix in
  if (str_len <? suffix_len)%nat then false
  else String.eqb (substring (str_len - suffix_len) suffix_len str) suffix.

(** [g_build_filename] on two elements that carry no separator of their own
    at the joint. *)
Definition g_build_filename (dir file : string) : string :=
  (dir ++ "/" ++ file)%string.

(** ** Enumerations and constants *)

Definition DEFAULT_THEME_NAME : string := "hicolor".

Inductive IconThemeDirType : Set :=
| ICON_THEME_DIR_FIXED
| ICON_THEME_DIR_SCALABLE
| ICON_THEME_DIR_THRESHOLD
| ICON_THEME_DIR_UNTHEMED.

#[global] Instance IconThemeDirType_eq_dec : EqDecision IconThemeDirType.
Proof. solve_decision. Defined.

(** [IconSuffix], a bit mask; "in reverse search order". *)
Definition ICON_SUFFIX_NONE : Z := 0.
Definition ICON_SUFFIX_XPM : Z := Z.shiftl 1 0.
Definition ICON_SUFFIX_SVG : Z := Z.shiftl 1 1.
Definition ICON_SUFFIX_PNG : Z := Z.shiftl 1 2.
Definition HAS_ICON_FILE : Z := Z.shiftl 1 3.

Definition INFO_CACHE_LRU_SIZE : nat := 32.

(** The bits of [GtkIconLookupFlags] are declared in gtkicontheme.h, which is
    not part of the sources at hand; the code only tests them with [&], so
    they are taken as parameters. *)
Class LookupFlagBits : Type := {
  GTK_ICON_LOOKUP_NO_SVG : Z;
  GTK_ICON_LOOKUP_FORCE_SVG : Z;
  GTK_ICON_LOOKUP_USE_BUILTIN : Z;
  GTK_ICON_LOOKUP_FORCE_SIZE : Z
}.

(** The values of the GTK+ 3 public header, used for concrete runs. *)
Definition gtk3_flag_bits : LookupFlagBits := {|
  GTK_ICON_LOOKUP_NO_SVG := Z.shiftl 1 0;
  GTK_ICON_LOOKUP_FORCE_SVG := Z.shiftl 1 1;
  GTK_ICON_LOOKUP_USE_BUILTIN := Z.shiftl 1 2;
  GTK_ICON_LOOKUP_FORCE_SIZE := Z.shiftl 1 4
|}.

(** C truth value of [x & bit]. *)
Definition has_bit (x bit : Z) : bool := negb (Z.land x bit =? 0).

(** ** SuffixClassifier *)

Definition string_from_suffix (suffix : Z) : result string :=
  if suffix =? ICON_SUFFIX_XPM then Ok ".xpm"
  else if suffix =? ICON_SUFFIX_SVG then Ok ".svg"
  else if suffix =? ICON_SUFFIX_PNG then Ok ".png"
  else Abort.

Definition suffix_from_name (name : string) : Z :=
  if g_str_has_suffix name ".png" then ICON_SUFFIX_PNG
  else if g_str_has_suffix name ".svg" then ICON_SUFFIX_SVG
  else if g_str_has_suffix name ".xpm" then ICON_SUFFIX_XPM
  else ICON_SUFFIX_NONE.

Definition best_suffix (suffix : Z) (allow_svg : bool) : Z :=
  if has_bit suffix ICON_SUFFIX_PNG then ICON_SUFFIX_PNG
  else if allow_svg && has_bit suffix ICON_SUFFIX_SVG then ICON_SUFFIX_SVG
  else if has_bit suffix ICON_SUFFIX_XPM then ICON_SUFFIX_XPM
  else ICON_SUFFIX_NONE.

(** ** Theme directories *)

(** A raster handle ([GdkPixbuf *]). *)
Definition pixbuf : Set := nat.

(** [IconThemeDir].  Field names carry the prefix [d_].  [d_cache] is the
    view of the external directory icon index ([GtkIconCache]) restricted to
    this sub-directory: icon name to flags, [HAS_ICON_FILE] included;
    [d_icons] is the table filled by [scan_directory]. *)
Record IconThemeDir : Type := {
  d_type : IconThemeDirType;
  d_size : Z;
  d_min_size : Z;
  d_max_size : Z;
  d_threshold : Z;
  d_scale : Z;
  d_dir : option string;
  d_subdir : string;
  d_cache : option (gmap string Z);
  d_icons : gmap string Z
}.

Record IconTheme : Type := {
  t_name : string;
  t_display_name : option string;
  t_comment : option string;
  t_example : option string;
  t_dirs : list IconThemeDir
}.

Record BuiltinIcon : Type := {
  b_size : Z;
  b_pixbuf : pixbuf
}.

(** ** DirectoryMatcher *)

Definition theme_dir_size_difference (dir : IconThemeDir) (size scale : Z)
  : result Z :=
  let scaled_size := int_mul size scale in
  let scaled_dir_size := int_mul (d_size dir) (d_scale dir) in
  match d_type dir with
  | ICON_THEME_DIR_FIXED =>
      Ok (int_abs (int_sub scaled_size scaled_dir_size))
  | ICON_THEME_DIR_SCALABLE =>
      if scaled_size <? int_mul (d_min_size dir) (d_scale dir)
      then Ok (int_sub (int_mul (d_min_size dir) (d_scale dir)) scaled_size)
      else if size >? int_mul (d_max_size dir) (d_scale dir)
      then Ok (int_sub scaled_size (int_mul (d_max_size dir) (d_scale dir)))
      else Ok 0
  | ICON_THEME_DIR_THRESHOLD =>
      let min := int_mul (int_sub (d_size dir) (d_threshold dir)) (d_scale dir) in
      let max := int_mul (int_add (d_size dir) (d_threshold dir)) (d_scale dir) in
      if scaled_size <? min then Ok (int_sub min scaled_size)
      else if scaled_size >? max then Ok (int_sub scaled_size max)
      else Ok 0
  | ICON_THEME_DIR_UNTHEMED => Abort
  end.

(** Returns the suffix mask and the [has_icon_file] out-parameter. *)
Definition theme_dir_get_icon_suffix (dir : IconThemeDir) (icon_name : string)
  : Z * bool :=
  match d_cache dir with
  | Some cache =>
      let suffix := default 0 (cache !! icon_name) in
      (Z.land suffix (Z.lnot HAS_ICON_FILE), has_bit suffix HAS_ICON_FILE)
  | None => (default 0 (d_icons dir !! icon_name), false)
  end.

Definition is_scalable (dir : IconThemeDir) : bool :=
  bool_decide (d_type dir = ICON_THEME_DIR_SCALABLE).

(** "returns TRUE if dir_a is a better match" *)
Definition compare_dir_matches (dir_a : IconThemeDir) (difference_a : Z)
    (dir_b : IconThemeDir) (difference_b : Z)
    (requested_size requested_scale : Z) : bool :=
  let tail :=
    if (d_scale dir_a =? requested_scale) && negb (d_scale dir_b =? requested_scale)
    then true
    else if negb (d_scale dir_a =? requested_scale) && (d_scale dir_b =? requested_scale)
    then false
    else if negb (is_scalable dir_a) && is_scalable dir_b then true
    else if is_scalable dir_a && negb (is_scalable dir_b) then false
    else
      let diff_a := int_abs (int_sub (int_mul requested_size requested_scale)
                                     (int_mul (d_size dir_a) (d_scale dir_a))) in
      let diff_b := int_abs (int_sub (int_mul requested_size requested_scale)
                                     (int_mul (d_size dir_b) (d_scale dir_b))) in
      diff_a <=? diff_b in
  if difference_a =? 0 then
    if negb (difference_b =? 0) then true else tail
  else
    if (d_size dir_a >=? requested_size) && (d_size dir_b <? requested_size) then true
    else if (d_size dir_a <? requested_size) && (d_size dir_b >=? requested_size) then false
    else if difference_a <? difference_b then true
    else if difference_a >? difference_b then false
    else tail.

(** ** Resolved icons *)

Record IconInfoKey : Type := {
  k_icon_names : list string;
  k_size : Z;
  k_scale : Z;
  k_flags : Z
}.

(** [GtkIconInfo], the fields written by the lookup path.  The real-valued
    [unscaled_scale], the sidecar [data] and the raster of a directory icon
    index are left out: no lookup decision reads them. *)
Record GtkIconInfo : Type := {
  i_key : option IconInfoKey;
  i_in_cache : bool;
  i_filename : option string;
  i_cache_pixbuf : option pixbuf;
  i_dir_type : IconThemeDirType;
  i_dir_size : Z;
  i_dir_scale : Z;
  i_threshold : Z;
  i_desired_size : Z;
  i_desired_scale : Z;
  i_forced_size : bool
}.

Definition icon_info_new (type : IconThemeDirType) (dir_size dir_scale : Z)
  : GtkIconInfo :=
  {| i_key := None; i_in_cache := false; i_filename := None;
     i_cache_pixbuf := None;
     i_dir_type := type; i_dir_size := dir_size; i_dir_scale := dir_scale;
     i_threshold := 0; i_desired_size := 0; i_desired_scale := 0;
     i_forced_size := false |}.

Definition set_threshold (threshold : Z) (info : GtkIconInfo) : GtkIconInfo :=
  {| i_key := i_key info; i_in_cache := i_in_cache info;
     i_filename := i_filename info; i_cache_pixbuf := i_cache_pixbuf info;
     i_dir_type := i_dir_type info; i_dir_size := i_dir_size info;
     i_dir_scale := i_dir_scale info; i_threshold := threshold;
     i_desired_size := i_desired_size info;
     i_desired_scale := i_desired_scale info;
     i_forced_size := i_forced_size info |}.

Definition set_filename (filename : option string) (info : GtkIconInfo)
  : GtkIconInfo :=
  {| i_key := i_key info; i_in_cache := i_in_cache info;
     i_filename := filename; i_cache_pixbuf := i_cache_pixbuf info;
     i_dir_type := i_dir_type info; i_dir_size := i_dir_size info;
     i_dir_scale := i_dir_scale info; i_threshold := i_threshold info;
     i_desired_size := i_desired_size info;
     i_desired_scale := i_desired_scale info;
     i_forced_size := i_forced_size info |}.

Definition set_cache_pixbuf (p : option pixbuf) (info : GtkIconInfo)
  : GtkIconInfo :=
  {| i_key := i_key info; i_in_cache := i_in_cache info;
     i_filename := i_filename info; i_cache_pixbuf := p;
     i_dir_type := i_dir_type info; i_dir_size := i_dir_size info;
     i_dir_scale := i_dir_scale info; i_threshold := i_threshold info;
     i_desired_size := i_desired_size info;
     i_desired_scale := i_desired_scale info;
     i_forced_size := i_forced_size info |}.

Definition icon_info_new_builtin (icon : BuiltinIcon) : GtkIconInfo :=
  set_threshold 2
    (set_cache_pixbuf (Some (b_pixbuf icon))
       (icon_info_new ICON_THEME_DIR_THRESHOLD (b_size icon) 1)).

(** ** BuiltinRegistry *)

(** The process-wide tables: [icon_theme_builtin_icons] (NULL until the first
    registration) and the directory icon index [_builtin_cache] compiled into
    the library: sub-directory, then icon name, to flags. *)
Record Builtins : Type := {
  icon_theme_builtin_icons : option (gmap string (list BuiltinIcon));
  builtin_cache : gmap string (gmap string Z)
}.

(** One element of the static array of [_gtk_icon_theme_ensure_builtin_cache]. *)
Definition builtin_dir (g : Builtins) (size : Z) (subdir : string)
  : IconThemeDir :=
  {| d_type := ICON_THEME_DIR_THRESHOLD;
     d_size := size; d_min_size := size; d_max_size := size;
     d_threshold := 2; d_scale := 1;
     d_dir := None; d_subdir := subdir;
     d_cache := Some (default ∅ (builtin_cache g !! subdir));
     d_icons := ∅ |}.

Definition builtin_dirs (g : Builtins) : list IconThemeDir :=
  [ builtin_dir g 16 "16"; builtin_dir g 20 "20"; builtin_dir g 24 "24";
    builtin_dir g 32 "32"; builtin_dir g 48 "48" ].

(** The [while (icons)] loop of [find_builtin_icon]. *)
Fixpoint find_builtin_loop (icons : list BuiltinIcon) (size : Z)
    (min_difference : Z) (has_larger : bool) (min_icon : option BuiltinIcon)
  : option BuiltinIcon * Z :=
  match icons with
  | [] => (min_icon, min_difference)
  | default_icon :: next =>
      let min := int_sub (b_size default_icon) 2 in
      let max := int_add (b_size default_icon) 2 in
      let smaller := size <? min in
      let difference :=
        if size <? min then int_sub min size
        else if size >? max then int_sub size max
        else 0 in
      if difference =? 0 then (Some default_icon, min_difference)
      else if negb has_larger then
        if (difference <? min_difference) || smaller
        then find_builtin_loop next size difference smaller (Some default_icon)
        else find_builtin_loop next size min_difference has_larger min_icon
      else
        if (difference <? min_difference) && smaller
        then find_builtin_loop next size difference has_larger (Some default_icon)
        else find_builtin_loop next size min_difference has_larger min_icon
  end.

(** Returns the icon and the value left in [*min_difference_p]; the caller
    initialises that cell to [G_MAXINT], and the early return leaves it
    untouched. *)
Definition find_builtin_icon (g : Builtins) (icon_name : string)
    (size scale : Z) : option BuiltinIcon * Z :=
  match icon_theme_builtin_icons g with
  | None => (None, G_MAXINT)
  | Some table =>
      let size := int_mul size scale in
      find_builtin_loop (default [] (table !! icon_name)) size G_MAXINT false None
  end.

(** ** The directory scan of [theme_lookup_icon] *)

(** The running best: [min_dir] with its [min_difference]; [None] is
    [min_dir == NULL]. *)
Definition best_match : Type := option (IconThemeDir * Z).

(** One iteration of the [while (l != NULL)] loop. *)
Definition scan_step (icon_name : string) (size scale : Z) (allow_svg : bool)
    (best : best_match) (dir : IconThemeDir) : result best_match :=
  let suffix := fst (theme_dir_get_icon_suffix dir icon_name) in
  if negb (best_suffix suffix allow_svg =? ICON_SUFFIX_NONE) then
    difference ← theme_dir_size_difference dir size scale;
    match best with
    | None => Ok (Some (dir, difference))
    | Some (min_dir, min_difference) =>
        if compare_dir_matches dir difference min_dir min_difference size scale
        then Ok (Some (dir, difference))
        else Ok best
    end
  else Ok best.

Fixpoint scan_dirs (icon_name : string) (size scale : Z) (allow_svg : bool)
    (dirs : list IconThemeDir) (best : best_match) : result best_match :=
  match dirs with
  | [] => Ok best
  | dir :: l =>
      best' ← scan_step icon_name size scale allow_svg best dir;
      scan_dirs icon_name size scale allow_svg l best'
  end.

(** The list walked by the loop: for the default theme with built-ins
    enabled, [builtin_dirs] and then, at its end, the theme's own
    directories; the theme's directories otherwise. *)
Definition lookup_dirs (g : Builtins) (theme : IconTheme) (use_builtin : bool)
  : list IconThemeDir :=
  if use_builtin && String.eqb (t_name theme) DEFAULT_THEME_NAME
  then builtin_dirs g ++ t_dirs theme
  else t_dirs theme.

(** The [if (min_dir)] block: the icon info built from the selected
    directory. *)
Definition icon_info_from_dir (min_dir : IconThemeDir) (icon_name : string)
    (allow_svg : bool) : result GtkIconInfo :=
  let icon_info :=
    set_threshold (d_threshold min_dir)
      (icon_info_new (d_type min_dir) (d_size min_dir) (d_scale min_dir)) in
  let suffix := best_suffix (fst (theme_dir_get_icon_suffix min_dir icon_name))
                            allow_svg in
  if suffix =? ICON_SUFFIX_NONE then Abort
  else
    match d_dir min_dir with
    | Some dir =>
        ext ← string_from_suffix suffix;
        Ok (set_filename (Some (g_build_filename dir (icon_name ++ ext)%string))
              icon_info)
    | None => Ok icon_info
    end.

Definition theme_lookup_icon (g : Builtins) (theme : IconTheme)
    (icon_name : string) (size scale : Z) (allow_svg use_builtin : bool)
  : result (option GtkIconInfo) :=
  let in_default :=
    use_builtin && String.eqb (t_name theme) DEFAULT_THEME_NAME in
  let '(closest_builtin, min_difference) :=
    if in_default then find_builtin_icon g icon_name size scale
    else (None, G_MAXINT) in
  if in_default && (min_difference =? 0) then
    match closest_builtin with
    | Some b => Ok (Some (icon_info_new_builtin b))
    | None => Abort
    end
  else
    best ← scan_dirs icon_name size scale allow_svg
             (lookup_dirs g theme use_builtin) None;
    match best with
    | Some (min_dir, _) =>
        info ← icon_info_from_dir min_dir icon_name allow_svg;
        Ok (Some info)
    | None =>
        match closest_builtin with
        | Some b => Ok (Some (icon_info_new_builtin b))
        | None => Ok None
        end
    end.

(** ** Request keys *)

(** The [for] loop of [icon_info_key_equal] and the test after it. *)
Fixpoint icon_names_equal (a b : list string) : bool :=
  match a, b with
  | x :: a', y :: b' =>
      if negb (String.eqb x y) then false else icon_names_equal a' b'
  | [], [] => true
  | _, _ => false
  end.

Definition icon_info_key_equal (a b : IconInfoKey) : bool :=
  if negb (k_size a =? k_size b) then false
  else if negb (k_scale a =? k_scale b) then false
  else if negb (k_flags a =? k_flags b) then false
  else icon_names_equal (k_icon_names a) (k_icon_names b).

(** ** The state of a [GtkIconTheme] *)

(** A [GtkIconInfo *]: an index into [heap]. *)
Definition handle : Set := nat.

(** A [GdkScreen *]: screens are told apart by a number. *)
Definition GdkScreen : Set := nat.

Inductive stat_site : Set :=
| IN_INSERT_THEME
| IN_LOAD_THEMES
| IN_RESCAN_THEMES.

Inductive event : Type :=
| EvObjectRef (h : handle)
| EvObjectUnref (h : handle)
| EvStat (site : stat_site) (path : string)
| EvIdleAdd
| EvSignalChanged
| EvResetWidgets (screen : GdkScreen).

Record UnthemedIcon : Type := {
  svg_filename : option string;
  no_svg_filename : option string
}.

(** [IconThemeDirMtime]; "0 == not existing or not a dir". *)
Record IconThemeDirMtime : Type := {
  m_dir : string;
  m_mtime : Z;
  m_cache : option (gmap string (gmap string Z))
}.

(** [GtkIconThemePrivate], with the object store [heap] and the [trace] of
    calls that leave the module.  [info_cache] is the hash table from keys
    to icon infos, searched with [icon_info_key_equal]. *)
Record GtkIconThemePrivate : Type := {
  info_cache : list (IconInfoKey * handle);
  info_cache_lru : list handle;
  current_theme : option string;
  search_path : list string;
  custom_theme : bool;
  is_screen_singleton : bool;
  pixbuf_supports_svg : bool;
  themes_valid : bool;
  loading_themes : bool;
  themes : list IconTheme;
  unthemed_icons : gmap string UnthemedIcon;
  all_icons : gset string;
  screen : option GdkScreen;
  last_stat_time : Z;
  dir_mtimes : list IconThemeDirMtime;
  theme_changed_idle : bool;
  heap : list GtkIconInfo;
  trace : list event
}.

Definition set_info_cache (v : list (IconInfoKey * handle)) (priv : GtkIconThemePrivate)
  : GtkIconThemePrivate :=
  {| info_cache := v;
     info_cache_lru := info_cache_lru priv;
     current_theme := current_theme priv;
     search_path := search_path priv;
     custom_theme := custom_theme priv;
     is_screen_singleton := is_screen_singleton priv;
     pixbuf_supports_svg := pixbuf_supports_svg priv;
     themes_valid := themes_valid priv;
     loading_themes := loading_themes priv;
     themes := themes priv;
     unthemed_icons := unthemed_icons priv;
     all_icons := all_icons priv;
     screen := screen priv;
     last_stat_time := last_stat_time priv;
     dir_mtimes := dir_mtimes priv;
     theme_changed_idle := theme_changed_idle priv;
     heap := heap priv;
     trace := trace priv |}.

Definition set_info_cache_lru (v : list handle) (priv : GtkIconThemePrivate)
  : GtkIconThemePrivate :=
  {| info_cache := info_cache priv;
     info_cache_lru := v;
     current_theme := current_theme priv;
     search_path := search_path priv;
     custom_theme := custom_theme priv;
     is_screen_singleton := is_screen_singleton priv;
     pixbuf_supports_svg := pixbuf_supports_svg priv;
     themes_valid := themes_valid priv;
     loading_themes := loading_themes priv;
     themes := themes priv;
     unthemed_icons := unthemed_icons priv;
     all_icons := all_icons priv;
     screen := screen priv;
     last_stat_time := last_stat_time priv;
     dir_mtimes := dir_mtimes priv;
     theme_changed_idle := theme_changed_idle priv;
     heap := heap priv;
     trace := trace priv |}.

Definition set_themes_valid (v : bool) (priv : GtkIconThemePrivate)
  : GtkIconThemePrivate :=
  {| info_cache := info_cache priv;
     info_cache_lru := info_cache_lru priv;
     current_theme := current_theme priv;
     search_path := search_path priv;
     custom_theme := custom_theme priv;
     is_screen_singleton := is_screen_singleton priv;
     pixbuf_supports_svg := pixbuf_supports_svg priv;
     themes_valid := v;
     loading_themes := loading_themes priv;
     themes := themes priv;
     unthemed_icons := unthemed_icons priv;
     all_icons := all_icons priv;
     screen := screen priv;
     last_stat_time := last_stat_time priv;
     dir_mtimes := dir_mtimes priv;
     theme_changed_idle := theme_changed_idle priv;
     heap := heap priv;
     trace := trace priv |}.

Definition set_loading_themes (v : bool) (priv : GtkIconThemePrivate)
  : GtkIconThemePrivate :=
  {| info_cache := info_cache priv;
     info_cache_lru := info_cache_lru priv;
     current_theme := current_theme priv;
     search_path := search_path priv;
     custom_theme := custom_theme priv;
     is_screen_singleton := is_screen_singleton priv;
     pixbuf_supports_svg := pixbuf_supports_svg priv;
     themes_valid := themes_valid priv;
     loading_themes := v;
     themes := themes priv;
     unthemed_icons := unthemed_icons priv;
     all_icons := all_icons priv;
     screen := screen priv;
     last_stat_time := last_stat_time priv;
     dir_mtimes := dir_mtimes priv;
     theme_changed_idle := theme_changed_idle priv;
     heap := heap priv;
     trace := trace priv |}.

Definition set_themes (v : list IconTheme) (priv : GtkIconThemePrivate)
  : GtkIconThemePrivate :=
  {| info_cache := info_cache priv;
     info_cache_lru := info_cache_lru priv;
     current_theme := current_theme priv;
     search_path := search_path priv;
     custom_theme := custom_theme priv;
     is_screen_singleton := is_screen_singleton priv;
     pixbuf_supports_svg := pixbuf_supports_svg priv;
     themes_valid := themes_valid priv;
     loading_themes := loading_themes priv;
     themes := v;
     unthemed_icons := unthemed_icons priv;
     all_icons := all_icons priv;
     screen := screen priv;
     last_stat_time := last_stat_time priv;
     dir_mtimes := dir_mtimes priv;
     theme_changed_idle := theme_changed_idle priv;
     heap := heap priv;
     trace := trace priv |}.

Definition set_unthemed_icons (v : gmap string UnthemedIcon) (priv : GtkIconThemePrivate)
  : GtkIconThemePrivate :=
  {| info_cache := info_cache priv;
     info_cache_lru := info_cache_lru priv;
     current_theme := current_theme priv;
     search_path := search_path priv;
     custom_theme := custom_theme priv;
     is_screen_singleton := is_screen_singleton priv;
     pixbuf_supports_svg := pixbuf_supports_svg priv;
     themes_valid := themes_valid priv;
     loading_themes := loading_themes priv;
     themes := themes priv;
     unthemed_icons := v;
     all_icons := all_icons priv;
     screen := screen priv;
     last_stat_time := last_stat_time priv;
     dir_mtimes := dir_mtimes priv;
     theme_changed_idle := theme_changed_idle priv;
     heap := heap priv;
     trace := trace priv |}.

Definition set_all_icons (v : gset string) (priv : GtkIconThemePrivate)
  : GtkIconThemePrivate :=
  {| info_cache := info_cache priv;
     info_cache_lru := info_cache_lru priv;
     current_theme := current_theme priv;
     search_path := search_path priv;
     custom_theme := custom_theme priv;
     is_screen_singleton := is_screen_singleton priv;
     pixbuf_supports_svg := pixbuf_supports_svg priv;
     themes_valid := themes_valid priv;
     loading_themes := loading_themes priv;
     themes := themes priv;
     unthemed_icons := unthemed_icons priv;
     all_icons := v;
     screen := screen priv;
     last_stat_time := last_stat_time priv;
     dir_mtimes := dir_mtimes priv;
     theme_changed_idle := theme_changed_idle priv;
     heap := heap priv;
     trace := trace priv |}.

Definition set_last_stat_time (v : Z) (priv : GtkIconThemePrivate)
  : GtkIconThemePrivate :=
  {| info_cache := info_cache priv;
     info_cache_lru := info_cache_lru priv;
     current_theme := current_theme priv;
     search_path := search_path priv;
     custom_theme := custom_theme priv;
     is_screen_singleton := is_screen_singleton priv;
     pixbuf_supports_svg := pixbuf_supports_svg priv;
     themes_valid := themes_valid priv;
     loading_themes := loading_themes priv;
     themes := themes priv;
     unthemed_icons := unthemed_icons priv;
     all_icons := all_icons priv;
     screen := screen priv;
     last_stat_time := v;
     dir_mtimes := dir_mtimes priv;
     theme_changed_idle := theme_changed_idle priv;
     heap := heap priv;
     trace := trace priv |}.

Definition set_dir_mtimes (v : list IconThemeDirMtime) (priv : GtkIconThemePrivate)
  : GtkIconThemePrivate :=
  {| info_cache := info_cache priv;
     info_cache_lru := info_cache_lru priv;
     current_theme := current_theme priv;
     search_path := search_path priv;
     custom_theme := custom_theme priv;
     is_screen_singleton := is_screen_singleton priv;
     pixbuf_supports_svg := pixbuf_supports_svg priv;
     themes_valid := themes_valid priv;
     loading_themes := loading_themes priv;
     themes := themes priv;
     unthemed_icons := unthemed_icons priv;
     all_icons := all_icons priv;
     screen := screen priv;
     last_stat_time := last_stat_time priv;
     dir_mtimes := v;
     theme_changed_idle := theme_changed_idle priv;
     heap := heap priv;
     trace := trace priv |}.

Definition set_theme_changed_idle (v : bool) (priv : GtkIconThemePrivate)
  : GtkIconThemePrivate :=
  {| info_cache := info_cache priv;
     info_cache_lru := info_cache_lru priv;
     current_theme := current_theme priv;
     search_path := search_path priv;
     custom_theme := custom_theme priv;
     is_screen_singleton := is_screen_singleton priv;
     pixbuf_supports_svg := pixbuf_supports_svg priv;
     themes_valid := themes_valid priv;
     loading_themes := loading_themes priv;
     themes := themes priv;
     unthemed_icons := unthemed_icons priv;
     all_icons := all_icons priv;
     screen := screen priv;
     last_stat_time := last_stat_time priv;
     dir_mtimes := dir_mtimes priv;
     theme_changed_idle := v;
     heap := heap priv;
     trace := trace priv |}.

Definition set_heap (v : list GtkIconInfo) (priv : GtkIconThemePrivate)
  : GtkIconThemePrivate :=
  {| info_cache := info_cache priv;
     info_cache_lru := info_cache_lru priv;
     current_theme := current_theme priv;
     search_path := search_path priv;
     custom_theme := custom_theme priv;
     is_screen_singleton := is_screen_singleton priv;
     pixbuf_supports_svg := pixbuf_supports_svg priv;
     themes_valid := themes_valid priv;
     loading_themes := loading_themes priv;
     themes := themes priv;
     unthemed_icons := unthemed_icons priv;
     all_icons := all_icons priv;
     screen := screen priv;
     last_stat_time := last_stat_time priv;
     dir_mtimes := dir_mtimes priv;
     theme_changed_idle := theme_changed_idle priv;
     heap := v;
     trace := trace priv |}.

Definition set_trace (v : list event) (priv : GtkIconThemePrivate)
  : GtkIconThemePrivate :=
  {| info_cache := info_cache priv;
     info_cache_lru := info_cache_lru priv;
     current_theme := current_theme priv;
     search_path := search_path priv;
     custom_theme := custom_theme priv;
     is_screen_singleton := is_screen_singleton priv;
     pixbuf_supports_svg := pixbuf_supports_svg priv;
     themes_valid := themes_valid priv;
     loading_themes := loading_themes priv;
     themes := themes priv;
     unthemed_icons := unthemed_icons priv;
     all_icons := all_icons priv;
     screen := screen priv;
     last_stat_time := last_stat_time priv;
     dir_mtimes := dir_mtimes priv;
     theme_changed_idle := theme_changed_idle priv;
     heap := heap priv;
     trace := v |}.

Definition set_current_theme (v : option string) (priv : GtkIconThemePrivate)
  : GtkIconThemePrivate :=
  {| info_cache := info_cache priv;
     info_cache_lru := info_cache_lru priv;
     current_theme := v;
     search_path := search_path priv;
     custom_theme := custom_theme priv;
     is_screen_singleton := is_screen_singleton priv;
     pixbuf_supports_svg := pixbuf_supports_svg priv;
     themes_valid := themes_valid priv;
     loading_themes := loading_themes priv;
     themes := themes priv;
     unthemed_icons := unthemed_icons priv;
     all_icons := all_icons priv;
     screen := screen priv;
     last_stat_time := last_stat_time priv;
     dir_mtimes := dir_mtimes priv;
     theme_changed_idle := theme_changed_idle priv;
     heap := heap priv;
     trace := trace priv |}.

Definition set_search_path (v : list string) (priv : GtkIconThemePrivate)
  : GtkIconThemePrivate :=
  {| info_cache := info_cache priv;
     info_cache_lru := info_cache_lru priv;
     current_theme := current_theme priv;
     search_path := v;
     custom_theme := custom_theme priv;
     is_screen_singleton := is_screen_singleton priv;
     pixbuf_supports_svg := pixbuf_supports_svg priv;
     themes_valid := themes_valid priv;
     loading_themes := loading_themes priv;
     themes := themes priv;
     unthemed_icons := unthemed_icons priv;
     all_icons := all_icons priv;
     screen := screen priv;
     last_stat_time := last_stat_time priv;
     dir_mtimes := dir_mtimes priv;
     theme_changed_idle := theme_changed_idle priv;
     heap := heap priv;
     trace := trace priv |}.

Definition set_custom_theme (v : bool) (priv : GtkIconThemePrivate)
  : GtkIconThemePrivate :=
  {| info_cache := info_cache priv;
     info_cache_lru := info_cache_lru priv;
     current_theme := current_theme priv;
     search_path := search_path priv;
     custom_theme := v;
     is_screen_singleton := is_screen_singleton priv;
     pixbuf_supports_svg := pixbuf_supports_svg priv;
     themes_valid := themes_valid priv;
     loading_themes := loading_themes priv;
     themes := themes priv;
     unthemed_icons := unthemed_icons priv;
     all_icons := all_icons priv;
     screen := screen priv;
     last_stat_time := last_stat_time priv;
     dir_mtimes := dir_mtimes priv;
     theme_changed_idle := theme_changed_idle priv;
     heap := heap priv;
     trace := trace priv |}.

Definition set_is_screen_singleton (v : bool) (priv : GtkIconThemePrivate)
  : GtkIconThemePrivate :=
  {| info_cache := info_cache priv;
     info_cache_lru := info_cache_lru priv;
     current_theme := current_theme priv;
     search_path := search_path priv;
     custom_theme := custom_theme priv;
     is_screen_singleton := v;
     pixbuf_supports_svg := pixbuf_supports_svg priv;
     themes_valid := themes_valid priv;
     loading_themes := loading_themes priv;
     themes := themes priv;
     unthemed_icons := unthemed_icons priv;
     all_icons := all_icons priv;
     screen := screen priv;
     last_stat_time := last_stat_time priv;
     dir_mtimes := dir_mtimes priv;
     theme_changed_idle := theme_changed_idle priv;
     heap := heap priv;
     trace := trace priv |}.

Definition set_screen (v : option GdkScreen) (priv : GtkIconThemePrivate)
  : GtkIconThemePrivate :=
  {| info_cache := info_cache priv;
     info_cache_lru := info_cache_lru priv;
     current_theme := current_theme priv;
     search_path := search_path priv;
     custom_theme := custom_theme priv;
     is_screen_singleton := is_screen_singleton priv;
     pixbuf_supports_svg := pixbuf_supports_svg priv;
     themes_valid := themes_valid priv;
     loading_themes := loading_themes priv;
     themes := themes priv;
     unthemed_icons := unthemed_icons priv;
     all_icons := all_icons priv;
     screen := v;
     last_stat_time := last_stat_time priv;
     dir_mtimes := dir_mtimes priv;
     theme_changed_idle := theme_changed_idle priv;
     heap := heap priv;
     trace := trace priv |}.

Definition emit (e : event) (priv : GtkIconThemePrivate) : GtkIconThemePrivate :=
  set_trace (trace priv ++ [e]) priv.

(** ** The LRU side list *)

(** [g_list_find] on a list of pointers, as a truth value. *)
Definition g_list_find (l : list handle) (x : handle) : bool :=
  bool_decide (x ∈ l).

(** [g_list_remove]: drops the first element equal to [x]. *)
Fixpoint g_list_remove (l : list handle) (x : handle) : list handle :=
  match l with
  | [] => []
  | y :: l' => if decide (y = x) then l' else y :: g_list_remove l' x
  end.

Definition ensure_lru_cache_space (priv : GtkIconThemePrivate)
  : GtkIconThemePrivate :=
  match info_cache_lru priv !! (INFO_CACHE_LRU_SIZE - 1)%nat with
  | Some icon_info =>
      emit (EvObjectUnref icon_info)
        (set_info_cache_lru
           (delete (INFO_CACHE_LRU_SIZE - 1)%nat (info_cache_lru priv)) priv)
  | None => priv
  end.

Definition add_to_lru_cache (icon_info : handle) (priv : GtkIconThemePrivate)
  : result GtkIconThemePrivate :=
  if g_list_find (info_cache_lru priv) icon_info then Abort
  else
    let priv := ensure_lru_cache_space priv in
    let priv := emit (EvObjectRef icon_info) priv in
    Ok (set_info_cache_lru (icon_info :: info_cache_lru priv) priv).

Definition ensure_in_lru_cache (icon_info : handle) (priv : GtkIconThemePrivate)
  : result GtkIconThemePrivate :=
  if g_list_find (info_cache_lru priv) icon_info then
    Ok (set_info_cache_lru
          (icon_info :: g_list_remove (info_cache_lru priv) icon_info) priv)
  else add_to_lru_cache icon_info priv.

Definition remove_from_lru_cache (icon_info : handle)
    (priv : GtkIconThemePrivate) : GtkIconThemePrivate :=
  if g_list_find (info_cache_lru priv) icon_info then
    emit (EvObjectUnref icon_info)
      (set_info_cache_lru (g_list_remove (info_cache_lru priv) icon_info) priv)
  else priv.

Definition set_in_cache (b : bool) (info : GtkIconInfo) : GtkIconInfo :=
  {| i_key := i_key info; i_in_cache := b;
     i_filename := i_filename info; i_cache_pixbuf := i_cache_pixbuf info;
     i_dir_type := i_dir_type info; i_dir_size := i_dir_size info;
     i_dir_scale := i_dir_scale info; i_threshold := i_threshold info;
     i_desired_size := i_desired_size info;
     i_desired_scale := i_desired_scale info;
     i_forced_size := i_forced_size info |}.

(** The destroy notification of a proxy raster: the icon info is parked.
    The assertion on [proxy_pixbuf] concerns the rendering state of the icon
    info, which the state does not record. *)
Definition proxy_pixbuf_destroy (icon_info : handle)
    (priv : GtkIconThemePrivate) : result GtkIconThemePrivate :=
  priv ← (if default false (i_in_cache <$> heap priv !! icon_info)
          then ensure_in_lru_cache icon_info priv
          else Ok priv);
  Ok (emit (EvObjectUnref icon_info) priv).

(** "The icon info was removed from the icon_info_hash hash table" *)
Definition icon_info_uncached (icon_info : handle) (priv : GtkIconThemePrivate)
  : GtkIconThemePrivate :=
  let was_cached := default false (i_in_cache <$> heap priv !! icon_info) in
  let priv := set_heap (alter (set_in_cache false) icon_info (heap priv)) priv in
  if was_cached then remove_from_lru_cache icon_info priv else priv.

(** [g_hash_table_remove_all (priv->info_cache)], the value destructor being
    [icon_info_uncached]. *)
Definition info_cache_remove_all (priv : GtkIconThemePrivate)
  : GtkIconThemePrivate :=
  set_info_cache []
    (fold_left (fun p entry => icon_info_uncached (snd entry) p)
               (info_cache priv) priv).

(** [g_hash_table_remove (priv->info_cache, &key)]: the table without the
    entry of [key], and the value that was stored under it. *)
Fixpoint info_cache_take (cache : list (IconInfoKey * handle))
    (key : IconInfoKey) : list (IconInfoKey * handle) * option handle :=
  match cache with
  | [] => ([], None)
  | (k, h) :: cache' =>
      if icon_info_key_equal key k then (cache', Some h)
      else let '(rest, found) := info_cache_take cache' key in
           ((k, h) :: rest, found)
  end.

(** The part of [gtk_icon_info_finalize] that touches the icon theme: an
    icon info that is still marked as cached is removed from the primary
    cache under its key, which runs [icon_info_uncached] on the value
    stored there. *)
Definition gtk_icon_info_finalize (icon_info : handle)
    (priv : GtkIconThemePrivate) : GtkIconThemePrivate :=
  match heap priv !! icon_info with
  | Some info =>
      match i_in_cache info, i_key info with
      | true, Some key =>
          match info_cache_take (info_cache priv) key with
          | (rest, Some value) =>
              icon_info_uncached value (set_info_cache rest priv)
          | (_, None) => priv
          end
      | _, _ => priv
      end
  | None => priv
  end.

(** [g_hash_table_lookup (priv->info_cache, &key)]. *)
Fixpoint info_cache_lookup (cache : list (IconInfoKey * handle))
    (key : IconInfoKey) : option handle :=
  match cache with
  | [] => None
  | (k, h) :: cache' =>
      if icon_info_key_equal key k then Some h else info_cache_lookup cache' key
  end.

(** ** The file system and the descriptors, as the registry sees them *)

(** A per-directory group of index.theme; [None] is a missing key ([g_size]:
    a missing or unreadable [Size]). *)
Record ThemeDirGroup : Type := {
  g_size : option Z;
  g_type : option string;
  g_max_size : option Z;
  g_min_size : option Z;
  g_threshold : option Z;
  g_scale : option Z
}.

(** A parsed index.theme: the keys of the [Icon Theme] group and the
    per-directory groups. *)
Record ThemeFile : Type := {
  tf_name : option string;
  tf_directories : option (list string);
  tf_scaled_directories : option (list string);
  tf_comment : option string;
  tf_example : option string;
  tf_inherits : option (list string);
  tf_groups : gmap string ThemeDirGroup
}.

Record FileSystem : Type := {
  (** [g_stat] succeeds and [S_ISDIR] holds: the [st_mtime]. *)
  fs_stat_dir : string -> option Z;
  (** [g_dir_open] and the names read from it. *)
  fs_read_dir : string -> option (list string);
  (** [G_FILE_TEST_IS_REGULAR], then [g_key_file_load_from_file]:
      [Some None] is a regular file that does not parse. *)
  fs_key_file : string -> option (option ThemeFile);
  (** [_gtk_icon_cache_new_for_path]. *)
  fs_icon_cache : string -> option (gmap string (gmap string Z))
}.

Fixpoint strrchr_index (s : string) (c : ascii) : option nat :=
  match s with
  | EmptyString => None
  | String a s' =>
      match strrchr_index s' c with
      | Some i => Some (S i)
      | None => if Ascii.eqb a c then Some O else None
      end
  end.

Definition strip_suffix (filename : string) : string :=
  match strrchr_index filename "."%char with
  | None => filename
  | Some dot => substring 0 dot filename
  end.

(** ** ThemeIndex: loading one theme *)

(** Returns the [dir->icons] table and the updated [all_icons]. *)
Definition scan_directory (fs : FileSystem) (all_icons : gset string)
    (full_dir : string) : gmap string Z * gset string :=
  match fs_read_dir fs full_dir with
  | None => (∅, all_icons)
  | Some names =>
      fold_left
        (fun (acc : gmap string Z * gset string) name =>
           if g_str_has_suffix name ".icon" then acc
           else
             let suffix := suffix_from_name name in
             if suffix =? ICON_SUFFIX_NONE then acc
             else
               let base_name := strip_suffix name in
               let hash_suffix := default 0 (fst acc !! base_name) in
               (<[base_name := Z.lor hash_suffix suffix]> (fst acc),
                {[base_name]} ∪ snd acc))
        names (∅, all_icons)
  end.

(** The loop of [theme_subdir_load] over [priv->dir_mtimes]; [mk] builds the
    directory from its path, its index view and its scanned table.  Returns
    the (mutated) mtime records, [all_icons] and [theme->dirs]. *)
Fixpoint theme_subdir_loop (fs : FileSystem) (subdir : string)
    (mk : string -> option (gmap string Z) -> gmap string Z -> IconThemeDir)
    (ds : list IconThemeDirMtime) (all_icons : gset string)
    (theme_dirs : list IconThemeDir)
  : list IconThemeDirMtime * gset string * list IconThemeDir :=
  match ds with
  | [] => ([], all_icons, theme_dirs)
  | dir_mtime :: d =>
      if m_mtime dir_mtime =? 0 then
        let '(d', all', dirs') :=
          theme_subdir_loop fs subdir mk d all_icons theme_dirs in
        (dir_mtime :: d', all', dirs')
      else
        let full_dir := g_build_filename (m_dir dir_mtime) subdir in
        if bool_decide (is_Some (m_cache dir_mtime))
           || bool_decide (is_Some (fs_stat_dir fs full_dir)) then
          let cache :=
            match m_cache dir_mtime with
            | Some c => Some c
            | None => fs_icon_cache fs (m_dir dir_mtime)
            end in
          let dir_mtime' :=
            {| m_dir := m_dir dir_mtime; m_mtime := m_mtime dir_mtime;
               m_cache := cache |} in
          let '(dir, all1) :=
            match cache with
            | Some c => (mk full_dir (Some (default ∅ (c !! subdir))) ∅, all_icons)
            | None =>
                let '(icons, all1) := scan_directory fs all_icons full_dir in
                (mk full_dir None icons, all1)
            end in
          let '(d', all', dirs') :=
            theme_subdir_loop fs subdir mk d all1 (dir :: theme_dirs) in
          (dir_mtime' :: d', all', dirs')
        else
          let '(d', all', dirs') :=
            theme_subdir_loop fs subdir mk d all_icons theme_dirs in
          (dir_mtime :: d', all', dirs')
  end.

(** [theme_subdir_load]; the state is [priv] with the [theme->dirs] under
    construction. *)
Definition theme_subdir_load (fs : FileSystem) (theme_file : ThemeFile)
    (st : GtkIconThemePrivate * list IconThemeDir) (subdir : string)
  : GtkIconThemePrivate * list IconThemeDir :=
  let grp := tf_groups theme_file !! subdir in
  match grp ≫= g_size with
  | None => st
  | Some size =>
      let type :=
        match grp ≫= g_type with
        | Some type_string =>
            if String.eqb type_string "Fixed" then ICON_THEME_DIR_FIXED
            else if String.eqb type_string "Scalable" then ICON_THEME_DIR_SCALABLE
            else ICON_THEME_DIR_THRESHOLD
        | None => ICON_THEME_DIR_THRESHOLD
        end in
      let max_size := default size (grp ≫= g_max_size) in
      let min_size := default size (grp ≫= g_min_size) in
      let threshold := default 2 (grp ≫= g_threshold) in
      let scale := default 1 (grp ≫= g_scale) in
      let mk full_dir cache icons :=
        {| d_type := type; d_size := size; d_min_size := min_size;
           d_max_size := max_size; d_threshold := threshold; d_scale := scale;
           d_dir := Some full_dir; d_subdir := subdir;
           d_cache := cache; d_icons := icons |} in
      let '(ds, all, dirs) :=
        theme_subdir_loop fs subdir mk (dir_mtimes (fst st))
          (all_icons (fst st)) (snd st) in
      (set_dir_mtimes ds (set_all_icons all (fst st)), dirs)
  end.

(** ** ThemeRegistry *)

(** The first loop of [insert_theme]: one mtime record per search-path root,
    prepended, and the whole list reversed afterwards. *)
Fixpoint stat_theme_roots (fs : FileSystem) (theme_name : string)
    (roots : list string) (priv : GtkIconThemePrivate) : GtkIconThemePrivate :=
  match roots with
  | [] => priv
  | root :: roots' =>
      let path := g_build_filename root theme_name in
      let dir_mtime :=
        {| m_dir := path;
           m_mtime := default 0 (fs_stat_dir fs path);
           m_cache := None |} in
      stat_theme_roots fs theme_name roots'
        (emit (EvStat IN_INSERT_THEME path)
           (set_dir_mtimes (dir_mtime :: dir_mtimes priv) priv))
  end.

(** The second loop: the first root whose index.theme is a regular file that
    parses. *)
Fixpoint find_theme_file (fs : FileSystem) (theme_name : string)
    (roots : list string) : option ThemeFile :=
  match roots with
  | [] => None
  | root :: roots' =>
      match fs_key_file fs
              (g_build_filename (g_build_filename root theme_name) "index.theme")
      with
      | Some (Some theme_file) => Some theme_file
      | _ => find_theme_file fs theme_name roots'
      end
  end.

Definition new_theme (theme_name : string) : IconTheme :=
  {| t_name := theme_name; t_display_name := None; t_comment := None;
     t_example := None; t_dirs := [] |}.

(** A loop that threads the state through calls that may fail. *)
Fixpoint for_each {A S : Type} (f : S -> A -> result S) (l : list A) (s : S)
  : result S :=
  match l with
  | [] => Ok s
  | a :: l' => s' ← f s a; for_each f l' s'
  end.

(** The body of [insert_theme] for a theme that is not yet in the list, up
    to the loop over [Inherits]: the state, and the parents still to insert
    (none on the two early returns).  The new theme is the head of
    [priv->themes] from the moment it is prepended; the writes through the
    [theme] pointer are writes to that head. *)
Definition insert_theme_body (fs : FileSystem) (priv : GtkIconThemePrivate)
    (theme_name : string) : GtkIconThemePrivate * list string :=
  let priv := stat_theme_roots fs theme_name (search_path priv) priv in
  let priv := set_dir_mtimes (rev (dir_mtimes priv)) priv in
  let theme_file := find_theme_file fs theme_name (search_path priv) in
  let priv :=
    if bool_decide (is_Some theme_file)
       || String.eqb theme_name DEFAULT_THEME_NAME
    then set_themes (new_theme theme_name :: themes priv) priv
    else priv in
  match theme_file with
  | None => (priv, [])
  | Some tf =>
      match tf_directories tf with
      | None => (set_themes (tail (themes priv)) priv, [])
      | Some dirs =>
          let st := fold_left (theme_subdir_load fs tf) dirs (priv, []) in
          let st :=
            match tf_scaled_directories tf with
            | Some scaled_dirs =>
                fold_left (theme_subdir_load fs tf) scaled_dirs st
            | None => st
            end in
          let theme :=
            {| t_name := theme_name; t_display_name := tf_name tf;
               t_comment := tf_comment tf; t_example := tf_example tf;
               t_dirs := rev (snd st) |} in
          (set_themes (theme :: tail (themes (fst st))) (fst st),
           default [] (tf_inherits tf))
      end
  end.

(** [insert_theme]; [fuel] bounds the depth of the recursion through
    [Inherits]. *)
Fixpoint insert_theme (fuel : nat) (fs : FileSystem)
    (priv : GtkIconThemePrivate) (theme_name : string) {struct fuel}
  : result GtkIconThemePrivate :=
  match fuel with
  | O => OutOfFuel
  | S fuel' =>
      if existsb (fun theme => String.eqb (t_name theme) theme_name)
                 (themes priv)
      then Ok priv
      else
        let '(priv, parents) := insert_theme_body fs priv theme_name in
        for_each (insert_theme fuel' fs) parents priv
  end.

(** One file of a search-path root, in the unthemed scan of [load_themes]. *)
Definition load_unthemed_file (dir : string)
    (acc : gmap string UnthemedIcon * gset string) (file : string)
  : gmap string UnthemedIcon * gset string :=
  let new_suffix := suffix_from_name file in
  if new_suffix =? ICON_SUFFIX_NONE then acc
  else
    let abs_file := g_build_filename dir file in
    let base_name := strip_suffix file in
    match fst acc !! base_name with
    | Some unthemed_icon =>
        let unthemed_icon' :=
          if new_suffix =? ICON_SUFFIX_SVG then
            match svg_filename unthemed_icon with
            | Some _ => unthemed_icon
            | None =>
                {| svg_filename := Some abs_file;
                   no_svg_filename := no_svg_filename unthemed_icon |}
            end
          else
            match no_svg_filename unthemed_icon with
            | Some old =>
                if new_suffix >? suffix_from_name old then
                  {| svg_filename := svg_filename unthemed_icon;
                     no_svg_filename := Some abs_file |}
                else unthemed_icon
            | None =>
                {| svg_filename := svg_filename unthemed_icon;
                   no_svg_filename := Some abs_file |}
            end in
        (<[base_name := unthemed_icon']> (fst acc), snd acc)
    | None =>
        let unthemed_icon :=
          if new_suffix =? ICON_SUFFIX_SVG
          then {| svg_filename := Some abs_file; no_svg_filename := None |}
          else {| svg_filename := None; no_svg_filename := Some abs_file |} in
        (<[base_name := unthemed_icon]> (fst acc), {[base_name]} ∪ snd acc)
    end.

(** One search-path root of the unthemed scan. *)
Definition load_unthemed_root (fs : FileSystem) (priv : GtkIconThemePrivate)
    (dir : string) : GtkIconThemePrivate :=
  let priv := emit (EvStat IN_LOAD_THEMES dir) priv in
  match fs_stat_dir fs dir with
  | None =>
      set_dir_mtimes
        (dir_mtimes priv ++ [{| m_dir := dir; m_mtime := 0; m_cache := None |}])
        priv
  | Some mtime =>
      let cache := fs_icon_cache fs dir in
      let priv :=
        set_dir_mtimes
          (dir_mtimes priv
             ++ [{| m_dir := dir; m_mtime := mtime; m_cache := cache |}]) priv in
      match cache with
      | Some _ => priv
      | None =>
          match fs_read_dir fs dir with
          | None => priv
          | Some files =>
              let acc :=
                fold_left (load_unthemed_file dir) files
                          (unthemed_icons priv, all_icons priv) in
              set_all_icons (snd acc) (set_unthemed_icons (fst acc) priv)
          end
      end
  end.

(** The first insertions of [load_themes]: the current theme, if one is
    set, and "gnome". *)
Definition load_user_themes (fuel : nat) (fs : FileSystem)
    (priv : GtkIconThemePrivate) : result GtkIconThemePrivate :=
  priv ← match current_theme priv with
         | Some name => insert_theme fuel fs priv name
         | None => Ok priv
         end;
  insert_theme fuel fs priv "gnome".

(** [load_themes]; [now] is the reading of [g_get_current_time]. *)
Definition load_themes (fuel : nat) (fs : FileSystem) (now : Z)
    (priv : GtkIconThemePrivate) : result GtkIconThemePrivate :=
  let priv := set_all_icons ∅ priv in
  priv ← load_user_themes fuel fs priv;
  priv ← insert_theme fuel fs priv DEFAULT_THEME_NAME;
  let priv := set_themes (rev (themes priv)) priv in
  let priv := set_unthemed_icons ∅ priv in
  let priv := fold_left (load_unthemed_root fs) (search_path priv) priv in
  Ok (set_last_stat_time now (set_themes_valid true priv)).

(** The [for] loop of [rescan_themes]: [true] as soon as one tracked
    directory changed. *)
Fixpoint rescan_dirs (fs : FileSystem) (ds : list IconThemeDirMtime)
    (priv : GtkIconThemePrivate) : bool * GtkIconThemePrivate :=
  match ds with
  | [] => (false, priv)
  | dir_mtime :: d =>
      let priv := emit (EvStat IN_RESCAN_THEMES (m_dir dir_mtime)) priv in
      let stat_buf := fs_stat_dir fs (m_dir dir_mtime) in
      if match stat_buf with
         | Some st_mtime => m_mtime dir_mtime =? st_mtime
         | None => false
         end
      then rescan_dirs fs d priv
      else if (m_mtime dir_mtime =? 0) && bool_decide (stat_buf = None)
      then rescan_dirs fs d priv
      else (true, priv)
  end.

Definition rescan_themes (fs : FileSystem) (now : Z)
    (priv : GtkIconThemePrivate) : bool * GtkIconThemePrivate :=
  let '(changed, priv) := rescan_dirs fs (dir_mtimes priv) priv in
  if changed then (true, priv)
  else (false, set_last_stat_time now priv).

Definition blow_themes (priv : GtkIconThemePrivate) : GtkIconThemePrivate :=
  set_themes_valid false
    (set_all_icons ∅
       (set_dir_mtimes []
          (set_unthemed_icons ∅
             (set_themes [] priv)))).

Definition queue_theme_changed (priv : GtkIconThemePrivate)
  : GtkIconThemePrivate :=
  if negb (theme_changed_idle priv)
  then emit EvIdleAdd (set_theme_changed_idle true priv)
  else priv.

(** The idle callback [theme_changed_idle]: the signal, then
    [gtk_style_context_reset_widgets] for the icon theme of a screen. *)
Definition run_theme_changed_idle (priv : GtkIconThemePrivate)
  : GtkIconThemePrivate :=
  let priv := emit EvSignalChanged priv in
  let priv :=
    match screen priv with
    | Some s =>
        if is_screen_singleton priv then emit (EvResetWidgets s) priv
        else priv
    | None => priv
    end in
  set_theme_changed_idle false priv.

Definition do_theme_change (priv : GtkIconThemePrivate) : GtkIconThemePrivate :=
  let priv := info_cache_remove_all priv in
  if negb (themes_valid priv) then priv
  else queue_theme_changed (blow_themes priv).

(** [ensure_valid_themes].  The clock is read up to three times during one
    call; the readings are taken within the same second, [now].  [tv_sec]
    and [last_stat_time] are [glong] seconds, far from the ends of their
    range: their difference is the difference in [Z]. *)
Definition ensure_valid_themes (fuel : nat) (fs : FileSystem) (now : Z)
    (priv : GtkIconThemePrivate) : result GtkIconThemePrivate :=
  let was_valid := themes_valid priv in
  if loading_themes priv then Ok priv
  else
    let priv := set_loading_themes true priv in
    let priv :=
      if themes_valid priv then
        if Z.abs (now - last_stat_time priv) >? 5 then
          let '(changed, priv') := rescan_themes fs now priv in
          if changed then blow_themes (info_cache_remove_all priv')
          else priv'
        else priv
      else priv in
    priv ← (if negb (themes_valid priv) then
              priv' ← load_themes fuel fs now priv;
              Ok (if was_valid then queue_theme_changed priv' else priv')
            else Ok priv);
    Ok (set_loading_themes false priv).

Definition gtk_icon_theme_set_search_path (path : list string)
    (priv : GtkIconThemePrivate) : GtkIconThemePrivate :=
  do_theme_change (set_search_path path priv).

(** The macro [theme_changed] of [update_current_theme]. *)
Definition theme_changed (_old _new : option string) : bool :=
  match _old, _new with
  | Some _, None => true
  | None, Some _ => true
  | Some o, Some n => negb (String.eqb o n)
  | None, None => false
  end.

(** [update_current_theme].  [gtk_icon_theme_name] is the value of the
    setting gtk-icon-theme-name of a screen at the time of the call, as
    [g_object_get] on the [GtkSettings] of the screen returns it. *)
Definition update_current_theme (gtk_icon_theme_name : GdkScreen -> option string)
    (priv : GtkIconThemePrivate) : GtkIconThemePrivate :=
  if negb (custom_theme priv) then
    let theme :=
      match screen priv with
      | Some s => gtk_icon_theme_name s
      | None => None
      end in
    if theme_changed (current_theme priv) theme
    then do_theme_change (set_current_theme theme priv)
    else priv
  else priv.

(** [gtk_icon_theme_set_screen]; connecting and disconnecting the signal
    handlers on the display and the settings leaves the state alone. *)
Definition gtk_icon_theme_set_screen (new_screen : option GdkScreen)
    (gtk_icon_theme_name : GdkScreen -> option string)
    (priv : GtkIconThemePrivate) : GtkIconThemePrivate :=
  update_current_theme gtk_icon_theme_name (set_screen new_screen priv).

(** [gtk_icon_theme_set_custom_theme]; [theme_name] is [None] for the NULL
    pointer.  A failed [g_return_if_fail] returns at once. *)
Definition gtk_icon_theme_set_custom_theme (theme_name : option string)
    (gtk_icon_theme_name : GdkScreen -> option string)
    (priv : GtkIconThemePrivate) : GtkIconThemePrivate :=
  if is_screen_singleton priv then priv
  else
    match theme_name with
    | Some name =>
        let priv := set_custom_theme true priv in
        if match current_theme priv with
           | None => true
           | Some current => negb (String.eqb name current)
           end
        then do_theme_change (set_current_theme (Some name) priv)
        else priv
    | None =>
        if custom_theme priv
        then update_current_theme gtk_icon_theme_name
               (set_custom_theme false priv)
        else priv
    end.

(** [gtk_icon_theme_rescan_if_needed]. *)
Definition gtk_icon_theme_rescan_if_needed (fs : FileSystem) (now : Z)
    (priv : GtkIconThemePrivate) : bool * GtkIconThemePrivate :=
  let '(retval, priv) := rescan_themes fs now priv in
  if retval then (true, do_theme_change priv) else (false, priv).

(** ** IconInfoCache: [choose_icon] *)

Section ChooseIcon.
Context {bits : LookupFlagBits}.

Definition allow_svg_of_flags (supports_svg : bool) (flags : Z) : bool :=
  if has_bit flags GTK_ICON_LOOKUP_NO_SVG then false
  else if has_bit flags GTK_ICON_LOOKUP_FORCE_SVG then true
  else supports_svg.

(** The loop entered when [icon_names[0]] ends in "-symbolic": that one name
    against every theme, in theme order. *)
Fixpoint lookup_symbolic_pass (g : Builtins) (l : list IconTheme)
    (icon_name : string) (size scale : Z) (allow_svg use_builtin : bool)
  : result (option (GtkIconInfo * IconTheme)) :=
  match l with
  | [] => Ok None
  | theme :: l' =>
      icon_info ← theme_lookup_icon g theme icon_name size scale
                    allow_svg use_builtin;
      match icon_info with
      | Some info => Ok (Some (info, theme))
      | None =>
          lookup_symbolic_pass g l' icon_name size scale allow_svg use_builtin
      end
  end.

(** The inner loop of the general pass: every candidate name in one theme. *)
Fixpoint lookup_names (g : Builtins) (theme : IconTheme)
    (icon_names : list string) (size scale : Z) (allow_svg use_builtin : bool)
  : result (option (GtkIconInfo * string)) :=
  match icon_names with
  | [] => Ok None
  | icon_name :: rest =>
      icon_info ← theme_lookup_icon g theme icon_name size scale
                    allow_svg use_builtin;
      match icon_info with
      | Some info => Ok (Some (info, icon_name))
      | None => lookup_names g theme rest size scale allow_svg use_builtin
      end
  end.

(** The general pass: themes in order, names within each theme. *)
Fixpoint lookup_general_pass (g : Builtins) (l : list IconTheme)
    (icon_names : list string) (size scale : Z) (allow_svg use_builtin : bool)
  : result (option (GtkIconInfo * IconTheme * string)) :=
  match l with
  | [] => Ok None
  | theme :: l' =>
      r ← lookup_names g theme icon_names size scale allow_svg use_builtin;
      match r with
      | Some (info, icon_name) => Ok (Some (info, theme, icon_name))
      | None =>
          lookup_general_pass g l' icon_names size scale allow_svg use_builtin
      end
  end.

(** The first candidate name with an entry in the unthemed table. *)
Fixpoint lookup_unthemed (table : gmap string UnthemedIcon)
    (icon_names : list string) : option UnthemedIcon :=
  match icon_names with
  | [] => None
  | icon_name :: rest =>
      match table !! icon_name with
      | Some unthemed_icon => Some unthemed_icon
      | None => lookup_unthemed table rest
      end
  end.

(** "A SVG icon, when allowed, beats out a XPM icon, but not a PNG icon" *)
Definition unthemed_icon_info (unthemed_icon : UnthemedIcon) (size : Z)
    (allow_svg : bool) : GtkIconInfo :=
  let icon_info := icon_info_new ICON_THEME_DIR_UNTHEMED size 1 in
  if allow_svg
     && bool_decide (is_Some (svg_filename unthemed_icon))
     && match no_svg_filename unthemed_icon with
        | None => true
        | Some f => negb (suffix_from_name f =? ICON_SUFFIX_PNG)
        end
  then set_filename (svg_filename unthemed_icon) icon_info
  else
    match no_svg_filename unthemed_icon with
    | Some f => set_filename (Some f) icon_info
    | None => icon_info
    end.

(** The search of [choose_icon] from the general pass on: themes in order
    with every candidate name, then the unthemed table.  The result is the
    icon info, with the theme and the name it was found under ([None] for
    an unthemed icon). *)
Definition find_icon_general (g : Builtins) (priv : GtkIconThemePrivate)
    (icon_names : list string) (size scale : Z) (allow_svg use_builtin : bool)
  : result (option (GtkIconInfo * option (IconTheme * string))) :=
  r ← lookup_general_pass g (themes priv) icon_names size scale
        allow_svg use_builtin;
  match r with
  | Some (info, theme, icon_name) => Ok (Some (info, Some (theme, icon_name)))
  | None =>
      match lookup_unthemed (unthemed_icons priv) icon_names with
      | Some unthemed_icon =>
          Ok (Some (unthemed_icon_info unthemed_icon size allow_svg, None))
      | None => Ok None
      end
  end.

(** The search of [choose_icon] after a cache miss, up to the label [out]. *)
Definition find_icon (g : Builtins) (priv : GtkIconThemePrivate)
    (icon_names : list string) (size scale : Z) (allow_svg use_builtin : bool)
  : result (option (GtkIconInfo * option (IconTheme * string))) :=
  symbolic ←
    match icon_names with
    | first :: _ =>
        if g_str_has_suffix first "-symbolic" then
          r ← lookup_symbolic_pass g (themes priv) first size scale
                allow_svg use_builtin;
          Ok (match r with
              | Some (info, theme) => Some (info, Some (theme, first))
              | None => None
              end)
        else Ok None
    | [] => Ok None
    end;
  match symbolic with
  | Some found => Ok (Some found)
  | None =>
      find_icon_general g priv icon_names size scale allow_svg use_builtin
  end.

(** The annotations written at the label [out]. *)
Definition annotate (key : IconInfoKey) (forced_size : bool)
    (info : GtkIconInfo) : GtkIconInfo :=
  {| i_key := Some key; i_in_cache := true;
     i_filename := i_filename info; i_cache_pixbuf := i_cache_pixbuf info;
     i_dir_type := i_dir_type info; i_dir_size := i_dir_size info;
     i_dir_scale := i_dir_scale info; i_threshold := i_threshold info;
     i_desired_size := k_size key; i_desired_scale := k_scale key;
     i_forced_size := forced_size |}.

(** [choose_icon]: the icon info returned (a handle, or NULL) and the new
    state.  The lookup has just missed when the entry is inserted, so the
    insertion adds a key that is not in the table. *)
Definition choose_icon (fuel : nat) (g : Builtins) (fs : FileSystem) (now : Z)
    (priv : GtkIconThemePrivate) (icon_names : list string)
    (size scale flags : Z) : result (option handle * GtkIconThemePrivate) :=
  priv ← ensure_valid_themes fuel fs now priv;
  let key := {| k_icon_names := icon_names; k_size := size;
                k_scale := scale; k_flags := flags |} in
  match info_cache_lookup (info_cache priv) key with
  | Some icon_info =>
      let priv := emit (EvObjectRef icon_info) priv in
      Ok (Some icon_info, remove_from_lru_cache icon_info priv)
  | None =>
      let allow_svg := allow_svg_of_flags (pixbuf_supports_svg priv) flags in
      let use_builtin := has_bit flags GTK_ICON_LOOKUP_USE_BUILTIN in
      found ← find_icon g priv icon_names size scale allow_svg use_builtin;
      match found with
      | Some (info, origin) =>
          let forced_size := has_bit flags GTK_ICON_LOOKUP_FORCE_SIZE in
          _ ← match origin with
              | Some (theme, icon_name) =>
                  if negb (scale =? 1) && negb forced_size
                  then theme_lookup_icon g theme icon_name size 1
                         allow_svg use_builtin
                  else Ok None
              | None => Ok None
              end;
          let icon_info := length (heap priv) in
          Ok (Some icon_info,
              set_info_cache ((key, icon_info) :: info_cache priv)
                (set_heap (heap priv ++ [annotate key forced_size info]) priv))
      | None => Ok (None, priv)
      end
  end.

End ChooseIcon.

(** ** Symbolic recolouring: the memo list of an icon info *)

Record GdkRGBA : Set := {
  red : float;
  green : float;
  blue : float;
  alpha : float
}.

(** [GdkRGBA transparent = { 0 }], also the value [g_new0] leaves in a
    colour that is not copied. *)
Definition transparent : GdkRGBA :=
  {| red := 0%float; green := 0%float; blue := 0%float; alpha := 0%float |}.

(** One cell of the singly-linked list; [sc_proxy_pixbuf] tells whether a
    proxy over the pixels of [sc_pixbuf] is alive. *)
Record SymbolicPixbufCache : Set := {
  sc_pixbuf : pixbuf;
  sc_proxy_pixbuf : bool;
  sc_fg : GdkRGBA;
  sc_success_color : GdkRGBA;
  sc_warning_color : GdkRGBA;
  sc_error_color : GdkRGBA
}.

Definition symbolic_pixbuf_cache_new (p : pixbuf)
    (fg success_color warning_color error_color : option GdkRGBA)
    (next : list SymbolicPixbufCache) : list SymbolicPixbufCache :=
  {| sc_pixbuf := p; sc_proxy_pixbuf := false;
     sc_fg := default transparent fg;
     sc_success_color := default transparent success_color;
     sc_warning_color := default transparent warning_color;
     sc_error_color := default transparent error_color |} :: next.

(** [fabs (x - y) < 0.0001] in binary64. *)
Definition channel_matches (x y : float) : bool :=
  PrimFloat.ltb (PrimFloat.abs (PrimFloat.sub x y)) 0x1.a36e2eb1c432dp-14%float.

Definition rgba_matches (a : option GdkRGBA) (b : GdkRGBA) : bool :=
  let a := default transparent a in
  channel_matches (red a) (red b)
  && channel_matches (green a) (green b)
  && channel_matches (blue a) (blue b)
  && channel_matches (alpha a) (alpha b).

(** The test of the [while] loop of [symbolic_pixbuf_cache_matches]. *)
Definition cell_matches (fg success_color warning_color error_color
                           : option GdkRGBA) (cell : SymbolicPixbufCache) : bool :=
  rgba_matches fg (sc_fg cell)
  && rgba_matches success_color (sc_success_color cell)
  && rgba_matches warning_color (sc_warning_color cell)
  && rgba_matches error_color (sc_error_color cell).

(** Returns the position of the matching cell (the pointer, in C). *)
Fixpoint symbolic_pixbuf_cache_matches (cache : list SymbolicPixbufCache)
    (fg success_color warning_color error_color : option GdkRGBA)
  : option nat :=
  match cache with
  | [] => None
  | cell :: next =>
      if cell_matches fg success_color warning_color error_color cell
      then Some O
      else S <$> symbolic_pixbuf_cache_matches next fg success_color
                   warning_color error_color
  end.

Definition set_proxy (cell : SymbolicPixbufCache) : SymbolicPixbufCache :=
  {| sc_pixbuf := sc_pixbuf cell; sc_proxy_pixbuf := true;
     sc_fg := sc_fg cell; sc_success_color := sc_success_color cell;
     sc_warning_color := sc_warning_color cell;
     sc_error_color := sc_error_color cell |}.

(** [symbolic_cache_get_proxy] on the cell at position [i]: the pixels handed
    out are those of the cell's raster. *)
Definition symbolic_cache_get_proxy (cache : list SymbolicPixbufCache)
    (i : nat) : option pixbuf * list SymbolicPixbufCache :=
  (sc_pixbuf <$> cache !! i, alter set_proxy i cache).

Section SymbolicRender.
(** Reading the icon file, the image codec applied to the synthesised SVG
    document and the compositing of emblems: the raster, or a failure. *)
Variable render : GdkRGBA -> option GdkRGBA -> option GdkRGBA ->
                  option GdkRGBA -> option pixbuf.

(** [_gtk_icon_info_load_symbolic_internal] on the memo list of one icon
    info: the pixels returned and the new list. *)
Definition load_symbolic_internal (cache : list SymbolicPixbufCache)
    (fg success_color warning_color error_color : option GdkRGBA)
    (use_cache : bool) : option pixbuf * list SymbolicPixbufCache :=
  match (if use_cache
         then symbolic_pixbuf_cache_matches cache fg success_color
                warning_color error_color
         else None) with
  | Some i => symbolic_cache_get_proxy cache i
  | None =>
      match fg with
      | None => (None, cache)
      | Some fg_color =>
          match render fg_color success_color warning_color error_color with
          | Some p =>
              if use_cache then
                symbolic_cache_get_proxy
                  (symbolic_pixbuf_cache_new p fg success_color warning_color
                     error_color cache) O
              else (Some p, cache)
          | None => (None, cache)
          end
      end
  end.

End SymbolicRender.

(** ** Definitions used to state the properties *)

(** The reading of the specification's "pairwise-equal name sequence up to
    the shorter length terminator": the two sequences agree wherever both
    have an element. *)
Definition agree_up_to_shorter (a b : list string) : Prop :=
  forall (i : nat) (x y : string), a !! i = Some x -> b !! i = Some y -> x = y.

(** Key equality as the specification words it. *)
Definition spec_key_equal (a b : IconInfoKey) : Prop :=
  k_flags a = k_flags b /\ k_size a = k_size b /\ k_scale a = k_scale b
  /\ agree_up_to_shorter (k_icon_names a) (k_icon_names b).

(** The Scalable distance as the specification words it: 0 within
    [[minSize, maxSize] * dirScale], the excess otherwise, every comparison
    being made against [size * scale]. *)
Definition spec_scalable_distance (dir : IconThemeDir) (size scale : Z) : Z :=
  let scaled_size := size * scale in
  if scaled_size <? d_min_size dir * d_scale dir
  then d_min_size dir * d_scale dir - scaled_size
  else if scaled_size >? d_max_size dir * d_scale dir
  then scaled_size - d_max_size dir * d_scale dir
  else 0.

(** A directory of a theme under /usr/share/icons, with an eagerly scanned
    table. *)
Definition mk_dir (type : IconThemeDirType) (size min_size max_size threshold
    scale : Z) (path : string) (icons : list (string * Z)) : IconThemeDir :=
  {| d_type := type; d_size := size; d_min_size := min_size;
     d_max_size := max_size; d_threshold := threshold; d_scale := scale;
     d_dir := Some path; d_subdir := path;
     d_cache := None; d_icons := list_to_map icons |}.

Definition scalable_16_32 : IconThemeDir :=
  mk_dir ICON_THEME_DIR_SCALABLE 24 16 32 2 1 "/usr/share/icons/Foo/scalable"
    [("edit-cut", ICON_SUFFIX_SVG)].

Definition key_short : IconInfoKey :=
  {| k_icon_names := ["edit-cut"]; k_size := 24; k_scale := 1; k_flags := 0 |}.

Definition key_long : IconInfoKey :=
  {| k_icon_names := ["edit-cut"; "edit"]; k_size := 24; k_scale := 1;
     k_flags := 0 |}.

Definition dir_png_svg_xpm : IconThemeDir :=
  mk_dir ICON_THEME_DIR_FIXED 24 24 24 2 1 "/usr/share/icons/Foo/24x24"
    [("edit-cut", Z.lor ICON_SUFFIX_PNG (Z.lor ICON_SUFFIX_SVG ICON_SUFFIX_XPM))].

Definition dir_svg_xpm : IconThemeDir :=
  mk_dir ICON_THEME_DIR_FIXED 24 24 24 2 1 "/usr/share/icons/Foo/24x24"
    [("edit-cut", Z.lor ICON_SUFFIX_SVG ICON_SUFFIX_XPM)].

(** ** Vocabulary of the directory order *)

(** A directory holds the icon in a format that may be loaded: the test that
    admits it to the comparison. *)
Definition is_candidate (icon_name : string) (allow_svg : bool)
    (dir : IconThemeDir) : Prop :=
  best_suffix (fst (theme_dir_get_icon_suffix dir icon_name)) allow_svg
  <> ICON_SUFFIX_NONE.

(** [|requestedSize * requestedScale - dirSize * dirScale|], the quantity of
    the final tiebreak. *)
Definition nominal_difference (dir : IconThemeDir) (size scale : Z) : Z :=
  int_abs (int_sub (int_mul size scale) (int_mul (d_size dir) (d_scale dir))).

(** Sizes and scales of everyday themes and requests: small enough for every
    product and difference of the matcher to stay inside [int]. *)
Definition small (z : Z) : Prop := 0 <= z <= 32767.

Record small_request (size scale : Z) : Prop := {
  req_size : small size;
  req_scale : 1 <= scale <= 32767
}.

(** A directory as [theme_subdir_load] creates them, with small fields. *)
Record themed_dir (dir : IconThemeDir) : Prop := {
  td_type : d_type dir <> ICON_THEME_DIR_UNTHEMED;
  td_size : small (d_size dir);
  td_min_size : small (d_min_size dir);
  td_max_size : small (d_max_size dir);
  td_threshold : small (d_threshold dir);
  td_scale : 1 <= d_scale dir <= 32767
}.

(** Two candidates that no rule of the order separates: same exactness, same
    side of the requested size, same distance, same agreement with the
    requested scale, same Scalable-ness, same nominal difference. *)
Record ties (a : IconThemeDir) (difference_a : Z) (b : IconThemeDir)
    (difference_b : Z) (size scale : Z) : Prop := {
  tie_exact : difference_a = 0 <-> difference_b = 0;
  tie_downscale : d_size a >= size <-> d_size b >= size;
  tie_distance : difference_a = difference_b;
  tie_scale : d_scale a = scale <-> d_scale b = scale;
  tie_scalable : is_scalable a = is_scalable b;
  tie_nominal : nominal_difference a size scale = nominal_difference b size scale
}.

(** A directory whose nominal size and scale are exactly the requested ones
    and that is not Scalable. *)
Definition exact_nominal (size scale : Z) (dir : IconThemeDir) : Prop :=
  d_size dir = size /\ d_scale dir = scale
  /\ d_type dir <> ICON_THEME_DIR_SCALABLE.

Definition png_icon : list (string * Z) := [("edit-cut", ICON_SUFFIX_PNG)].

Definition fixed_48 : IconThemeDir :=
  mk_dir ICON_THEME_DIR_FIXED 48 48 48 2 1 "/usr/share/icons/Foo/48x48" png_icon.

Definition threshold_24_at_2 : IconThemeDir :=
  mk_dir ICON_THEME_DIR_THRESHOLD 24 24 24 2 2 "/usr/share/icons/Foo/24x24@2"
    png_icon.

Definition fixed_24 : IconThemeDir :=
  mk_dir ICON_THEME_DIR_FIXED 24 24 24 2 1 "/usr/share/icons/Foo/24x24" png_icon.

Definition threshold_24 : IconThemeDir :=
  mk_dir ICON_THEME_DIR_THRESHOLD 24 24 24 2 1
    "/usr/share/icons/Foo/24x24/legacy" png_icon.

Definition scalable_24 : IconThemeDir :=
  mk_dir ICON_THEME_DIR_SCALABLE 24 8 512 2 1 "/usr/share/icons/Foo/scalable"
    png_icon.

(** The same size declared under two search-path roots. *)
Definition fixed_24_home : IconThemeDir :=
  mk_dir ICON_THEME_DIR_FIXED 24 24 24 2 1 "/home/u/.icons/Foo/24x24" png_icon.

(** The file name recorded in an icon info, through a [result]. *)
Definition result_filename (r : result GtkIconInfo) : result (option string) :=
  info ← r; Ok (i_filename info).

(** ** Runs of an icon theme *)

(** The state left by [gtk_icon_theme_init]. *)
Definition init_priv (path : list string) (supports_svg : bool)
  : GtkIconThemePrivate :=
  {| info_cache := []; info_cache_lru := [];
     current_theme := None; search_path := path;
     custom_theme := false; is_screen_singleton := false;
     pixbuf_supports_svg := supports_svg;
     themes_valid := false; loading_themes := false;
     themes := []; unthemed_icons := ∅; all_icons := ∅;
     screen := None;
     last_stat_time := 0; dir_mtimes := [];
     theme_changed_idle := false; heap := []; trace := [] |}.

(** The icon theme of a screen as [gtk_icon_theme_get_for_screen] creates
    it: a new object, attached to the screen and marked as its singleton. *)
Definition gtk_icon_theme_for_screen (path : list string) (supports_svg : bool)
    (new_screen : GdkScreen) (gtk_icon_theme_name : GdkScreen -> option string)
  : GtkIconThemePrivate :=
  set_is_screen_singleton true
    (gtk_icon_theme_set_screen (Some new_screen) gtk_icon_theme_name
       (init_priv path supports_svg)).

(** The entry points that touch the state: a lookup, the release of the
    last proxy of a rendered icon (plain or symbolic: both destroy
    notifications park the icon info in the same way), the finalisation of
    an icon info, a rescan on request, a new search path (appending and
    prepending a directory are the new search path with that directory
    added), a theme name set or unset by the application, a new screen, a
    change of the theme setting of the screen, the queries that only
    validate the themes (the sizes of an icon, the presence of an icon, the
    lists of icons and contexts), and the idle callback that delivers the
    "changed" signal. *)
Inductive theme_op : Type :=
| OpChooseIcon (fuel : nat) (fs : FileSystem) (now : Z)
    (icon_names : list string) (size scale flags : Z)
| OpProxyDestroy (icon_info : handle)
| OpInfoFinalize (icon_info : handle)
| OpRescanIfNeeded (fs : FileSystem) (now : Z)
| OpSetSearchPath (path : list string)
| OpSetCustomTheme (theme_name : option string)
    (gtk_icon_theme_name : GdkScreen -> option string)
| OpSetScreen (new_screen : option GdkScreen)
    (gtk_icon_theme_name : GdkScreen -> option string)
| OpSettingsChanged (gtk_icon_theme_name : GdkScreen -> option string)
| OpEnsureValid (fuel : nat) (fs : FileSystem) (now : Z)
| OpIdle.

Definition run_op {bits : LookupFlagBits} (g : Builtins) (op : theme_op)
    (priv : GtkIconThemePrivate) : result GtkIconThemePrivate :=
  match op with
  | OpChooseIcon fuel fs now icon_names size scale flags =>
      r ← choose_icon fuel g fs now priv icon_names size scale flags;
      Ok (snd r)
  | OpProxyDestroy icon_info => proxy_pixbuf_destroy icon_info priv
  | OpInfoFinalize icon_info => Ok (gtk_icon_info_finalize icon_info priv)
  | OpRescanIfNeeded fs now =>
      Ok (snd (gtk_icon_theme_rescan_if_needed fs now priv))
  | OpSetSearchPath path => Ok (gtk_icon_theme_set_search_path path priv)
  | OpSetCustomTheme theme_name gtk_icon_theme_name =>
      Ok (gtk_icon_theme_set_custom_theme theme_name gtk_icon_theme_name priv)
  | OpSetScreen new_screen gtk_icon_theme_name =>
      Ok (gtk_icon_theme_set_screen new_screen gtk_icon_theme_name priv)
  | OpSettingsChanged gtk_icon_theme_name =>
      Ok (update_current_theme gtk_icon_theme_name priv)
  | OpEnsureValid fuel fs now => ensure_valid_themes fuel fs now priv
  | OpIdle => Ok (run_theme_changed_idle priv)
  end.

(** A sequence of entry points, one after the other. *)
Fixpoint run_ops {bits : LookupFlagBits} (g : Builtins) (ops : list theme_op)
    (priv : GtkIconThemePrivate) : result GtkIconThemePrivate :=
  match ops with
  | [] => Ok priv
  | op :: ops' => priv' ← run_op g op priv; run_ops g ops' priv'
  end.

(** The states an icon theme goes through. *)
Inductive reachable {bits : LookupFlagBits} (g : Builtins)
  : GtkIconThemePrivate -> Prop :=
| reachable_init (path : list string) (supports_svg : bool) :
    reachable g (init_priv path supports_svg)
| reachable_for_screen (path : list string) (supports_svg : bool)
    (new_screen : GdkScreen) (gtk_icon_theme_name : GdkScreen -> option string) :
    reachable g (gtk_icon_theme_for_screen path supports_svg new_screen
                   gtk_icon_theme_name)
| reachable_step (op : theme_op) (priv priv' : GtkIconThemePrivate) :
    reachable g priv -> run_op g op priv = Ok priv' -> reachable g priv'.

(** The invariant of the side list: at most [INFO_CACHE_LRU_SIZE] entries,
    none of them twice. *)
Definition lru_ok (priv : GtkIconThemePrivate) : Prop :=
  (length (info_cache_lru priv) <= INFO_CACHE_LRU_SIZE)%nat
  /\ NoDup (info_cache_lru priv).

(** The events a (re)load may add to the trace: the stats of [insert_theme]
    and [load_themes]. *)
Definition is_load_stat (e : event) : Prop :=
  match e with
  | EvStat IN_INSERT_THEME _ | EvStat IN_LOAD_THEMES _ => True
  | _ => False
  end.

(** What loading leaves alone: the caches, the configuration, the flags and
    the clock reading; the trace grows by load stats only. *)
Record load_frame (p q : GtkIconThemePrivate) : Prop := {
  fr_info_cache : info_cache q = info_cache p;
  fr_info_cache_lru : info_cache_lru q = info_cache_lru p;
  fr_heap : heap q = heap p;
  fr_current_theme : current_theme q = current_theme p;
  fr_search_path : search_path q = search_path p;
  fr_pixbuf_supports_svg : pixbuf_supports_svg q = pixbuf_supports_svg p;
  fr_themes_valid : themes_valid q = themes_valid p;
  fr_loading_themes : loading_themes q = loading_themes p;
  fr_last_stat_time : last_stat_time q = last_stat_time p;
  fr_theme_changed_idle : theme_changed_idle q = theme_changed_idle p;
  fr_trace : exists evs, trace q = trace p ++ evs /\ Forall is_load_stat evs
}.

(** ** Vocabulary of the registry *)

(** The names of the active themes, in list order. *)
Definition theme_names (p : GtkIconThemePrivate) : list string :=
  map t_name (themes p).

(** What one insertion does to the state: the caches are left alone, themes
    are only added in front, and a list without duplicate names stays so. *)
Definition theme_growth (p q : GtkIconThemePrivate) : Prop :=
  load_frame p q
  /\ (exists added, theme_names q = added ++ theme_names p)
  /\ (NoDup (theme_names p) -> NoDup (theme_names q)).

(** The theme names of [universe] that are not yet active: the measure of
    the recursion of [insert_theme]. *)
Fixpoint missing (universe active : list string) : nat :=
  match universe with
  | [] => O
  | n :: universe' =>
      if bool_decide (n ∈ active) then missing universe' active
      else S (missing universe' active)
  end.

(** ** Vocabulary of staleness *)

(** An mtime record holds one number, the modification time, with 0 standing
    for "not there" ("0 == not existing or not a dir").  A tracked directory
    has changed when what [g_stat] reports now differs from the record: it
    is there with another modification time than the recorded one (which
    includes appearing after being recorded as absent), or it is gone after
    being recorded as present. *)
Definition dir_changed (fs : FileSystem) (dir_mtime : IconThemeDirMtime)
  : Prop :=
  match fs_stat_dir fs (m_dir dir_mtime) with
  | Some st_mtime => m_mtime dir_mtime <> st_mtime
  | None => m_mtime dir_mtime <> 0
  end.

(** The stat of one tracked directory by [rescan_themes]. *)
Definition rescan_event (dir_mtime : IconThemeDirMtime) : event :=
  EvStat IN_RESCAN_THEMES (m_dir dir_mtime).

(** The stats of [rescan_themes] in a trace. *)
Definition rescan_stats (tr : list event) : list string :=
  omap (fun e => match e with
                 | EvStat IN_RESCAN_THEMES path => Some path
                 | _ => None
                 end) tr.

Definition is_signal (e : event) : bool :=
  match e with
  | EvSignalChanged => true
  | _ => false
  end.

(** How often the "changed" signal was emitted in a trace. *)
Definition signals_emitted (tr : list event) : nat :=
  length (filter (fun e => is_signal e = true) tr).

(** The events of bookkeeping: anything but the delivery of the signal and
    the queueing of its idle callback. *)
Definition is_quiet (e : event) : Prop :=
  match e with
  | EvSignalChanged | EvIdleAdd => False
  | _ => True
  end.

Definition is_idle_add (e : event) : bool :=
  match e with
  | EvIdleAdd => true
  | _ => false
  end.

(** How often the idle callback of the "changed" notification was queued
    in a trace. *)
Definition idle_adds (tr : list event) : nat :=
  length (filter (fun e => is_idle_add e = true) tr).

(** The record of a tracked directory was taken on the file system [fs]:
    it holds the modification time of the directory, and 0 if the directory
    was not there. *)
Definition recorded_on (fs : FileSystem) (dir_mtime : IconThemeDirMtime)
  : Prop :=
  m_mtime dir_mtime = default 0 (fs_stat_dir fs (m_dir dir_mtime)).




(** What purging the primary cache leaves alone: everything but the cache
    itself, the LRU list, the [in_cache] marks in the object store and the
    trace, which grows by bookkeeping events only; the LRU invariant
    survives. *)
Record purge_frame (p q : GtkIconThemePrivate) : Prop := {
  pf_current_theme : current_theme q = current_theme p;
  pf_search_path : search_path q = search_path p;
  pf_pixbuf_supports_svg : pixbuf_supports_svg q = pixbuf_supports_svg p;
  pf_themes_valid : themes_valid q = themes_valid p;
  pf_loading_themes : loading_themes q = loading_themes p;
  pf_themes : themes q = themes p;
  pf_unthemed_icons : unthemed_icons q = unthemed_icons p;
  pf_all_icons : all_icons q = all_icons p;
  pf_last_stat_time : last_stat_time q = last_stat_time p;
  pf_dir_mtimes : dir_mtimes q = dir_mtimes p;
  pf_theme_changed_idle : theme_changed_idle q = theme_changed_idle p;
  pf_trace : exists evs, trace q = trace p ++ evs /\ Forall is_quiet evs;
  pf_lru : (length (info_cache_lru q) <= length (info_cache_lru p))%nat
           /\ (NoDup (info_cache_lru p) -> NoDup (info_cache_lru q))
}.

(** ** A small installation *)

(** The names read from the result of a load. *)
Definition loaded_names (r : result GtkIconThemePrivate) : result (list string) :=
  p ← r; Ok (theme_names p).

Definition group_24 : ThemeDirGroup :=
  {| g_size := Some 24; g_type := Some "Fixed"; g_max_size := None;
     g_min_size := None; g_threshold := None; g_scale := None |}.

(** /usr/share/icons/gnome/index.theme: one directory, inherits hicolor. *)
Definition gnome_index : ThemeFile :=
  {| tf_name := Some "GNOME"; tf_directories := Some ["24x24"];
     tf_scaled_directories := None; tf_comment := None; tf_example := None;
     tf_inherits := Some ["hicolor"];
     tf_groups := {["24x24" := group_24]} |}.

(** A search path with the single root /usr/share/icons, where only the
    gnome theme is installed: no index.theme for hicolor anywhere. *)
Definition fs_gnome_only : FileSystem :=
  {| fs_stat_dir := fun path =>
       if existsb (String.eqb path)
            ["/usr/share/icons"; "/usr/share/icons/gnome";
             "/usr/share/icons/gnome/24x24"]
       then Some 1000 else None;
     fs_read_dir := fun path =>
       if String.eqb path "/usr/share/icons/gnome/24x24"
       then Some ["edit-cut.png"]
       else if String.eqb path "/usr/share/icons" then Some ["gnome"]
       else None;
     fs_key_file := fun path =>
       if String.eqb path "/usr/share/icons/gnome/index.theme"
       then Some (Some gnome_index) else None;
     fs_icon_cache := fun _ => None |}.

(** A fresh icon theme on that search path, with no theme name set, and one
    whose theme name is the default theme itself. *)
Definition priv_fresh : GtkIconThemePrivate :=
  init_priv ["/usr/share/icons"] true.

Definition priv_hicolor_current : GtkIconThemePrivate :=
  set_current_theme (Some "hicolor") priv_fresh.

(** ** A theme and its parent *)

Definition no_builtins : Builtins :=
  {| icon_theme_builtin_icons := None; builtin_cache := ∅ |}.

(** The current theme ships edit-cut as a PNG only; the theme it inherits
    ships edit-cut-symbolic as an SVG. *)
Definition theme_child : IconTheme :=
  {| t_name := "Foo"; t_display_name := None; t_comment := None;
     t_example := None;
     t_dirs := [mk_dir ICON_THEME_DIR_FIXED 24 24 24 2 1
                  "/usr/share/icons/Foo/24x24"
                  [("edit-cut", ICON_SUFFIX_PNG)]] |}.

Definition theme_parent : IconTheme :=
  {| t_name := "Bar"; t_display_name := None; t_comment := None;
     t_example := None;
     t_dirs := [mk_dir ICON_THEME_DIR_SCALABLE 24 8 512 2 1
                  "/usr/share/icons/Bar/scalable"
                  [("edit-cut-symbolic", ICON_SUFFIX_SVG)]] |}.

Definition priv_child_parent : GtkIconThemePrivate :=
  set_themes [theme_child; theme_parent] (set_themes_valid true priv_fresh).

(** The file name of the icon a search found. *)
Definition found_filename
    (r : result (option (GtkIconInfo * option (IconTheme * string))))
  : result (option string) :=
  found ← r; Ok (found ≫= fun x => i_filename (fst x)).

(** The installation of [fs_gnome_only] after /usr/share/icons/gnome was
    touched at the time [mtime]. *)
Definition fs_gnome_touched (mtime : Z) : FileSystem :=
  {| fs_stat_dir := fun path =>
       if String.eqb path "/usr/share/icons/gnome" then Some mtime
       else fs_stat_dir fs_gnome_only path;
     fs_read_dir := fs_read_dir fs_gnome_only;
     fs_key_file := fs_key_file fs_gnome_only;
     fs_icon_cache := fs_icon_cache fs_gnome_only |}.

(** The installation of [fs_gnome_only] after /usr/share/icons/hicolor,
    which was not there, was created with the modification time 0. *)
Definition fs_gnome_epoch : FileSystem :=
  {| fs_stat_dir := fun path =>
       if String.eqb path "/usr/share/icons/hicolor" then Some 0
       else fs_stat_dir fs_gnome_only path;
     fs_read_dir := fs_read_dir fs_gnome_only;
     fs_key_file := fs_key_file fs_gnome_only;
     fs_icon_cache := fs_icon_cache fs_gnome_only |}.

(** Thirty-three lookups of edit-cut, at the sizes 16 to 48, the raster of
    each of the first thirty-two released before the next lookup: the icon
    infos 0 to 31 are parked on the LRU list, which is full, and the icon
    info 32 is in use. *)
Definition ops_fill_lru : list theme_op :=
  flat_map (fun h => [OpChooseIcon 3 fs_gnome_only 0 ["edit-cut"]
                        (16 + Z.of_nat h) 1 0;
                      OpProxyDestroy h]) (seq 0 32)
  ++ [OpChooseIcon 3 fs_gnome_only 0 ["edit-cut"] 48 1 0].

(** ** Vocabulary of the symbolic memo list *)




(** Colours of a concrete run: a grey foreground, the same grey off by
    0.00005 on the red channel, and off by 0.0002. *)
Definition grey : GdkRGBA :=
  {| red := 0.5%float; green := 0.5%float; blue := 0.5%float;
     alpha := 1%float |}.

Definition grey_near : GdkRGBA :=
  {| red := 0x1.00068db8bac71p-1%float; green := 0.5%float;
     blue := 0.5%float; alpha := 1%float |}.

Definition grey_far : GdkRGBA :=
  {| red := 0x1.001a36e2eb1c4p-1%float; green := 0.5%float;
     blue := 0.5%float; alpha := 1%float |}.

(** A codec that succeeds, handing out a raster numbered after the length
    of the memo list it is called with. *)
Definition render_fresh (n : nat) (fg : GdkRGBA)
    (success_color warning_color error_color : option GdkRGBA)
  : option pixbuf := Some n.

(* ===================================================================== *)
(** * Part I, continued: the entry points around the engine               *)
(* ===================================================================== *)

(** ** Generic fallback names *)

(** The counting loop of [gtk_icon_theme_lookup_icon_for_scale]: one more
    for every dash of the name. *)
Fixpoint count_dashes (s : string) : nat :=
  match s with
  | EmptyString => O
  | String c s' =>
      if Ascii.eqb c "-"%char then S (count_dashes s') else count_dashes s'
  end.

(** The loop that fills [nonsymbolic_names[1 .. dashes]]: each entry is the
    previous one cut at its last dash, found with [strrchr] and overwritten
    with the terminating NUL.  The store through a NULL result of [strrchr]
    is the [Abort] result. *)
Fixpoint nonsymbolic_names_loop (dashes : nat) (previous : string)
  : result (list string) :=
  match dashes with
  | O => Ok []
  | S dashes' =>
      match strrchr_index previous "-"%char with
      | None => Abort
      | Some p =>
          let name := substring 0 p previous in
          rest ← nonsymbolic_names_loop dashes' name;
          Ok (name :: rest)
      end
  end.

(** The [names] array built under [GTK_ICON_LOOKUP_GENERIC_FALLBACK]. *)
Definition generic_fallback_names (icon_name : string) : result (list string) :=
  let is_symbolic := g_str_has_suffix icon_name "-symbolic" in
  let nonsymbolic_icon_name :=
    if is_symbolic
    then substring 0 (String.length icon_name - 9) icon_name
    else icon_name in
  let dashes := count_dashes nonsymbolic_icon_name in
  rest ← nonsymbolic_names_loop dashes nonsymbolic_icon_name;
  let nonsymbolic_names := nonsymbolic_icon_name :: rest in
  Ok (if is_symbolic
      then map (fun name => (name ++ "-symbolic")%string) nonsymbolic_names
           ++ nonsymbolic_names
      else nonsymbolic_names).

(** The bit of [GTK_ICON_LOOKUP_GENERIC_FALLBACK], declared in
    gtkicontheme.h like the other lookup flags. *)
Class FallbackFlagBit : Type := {
  GTK_ICON_LOOKUP_GENERIC_FALLBACK : Z
}.

Definition gtk3_fallback_bit : FallbackFlagBit := {|
  GTK_ICON_LOOKUP_GENERIC_FALLBACK := Z.shiftl 1 3
|}.

(** [gtk_icon_theme_lookup_icon_for_scale]; a failed [g_return_val_if_fail]
    returns NULL and leaves the icon theme alone. *)
Definition gtk_icon_theme_lookup_icon_for_scale
    {bits : LookupFlagBits} {fallback : FallbackFlagBit}
    (fuel : nat) (g : Builtins) (fs : FileSystem) (now : Z)
    (priv : GtkIconThemePrivate) (icon_name : string) (size scale flags : Z)
  : result (option handle * GtkIconThemePrivate) :=
  if negb (negb (has_bit flags GTK_ICON_LOOKUP_NO_SVG)
           || negb (has_bit flags GTK_ICON_LOOKUP_FORCE_SVG))
  then Ok (None, priv)
  else if negb (scale >=? 1) then Ok (None, priv)
  else if has_bit flags GTK_ICON_LOOKUP_GENERIC_FALLBACK then
    names ← generic_fallback_names icon_name;
    choose_icon fuel g fs now priv names size scale flags
  else choose_icon fuel g fs now priv [icon_name] size scale flags.

(** [gtk_icon_theme_lookup_icon]: the same at scale 1. *)
Definition gtk_icon_theme_lookup_icon
    {bits : LookupFlagBits} {fallback : FallbackFlagBit}
    (fuel : nat) (g : Builtins) (fs : FileSystem) (now : Z)
    (priv : GtkIconThemePrivate) (icon_name : string) (size flags : Z)
  : result (option handle * GtkIconThemePrivate) :=
  if negb (negb (has_bit flags GTK_ICON_LOOKUP_NO_SVG)
           || negb (has_bit flags GTK_ICON_LOOKUP_FORCE_SVG))
  then Ok (None, priv)
  else gtk_icon_theme_lookup_icon_for_scale fuel g fs now priv icon_name
         size 1 flags.

(** ** Registering built-in icons *)

(** [gtk_icon_theme_add_builtin_icon]: the table is created on first use and
    the new icon is prepended to the list stored under its name. *)
Definition gtk_icon_theme_add_builtin_icon (icon_name : string) (size : Z)
    (p : pixbuf) (g : Builtins) : Builtins :=
  let table := default ∅ (icon_theme_builtin_icons g) in
  let icons := default [] (table !! icon_name) in
  let default_icon := {| b_size := size; b_pixbuf := p |} in
  {| icon_theme_builtin_icons :=
       Some (<[icon_name := default_icon :: icons]> table);
     builtin_cache := builtin_cache g |}.

(** [gtk_icon_info_get_builtin_pixbuf]. *)
Definition gtk_icon_info_get_builtin_pixbuf (icon_info : GtkIconInfo)
  : option pixbuf :=
  match i_filename icon_info with
  | Some _ => None
  | None => i_cache_pixbuf icon_info
  end.

(** ** Vocabulary of the fallback names *)

(** [longer] is [shorter] followed by a dash and one more component that
    has no dash in it. *)
Definition drops_last_component (longer shorter : string) : Prop :=
  exists component,
    longer = (shorter ++ "-" ++ component)%string
    /\ count_dashes component = O.

(** Each name of the list is the one before it without its last
    dash-separated component. *)
Fixpoint fallback_chain (names : list string) : Prop :=
  match names with
  | longer :: ((shorter :: _) as rest) =>
      drops_last_component longer shorter /\ fallback_chain rest
  | _ => True
  end.

(** ** Vocabulary of the two caches *)

(** The [in_cache] mark of the icon info behind a handle, as a truth
    value. *)
Definition is_cached (priv : GtkIconThemePrivate) (h : handle) : bool :=
  default false (i_in_cache <$> heap priv !! h).

(** How the primary cache, the [in_cache] marks and the LRU list fit
    together: every entry of the cache is a marked icon info that carries
    the key it is stored under; every marked icon info is an entry; no key
    is stored twice; and the LRU list holds entries of the cache only. *)
Record cache_ok (priv : GtkIconThemePrivate) : Prop := {
  co_entries : forall key h,
    (key, h) ∈ info_cache priv ->
    exists info, heap priv !! h = Some info
                 /\ i_in_cache info = true /\ i_key info = Some key;
  co_marked : forall h, is_cached priv h = true -> h ∈ (info_cache priv).*2;
  co_keys : NoDup (info_cache priv).*1;
  co_lru : forall h, h ∈ info_cache_lru priv -> h ∈ (info_cache priv).*2
}.

(** A valid registry with the two themes Foo and Bar, after a first lookup
    of edit-cut at size 24. *)
Definition priv_after_lookup : result (option handle * GtkIconThemePrivate) :=
  @choose_icon gtk3_flag_bits 1 no_builtins fs_gnome_only 0 priv_child_parent
    ["edit-cut"] 24 1 0.

(** ** The search path *)

Definition gtk_icon_theme_get_search_path (priv : GtkIconThemePrivate)
  : list string :=
  search_path priv.

Definition gtk_icon_theme_append_search_path (path : string)
    (priv : GtkIconThemePrivate) : GtkIconThemePrivate :=
  do_theme_change (set_search_path (search_path priv ++ [path]) priv).

Definition gtk_icon_theme_prepend_search_path (path : string)
    (priv : GtkIconThemePrivate) : GtkIconThemePrivate :=
  do_theme_change (set_search_path (path :: search_path priv) priv).

(** ** Queries on the loaded themes *)

Section IconSizes.
(** The order in which [g_hash_table_foreach] visits the keys of a table;
    glib leaves it unspecified. *)
Variable g_hash_table_foreach_order : gset Z -> list Z.

(** The body of the two [for] loops of [gtk_icon_theme_get_icon_sizes] over
    directories; [sizes] is the set of keys of the hash table. *)
Definition add_dir_size (icon_name : string) (sizes : gset Z)
    (dir : IconThemeDir) : gset Z :=
  if negb (is_scalable dir) && bool_decide (d_size dir ∈ sizes) then sizes
  else
    let suffix := fst (theme_dir_get_icon_suffix dir icon_name) in
    if negb (suffix =? ICON_SUFFIX_NONE) then
      if suffix =? ICON_SUFFIX_SVG then {[ -1 ]} ∪ sizes
      else {[ d_size dir ]} ∪ sizes
    else sizes.

(** The keys of the table [sizes] when the loops are done.  [ensured] tells
    whether [_gtk_icon_theme_ensure_builtin_cache] has run in the process:
    the static list [builtin_dirs] is empty until then. *)
Definition icon_sizes (g : Builtins) (ensured : bool)
    (priv : GtkIconThemePrivate) (icon_name : string) : gset Z :=
  let sizes :=
    fold_left (fun sizes theme =>
                 fold_left (add_dir_size icon_name) (t_dirs theme) sizes)
              (themes priv) ∅ in
  let sizes :=
    fold_left (add_dir_size icon_name)
              (if ensured then builtin_dirs g else []) sizes in
  match icon_theme_builtin_icons g with
  | Some table =>
      fold_left (fun sizes icon => {[ b_size icon ]} ∪ sizes)
                (default [] (table !! icon_name)) sizes
  | None => sizes
  end.

(** [gtk_icon_theme_get_icon_sizes]: the zero-terminated array. *)
Definition gtk_icon_theme_get_icon_sizes (fuel : nat) (g : Builtins)
    (ensured : bool) (fs : FileSystem) (now : Z) (priv : GtkIconThemePrivate)
    (icon_name : string) : result (list Z * GtkIconThemePrivate) :=
  priv ← ensure_valid_themes fuel fs now priv;
  Ok (g_hash_table_foreach_order (icon_sizes g ensured priv icon_name) ++ [0],
      priv).

End IconSizes.

Section HasIcon.
(** [_gtk_icon_cache_has_icon] of gtkiconcache.c: whether the index lists
    the name at all. *)
Variable gtk_icon_cache_has_icon : gmap string (gmap string Z) -> string -> bool.

(** [gtk_icon_theme_has_icon]; [ensured] as above: [_builtin_cache] is NULL
    until [_gtk_icon_theme_ensure_builtin_cache] has run. *)
Definition gtk_icon_theme_has_icon (fuel : nat) (g : Builtins)
    (ensured : bool) (fs : FileSystem) (now : Z) (priv : GtkIconThemePrivate)
    (icon_name : string) : result (bool * GtkIconThemePrivate) :=
  priv ← ensure_valid_themes fuel fs now priv;
  Ok (if existsb (fun dir_mtime =>
                    match m_cache dir_mtime with
                    | Some cache => gtk_icon_cache_has_icon cache icon_name
                    | None => false
                    end) (dir_mtimes priv) then true
      else if bool_decide (icon_name ∈ all_icons priv) then true
      else if ensured && gtk_icon_cache_has_icon (builtin_cache g) icon_name
      then true
      else match icon_theme_builtin_icons g with
           | Some table => bool_decide (is_Some (table !! icon_name))
           | None => false
           end,
      priv).

End HasIcon.

(** The index lists a name when some sub-directory of the index holds it. *)
Definition index_lists_icon (cache : gmap string (gmap string Z))
    (icon_name : string) : bool :=
  bool_decide (map_Exists (fun _ icons => is_Some (icons !! icon_name)) cache).

(** ** Vocabulary of the loaded registry *)

(** The two file names of an unthemed icon are of the kinds their slots
    are for, and one of them is there. *)
Record unthemed_icon_ok (icon : UnthemedIcon) : Prop := {
  uo_svg : forall f, svg_filename icon = Some f ->
                     suffix_from_name f = ICON_SUFFIX_SVG;
  uo_no_svg : forall f, no_svg_filename icon = Some f ->
                        suffix_from_name f = ICON_SUFFIX_PNG
                        \/ suffix_from_name f = ICON_SUFFIX_XPM;
  uo_some : is_Some (svg_filename icon) \/ is_Some (no_svg_filename icon)
}.

(** A later record of the same tracked directory: the same path and
    modification time, and an index that was loaded stays. *)
Definition mtime_le (a b : IconThemeDirMtime) : Prop :=
  m_dir b = m_dir a /\ m_mtime b = m_mtime a
  /\ forall c, m_cache a = Some c -> m_cache b = Some c.

(** A theme directory sits right under a tracked directory that existed
    when it was recorded, and its icons are accounted for: through the index
    of that tracked directory, or, for a scanned directory, in the set of
    all icon names. *)
Definition dir_tracked_in (ds : list IconThemeDirMtime) (all : gset string)
    (d : IconThemeDir) : Prop :=
  exists dm,
    dm ∈ ds /\ m_mtime dm <> 0
    /\ d_dir d = Some (g_build_filename (m_dir dm) (d_subdir d))
    /\ match d_cache d with
       | Some icons =>
           exists c, m_cache dm = Some c
                     /\ icons = default ∅ (c !! d_subdir d)
       | None => forall name, is_Some (d_icons d !! name) -> name ∈ all
       end.

Definition dir_tracked (priv : GtkIconThemePrivate) (d : IconThemeDir) : Prop :=
  dir_tracked_in (dir_mtimes priv) (all_icons priv) d.

Definition themes_tracked (priv : GtkIconThemePrivate) : Prop :=
  forall theme d, theme ∈ themes priv -> d ∈ t_dirs theme -> dir_tracked priv d.

(** The tracked directories and the set of icon names only grow. *)
Definition tracking_grows (p q : GtkIconThemePrivate) : Prop :=
  (forall a, a ∈ dir_mtimes p -> exists b, b ∈ dir_mtimes q /\ mtime_le a b)
  /\ all_icons p ⊆ all_icons q.

(** A file system with the theme Foo under /usr/share/icons, whose only
    directory 24x24 holds edit-cut.png, and a loose icon in the root
    itself. *)
Definition foo_index : ThemeFile :=
  {| tf_name := Some "Foo"; tf_directories := Some ["24x24"];
     tf_scaled_directories := None; tf_comment := None; tf_example := None;
     tf_inherits := None;
     tf_groups := {["24x24" := group_24]} |}.

Definition fs_foo : FileSystem :=
  {| fs_stat_dir := fun path =>
       if existsb (String.eqb path)
            ["/usr/share/icons"; "/usr/share/icons/Foo";
             "/usr/share/icons/Foo/24x24"]
       then Some 1000 else None;
     fs_read_dir := fun path =>
       if String.eqb path "/usr/share/icons/Foo/24x24"
       then Some ["edit-cut.png"]
       else if String.eqb path "/usr/share/icons"
       then Some ["Foo"; "logo.svg"; "logo.xpm"; "logo.png"]
       else None;
     fs_key_file := fun path =>
       if String.eqb path "/usr/share/icons/Foo/index.theme"
       then Some (Some foo_index) else None;
     fs_icon_cache := fun _ => None |}.

Definition priv_foo_current : GtkIconThemePrivate :=
  set_current_theme (Some "Foo") priv_fresh.

(** ** Vocabulary of the further properties *)

(** The formats a file name can be classified as. *)
Definition is_format (bit : Z) : Prop :=
  bit = ICON_SUFFIX_XPM \/ bit = ICON_SUFFIX_SVG \/ bit = ICON_SUFFIX_PNG.

(** The running best is a directory that has been scanned and holds the
    icon, recorded with its own distance. *)
Definition best_among (icon_name : string) (size scale : Z) (allow_svg : bool)
    (seen : list IconThemeDir) (best : best_match) : Prop :=
  match best with
  | None => forall d, In d seen -> ~ is_candidate icon_name allow_svg d
  | Some (m, dm) =>
      In m seen /\ is_candidate icon_name allow_svg m
      /\ theme_dir_size_difference m size scale = Ok dm
  end.

(** The running best is an exact match, or a directory at least as large as
    the request. *)
Definition exact_or_larger (size : Z) (best : best_match) : Prop :=
  match best with
  | Some (m, dm) => dm = 0 \/ d_size m >= size
  | None => False
  end.

Definition distance_nonneg (best : best_match) : Prop :=
  match best with
  | Some (_, dm) => 0 <= dm
  | None => True
  end.

(** The invariant of the unthemed table while it is filled: every entry is
    well formed and its name is in the set of all icon names. *)
Definition unthemed_table_ok (table : gmap string UnthemedIcon)
    (all : gset string) : Prop :=
  forall name icon, table !! name = Some icon ->
                    unthemed_icon_ok icon /\ name ∈ all.

(** The directory holds the icon as an SVG file only; as something else
    than an SVG file only. *)
Definition holds_svg_only (icon_name : string) (d : IconThemeDir) : Prop :=
  fst (theme_dir_get_icon_suffix d icon_name) = ICON_SUFFIX_SVG.

Definition holds_raster (icon_name : string) (d : IconThemeDir) : Prop :=
  fst (theme_dir_get_icon_suffix d icon_name) <> ICON_SUFFIX_NONE
  /\ fst (theme_dir_get_icon_suffix d icon_name) <> ICON_SUFFIX_SVG.

(** The entry has a file for an image file of format [suffix]: an SVG file
    for an SVG file, and for a PNG or XPM file one of that format or of the
    one that takes precedence over it. *)
Definition slot_covers (suffix : Z) (icon : UnthemedIcon) : Prop :=
  if suffix =? ICON_SUFFIX_SVG then is_Some (svg_filename icon)
  else exists f, no_svg_filename icon = Some f /\ suffix <= suffix_from_name f.

(** The image file [file] was taken up as an unthemed icon. *)
Definition file_loaded (table : gmap string UnthemedIcon) (file : string)
  : Prop :=
  exists icon, table !! strip_suffix file = Some icon
               /\ slot_covers (suffix_from_name file) icon.

(** What [insert_theme] needs to keep a theme in the list: a descriptor
    that parses and has the key Directories; without any descriptor, only
    the default theme is kept. *)
Definition theme_usable (fs : FileSystem) (path : list string)
    (theme_name : string) : Prop :=
  match find_theme_file fs theme_name path with
  | Some theme_file => is_Some (tf_directories theme_file)
  | None => theme_name = DEFAULT_THEME_NAME
  end.

(** Themes are added in front, and only usable ones. *)
Definition usable_growth (fs : FileSystem) (p q : GtkIconThemePrivate)
  : Prop :=
  search_path q = search_path p
  /\ exists added,
       theme_names q = added ++ theme_names p
       /\ Forall (theme_usable fs (search_path p)) added.

(** The parameters of a theme directory are those of its group in the
    descriptor: the size is the key Size, a missing MinSize or MaxSize is
    the size, a missing Threshold is 2, a missing Scale is 1, and the type
    is Threshold unless the key Type is "Fixed" or "Scalable". *)
Definition dir_of_group (theme_file : ThemeFile) (d : IconThemeDir) : Prop :=
  exists grp,
    tf_groups theme_file !! d_subdir d = Some grp
    /\ g_size grp = Some (d_size d)
    /\ d_min_size d = default (d_size d) (g_min_size grp)
    /\ d_max_size d = default (d_size d) (g_max_size grp)
    /\ d_threshold d = default 2 (g_threshold grp)
    /\ d_scale d = default 1 (g_scale grp)
    /\ (d_type d = ICON_THEME_DIR_FIXED <-> g_type grp = Some "Fixed")
    /\ (d_type d = ICON_THEME_DIR_SCALABLE <-> g_type grp = Some "Scalable")
    /\ d_type d <> ICON_THEME_DIR_UNTHEMED.

(** The sub-directories a descriptor lists. *)
Definition listed_subdirs (theme_file : ThemeFile) : list string :=
  default [] (tf_directories theme_file)
  ++ default [] (tf_scaled_directories theme_file).

(** A directory of the theme [theme_name] was loaded from the descriptor of
    that theme and sits under a tracked directory. *)
Definition dir_loaded (fs : FileSystem) (priv : GtkIconThemePrivate)
    (theme_name : string) (d : IconThemeDir) : Prop :=
  dir_tracked priv d
  /\ exists theme_file,
       find_theme_file fs theme_name (search_path priv) = Some theme_file
       /\ d_subdir d ∈ listed_subdirs theme_file
       /\ dir_of_group theme_file d.

Definition themes_loaded (fs : FileSystem) (priv : GtkIconThemePrivate)
  : Prop :=
  forall theme d, theme ∈ themes priv -> d ∈ t_dirs theme ->
                  dir_loaded fs priv (t_name theme) d.

(** ** The registry along the life of an icon theme *)

(** The part of the state that holds what was loaded. *)
Definition registry_of (priv : GtkIconThemePrivate)
  : list IconTheme * list IconThemeDirMtime * gset string
    * gmap string UnthemedIcon * bool :=
  (themes priv, dir_mtimes priv, all_icons priv, unthemed_icons priv,
   themes_valid priv).

(** The invariant of the registry: an invalid registry has no themes, the
    directories of the themes are tracked, and the unthemed icons are in the
    set of all icon names. *)
Record registry_inv (priv : GtkIconThemePrivate) : Prop := {
  ri_invalid : themes_valid priv = false -> themes priv = [];
  ri_tracked : themes_tracked priv;
  ri_unthemed : forall name, is_Some (unthemed_icons priv !! name) ->
                             name ∈ all_icons priv
}.

(** The installation of [fs_foo] with a descriptor for the default theme
    as well, which lists 24x24 although /usr/share/icons/hicolor has no
    such directory. *)
Definition hicolor_index : ThemeFile :=
  {| tf_name := Some "Hicolor"; tf_directories := Some ["24x24"];
     tf_scaled_directories := None; tf_comment := None; tf_example := None;
     tf_inherits := None;
     tf_groups := {["24x24" := group_24]} |}.

Definition fs_foo_hicolor : FileSystem :=
  {| fs_stat_dir := fun path =>
       if existsb (String.eqb path)
            ["/usr/share/icons"; "/usr/share/icons/Foo";
             "/usr/share/icons/Foo/24x24"; "/usr/share/icons/hicolor"]
       then Some 1000 else None;
     fs_read_dir := fs_read_dir fs_foo;
     fs_key_file := fun path =>
       if String.eqb path "/usr/share/icons/hicolor/index.theme"
       then Some (Some hicolor_index) else fs_key_file fs_foo path;
     fs_icon_cache := fun _ => None |}.

(* ===================================================================== *)
(** * Part II: properties                                                 *)
(* ===================================================================== *)

(** ** C integers *)

Lemma wrap_small (z : Z) : in_int z -> wrap z = z.
Proof.
  unfold in_int, G_MININT, G_MAXINT, wrap. intros Hz.
  rewrite Z.mod_small; lia.
Qed.

Lemma wrap_in_int (z : Z) : in_int (wrap z).
Proof.
  unfold in_int, G_MININT, G_MAXINT, wrap.
  pose proof (Z.mod_pos_bound (z + 2 ^ 31) (2 ^ 32)). lia.
Qed.

(** ** DirectoryMatcher: the Scalable distance *)

(** C1 (code defect).  For the Scalable directory with minSize 16, maxSize
    32 and scale 1 and the request size 20 at scale 2, the scale-adjusted
    requested size 40 lies above [maxSize * dirScale = 32], so the distance
    the specification describes is the excess 8; [theme_dir_size_difference]
    compares the unscaled [size] against the upper bound and returns 0. *)
Theorem scalable_upper_bound_ignores_scale :
  theme_dir_size_difference scalable_16_32 20 2 = Ok 0
  /\ spec_scalable_distance scalable_16_32 20 2 = 8
  /\ ~ (d_min_size scalable_16_32 * d_scale scalable_16_32 <= 20 * 2
        <= d_max_size scalable_16_32 * d_scale scalable_16_32).
Proof.
  split; [reflexivity | split; [reflexivity |]].
  cbn. lia.
Qed.

(** ** Request keys *)

Lemma icon_names_equal_eq (a b : list string) :
  icon_names_equal a b = true <-> a = b.
Proof.
  revert b. induction a as [|x a IH]; intros [|y b]; simpl; try (split; congruence).
  destruct (String.eqb_spec x y) as [->|Hne]; simpl.
  - rewrite IH. split; congruence.
  - split; congruence.
Qed.

(** C8 (as amended).  Two request keys compare equal exactly when they have
    the same flags, the same size, the same scale and the same sequence of
    candidate names: same length and equal names at every position. *)
Theorem icon_info_key_equal_iff (a b : IconInfoKey) :
  icon_info_key_equal a b = true
  <-> k_flags a = k_flags b /\ k_size a = k_size b /\ k_scale a = k_scale b
      /\ k_icon_names a = k_icon_names b.
Proof.
  unfold icon_info_key_equal.
  destruct (Z.eqb_spec (k_size a) (k_size b)) as [Hs|Hs]; simpl;
    [| split; [congruence | tauto]].
  destruct (Z.eqb_spec (k_scale a) (k_scale b)) as [Hc|Hc]; simpl;
    [| split; [congruence | tauto]].
  destruct (Z.eqb_spec (k_flags a) (k_flags b)) as [Hf|Hf]; simpl;
    [| split; [congruence | tauto]].
  rewrite icon_names_equal_eq. tauto.
Qed.

(** C8, counterexample.  The keys for [["edit-cut"]] and
    [["edit-cut"; "edit"]] have the same flags, size and scale, and their
    name lists agree at every position of the shorter one, yet they do not
    compare equal: the comparison also requires both lists to end at the
    same position. *)
Lemma prefix_keys_not_equal :
  spec_key_equal key_short key_long
  /\ icon_info_key_equal key_short key_long = false.
Proof.
  split; [| reflexivity].
  repeat split; try reflexivity.
  intros i x y Hx Hy. destruct i as [|i]; simpl in *.
  - congruence.
  - destruct i; discriminate.
Qed.

(** ** SuffixClassifier: the format chosen inside the matched directory *)

Lemma string_app_inv_head (a b c : string) :
  (a ++ b)%string = (a ++ c)%string -> b = c.
Proof.
  induction a as [|ch a IH]; simpl; [tauto |].
  intros Heq. injection Heq as Heq. auto.
Qed.

Lemma g_build_filename_ext_inj (path icon_name e1 e2 : string) :
  g_build_filename path (icon_name ++ e1)%string
  = g_build_filename path (icon_name ++ e2)%string -> e1 = e2.
Proof.
  unfold g_build_filename. intros Heq.
  apply string_app_inv_head in Heq. apply string_app_inv_head in Heq.
  now apply string_app_inv_head in Heq.
Qed.

Lemma icon_info_from_dir_filename (dir : IconThemeDir) (path icon_name : string)
    (allow_svg : bool) :
  d_dir dir = Some path ->
  result_filename (icon_info_from_dir dir icon_name allow_svg)
  = (let suffix := best_suffix (fst (theme_dir_get_icon_suffix dir icon_name))
                               allow_svg in
     if suffix =? ICON_SUFFIX_NONE then Abort
     else ext ← string_from_suffix suffix;
          Ok (Some (g_build_filename path (icon_name ++ ext)%string))).
Proof.
  intros Hdir. unfold icon_info_from_dir, result_filename. rewrite Hdir. cbv zeta.
  destruct (best_suffix _ _ =? ICON_SUFFIX_NONE); [reflexivity |].
  destruct (string_from_suffix _); reflexivity.
Qed.

Lemma allow_svg_no_svg (bits : LookupFlagBits) (supports_svg : bool) (flags : Z) :
  has_bit flags GTK_ICON_LOOKUP_NO_SVG = true ->
  allow_svg_of_flags supports_svg flags = false.
Proof. unfold allow_svg_of_flags. now intros ->. Qed.

Lemma allow_svg_force_svg (bits : LookupFlagBits) (supports_svg : bool)
    (flags : Z) :
  has_bit flags GTK_ICON_LOOKUP_NO_SVG = false ->
  has_bit flags GTK_ICON_LOOKUP_FORCE_SVG = true ->
  allow_svg_of_flags supports_svg flags = true.
Proof. unfold allow_svg_of_flags. now intros -> ->. Qed.

(** C10.  Inside the matched directory the file format follows the fixed
    priority PNG, then SVG, then XPM: a PNG file is chosen whenever there is
    one, whatever the lookup flags say about vector formats; an SVG file is
    chosen only when there is no PNG and SVG loading is allowed; with SVG
    not allowed or absent, an XPM file is the fallback.  The
    suppress-vector-formats flag disallows SVG, and the force-vector-formats
    flag allows it when the suppress flag is not set. *)
Theorem format_priority_png_svg_xpm (bits : LookupFlagBits)
    (dir : IconThemeDir) (path icon_name : string) (supports_svg : bool)
    (flags : Z) :
  d_dir dir = Some path ->
  let mask := fst (theme_dir_get_icon_suffix dir icon_name) in
  let allow_svg := allow_svg_of_flags supports_svg flags in
  let chosen := result_filename (icon_info_from_dir dir icon_name allow_svg) in
  let file ext := Ok (Some (g_build_filename path (icon_name ++ ext)%string)) in
  (has_bit mask ICON_SUFFIX_PNG = true -> chosen = file ".png")
  /\ (has_bit mask ICON_SUFFIX_PNG = false ->
      has_bit mask ICON_SUFFIX_SVG = true ->
      allow_svg = true -> chosen = file ".svg")
  /\ (has_bit mask ICON_SUFFIX_PNG = false ->
      has_bit mask ICON_SUFFIX_XPM = true ->
      allow_svg = false \/ has_bit mask ICON_SUFFIX_SVG = false ->
      chosen = file ".xpm")
  /\ (chosen = file ".svg" ->
      allow_svg = true /\ has_bit mask ICON_SUFFIX_PNG = false)
  /\ (has_bit flags GTK_ICON_LOOKUP_NO_SVG = true -> allow_svg = false)
  /\ (has_bit flags GTK_ICON_LOOKUP_NO_SVG = false ->
      has_bit flags GTK_ICON_LOOKUP_FORCE_SVG = true -> allow_svg = true).
Proof.
  intros Hdir mask allow_svg chosen file.
  assert (Hchosen : chosen
    = (let suffix := best_suffix mask allow_svg in
       if suffix =? ICON_SUFFIX_NONE then Abort
       else ext ← string_from_suffix suffix; file ext)).
  { subst chosen. now rewrite (icon_info_from_dir_filename _ path). }
  assert (Hinj : forall e1 e2, file e1 = file e2 -> e1 = e2).
  { intros e1 e2 He. injection He as He.
    now apply g_build_filename_ext_inj in He. }
  rewrite Hchosen. unfold best_suffix. cbv zeta.
  refine (conj _ (conj _ (conj _ (conj _ (conj _ _))))).
  - now intros ->.
  - now intros -> -> ->.
  - intros -> Hxpm [-> | ->]; simpl; rewrite ?andb_false_r, Hxpm; reflexivity.
  - destruct (has_bit mask ICON_SUFFIX_PNG); simpl in *.
    + intros He. apply Hinj in He. discriminate.
    + destruct allow_svg; [split; reflexivity |]. simpl.
      destruct (has_bit mask ICON_SUFFIX_XPM); simpl; intros He;
        [apply Hinj in He |]; discriminate.
  - apply allow_svg_no_svg.
  - apply allow_svg_force_svg.
Qed.

(** C10 at a concrete directory that holds edit-cut in all three formats,
    looked up with the force-vector-formats flag: the PNG file is chosen. *)
Lemma format_priority_png_svg_xpm_witness :
  d_dir dir_png_svg_xpm = Some "/usr/share/icons/Foo/24x24"
  /\ result_filename
       (icon_info_from_dir dir_png_svg_xpm "edit-cut"
          (@allow_svg_of_flags gtk3_flag_bits true 2))
     = Ok (Some "/usr/share/icons/Foo/24x24/edit-cut.png").
Proof.
  split; [reflexivity |].
  apply (format_priority_png_svg_xpm gtk3_flag_bits dir_png_svg_xpm
           "/usr/share/icons/Foo/24x24" "edit-cut" true 2 eq_refl).
  vm_compute. reflexivity.
Defined.

(** With only an SVG and an XPM file in the directory: the SVG file when SVG
    loading is allowed, the XPM file under the suppress-vector-formats
    flag. *)
Example svg_only_when_allowed :
  result_filename
    (icon_info_from_dir dir_svg_xpm "edit-cut"
       (@allow_svg_of_flags gtk3_flag_bits true 0))
  = Ok (Some "/usr/share/icons/Foo/24x24/edit-cut.svg")
  /\ result_filename
       (icon_info_from_dir dir_svg_xpm "edit-cut"
          (@allow_svg_of_flags gtk3_flag_bits true 1))
     = Ok (Some "/usr/share/icons/Foo/24x24/edit-cut.xpm").
Proof. split; vm_compute; reflexivity. Qed.

(** ** DirectoryMatcher: arithmetic without overflow *)

Ltac int_range := unfold in_int, G_MININT, G_MAXINT, small in *; nia.

Lemma small_product (a b : Z) :
  small a -> 1 <= b <= 32767 -> 0 <= a * b <= 32767 * 32767.
Proof. intros Ha Hb. int_range. Qed.

Lemma int_mul_exact (a b : Z) : in_int (a * b) -> int_mul a b = a * b.
Proof. apply wrap_small. Qed.

Lemma int_sub_exact (a b : Z) : in_int (a - b) -> int_sub a b = a - b.
Proof. apply wrap_small. Qed.

Lemma int_add_exact (a b : Z) : in_int (a + b) -> int_add a b = a + b.
Proof. apply wrap_small. Qed.

Lemma int_abs_exact (a : Z) : in_int (Z.abs a) -> int_abs a = Z.abs a.
Proof. apply wrap_small. Qed.

Lemma nominal_difference_small (dir : IconThemeDir) (size scale : Z) :
  small_request size scale -> themed_dir dir ->
  nominal_difference dir size scale
  = Z.abs (size * scale - d_size dir * d_scale dir).
Proof.
  intros [Hs Hc] Hd. destruct Hd as [_ Hsz _ _ _ Hsc].
  pose proof (small_product _ _ Hs Hc).
  pose proof (small_product _ _ Hsz Hsc).
  unfold nominal_difference.
  rewrite !int_mul_exact by int_range.
  rewrite int_sub_exact by int_range. apply int_abs_exact. int_range.
Qed.

(** On small inputs the distance is computed without overflow, is defined
    for every themed directory and is never negative. *)
Lemma theme_dir_size_difference_nonneg (dir : IconThemeDir) (size scale : Z) :
  small_request size scale -> themed_dir dir ->
  exists difference,
    theme_dir_size_difference dir size scale = Ok difference /\ 0 <= difference.
Proof.
  intros [Hs Hc] Hd. destruct Hd as [Hty Hsz Hmin Hmax Hth Hsc].
  pose proof (small_product _ _ Hs Hc) as Hp.
  pose proof (small_product _ _ Hsz Hsc) as Hq.
  pose proof (small_product _ _ Hmin Hsc) as Hqmin.
  pose proof (small_product _ _ Hmax Hsc) as Hqmax.
  unfold theme_dir_size_difference.
  rewrite (int_mul_exact size scale) by int_range.
  destruct (d_type dir) eqn:Ety; [| | | congruence].
  - eexists; split; [reflexivity |].
    rewrite int_mul_exact by int_range.
    rewrite int_sub_exact by int_range. rewrite int_abs_exact by int_range. lia.
  - rewrite !int_mul_exact by int_range.
    destruct (Z.ltb_spec (size * scale) (d_min_size dir * d_scale dir)).
    + eexists; split; [reflexivity |]. rewrite int_sub_exact by int_range. lia.
    + destruct (size >? d_max_size dir * d_scale dir) eqn:Hgt.
      * eexists; split; [reflexivity |]. rewrite int_sub_exact by int_range.
        apply Z.gtb_lt in Hgt. int_range.
      * eexists; split; [reflexivity | lia].
  - rewrite int_sub_exact, int_add_exact by int_range.
    rewrite !int_mul_exact by int_range.
    destruct (Z.ltb_spec (size * scale)
                ((d_size dir - d_threshold dir) * d_scale dir)).
    + eexists; split; [reflexivity |]. rewrite int_sub_exact by int_range. lia.
    + destruct (size * scale >? (d_size dir + d_threshold dir) * d_scale dir)
        eqn:Hgt.
      * eexists; split; [reflexivity |]. apply Z.gtb_lt in Hgt.
        rewrite int_sub_exact by int_range. lia.
      * eexists; split; [reflexivity | lia].
Qed.

(** At scale 1 the Scalable distance is the one the specification
    describes: the two upper-bound tests coincide. *)
Lemma scalable_distance_at_scale_1 (dir : IconThemeDir) (size : Z) :
  small size -> themed_dir dir -> d_type dir = ICON_THEME_DIR_SCALABLE ->
  theme_dir_size_difference dir size 1
  = Ok (spec_scalable_distance dir size 1).
Proof.
  intros Hs Hd Hty. destruct Hd as [_ Hsz Hmin Hmax Hth Hsc].
  pose proof (small_product _ _ Hmin Hsc) as Hqmin.
  pose proof (small_product _ _ Hmax Hsc) as Hqmax.
  unfold theme_dir_size_difference, spec_scalable_distance. rewrite Hty.
  rewrite !int_mul_exact by int_range. rewrite Z.mul_1_r.
  destruct (size <? d_min_size dir * d_scale dir) eqn:Hlo.
  - apply Z.ltb_lt in Hlo. now rewrite int_sub_exact by int_range.
  - apply Z.ltb_ge in Hlo.
    destruct (size >? d_max_size dir * d_scale dir) eqn:Hhi; [| reflexivity].
    apply Z.gtb_lt in Hhi. now rewrite int_sub_exact by int_range.
Qed.

(** ** DirectoryMatcher: ties *)

Lemma tail_of_tie (a b : IconThemeDir) (size scale : Z) :
  (d_scale a = scale <-> d_scale b = scale) ->
  is_scalable a = is_scalable b ->
  nominal_difference a size scale = nominal_difference b size scale ->
  (if (d_scale b =? scale) && negb (d_scale a =? scale) then true
   else if negb (d_scale b =? scale) && (d_scale a =? scale) then false
   else if negb (is_scalable b) && is_scalable a then true
   else if is_scalable b && negb (is_scalable a) then false
   else nominal_difference b size scale <=? nominal_difference a size scale)
  = true.
Proof.
  intros Hscale Hscalable Hnominal.
  destruct (Z.eqb_spec (d_scale a) scale) as [Ha|Ha],
           (Z.eqb_spec (d_scale b) scale) as [Hb|Hb]; try tauto; simpl;
    rewrite Hscalable; destruct (is_scalable b); simpl;
    rewrite Hnominal; apply Z.leb_refl.
Qed.

(** C3 (as amended).  When the running best [a] and a candidate [b] seen
    after it tie on every rule of the order and have the same nominal
    difference, the comparison answers [true] for [b]: the directory seen
    later replaces the running best, and it is the final match when it is
    the last directory of the scan. *)
Theorem later_directory_wins_ties (icon_name : string) (size scale : Z)
    (allow_svg : bool) (a b : IconThemeDir) (difference_a difference_b : Z) :
  is_candidate icon_name allow_svg b ->
  theme_dir_size_difference b size scale = Ok difference_b ->
  ties a difference_a b difference_b size scale ->
  compare_dir_matches b difference_b a difference_a size scale = true
  /\ scan_step icon_name size scale allow_svg (Some (a, difference_a)) b
     = Ok (Some (b, difference_b))
  /\ scan_dirs icon_name size scale allow_svg [b] (Some (a, difference_a))
     = Ok (Some (b, difference_b)).
Proof.
  intros Hcand Hdiff [Hexact Hdown Hdist Hscale Hscalable Hnominal].
  assert (Hcmp : compare_dir_matches b difference_b a difference_a size scale
                 = true).
  { unfold compare_dir_matches. fold (nominal_difference a size scale).
    fold (nominal_difference b size scale).
    pose proof (tail_of_tie a b size scale Hscale Hscalable Hnominal) as Htail.
    destruct (Z.eqb_spec difference_b 0) as [Hb0|Hb0].
    - destruct (Z.eqb_spec difference_a 0) as [Ha0|Ha0]; [| reflexivity].
      simpl. exact Htail.
    - rewrite !Z.geb_leb, Z.gtb_ltb, Hdist, Z.ltb_irrefl.
      destruct (Z.leb_spec size (d_size b)), (Z.ltb_spec (d_size a) size),
               (Z.ltb_spec (d_size b) size), (Z.leb_spec size (d_size a));
        simpl; try lia; exact Htail. }
  assert (Hstep : scan_step icon_name size scale allow_svg
                    (Some (a, difference_a)) b = Ok (Some (b, difference_b))).
  { unfold scan_step. unfold is_candidate in Hcand.
    destruct (Z.eqb_spec (best_suffix (fst (theme_dir_get_icon_suffix b icon_name))
                            allow_svg) ICON_SUFFIX_NONE) as [He|He];
      [contradiction |].
    simpl. rewrite Hdiff. simpl. now rewrite Hcmp. }
  split; [exact Hcmp | split; [exact Hstep |]].
  simpl. now rewrite Hstep.
Qed.

Lemma is_candidate_png (dir : IconThemeDir) :
  d_cache dir = None -> d_icons dir !! "edit-cut" = Some ICON_SUFFIX_PNG ->
  forall allow_svg, is_candidate "edit-cut" allow_svg dir.
Proof.
  intros Hc Hi allow_svg. unfold is_candidate, theme_dir_get_icon_suffix.
  rewrite Hc, Hi. simpl. discriminate.
Qed.

Lemma ties_fixed_24 : ties fixed_24 0 fixed_24_home 0 24 1.
Proof. split; try reflexivity; cbn; lia. Qed.

(** C3 at the two directories that declare size 24 for the same theme under
    two search-path roots: the one scanned second is the match. *)
Lemma later_directory_wins_ties_witness :
  (is_candidate "edit-cut" true fixed_24_home
   /\ theme_dir_size_difference fixed_24_home 24 1 = Ok 0
   /\ ties fixed_24 0 fixed_24_home 0 24 1)
  /\ scan_dirs "edit-cut" 24 1 true [fixed_24_home] (Some (fixed_24, 0))
     = Ok (Some (fixed_24_home, 0)).
Proof.
  assert (Hc : is_candidate "edit-cut" true fixed_24_home)
    by (apply is_candidate_png; reflexivity).
  assert (Hd : theme_dir_size_difference fixed_24_home 24 1 = Ok 0)
    by reflexivity.
  split; [split; [exact Hc | split; [exact Hd | exact ties_fixed_24]] |].
  apply (later_directory_wins_ties "edit-cut" 24 1 true fixed_24 fixed_24_home
           0 0 Hc Hd ties_fixed_24).
Defined.

(** C3, counterexample.  The directories [fixed_24] and [fixed_24_home] tie
    on every rule and have the same nominal difference; scanned in this
    order, the match is [fixed_24_home], the directory seen later, and not
    the one seen earlier. *)
Lemma earlier_directory_loses_tie :
  ties fixed_24 0 fixed_24_home 0 24 1
  /\ scan_dirs "edit-cut" 24 1 true [fixed_24; fixed_24_home] None
     = Ok (Some (fixed_24_home, 0))
  /\ fixed_24 <> fixed_24_home.
Proof.
  split; [exact ties_fixed_24 | split].
  - vm_compute. reflexivity.
  - intros Heq. apply (f_equal d_dir) in Heq. discriminate.
Qed.

(** ** DirectoryMatcher: an exact nominal match *)

Lemma is_scalable_false (dir : IconThemeDir) :
  d_type dir <> ICON_THEME_DIR_SCALABLE -> is_scalable dir = false.
Proof. intros H. unfold is_scalable. now apply bool_decide_eq_false. Qed.

Lemma nominal_difference_exact (dir : IconThemeDir) (size scale : Z) :
  d_size dir = size -> d_scale dir = scale ->
  nominal_difference dir size scale = 0.
Proof.
  intros Hsize Hscale. unfold nominal_difference, int_sub.
  now rewrite Hsize, Hscale, Z.sub_diag.
Qed.

(** A directory with the requested nominal size and scale beats whatever
    the running best is. *)
Lemma compare_exact_nominal_wins (f m : IconThemeDir) (dm size scale : Z) :
  small_request size scale -> themed_dir m -> exact_nominal size scale f ->
  compare_dir_matches f 0 m dm size scale = true.
Proof.
  intros Hreq Hm (Hsize & Hscale & Hty).
  pose proof (nominal_difference_small m size scale Hreq Hm) as Hnm.
  pose proof (nominal_difference_exact f size scale Hsize Hscale) as Hnf.
  unfold compare_dir_matches. fold (nominal_difference f size scale).
  fold (nominal_difference m size scale).
  rewrite Hnf, Hnm, (is_scalable_false f Hty). simpl.
  destruct (dm =? 0); simpl; [| reflexivity].
  rewrite Hscale, Z.eqb_refl. simpl.
  destruct (d_scale m =? scale); simpl; [| reflexivity].
  destruct (is_scalable m); simpl; [reflexivity |].
  apply Z.leb_le. lia.
Qed.

(** Once the running best has the requested nominal size and scale, only a
    directory of the same kind can replace it. *)
Lemma compare_keeps_exact_nominal (d m : IconThemeDir) (dd size scale : Z) :
  small_request size scale -> themed_dir d -> exact_nominal size scale m ->
  0 <= dd ->
  compare_dir_matches d dd m 0 size scale = true ->
  dd = 0 /\ exact_nominal size scale d.
Proof.
  intros Hreq Hd (Hsize & Hscale & Hty) Hdd.
  pose proof (nominal_difference_small d size scale Hreq Hd) as Hnd.
  pose proof (nominal_difference_exact m size scale Hsize Hscale) as Hnm.
  destruct Hreq as [Hs Hc].
  unfold compare_dir_matches. fold (nominal_difference d size scale).
  fold (nominal_difference m size scale).
  rewrite Hnm, Hnd, (is_scalable_false m Hty), Hscale, Hsize, !Z.eqb_refl.
  rewrite !Z.geb_leb, Z.gtb_ltb, Z.ltb_irrefl, Z.leb_refl. simpl.
  rewrite !andb_false_r, !andb_true_r.
  destruct (Z.eqb_spec dd 0) as [Hz|Hz].
  - destruct (Z.eqb_spec (d_scale d) scale) as [Hds|Hds]; simpl;
      [| discriminate].
    destruct (is_scalable d) eqn:Hsc; simpl; [discriminate |].
    intros Hle. apply Z.leb_le in Hle.
    split; [exact Hz |]. unfold exact_nominal.
    assert (Hty' : d_type d <> ICON_THEME_DIR_SCALABLE).
    { intros Ht. unfold is_scalable in Hsc.
      apply bool_decide_eq_false in Hsc. contradiction. }
    split; [| split; [exact Hds | exact Hty']].
    rewrite Hds in Hle. nia.
  - destruct (Z.ltb_spec (d_size d) size); simpl; [discriminate |].
    destruct (Z.ltb_spec dd 0); [lia |].
    destruct (Z.ltb_spec 0 dd); [discriminate | lia].
Qed.

(** One step of the scan on a themed directory never aborts: the running
    best is kept or replaced by the directory, with a distance that is not
    negative. *)
Lemma scan_step_themed (icon_name : string) (size scale : Z) (allow_svg : bool)
    (best : best_match) (d : IconThemeDir) :
  small_request size scale -> themed_dir d ->
  scan_step icon_name size scale allow_svg best d = Ok best
  \/ exists dd, 0 <= dd /\ is_candidate icon_name allow_svg d
       /\ theme_dir_size_difference d size scale = Ok dd
       /\ scan_step icon_name size scale allow_svg best d = Ok (Some (d, dd))
       /\ match best with
          | Some (m, dm) => compare_dir_matches d dd m dm size scale = true
          | None => True
          end.
Proof.
  intros Hreq Hd. unfold scan_step.
  destruct (Z.eqb_spec (best_suffix (fst (theme_dir_get_icon_suffix d icon_name))
                          allow_svg) ICON_SUFFIX_NONE) as [He|He]; simpl;
    [now left |].
  destruct (theme_dir_size_difference_nonneg d size scale Hreq Hd)
    as (dd & Hdd & Hnn).
  rewrite Hdd. simpl.
  destruct best as [[m dm]|].
  - destruct (compare_dir_matches d dd m dm size scale) eqn:Hcmp;
      [right | now left].
    exists dd. repeat split; auto.
  - right. exists dd. repeat split; auto.
Qed.

Lemma scan_dirs_keeps_exact_nominal (icon_name : string) (size scale : Z)
    (allow_svg : bool) (dirs : list IconThemeDir) :
  small_request size scale -> Forall themed_dir dirs ->
  forall m, exact_nominal size scale m ->
  exists m', scan_dirs icon_name size scale allow_svg dirs (Some (m, 0))
             = Ok (Some (m', 0))
    /\ exact_nominal size scale m'
    /\ (m' = m \/ (In m' dirs /\ is_candidate icon_name allow_svg m')).
Proof.
  intros Hreq Hall. induction Hall as [|d dirs Hd Hall IH]; intros m Hm.
  - exists m. simpl. auto.
  - simpl.
    destruct (scan_step_themed icon_name size scale allow_svg (Some (m, 0)) d
                Hreq Hd) as [Hkeep | (dd & Hnn & Hcand & _ & Hstep & Hcmp)].
    + rewrite Hkeep. simpl.
      destruct (IH m Hm) as (m' & Hscan & Hex & Hin).
      exists m'. split; [exact Hscan | split; [exact Hex |]].
      destruct Hin as [-> | [Hin Hc]]; [now left | right; split; auto].
    + rewrite Hstep. simpl.
      destruct (compare_keeps_exact_nominal d m dd size scale Hreq Hd Hm Hnn Hcmp)
        as [-> Hdex].
      destruct (IH d Hdex) as (m' & Hscan & Hex & Hin).
      exists m'. split; [exact Hscan | split; [exact Hex |]].
      right. destruct Hin as [-> | [Hin Hc]]; split; auto.
Qed.

Lemma fixed_exact_distance (f : IconThemeDir) (size scale : Z) :
  d_type f = ICON_THEME_DIR_FIXED -> d_size f = size -> d_scale f = scale ->
  theme_dir_size_difference f size scale = Ok 0.
Proof.
  intros Hty Hsize Hscale. unfold theme_dir_size_difference.
  rewrite Hty, Hsize, Hscale. unfold int_sub. now rewrite Z.sub_diag.
Qed.

Lemma scan_dirs_reaches_exact_fixed (icon_name : string) (size scale : Z)
    (allow_svg : bool) (f : IconThemeDir) (dirs : list IconThemeDir) :
  small_request size scale -> Forall themed_dir dirs ->
  d_type f = ICON_THEME_DIR_FIXED -> d_size f = size -> d_scale f = scale ->
  is_candidate icon_name allow_svg f ->
  In f dirs ->
  forall best,
    match best with Some (m, _) => themed_dir m | None => True end ->
    exists m', scan_dirs icon_name size scale allow_svg dirs best
               = Ok (Some (m', 0))
      /\ exact_nominal size scale m'
      /\ In m' dirs /\ is_candidate icon_name allow_svg m'.
Proof.
  intros Hreq Hall Hty Hsize Hscale Hcand.
  assert (Hf : exact_nominal size scale f).
  { unfold exact_nominal. rewrite Hty. split; [| split]; auto; discriminate. }
  pose proof (fixed_exact_distance f size scale Hty Hsize Hscale) as Hdist.
  induction Hall as [|d dirs Hd Hall IH]; intros Hin best Hbest;
    [destruct Hin |].
  simpl. destruct Hin as [-> | Hin].
  - assert (Hstep : scan_step icon_name size scale allow_svg best f
                    = Ok (Some (f, 0))).
    { unfold scan_step. unfold is_candidate in Hcand.
      destruct (Z.eqb_spec (best_suffix (fst (theme_dir_get_icon_suffix f icon_name))
                              allow_svg) ICON_SUFFIX_NONE); [contradiction |].
      simpl. rewrite Hdist. simpl.
      destruct best as [[m dm]|]; [| reflexivity].
      now rewrite (compare_exact_nominal_wins f m dm size scale Hreq Hbest Hf). }
    rewrite Hstep. simpl.
    destruct (scan_dirs_keeps_exact_nominal icon_name size scale allow_svg dirs
                Hreq Hall f Hf) as (m' & Hscan & Hex & Hwhere).
    exists m'. split; [exact Hscan | split; [exact Hex |]].
    destruct Hwhere as [-> | [Hin' Hc]]; split; auto; now right.
  - destruct (scan_step_themed icon_name size scale allow_svg best d Hreq Hd)
      as [Hkeep | (dd & _ & _ & _ & Hstep & _)].
    + rewrite Hkeep. simpl.
      destruct (IH Hin best Hbest) as (m' & Hscan & Hex & Hin' & Hc).
      exists m'. repeat split; auto; apply Hex.
    + rewrite Hstep. simpl.
      destruct (IH Hin (Some (d, dd)) Hd) as (m' & Hscan & Hex & Hin' & Hc).
      exists m'. repeat split; auto; apply Hex.
Qed.

(** C2 (as amended).  On small sizes and scales: if the scanned list holds a
    Fixed directory with the icon whose nominal size equals the requested
    size and whose scale equals the requested scale, the running-best scan
    of [theme_lookup_icon] ends on an exact match (distance 0) that is a
    directory of the list holding the icon, not Scalable, with exactly the
    requested nominal size and scale: that Fixed directory, or a Fixed or
    Threshold directory with the same nominal size and scale.  So no
    Scalable directory and no Threshold directory of another nominal size or
    scale is selected over it, wherever the Fixed directory stands in the
    scan. *)
Theorem exact_fixed_directory_selected (icon_name : string) (size scale : Z)
    (allow_svg : bool) (f : IconThemeDir) (dirs : list IconThemeDir) :
  small_request size scale -> Forall themed_dir dirs ->
  In f dirs ->
  d_type f = ICON_THEME_DIR_FIXED -> d_size f = size -> d_scale f = scale ->
  is_candidate icon_name allow_svg f ->
  exists m, scan_dirs icon_name size scale allow_svg dirs None = Ok (Some (m, 0))
    /\ In m dirs /\ is_candidate icon_name allow_svg m
    /\ d_type m <> ICON_THEME_DIR_SCALABLE
    /\ d_size m = size /\ d_scale m = scale.
Proof.
  intros Hreq Hall Hin Hty Hsize Hscale Hcand.
  destruct (scan_dirs_reaches_exact_fixed icon_name size scale allow_svg f dirs
              Hreq Hall Hty Hsize Hscale Hcand Hin None I)
    as (m & Hscan & (Hs & Hc & Ht) & Hin' & Hcand').
  exists m. repeat split; assumption.
Qed.

(** C2 on the list Scalable 8..512, Fixed 24, Threshold 22 +- 2 for the
    request 24 at scale 1: the match has distance 0 and nominal size 24. *)
Lemma exact_fixed_directory_selected_witness :
  exists m, scan_dirs "edit-cut" 24 1 true
              [scalable_24; fixed_24;
               mk_dir ICON_THEME_DIR_THRESHOLD 22 22 22 2 1
                 "/usr/share/icons/Foo/22x22" png_icon] None
            = Ok (Some (m, 0))
    /\ d_size m = 24.
Proof.
  destruct (exact_fixed_directory_selected "edit-cut" 24 1 true fixed_24
              [scalable_24; fixed_24;
               mk_dir ICON_THEME_DIR_THRESHOLD 22 22 22 2 1
                 "/usr/share/icons/Foo/22x22" png_icon])
    as (m & Hscan & _ & _ & _ & Hsize & _).
  - split; unfold small; lia.
  - repeat constructor; try discriminate; unfold small; simpl; lia.
  - simpl. auto.
  - reflexivity.
  - reflexivity.
  - reflexivity.
  - apply is_candidate_png; reflexivity.
  - exists m. split; assumption.
Defined.

(** C2, counterexample.  For the request 24 at scale 2 the Fixed directory
    of size 48 and scale 1 has [dirSize * dirScale = 48 = 24 * 2] and
    distance 0; the Threshold directory of size 24 and scale 2 is exact as
    well and matches the requested scale, and the scan selects it, in either
    scan order. *)
Lemma exact_fixed_not_selected :
  d_type fixed_48 = ICON_THEME_DIR_FIXED
  /\ d_size fixed_48 * d_scale fixed_48 = 24 * 2
  /\ theme_dir_size_difference fixed_48 24 2 = Ok 0
  /\ d_type threshold_24_at_2 = ICON_THEME_DIR_THRESHOLD
  /\ scan_dirs "edit-cut" 24 2 true [fixed_48; threshold_24_at_2] None
     = Ok (Some (threshold_24_at_2, 0))
  /\ scan_dirs "edit-cut" 24 2 true [threshold_24_at_2; fixed_48] None
     = Ok (Some (threshold_24_at_2, 0)).
Proof.
  repeat split; vm_compute; reflexivity.
Qed.

(** A Threshold directory with the requested nominal size and scale, scanned
    after the exact Fixed directory, ties with it on every rule and takes
    its place; a Scalable directory that contains the requested size does
    not. *)
Example exact_fixed_and_equal_threshold :
  scan_dirs "edit-cut" 24 1 true [fixed_24; threshold_24] None
  = Ok (Some (threshold_24, 0))
  /\ scan_dirs "edit-cut" 24 1 true [fixed_24; scalable_24] None
     = Ok (Some (fixed_24, 0))
  /\ scan_dirs "edit-cut" 24 1 true [scalable_24; fixed_24] None
     = Ok (Some (fixed_24, 0)).
Proof. repeat split; vm_compute; reflexivity. Qed.

(** ** The LRU side list: bound and order *)

Lemma g_list_find_true (l : list handle) (x : handle) :
  g_list_find l x = true <-> x ∈ l.
Proof. unfold g_list_find. apply bool_decide_eq_true. Qed.

Lemma g_list_find_false (l : list handle) (x : handle) :
  g_list_find l x = false <-> x ∉ l.
Proof. unfold g_list_find. apply bool_decide_eq_false. Qed.

Lemma g_list_remove_sublist (l : list handle) (x : handle) :
  g_list_remove l x `sublist_of` l.
Proof.
  induction l as [|y l IH]; simpl; [constructor |].
  destruct (decide (y = x)); [now apply sublist_cons | now apply sublist_skip].
Qed.

Lemma g_list_remove_length (l : list handle) (x : handle) :
  x ∈ l -> S (length (g_list_remove l x)) = length l.
Proof.
  induction l as [|y l IH]; simpl; intros Hin; [now apply elem_of_nil in Hin |].
  destruct (decide (y = x)) as [->|Hne]; [reflexivity |].
  apply elem_of_cons in Hin as [-> | Hin]; [congruence |].
  simpl. now rewrite IH.
Qed.

Lemma g_list_remove_length_le (l : list handle) (x : handle) :
  (length (g_list_remove l x) <= length l)%nat.
Proof. apply sublist_length, g_list_remove_sublist. Qed.

Lemma g_list_remove_not_in (l : list handle) (x : handle) :
  NoDup l -> x ∉ g_list_remove l x.
Proof.
  induction 1 as [|y l Hy Hnd IH]; simpl; [apply not_elem_of_nil |].
  destruct (decide (y = x)) as [->|Hne]; [exact Hy |].
  rewrite elem_of_cons. intros [-> | Hin]; [congruence | contradiction].
Qed.

Lemma g_list_remove_NoDup (l : list handle) (x : handle) :
  NoDup l -> NoDup (g_list_remove l x).
Proof. intros Hnd. eapply sublist_NoDup; [exact Hnd | apply g_list_remove_sublist]. Qed.

Lemma remove_from_lru_cache_lru (h : handle) (priv : GtkIconThemePrivate) :
  info_cache_lru (remove_from_lru_cache h priv)
  = g_list_remove (info_cache_lru priv) h.
Proof.
  unfold remove_from_lru_cache.
  destruct (g_list_find (info_cache_lru priv) h) eqn:Hfind; [reflexivity |].
  apply g_list_find_false in Hfind.
  induction (info_cache_lru priv) as [|y l IH]; [reflexivity |].
  simpl. apply not_elem_of_cons in Hfind as [Hne Hnotin].
  destruct (decide (y = h)); [congruence |]. now rewrite <- IH.
Qed.

Lemma remove_from_lru_cache_ok (h : handle) (priv : GtkIconThemePrivate) :
  lru_ok priv ->
  lru_ok (remove_from_lru_cache h priv)
  /\ h ∉ info_cache_lru (remove_from_lru_cache h priv).
Proof.
  intros [Hlen Hnd]. unfold lru_ok. rewrite remove_from_lru_cache_lru.
  pose proof (g_list_remove_length_le (info_cache_lru priv) h).
  repeat split; [lia | now apply g_list_remove_NoDup
                 | now apply g_list_remove_not_in].
Qed.

(** Parking an entry that is already on the list moves it to the head. *)
Lemma ensure_in_lru_cache_present (h : handle) (priv : GtkIconThemePrivate) :
  h ∈ info_cache_lru priv ->
  ensure_in_lru_cache h priv
  = Ok (set_info_cache_lru (h :: g_list_remove (info_cache_lru priv) h) priv).
Proof.
  intros Hin. unfold ensure_in_lru_cache.
  now rewrite (proj2 (g_list_find_true _ _) Hin).
Qed.

(** Parking a new entry on a list that is not full prepends it. *)
Lemma ensure_in_lru_cache_room (h : handle) (priv : GtkIconThemePrivate) :
  h ∉ info_cache_lru priv ->
  (length (info_cache_lru priv) < INFO_CACHE_LRU_SIZE)%nat ->
  ensure_in_lru_cache h priv
  = Ok (set_info_cache_lru (h :: info_cache_lru priv)
          (emit (EvObjectRef h) priv)).
Proof.
  intros Hnotin Hlen. unfold ensure_in_lru_cache, add_to_lru_cache.
  rewrite (proj2 (g_list_find_false _ _) Hnotin).
  unfold ensure_lru_cache_space.
  assert (Hnone : info_cache_lru priv !! (INFO_CACHE_LRU_SIZE - 1)%nat = None).
  { apply lookup_ge_None. unfold INFO_CACHE_LRU_SIZE in *. lia. }
  now rewrite Hnone.
Qed.

(** Parking a new entry on a full list drops the reference of the tail
    entry first, then prepends the new entry with a reference of its own. *)
Lemma ensure_in_lru_cache_full (h victim : handle) (front : list handle)
    (priv : GtkIconThemePrivate) :
  h ∉ info_cache_lru priv ->
  info_cache_lru priv = front ++ [victim] ->
  S (length front) = INFO_CACHE_LRU_SIZE ->
  exists priv', ensure_in_lru_cache h priv = Ok priv'
    /\ info_cache_lru priv' = h :: front
    /\ trace priv' = trace priv ++ [EvObjectUnref victim; EvObjectRef h].
Proof.
  intros Hnotin Hlru Hlen. unfold ensure_in_lru_cache, add_to_lru_cache.
  rewrite (proj2 (g_list_find_false _ _) Hnotin).
  unfold ensure_lru_cache_space.
  assert (Hidx : (INFO_CACHE_LRU_SIZE - 1)%nat = length front) by lia.
  rewrite Hidx, Hlru, (list_lookup_middle front [] victim _ eq_refl).
  rewrite delete_middle, app_nil_r.
  eexists. split; [reflexivity |]. split; [reflexivity |].
  simpl. now rewrite <- app_assoc.
Qed.

(** Parking keeps the invariant, never aborts on a list without duplicates,
    and leaves the parked entry at the head. *)
Lemma ensure_in_lru_cache_ok (h : handle) (priv : GtkIconThemePrivate) :
  lru_ok priv ->
  exists priv', ensure_in_lru_cache h priv = Ok priv'
    /\ lru_ok priv'
    /\ head (info_cache_lru priv') = Some h.
Proof.
  intros [Hlen Hnd].
  destruct (decide (h ∈ info_cache_lru priv)) as [Hin|Hnotin].
  - rewrite (ensure_in_lru_cache_present h priv Hin).
    eexists. split; [reflexivity |]. split; [| reflexivity].
    unfold lru_ok. simpl.
    pose proof (g_list_remove_length (info_cache_lru priv) h Hin).
    split; [lia |]. apply NoDup_cons. split.
    + now apply g_list_remove_not_in.
    + now apply g_list_remove_NoDup.
  - destruct (decide (length (info_cache_lru priv) < INFO_CACHE_LRU_SIZE)%nat)
      as [Hroom|Hfull].
    + rewrite (ensure_in_lru_cache_room h priv Hnotin Hroom).
      eexists. split; [reflexivity |]. split; [| reflexivity].
      unfold lru_ok. simpl. split; [lia |]. now apply NoDup_cons.
    + destruct (info_cache_lru priv) as [|x l] eqn:Hl using rev_ind;
        [unfold INFO_CACHE_LRU_SIZE in *; simpl in *; lia |].
      clear IHl. rewrite length_app in Hlen, Hfull. simpl in *.
      destruct (ensure_in_lru_cache_full h x l priv) as (priv' & Hrun & Hl' & _).
      * now rewrite Hl.
      * exact Hl.
      * lia.
      * exists priv'. split; [exact Hrun |]. unfold lru_ok. rewrite Hl'.
        split; [split |]; [simpl; lia | | reflexivity].
        apply NoDup_cons. split.
        -- intros Hin. apply Hnotin. apply elem_of_app. now left.
        -- now apply NoDup_app in Hnd as (? & _ & _).
Qed.

(** ** ThemeRegistry: what a load leaves alone *)

Lemma load_frame_refl (p : GtkIconThemePrivate) : load_frame p p.
Proof.
  split; try reflexivity. exists []. split; [now rewrite app_nil_r | constructor].
Qed.

Lemma load_frame_trans (p q r : GtkIconThemePrivate) :
  load_frame p q -> load_frame q r -> load_frame p r.
Proof.
  intros [? ? ? ? ? ? ? ? ? ? (e1 & He1 & Hf1)] [? ? ? ? ? ? ? ? ? ? (e2 & He2 & Hf2)].
  split; try congruence.
  exists (e1 ++ e2). split.
  - now rewrite He2, He1, app_assoc.
  - now apply Forall_app.
Qed.

Lemma load_frame_emit (e : event) (p : GtkIconThemePrivate) :
  is_load_stat e -> load_frame p (emit e p).
Proof.
  intros He. split; try reflexivity.
  exists [e]. split; [reflexivity | now constructor].
Qed.

Lemma load_frame_set_dir_mtimes v (p : GtkIconThemePrivate) :
  load_frame p (set_dir_mtimes v p).
Proof. apply (load_frame_trans _ p); [apply load_frame_refl |].
  split; try reflexivity. exists []. split; [symmetry; apply app_nil_r | constructor].
Qed.

Lemma load_frame_set_all_icons v (p : GtkIconThemePrivate) :
  load_frame p (set_all_icons v p).
Proof.
  split; try reflexivity. exists []. split; [symmetry; apply app_nil_r | constructor].
Qed.

Lemma load_frame_set_themes v (p : GtkIconThemePrivate) :
  load_frame p (set_themes v p).
Proof.
  split; try reflexivity. exists []. split; [symmetry; apply app_nil_r | constructor].
Qed.

Lemma load_frame_set_unthemed_icons v (p : GtkIconThemePrivate) :
  load_frame p (set_unthemed_icons v p).
Proof.
  split; try reflexivity. exists []. split; [symmetry; apply app_nil_r | constructor].
Qed.

Lemma stat_theme_roots_frame (fs : FileSystem) (theme_name : string)
    (roots : list string) (p : GtkIconThemePrivate) :
  load_frame p (stat_theme_roots fs theme_name roots p)
  /\ themes (stat_theme_roots fs theme_name roots p) = themes p.
Proof.
  revert p. induction roots as [|root roots IH]; intros p; simpl.
  - split; [apply load_frame_refl | reflexivity].
  - destruct (IH (emit (EvStat IN_INSERT_THEME (g_build_filename root theme_name))
                   (set_dir_mtimes
                      ({| m_dir := g_build_filename root theme_name;
                          m_mtime := default 0 (fs_stat_dir fs
                                       (g_build_filename root theme_name));
                          m_cache := None |} :: dir_mtimes p) p)))
      as [Hf Ht].
    split; [| now rewrite Ht].
    eapply load_frame_trans; [| exact Hf].
    eapply load_frame_trans; [apply load_frame_set_dir_mtimes |].
    now apply load_frame_emit.
Qed.

Lemma theme_subdir_load_frame (fs : FileSystem) (tf : ThemeFile)
    (st : GtkIconThemePrivate * list IconThemeDir) (subdir : string) :
  load_frame (fst st) (fst (theme_subdir_load fs tf st subdir))
  /\ themes (fst (theme_subdir_load fs tf st subdir)) = themes (fst st).
Proof.
  unfold theme_subdir_load.
  destruct (tf_groups tf !! subdir ≫= g_size) as [size|];
    [| split; [apply load_frame_refl | reflexivity]].
  destruct (theme_subdir_loop _ _ _ _ _ _) as [[ds all] dirs]. simpl.
  split; [| reflexivity].
  eapply load_frame_trans; [apply load_frame_set_all_icons |].
  apply load_frame_set_dir_mtimes.
Qed.

Lemma theme_subdirs_load_frame (fs : FileSystem) (tf : ThemeFile)
    (dirs : list string) (st : GtkIconThemePrivate * list IconThemeDir) :
  load_frame (fst st) (fst (fold_left (theme_subdir_load fs tf) dirs st))
  /\ themes (fst (fold_left (theme_subdir_load fs tf) dirs st)) = themes (fst st).
Proof.
  revert st. induction dirs as [|d dirs IH]; intros st; simpl.
  - split; [apply load_frame_refl | reflexivity].
  - destruct (IH (theme_subdir_load fs tf st d)) as [Hf Ht].
    destruct (theme_subdir_load_frame fs tf st d) as [Hf1 Ht1].
    split; [eapply load_frame_trans; eassumption | congruence].
Qed.

(** The body of [insert_theme] leaves the caches alone and changes the theme
    list in one of two ways: not at all, or by prepending one theme of the
    given name. *)
Lemma insert_theme_body_spec (fs : FileSystem) (p : GtkIconThemePrivate)
    (theme_name : string) :
  load_frame p (fst (insert_theme_body fs p theme_name))
  /\ (theme_names (fst (insert_theme_body fs p theme_name)) = theme_names p
      /\ snd (insert_theme_body fs p theme_name) = []
      \/ theme_names (fst (insert_theme_body fs p theme_name))
         = theme_name :: theme_names p).
Proof.
  unfold insert_theme_body, theme_names.
  destruct (stat_theme_roots_frame fs theme_name (search_path p) p) as [Hf0 Ht0].
  set (p0 := stat_theme_roots fs theme_name (search_path p) p) in *.
  set (p1 := set_dir_mtimes (rev (dir_mtimes p0)) p0).
  assert (Hf1 : load_frame p p1).
  { eapply load_frame_trans; [exact Hf0 | apply load_frame_set_dir_mtimes]. }
  assert (Ht1 : themes p1 = themes p) by exact Ht0.
  cbv zeta.
  destruct (find_theme_file fs theme_name (search_path p1)) as [tf|] eqn:Hfile.
  - simpl. destruct (tf_directories tf) as [dirs|].
    + match goal with
      | |- context [fold_left (theme_subdir_load fs tf) dirs ?init] =>
          destruct (theme_subdirs_load_frame fs tf dirs init) as [Hfa Hta];
          set (st0 := fold_left (theme_subdir_load fs tf) dirs init) in *
      end.
      simpl in Hfa, Hta.
      set (st1 := match tf_scaled_directories tf with
                  | Some scaled_dirs =>
                      fold_left (theme_subdir_load fs tf) scaled_dirs st0
                  | None => st0
                  end).
      assert (Hfb : load_frame (fst st0) (fst st1)
                    /\ themes (fst st1) = themes (fst st0)).
      { subst st1. destruct (tf_scaled_directories tf) as [sd|].
        - apply theme_subdirs_load_frame.
        - split; [apply load_frame_refl | reflexivity]. }
      destruct Hfb as [Hfb Htb]. clearbody st1 st0. simpl. split.
      * eapply load_frame_trans; [exact Hf1 |].
        eapply load_frame_trans; [apply load_frame_set_themes |].
        eapply load_frame_trans; [exact Hfa |].
        eapply load_frame_trans; [exact Hfb | apply load_frame_set_themes].
      * right. rewrite Htb, Hta. simpl. (rewrite ?Ht1, ?Ht0; auto).
    + simpl. split.
      * eapply load_frame_trans; [exact Hf1 |].
        eapply load_frame_trans; apply load_frame_set_themes.
      * left. (rewrite ?Ht1, ?Ht0; auto).
  - simpl. destruct (String.eqb theme_name DEFAULT_THEME_NAME); simpl.
    + split; [eapply load_frame_trans; [exact Hf1 | apply load_frame_set_themes] |].
      right. (rewrite ?Ht1, ?Ht0; auto).
    + split; [exact Hf1 |]. left. (rewrite ?Ht1, ?Ht0; auto).
Qed.

(** ** ThemeRegistry: insertion *)

Lemma existsb_theme_name (l : list IconTheme) (theme_name : string) :
  existsb (fun theme => String.eqb (t_name theme) theme_name) l = true
  <-> In theme_name (map t_name l).
Proof.
  rewrite existsb_exists, in_map_iff. split.
  - intros (t & Hin & Heq). apply String.eqb_eq in Heq. eauto.
  - intros (t & Heq & Hin). exists t. split; [exact Hin |].
    now apply String.eqb_eq.
Qed.

Lemma theme_growth_refl (p : GtkIconThemePrivate) : theme_growth p p.
Proof.
  split; [apply load_frame_refl | split; [now exists [] | tauto]].
Qed.

Lemma theme_growth_trans (p q r : GtkIconThemePrivate) :
  theme_growth p q -> theme_growth q r -> theme_growth p r.
Proof.
  intros (Hf1 & (a1 & Ha1) & Hn1) (Hf2 & (a2 & Ha2) & Hn2).
  split; [eapply load_frame_trans; eassumption | split; [| tauto]].
  exists (a2 ++ a1). now rewrite Ha2, Ha1, app_assoc.
Qed.

Lemma for_each_growth (f : GtkIconThemePrivate -> string ->
                           result GtkIconThemePrivate) (l : list string) :
  (forall s a s', f s a = Ok s' -> theme_growth s s') ->
  forall s s', for_each f l s = Ok s' -> theme_growth s s'.
Proof.
  intros Hf. induction l as [|a l IH]; intros s s' Hrun; simpl in Hrun.
  - injection Hrun as <-. apply theme_growth_refl.
  - destruct (f s a) as [s1| |] eqn:Hfa; try discriminate. simpl in Hrun.
    eapply theme_growth_trans; [eapply Hf; eassumption | now apply IH].
Qed.

Lemma insert_theme_body_growth (fs : FileSystem) (p : GtkIconThemePrivate)
    (theme_name : string) :
  ~ In theme_name (theme_names p) ->
  theme_growth p (fst (insert_theme_body fs p theme_name)).
Proof.
  intros Hnew.
  destruct (insert_theme_body_spec fs p theme_name) as [Hf [[Hsame _] | Hadd]].
  - split; [exact Hf | rewrite Hsame; split; [now exists [] | tauto]].
  - split; [exact Hf | rewrite Hadd; split; [now exists [theme_name] |]].
    intros Hnd. apply NoDup_cons. split; [| exact Hnd].
    now rewrite list_elem_of_In.
Qed.

(** Every completed insertion leaves the caches alone, only adds themes and
    keeps the names distinct. *)
Lemma insert_theme_growth (fuel : nat) (fs : FileSystem) :
  forall (p : GtkIconThemePrivate) (theme_name : string) p',
    insert_theme fuel fs p theme_name = Ok p' -> theme_growth p p'.
Proof.
  induction fuel as [|fuel IH]; intros p theme_name p' Hrun; simpl in Hrun;
    [discriminate |].
  destruct (existsb _ (themes p)) eqn:Hex.
  - injection Hrun as <-. apply theme_growth_refl.
  - assert (Hnew : ~ In theme_name (theme_names p)).
    { intros Hin. apply existsb_theme_name in Hin. unfold theme_names in *.
      congruence. }
    pose proof (insert_theme_body_growth fs p theme_name Hnew) as Hbody.
    destruct (insert_theme_body fs p theme_name) as [p1 parents].
    eapply theme_growth_trans; [exact Hbody |]. simpl.
    eapply for_each_growth; [| exact Hrun]. intros s a s'. apply IH.
Qed.

Lemma insert_theme_present (fuel : nat) (fs : FileSystem)
    (p : GtkIconThemePrivate) (theme_name : string) :
  In theme_name (theme_names p) ->
  insert_theme (S fuel) fs p theme_name = Ok p.
Proof.
  intros Hin. simpl. apply existsb_theme_name in Hin. now rewrite Hin.
Qed.

(** The default theme without a descriptor that parses: a placeholder is
    prepended, and nothing else happens. *)
Lemma insert_default_theme_placeholder (fuel : nat) (fs : FileSystem)
    (p : GtkIconThemePrivate) :
  ~ In DEFAULT_THEME_NAME (theme_names p) ->
  find_theme_file fs DEFAULT_THEME_NAME (search_path p) = None ->
  exists p', insert_theme (S fuel) fs p DEFAULT_THEME_NAME = Ok p'
    /\ themes p' = new_theme DEFAULT_THEME_NAME :: themes p.
Proof.
  intros Hnew Hfile. simpl.
  destruct (existsb _ (themes p)) eqn:Hex.
  { apply existsb_theme_name in Hex. contradiction. }
  unfold insert_theme_body.
  destruct (stat_theme_roots_frame fs DEFAULT_THEME_NAME (search_path p) p)
    as [Hf Ht].
  replace (search_path (set_dir_mtimes _ _)) with (search_path p)
    by (symmetry; apply Hf).
  rewrite Hfile. simpl. eexists. split; [reflexivity |].
  simpl. now rewrite Ht.
Qed.

Lemma insert_theme_body_parents (fs : FileSystem) (p : GtkIconThemePrivate)
    (theme_name : string) :
  snd (insert_theme_body fs p theme_name) <> [] ->
  is_Some (find_theme_file fs theme_name (search_path p))
  /\ theme_names (fst (insert_theme_body fs p theme_name))
     = theme_name :: theme_names p.
Proof.
  intros Hparents.
  destruct (insert_theme_body_spec fs p theme_name) as [_ [[_ Hnil] | Hadd]];
    [contradiction |].
  split; [| exact Hadd].
  revert Hparents. unfold insert_theme_body.
  destruct (stat_theme_roots_frame fs theme_name (search_path p) p) as [Hf _].
  replace (search_path (set_dir_mtimes _ _)) with (search_path p)
    by (symmetry; apply Hf).
  destruct (find_theme_file fs theme_name (search_path p)); [eauto |].
  simpl. congruence.
Qed.

Lemma missing_le_length (universe active : list string) :
  (missing universe active <= length universe)%nat.
Proof.
  induction universe as [|n u IH]; simpl; [lia |].
  destruct (bool_decide (n ∈ active)); lia.
Qed.

Lemma missing_mono (universe a b : list string) :
  (forall n, In n a -> In n b) ->
  (missing universe b <= missing universe a)%nat.
Proof.
  intros Hsub. induction universe as [|n u IH]; simpl; [lia |].
  destruct (bool_decide_reflect (n ∈ a)) as [Ha|Ha],
           (bool_decide_reflect (n ∈ b)) as [Hb|Hb]; try lia.
  exfalso. apply Hb. rewrite list_elem_of_In in *. auto.
Qed.

Lemma missing_decreases (universe a b : list string) (x : string) :
  (forall n, In n a -> In n b) ->
  In x universe -> ~ In x a -> In x b ->
  (missing universe b < missing universe a)%nat.
Proof.
  intros Hsub Hu Ha Hb. induction universe as [|n u IH]; [destruct Hu |].
  simpl. pose proof (missing_mono u a b Hsub) as Hmono.
  destruct Hu as [-> | Hu].
  - rewrite (bool_decide_eq_true_2 (x ∈ b)) by now rewrite list_elem_of_In.
    rewrite (bool_decide_eq_false_2 (x ∈ a)) by now rewrite list_elem_of_In.
    lia.
  - specialize (IH Hu).
    destruct (bool_decide_reflect (n ∈ a)) as [Hna|Hna],
             (bool_decide_reflect (n ∈ b)) as [Hnb|Hnb]; try lia.
    exfalso. apply Hnb. rewrite list_elem_of_In in *. auto.
Qed.

Lemma theme_growth_names (p q : GtkIconThemePrivate) :
  theme_growth p q -> forall n, In n (theme_names p) -> In n (theme_names q).
Proof.
  intros (_ & (added & Hadd) & _) n Hin. rewrite Hadd. apply in_or_app. now right.
Qed.

(** Termination: when the themes with a descriptor on the search path all
    belong to a finite [universe], a recursion budget above the number of
    themes of [universe] that are not yet active lets [insert_theme]
    complete. *)
Lemma insert_theme_completes (fs : FileSystem) (universe path : list string) :
  (forall n, is_Some (find_theme_file fs n path) -> In n universe) ->
  forall (fuel : nat) (p : GtkIconThemePrivate) (theme_name : string),
    search_path p = path ->
    (missing universe (theme_names p) < fuel)%nat ->
    exists p', insert_theme fuel fs p theme_name = Ok p'.
Proof.
  intros Huniv. induction fuel as [|fuel IH]; intros p theme_name Hpath Hfuel;
    [lia |].
  simpl. destruct (existsb _ (themes p)) eqn:Hex; [eauto |].
  assert (Hnew : ~ In theme_name (theme_names p)).
  { intros Hin. apply existsb_theme_name in Hin. unfold theme_names in *.
    congruence. }
  pose proof (insert_theme_body_growth fs p theme_name Hnew) as Hbody.
  pose proof (insert_theme_body_parents fs p theme_name) as Hparents.
  destruct (insert_theme_body fs p theme_name) as [p1 parents].
  simpl in Hbody, Hparents.
  destruct parents as [|parent parents]; [simpl; eauto |].
  destruct Hparents as [Hfile Hnames]; [discriminate |].
  assert (Hp1 : search_path p1 = path)
    by (rewrite <- Hpath; apply Hbody).
  assert (Hless : (missing universe (theme_names p1) < fuel)%nat).
  { assert (missing universe (theme_names p1)
            < missing universe (theme_names p))%nat; [| lia].
    apply (missing_decreases _ _ _ theme_name).
    - now apply theme_growth_names.
    - apply Huniv. now rewrite <- Hpath.
    - exact Hnew.
    - rewrite Hnames. now left. }
  clear Hbody Hnames Hfile Hnew Hex Hfuel.
  generalize (parent :: parents). clear parent parents.
  intros l. revert p1 Hp1 Hless.
  induction l as [|a l IHl]; intros s Hs Hless; simpl; [eauto |].
  destruct (IH s a Hs Hless) as [s1 Hs1]. rewrite Hs1. simpl.
  pose proof (insert_theme_growth fuel fs s a s1 Hs1) as Hg.
  apply IHl.
  - rewrite <- Hs. apply Hg.
  - pose proof (missing_mono universe _ _ (theme_growth_names s s1 Hg)). lia.
Qed.

Lemma load_unthemed_root_frame (fs : FileSystem) (p : GtkIconThemePrivate)
    (dir : string) :
  load_frame p (load_unthemed_root fs p dir)
  /\ themes (load_unthemed_root fs p dir) = themes p.
Proof.
  unfold load_unthemed_root.
  assert (He : load_frame p (emit (EvStat IN_LOAD_THEMES dir) p))
    by now apply load_frame_emit.
  destruct (fs_stat_dir fs dir) as [mtime|].
  - destruct (fs_icon_cache fs dir) as [c|]; [| destruct (fs_read_dir fs dir)];
      (split; [| reflexivity]);
      repeat (first [ exact He
                    | eapply load_frame_trans;
                      [| first [ apply load_frame_set_all_icons
                               | apply load_frame_set_unthemed_icons
                               | apply load_frame_set_dir_mtimes ] ] ]).
  - split; [| reflexivity].
    eapply load_frame_trans; [exact He | apply load_frame_set_dir_mtimes].
Qed.

Lemma load_unthemed_roots_frame (fs : FileSystem) (roots : list string)
    (p : GtkIconThemePrivate) :
  load_frame p (fold_left (load_unthemed_root fs) roots p)
  /\ themes (fold_left (load_unthemed_root fs) roots p) = themes p.
Proof.
  revert p. induction roots as [|r roots IH]; intros p; simpl.
  - split; [apply load_frame_refl | reflexivity].
  - destruct (IH (load_unthemed_root fs p r)) as [Hf Ht].
    destruct (load_unthemed_root_frame fs p r) as [Hf1 Ht1].
    split; [eapply load_frame_trans; eassumption | congruence].
Qed.

Lemma load_user_themes_growth (fuel : nat) (fs : FileSystem)
    (p p' : GtkIconThemePrivate) :
  load_user_themes fuel fs p = Ok p' -> theme_growth p p'.
Proof.
  unfold load_user_themes. intros Hrun.
  destruct (match current_theme p with
            | Some name => insert_theme fuel fs p name
            | None => Ok p
            end) as [p1| |] eqn:Hcur; try discriminate.
  simpl in Hrun.
  eapply theme_growth_trans; [| eapply insert_theme_growth; exact Hrun].
  destruct (current_theme p).
  - eapply insert_theme_growth; exact Hcur.
  - injection Hcur as <-. apply theme_growth_refl.
Qed.

(** The theme list of a completed load is the reversed list built by the
    three insertions. *)
Lemma load_themes_inv (fuel : nat) (fs : FileSystem) (now : Z)
    (p p' : GtkIconThemePrivate) :
  load_themes fuel fs now p = Ok p' ->
  exists p2 p3,
    load_user_themes fuel fs (set_all_icons ∅ p) = Ok p2
    /\ insert_theme fuel fs p2 DEFAULT_THEME_NAME = Ok p3
    /\ theme_names p' = rev (theme_names p3)
    /\ p' = set_last_stat_time now
              (set_themes_valid true
                 (fold_left (load_unthemed_root fs) (search_path p3)
                    (set_unthemed_icons ∅ (set_themes (rev (themes p3)) p3)))).
Proof.
  unfold load_themes. intros Hrun.
  destruct (load_user_themes fuel fs (set_all_icons ∅ p)) as [p2| |] eqn:H2;
    try discriminate.
  simpl in Hrun.
  destruct (insert_theme fuel fs p2 DEFAULT_THEME_NAME) as [p3| |] eqn:H3;
    try discriminate.
  simpl in Hrun. injection Hrun as <-.
  exists p2, p3.
  split; [reflexivity | split; [assumption | split; [| reflexivity]]].
  destruct (load_unthemed_roots_frame fs (search_path p3)
              (set_unthemed_icons ∅ (set_themes (rev (themes p3)) p3)))
    as [_ Ht].
  unfold theme_names.
  change (themes (set_last_stat_time now (set_themes_valid true
            (fold_left (load_unthemed_root fs) (search_path p3)
               (set_unthemed_icons ∅ (set_themes (rev (themes p3)) p3))))))
    with (themes (fold_left (load_unthemed_root fs) (search_path p3)
                    (set_unthemed_icons ∅ (set_themes (rev (themes p3)) p3)))).
  rewrite Ht. apply map_rev.
Qed.

(** With a recursion budget above the number of themes that have a
    descriptor, every load completes. *)
Lemma load_themes_completes (fuel : nat) (fs : FileSystem)
    (universe : list string) (now : Z) (p : GtkIconThemePrivate) :
  (forall n, is_Some (find_theme_file fs n (search_path p)) -> In n universe) ->
  (length universe < fuel)%nat ->
  exists p', load_themes fuel fs now p = Ok p'.
Proof.
  intros Huniv Hbudget. unfold load_themes, load_user_themes.
  assert (Hfuel : forall q, (missing universe (theme_names q) < fuel)%nat).
  { intros q. pose proof (missing_le_length universe (theme_names q)). lia. }
  clear Hbudget.
  set (p0 := set_all_icons ∅ p).
  assert (H1 : exists p1, match current_theme p0 with
                          | Some name => insert_theme fuel fs p0 name
                          | None => Ok p0
                          end = Ok p1 /\ search_path p1 = search_path p).
  { destruct (current_theme p0) as [name|]; [| now exists p0].
    destruct (insert_theme_completes fs universe (search_path p) Huniv fuel p0
                name eq_refl (Hfuel p0)) as [p1 Hp1].
    exists p1. split; [exact Hp1 |].
    apply (insert_theme_growth fuel fs p0 name p1 Hp1). }
  destruct H1 as (p1 & -> & Hs1). simpl.
  destruct (insert_theme_completes fs universe (search_path p) Huniv fuel p1
              "gnome" Hs1 (Hfuel p1)) as [p2 Hp2].
  rewrite Hp2. simpl.
  assert (Hs2 : search_path p2 = search_path p).
  { rewrite <- Hs1. apply (insert_theme_growth fuel fs p1 "gnome" p2 Hp2). }
  destruct (insert_theme_completes fs universe (search_path p) Huniv fuel p2
              DEFAULT_THEME_NAME Hs2 (Hfuel p2)) as [p3 Hp3].
  rewrite Hp3. simpl. eauto.
Qed.

(** C7 (as amended).  A load completes as soon as the recursion budget
    exceeds the number of themes that have a descriptor on the search
    path.  After every completed load the active theme list has no two
    themes of the same name.  When no descriptor of the default theme
    parses anywhere on the search path, the list still contains "hicolor",
    and "hicolor" is its last element provided the insertions of the current
    theme and of "gnome" (with their ancestors) have not already inserted
    it. *)
Theorem load_themes_distinct_names (fuel : nat) (fs : FileSystem) (now : Z)
    (p : GtkIconThemePrivate) :
  NoDup (theme_names p) ->
  (forall universe,
      (forall n, is_Some (find_theme_file fs n (search_path p)) ->
                 In n universe) ->
      (length universe < fuel)%nat ->
      exists p', load_themes fuel fs now p = Ok p')
  /\ forall p',
       load_themes fuel fs now p = Ok p' ->
       NoDup (theme_names p')
       /\ (find_theme_file fs DEFAULT_THEME_NAME (search_path p) = None ->
           In DEFAULT_THEME_NAME (theme_names p')
           /\ forall p2,
                load_user_themes fuel fs (set_all_icons ∅ p) = Ok p2 ->
                ~ In DEFAULT_THEME_NAME (theme_names p2) ->
                last (theme_names p') = Some DEFAULT_THEME_NAME).
Proof.
  intros Hnd. split.
  { intros universe Huniv Hbudget.
    now apply (load_themes_completes fuel fs universe). }
  intros p' Hrun.
  destruct (load_themes_inv fuel fs now p p' Hrun)
    as (p2 & p3 & Huser & Hdef & Hnames & _).
  pose proof (load_user_themes_growth fuel fs _ p2 Huser) as Hg2.
  pose proof (insert_theme_growth fuel fs p2 _ p3 Hdef) as Hg3.
  rewrite Hnames. split.
  - apply NoDup_ListNoDup, List.NoDup_rev, NoDup_ListNoDup.
    apply Hg3. apply Hg2. exact Hnd.
  - intros Hfile.
    assert (Hpath : search_path p2 = search_path p) by apply Hg2.
    destruct fuel as [|fuel]; [discriminate |].
    destruct (in_dec string_dec DEFAULT_THEME_NAME (theme_names p2))
      as [Hin|Hnotin].
    + split.
      * apply in_rev. rewrite rev_involutive.
        now apply (theme_growth_names p2 p3 Hg3).
      * intros q Hq. rewrite Huser in Hq. injection Hq as <-. contradiction.
    + destruct (insert_default_theme_placeholder fuel fs p2 Hnotin)
        as (q & Hq & Hthemes); [now rewrite Hpath |].
      rewrite Hdef in Hq. injection Hq as <-.
      unfold theme_names. rewrite Hthemes. simpl. split.
      * apply in_or_app. right. now left.
      * intros _ _ _. apply last_snoc.
Qed.

Lemma load_gnome_only_fresh :
  exists p', load_themes 3 fs_gnome_only 0 priv_fresh = Ok p'.
Proof. vm_compute. eexists. reflexivity. Qed.

(** C7 on the installation with the gnome theme only and no theme name set:
    the load gives distinct names. *)
Lemma load_themes_distinct_names_witness :
  NoDup (theme_names priv_fresh)
  /\ exists p', load_themes 3 fs_gnome_only 0 priv_fresh = Ok p'
       /\ NoDup (theme_names p').
Proof.
  assert (Hnd : NoDup (theme_names priv_fresh)) by constructor.
  split; [exact Hnd |].
  destruct load_gnome_only_fresh as [p' Hrun].
  exists p'. split; [exact Hrun |].
  exact (proj1 (proj2 (load_themes_distinct_names 3 fs_gnome_only 0 priv_fresh
                         Hnd) p' Hrun)).
Defined.

(** C7, counterexample.  No index.theme for hicolor exists, the configured
    theme name is "hicolor" and the gnome theme is installed: the completed
    load gives the list hicolor, gnome, whose last element is not the
    default theme. *)
Lemma default_theme_not_last :
  find_theme_file fs_gnome_only DEFAULT_THEME_NAME
    (search_path priv_hicolor_current) = None
  /\ loaded_names (load_themes 3 fs_gnome_only 0 priv_hicolor_current)
     = Ok ["hicolor"; "gnome"]
  /\ last ["hicolor"; "gnome"] <> Some DEFAULT_THEME_NAME.
Proof.
  split; [reflexivity | split; [vm_compute; reflexivity | discriminate]].
Qed.

(** ** IconInfoCache: the symbolic-first search *)

Lemma lookup_symbolic_pass_first (g : Builtins) (pre post : list IconTheme)
    (theme : IconTheme) (info : GtkIconInfo) (icon_name : string)
    (size scale : Z) (allow_svg use_builtin : bool) :
  Forall (fun t => theme_lookup_icon g t icon_name size scale allow_svg
                     use_builtin = Ok None) pre ->
  theme_lookup_icon g theme icon_name size scale allow_svg use_builtin
  = Ok (Some info) ->
  lookup_symbolic_pass g (pre ++ theme :: post) icon_name size scale
    allow_svg use_builtin = Ok (Some (info, theme)).
Proof.
  intros Hpre Hhit. induction Hpre as [|t pre Ht Hpre IH]; simpl.
  - now rewrite Hhit.
  - rewrite Ht. simpl. exact IH.
Qed.

Lemma lookup_symbolic_pass_none (g : Builtins) (l : list IconTheme)
    (icon_name : string) (size scale : Z) (allow_svg use_builtin : bool) :
  lookup_symbolic_pass g l icon_name size scale allow_svg use_builtin = Ok None
  <-> Forall (fun t => theme_lookup_icon g t icon_name size scale allow_svg
                         use_builtin = Ok None) l.
Proof.
  induction l as [|t l IH]; simpl; [split; [constructor | reflexivity] |].
  rewrite Forall_cons.
  destruct (theme_lookup_icon g t icon_name size scale allow_svg use_builtin)
    as [[info|]| |] eqn:Ht; simpl.
  - split; [discriminate | intros [H _]; discriminate].
  - rewrite IH. tauto.
  - split; [discriminate | intros [H _]; discriminate].
  - split; [discriminate | intros [H _]; discriminate].
Qed.

(** C4.  When the first candidate name ends in "-symbolic", the search
    tries that name against every active theme in theme order before
    anything else: the first theme that has it supplies the result, whatever
    the themes before it hold under the other candidate names; and only
    when no theme has it does the search fall back to the general pass over
    all candidate names (and then to the unthemed table). *)
Theorem symbolic_name_searched_first (g : Builtins)
    (priv : GtkIconThemePrivate) (first : string) (rest : list string)
    (size scale : Z) (allow_svg use_builtin : bool) :
  g_str_has_suffix first "-symbolic" = true ->
  (forall pre theme post info,
      themes priv = pre ++ theme :: post ->
      Forall (fun t => theme_lookup_icon g t first size scale allow_svg
                         use_builtin = Ok None) pre ->
      theme_lookup_icon g theme first size scale allow_svg use_builtin
      = Ok (Some info) ->
      find_icon g priv (first :: rest) size scale allow_svg use_builtin
      = Ok (Some (info, Some (theme, first))))
  /\ (Forall (fun t => theme_lookup_icon g t first size scale allow_svg
                         use_builtin = Ok None) (themes priv) ->
      find_icon g priv (first :: rest) size scale allow_svg use_builtin
      = find_icon_general g priv (first :: rest) size scale allow_svg
          use_builtin).
Proof.
  intros Hsym. unfold find_icon. rewrite Hsym. split.
  - intros pre theme post info Hthemes Hpre Hhit.
    rewrite Hthemes.
    now rewrite (lookup_symbolic_pass_first g pre post theme info first size
                   scale allow_svg use_builtin Hpre Hhit).
  - intros Hnone. apply lookup_symbolic_pass_none in Hnone.
    now rewrite Hnone.
Qed.

(** C4 on the child theme Foo (edit-cut as PNG only) and its parent Bar
    (edit-cut-symbolic as SVG), for the names edit-cut-symbolic, edit-cut:
    the parent's symbolic file is found, although the general pass alone
    would stop at the child's PNG. *)
Lemma symbolic_name_searched_first_witness :
  g_str_has_suffix "edit-cut-symbolic" "-symbolic" = true
  /\ found_filename
       (find_icon no_builtins priv_child_parent
          ["edit-cut-symbolic"; "edit-cut"] 24 1 true false)
     = Ok (Some "/usr/share/icons/Bar/scalable/edit-cut-symbolic.svg")
  /\ found_filename
       (find_icon_general no_builtins priv_child_parent
          ["edit-cut-symbolic"; "edit-cut"] 24 1 true false)
     = Ok (Some "/usr/share/icons/Foo/24x24/edit-cut.png").
Proof.
  assert (Hsym : g_str_has_suffix "edit-cut-symbolic" "-symbolic" = true)
    by reflexivity.
  split; [exact Hsym | split; [| vm_compute; reflexivity]].
  destruct (theme_lookup_icon no_builtins theme_parent "edit-cut-symbolic"
              24 1 true false) as [[info|]| |] eqn:Hparent;
    try (vm_compute in Hparent; discriminate).
  rewrite (proj1 (symbolic_name_searched_first no_builtins
                    priv_child_parent "edit-cut-symbolic" ["edit-cut"] 24 1
                    true false Hsym)
             [theme_child] theme_parent [] info eq_refl
             ltac:(repeat constructor) Hparent).
  vm_compute in Hparent. injection Hparent as <-. reflexivity.
Defined.

(** ** ThemeRegistry: staleness *)

Lemma set_trace_set_trace (t0 t1 : list event) (p : GtkIconThemePrivate) :
  set_trace t1 (set_trace t0 p) = set_trace t1 p.
Proof. reflexivity. Qed.

Lemma set_trace_same (p : GtkIconThemePrivate) : set_trace (trace p) p = p.
Proof. now destruct p. Qed.

Lemma dir_changed_dec (fs : FileSystem) (dir_mtime : IconThemeDirMtime) :
  {dir_changed fs dir_mtime} + {~ dir_changed fs dir_mtime}.
Proof.
  unfold dir_changed. destruct (fs_stat_dir fs (m_dir dir_mtime)) as [t|].
  - destruct (Z.eq_dec (m_mtime dir_mtime) t); [right | left]; tauto.
  - destruct (Z.eq_dec (m_mtime dir_mtime) 0); [right | left]; tauto.
Qed.

(** The loop of [rescan_themes] stats the tracked directories in order, up to
    and including the first one that changed, and touches nothing but the
    trace; it answers [true] exactly when some tracked directory changed. *)
Lemma rescan_dirs_spec (fs : FileSystem) (ds : list IconThemeDirMtime)
    (p : GtkIconThemePrivate) :
  exists stated rest,
    ds = stated ++ rest
    /\ snd (rescan_dirs fs ds p)
       = set_trace (trace p ++ map rescan_event stated) p
    /\ (fst (rescan_dirs fs ds p) = true <-> Exists (dir_changed fs) ds)
    /\ (fst (rescan_dirs fs ds p) = false -> rest = []).
Proof.
  revert p. induction ds as [|dm ds IH]; intros p.
  - exists [], []. simpl. rewrite app_nil_r, set_trace_same.
    repeat split; auto; try discriminate. intros H. inversion H.
  - simpl.
    assert (Hcase : (match fs_stat_dir fs (m_dir dm) with
                     | Some st_mtime => m_mtime dm =? st_mtime
                     | None => false
                     end
                     || (m_mtime dm =? 0)
                        && bool_decide (fs_stat_dir fs (m_dir dm) = None)) = true
                    <-> ~ dir_changed fs dm).
    { unfold dir_changed. destruct (fs_stat_dir fs (m_dir dm)) as [t|]; simpl.
      - rewrite andb_false_r, orb_false_r, Z.eqb_eq. split; [tauto |].
        intros H. destruct (Z.eq_dec (m_mtime dm) t); tauto.
      - rewrite andb_true_r, Z.eqb_eq. split; [tauto |].
        intros H. destruct (Z.eq_dec (m_mtime dm) 0); tauto. }
    destruct (dir_changed_dec fs dm) as [Hch|Hsame].
    + assert (Hno : match fs_stat_dir fs (m_dir dm) with
                    | Some st_mtime => m_mtime dm =? st_mtime
                    | None => false
                    end = false
                    /\ (m_mtime dm =? 0)
                       && bool_decide (fs_stat_dir fs (m_dir dm) = None) = false).
      { apply orb_false_elim. apply not_true_is_false. tauto. }
      destruct Hno as [-> ->].
      exists [dm], ds. simpl. repeat split; auto; discriminate.
    + destruct (IH (emit (EvStat IN_RESCAN_THEMES (m_dir dm)) p))
        as (stated & rest & Hds & Hsnd & Hfst & Hrest).
      assert (Hgo : rescan_dirs fs (dm :: ds) p
                    = rescan_dirs fs ds (emit (EvStat IN_RESCAN_THEMES (m_dir dm)) p)).
      { simpl. apply Hcase in Hsame. apply orb_true_iff in Hsame as [-> | ->];
          [reflexivity |].
        now destruct (match fs_stat_dir fs (m_dir dm) with
                      | Some st_mtime => m_mtime dm =? st_mtime
                      | None => false
                      end). }
      simpl in Hgo. rewrite Hgo.
      exists (dm :: stated), rest. split; [now rewrite Hds |].
      split; [| split].
      * rewrite Hsnd. unfold emit. rewrite set_trace_set_trace. simpl.
        now rewrite <- app_assoc.
      * rewrite Hfst. rewrite Exists_cons. tauto.
      * exact Hrest.
Qed.

Lemma rescan_themes_changed (fs : FileSystem) (now : Z)
    (p : GtkIconThemePrivate) :
  Exists (dir_changed fs) (dir_mtimes p) ->
  exists stated rest,
    dir_mtimes p = stated ++ rest
    /\ rescan_themes fs now p
       = (true, set_trace (trace p ++ map rescan_event stated) p).
Proof.
  intros Hch. unfold rescan_themes.
  destruct (rescan_dirs_spec fs (dir_mtimes p) p)
    as (stated & rest & Hds & Hsnd & Hfst & _).
  destruct (rescan_dirs fs (dir_mtimes p) p) as [changed q]. simpl in *.
  apply Hfst in Hch. subst changed. exists stated, rest. now rewrite Hsnd.
Qed.

Lemma rescan_themes_unchanged (fs : FileSystem) (now : Z)
    (p : GtkIconThemePrivate) :
  ~ Exists (dir_changed fs) (dir_mtimes p) ->
  rescan_themes fs now p
  = (false, set_last_stat_time now
              (set_trace (trace p ++ map rescan_event (dir_mtimes p)) p)).
Proof.
  intros Hsame. unfold rescan_themes.
  destruct (rescan_dirs_spec fs (dir_mtimes p) p)
    as (stated & rest & Hds & Hsnd & Hfst & Hrest).
  destruct (rescan_dirs fs (dir_mtimes p) p) as [changed q]. simpl in *.
  destruct changed; [tauto |].
  rewrite (Hrest eq_refl), app_nil_r in Hds. now rewrite Hsnd, Hds.
Qed.

Lemma purge_frame_refl (p : GtkIconThemePrivate) : purge_frame p p.
Proof.
  split; try reflexivity.
  - exists []. split; [now rewrite app_nil_r | constructor].
  - split; [lia | tauto].
Qed.

Lemma purge_frame_trans (p q r : GtkIconThemePrivate) :
  purge_frame p q -> purge_frame q r -> purge_frame p r.
Proof.
  intros [? ? ? ? ? ? ? ? ? ? ? (e1 & He1 & Hq1) [Hl1 Hn1]]
         [? ? ? ? ? ? ? ? ? ? ? (e2 & He2 & Hq2) [Hl2 Hn2]].
  split; try congruence.
  - exists (e1 ++ e2). split; [now rewrite He2, He1, app_assoc |].
    now apply Forall_app.
  - split; [lia | tauto].
Qed.

Lemma icon_info_uncached_frame (h : handle) (p : GtkIconThemePrivate) :
  purge_frame p (icon_info_uncached h p)
  /\ info_cache (icon_info_uncached h p) = info_cache p.
Proof.
  unfold icon_info_uncached.
  destruct (default false (i_in_cache <$> heap p !! h)).
  - unfold remove_from_lru_cache. simpl.
    destruct (g_list_find (info_cache_lru p) h) eqn:Hfind.
    + split; [| reflexivity]. split; try reflexivity.
      * exists [EvObjectUnref h]. split; [reflexivity | now repeat constructor].
      * simpl. split; [apply g_list_remove_length_le | apply g_list_remove_NoDup].
    + split; [| reflexivity]. split; try reflexivity.
      * exists []. split; [simpl; now rewrite app_nil_r | constructor].
      * simpl. split; [lia | tauto].
  - split; [| reflexivity]. split; try reflexivity.
    + exists []. split; [simpl; now rewrite app_nil_r | constructor].
    + simpl. split; [lia | tauto].
Qed.

(** Purging the primary cache empties it and keeps the rest. *)
Lemma info_cache_remove_all_frame (p : GtkIconThemePrivate) :
  purge_frame p (info_cache_remove_all p)
  /\ info_cache (info_cache_remove_all p) = [].
Proof.
  unfold info_cache_remove_all. split; [| reflexivity].
  assert (H : forall l q, purge_frame q
                (fold_left (fun p0 (entry : IconInfoKey * handle) =>
                              icon_info_uncached (snd entry) p0) l q)).
  { induction l as [|e l IH]; intros q; simpl; [apply purge_frame_refl |].
    eapply purge_frame_trans; [apply icon_info_uncached_frame | apply IH]. }
  specialize (H (info_cache p) p).
  eapply purge_frame_trans; [exact H |].
  split; try reflexivity.
  - exists []. split; [simpl; now rewrite app_nil_r | constructor].
  - simpl. split; [lia | tauto].
Qed.

Lemma purge_frame_lru_ok (p q : GtkIconThemePrivate) :
  purge_frame p q -> lru_ok p -> lru_ok q.
Proof.
  intros Hf [Hlen Hnd]. destruct (pf_lru p q Hf) as [Hl Hn].
  split; [lia | auto].
Qed.

(** A completed load is the frame of its insertions followed by the two
    final writes: the validity flag and the time of the stat pass. *)
Lemma load_themes_frame (fuel : nat) (fs : FileSystem) (now : Z)
    (p p' : GtkIconThemePrivate) :
  load_themes fuel fs now p = Ok p' ->
  exists q, load_frame p q
    /\ p' = set_last_stat_time now (set_themes_valid true q).
Proof.
  intros Hrun.
  destruct (load_themes_inv fuel fs now p p' Hrun)
    as (p2 & p3 & Huser & Hdef & _ & ->).
  eexists. split; [| reflexivity].
  pose proof (load_user_themes_growth fuel fs _ p2 Huser) as (Hf2 & _).
  pose proof (insert_theme_growth fuel fs p2 _ p3 Hdef) as (Hf3 & _).
  eapply load_frame_trans; [apply load_frame_set_all_icons |].
  eapply load_frame_trans; [exact Hf2 |].
  eapply load_frame_trans; [exact Hf3 |].
  eapply load_frame_trans; [apply load_frame_set_themes |].
  eapply load_frame_trans; [apply load_frame_set_unthemed_icons |].
  apply load_unthemed_roots_frame.
Qed.

Lemma signals_emitted_app (t1 t2 : list event) :
  signals_emitted (t1 ++ t2) = (signals_emitted t1 + signals_emitted t2)%nat.
Proof. unfold signals_emitted. now rewrite filter_app, length_app. Qed.

Lemma signals_emitted_quiet (evs : list event) :
  Forall is_quiet evs -> signals_emitted evs = O.
Proof.
  unfold signals_emitted. induction 1 as [|e evs He _ IH]; [reflexivity |].
  destruct e; simpl in He; try contradiction;
    rewrite filter_cons_False by discriminate; exact IH.
Qed.

Lemma is_load_stat_quiet (evs : list event) :
  Forall is_load_stat evs -> Forall is_quiet evs.
Proof.
  intros Hall. eapply Forall_impl; [exact Hall |].
  intros [] H; simpl in *; auto.
Qed.

Lemma rescan_events_quiet (l : list IconThemeDirMtime) :
  Forall is_quiet (map rescan_event l).
Proof. induction l; constructor; simpl; auto. Qed.

Lemma queue_theme_changed_spec (p : GtkIconThemePrivate) :
  theme_changed_idle (queue_theme_changed p) = true
  /\ signals_emitted (trace (queue_theme_changed p)) = signals_emitted (trace p)
  /\ info_cache (queue_theme_changed p) = info_cache p
  /\ themes_valid (queue_theme_changed p) = themes_valid p
  /\ last_stat_time (queue_theme_changed p) = last_stat_time p.
Proof.
  unfold queue_theme_changed.
  destruct (theme_changed_idle p) eqn:Hidle; simpl; [now rewrite Hidle |].
  repeat split; try reflexivity.
  rewrite signals_emitted_app. unfold signals_emitted at 2. simpl. lia.
Qed.

Lemma run_theme_changed_idle_spec (p : GtkIconThemePrivate) :
  theme_changed_idle (run_theme_changed_idle p) = false
  /\ signals_emitted (trace (run_theme_changed_idle p))
     = S (signals_emitted (trace p)).
Proof.
  split; [reflexivity |]. unfold run_theme_changed_idle. cbv zeta.
  assert (Hsig : signals_emitted (trace (emit EvSignalChanged p))
                 = S (signals_emitted (trace p))).
  { simpl. rewrite signals_emitted_app. unfold signals_emitted at 2. simpl. lia. }
  destruct (screen (emit EvSignalChanged p)) as [s|]; [| exact Hsig].
  destruct (is_screen_singleton (emit EvSignalChanged p)); [| exact Hsig].
  cbn [trace set_theme_changed_idle emit set_trace] in *.
  rewrite signals_emitted_app, Hsig. unfold signals_emitted at 2. simpl. lia.
Qed.

(** The four cases of a call that is not nested in a load in progress. *)
Lemma ensure_valid_themes_cases (fuel : nat) (fs : FileSystem) (now : Z)
    (p : GtkIconThemePrivate) :
  loading_themes p = false ->
  (themes_valid p = true -> Z.abs (now - last_stat_time p) <= 5 ->
   ensure_valid_themes fuel fs now p = Ok p)
  /\ (themes_valid p = true -> Z.abs (now - last_stat_time p) > 5 ->
      ~ Exists (dir_changed fs) (dir_mtimes p) ->
      ensure_valid_themes fuel fs now p
      = Ok (set_last_stat_time now
              (set_trace (trace p ++ map rescan_event (dir_mtimes p)) p)))
  /\ (themes_valid p = true -> Z.abs (now - last_stat_time p) > 5 ->
      Exists (dir_changed fs) (dir_mtimes p) ->
      forall p', ensure_valid_themes fuel fs now p = Ok p' ->
      exists torn q,
        themes torn = [] /\ dir_mtimes torn = [] /\ unthemed_icons torn = ∅
        /\ all_icons torn = ∅ /\ info_cache torn = []
        /\ themes_valid torn = false
        /\ search_path torn = search_path p
        /\ current_theme torn = current_theme p
        /\ load_themes fuel fs now torn = Ok q
        /\ p' = set_loading_themes false (queue_theme_changed q)
        /\ info_cache p' = [] /\ themes_valid p' = true
        /\ last_stat_time p' = now
        /\ theme_changed_idle p' = true
        /\ signals_emitted (trace p') = signals_emitted (trace p)
        /\ signals_emitted (trace (run_theme_changed_idle p'))
           = S (signals_emitted (trace p))
        /\ theme_changed_idle (run_theme_changed_idle p') = false)
  /\ (themes_valid p = false ->
      forall p', ensure_valid_themes fuel fs now p = Ok p' ->
      theme_changed_idle p' = theme_changed_idle p
      /\ signals_emitted (trace p') = signals_emitted (trace p)
      /\ rescan_stats (trace p') = rescan_stats (trace p)).
Proof.
  intros Hloading. unfold ensure_valid_themes. rewrite Hloading.
  refine (conj _ (conj _ (conj _ _))).
  - intros Hvalid Hnear. simpl. rewrite Hvalid.
    replace (Z.abs (now - last_stat_time p) >? 5) with false
      by (symmetry; rewrite Z.gtb_ltb; apply Z.ltb_ge; lia).
    cbn [themes_valid set_loading_themes]. rewrite Hvalid. simpl.
    destruct p; simpl in *; now subst.
  - intros Hvalid Hfar Hsame. simpl. rewrite Hvalid.
    replace (Z.abs (now - last_stat_time p) >? 5) with true
      by (symmetry; rewrite Z.gtb_ltb; apply Z.ltb_lt; lia).
    rewrite (rescan_themes_unchanged fs now (set_loading_themes true p) Hsame).
    cbn [themes_valid set_loading_themes set_last_stat_time set_trace].
    rewrite Hvalid. simpl. destruct p; simpl in *; now subst.
  - intros Hvalid Hfar Hchanged p'. simpl. rewrite Hvalid.
    replace (Z.abs (now - last_stat_time p) >? 5) with true
      by (symmetry; rewrite Z.gtb_ltb; apply Z.ltb_lt; lia).
    destruct (rescan_themes_changed fs now (set_loading_themes true p) Hchanged)
      as (stated & rest & _ & ->).
    set (pr := set_trace (trace (set_loading_themes true p)
                          ++ map rescan_event stated)
                 (set_loading_themes true p)).
    destruct (info_cache_remove_all_frame pr) as [Hpf Hempty].
    set (torn := blow_themes (info_cache_remove_all pr)).
    change (themes_valid torn) with false. cbv iota. simpl negb. cbv iota.
    destruct (load_themes fuel fs now torn) as [q| |] eqn:Hload;
      try discriminate.
    intros Hrun. simpl in Hrun. injection Hrun as <-.
    destruct (load_themes_frame fuel fs now torn q Hload) as (q0 & Hfr & Hq).
    destruct (queue_theme_changed_spec q) as (Hidle & Hsig & Hic & Hv & Hls).
    destruct (run_theme_changed_idle_spec
                (set_loading_themes false (queue_theme_changed q)))
      as (Hidle' & Hsig').
    assert (Hsigq : signals_emitted (trace q) = signals_emitted (trace p)).
    { rewrite Hq.
      change (trace (set_last_stat_time now (set_themes_valid true q0)))
        with (trace q0).
      destruct (fr_trace torn q0 Hfr) as (e1 & He1t & He1). rewrite He1t.
      destruct (pf_trace pr _ Hpf) as (e2 & He2 & Hq2).
      change (trace torn) with (trace (info_cache_remove_all pr)).
      rewrite He2.
      change (trace pr) with (trace p ++ map rescan_event stated).
      rewrite !signals_emitted_app.
      rewrite (signals_emitted_quiet e1) by now apply is_load_stat_quiet.
      rewrite (signals_emitted_quiet e2) by assumption.
      rewrite (signals_emitted_quiet (map rescan_event stated))
        by apply rescan_events_quiet.
      lia. }
    exists torn, q.
    do 6 (split; [reflexivity |]).
    split; [apply (pf_search_path pr _ Hpf) |].
    split; [apply (pf_current_theme pr _ Hpf) |].
    split; [exact Hload |]. split; [reflexivity |].
    split. { simpl. rewrite Hic, Hq. simpl.
             rewrite (fr_info_cache torn q0 Hfr). exact Hempty. }
    split. { simpl. rewrite Hv, Hq. reflexivity. }
    split. { simpl. rewrite Hls, Hq. reflexivity. }
    split; [exact Hidle |].
    assert (Hsigp : signals_emitted
                      (trace (set_loading_themes false (queue_theme_changed q)))
                    = signals_emitted (trace p)).
    { change (trace (set_loading_themes false (queue_theme_changed q)))
        with (trace (queue_theme_changed q)).
      now rewrite Hsig. }
    split; [exact Hsigp |].
    split; [| exact Hidle'].
    etransitivity; [exact Hsig' |]. now rewrite Hsigp.
  - intros Hinvalid p'. simpl. rewrite Hinvalid. simpl. rewrite Hinvalid. simpl.
    destruct (load_themes fuel fs now (set_loading_themes true p))
      as [q| |] eqn:Hload; try discriminate.
    intros Hrun. simpl in Hrun. injection Hrun as <-.
    destruct (load_themes_frame fuel fs now _ q Hload) as (q0 & Hfr & ->).
    cbn [theme_changed_idle trace set_loading_themes set_last_stat_time
         set_themes_valid].
    destruct (fr_trace _ q0 Hfr) as (e1 & He1t & He1). rewrite He1t.
    cbn [trace set_loading_themes].
    split; [apply (fr_theme_changed_idle _ q0 Hfr) |].
    split.
    + rewrite signals_emitted_app.
      rewrite (signals_emitted_quiet e1) by now apply is_load_stat_quiet. lia.
    + unfold rescan_stats. rewrite omap_app.
      assert (Hnone : omap (fun e => match e with
                                     | EvStat IN_RESCAN_THEMES path => Some path
                                     | _ => None
                                     end) e1 = []).
      { clear -He1. induction He1 as [|e l He _ IH]; [reflexivity |].
        simpl. destruct e as [| |site path| | |]; simpl in He; try contradiction.
        destruct site; try contradiction; exact IH. }
      now rewrite Hnone, app_nil_r.
Qed.


(** ** The LRU side list along a run *)

Lemma rescan_themes_lru (fs : FileSystem) (now : Z) (p : GtkIconThemePrivate) :
  info_cache_lru (snd (rescan_themes fs now p)) = info_cache_lru p.
Proof.
  unfold rescan_themes.
  destruct (rescan_dirs_spec fs (dir_mtimes p) p) as (stated & rest & _ & Hsnd & _).
  destruct (rescan_dirs fs (dir_mtimes p) p) as [changed q]. simpl in Hsnd.
  subst q. now destruct changed.
Qed.

Lemma do_theme_change_lru_ok (p : GtkIconThemePrivate) :
  lru_ok p -> lru_ok (do_theme_change p).
Proof.
  intros Hok. unfold do_theme_change.
  destruct (info_cache_remove_all_frame p) as [Hpf _].
  pose proof (purge_frame_lru_ok _ _ Hpf Hok) as Hok'.
  destruct (negb (themes_valid (info_cache_remove_all p))); [exact Hok' |].
  unfold queue_theme_changed.
  now destruct (negb (theme_changed_idle (blow_themes (info_cache_remove_all p)))).
Qed.

Lemma ensure_valid_themes_lru_ok (fuel : nat) (fs : FileSystem) (now : Z)
    (p p' : GtkIconThemePrivate) :
  lru_ok p -> ensure_valid_themes fuel fs now p = Ok p' -> lru_ok p'.
Proof.
  intros Hok. unfold ensure_valid_themes.
  destruct (loading_themes p); [now intros [= <-] |].
  set (p0 := set_loading_themes true p).
  assert (Hok0 : lru_ok p0) by exact Hok.
  set (p1 := if themes_valid p0 then _ else p0).
  assert (Hok1 : lru_ok p1).
  { subst p1. destruct (themes_valid p0); [| exact Hok0].
    destruct (Z.abs (now - last_stat_time p0) >? 5); [| exact Hok0].
    pose proof (rescan_themes_lru fs now p0) as Hlru.
    destruct (rescan_themes fs now p0) as [changed pr]. simpl in Hlru.
    assert (Hokr : lru_ok pr) by (unfold lru_ok; now rewrite Hlru).
    destruct changed; [| exact Hokr].
    destruct (info_cache_remove_all_frame pr) as [Hpf _].
    exact (purge_frame_lru_ok _ _ Hpf Hokr). }
  clearbody p1. clear Hok0. clearbody p0.
  destruct (negb (themes_valid p1)).
  - destruct (load_themes fuel fs now p1) as [q| |] eqn:Hload; simpl;
      try discriminate.
    intros [= <-].
    destruct (load_themes_frame fuel fs now p1 q Hload) as (q0 & Hfr & ->).
    assert (Hokq : lru_ok q0)
      by (unfold lru_ok; now rewrite (fr_info_cache_lru p1 q0 Hfr)).
    destruct (themes_valid p); [| exact Hokq].
    unfold queue_theme_changed.
    now destruct (negb (theme_changed_idle _)).
  - simpl. now intros [= <-].
Qed.

(** The idle callback writes the trace and clears the pending flag. *)
Lemma run_theme_changed_idle_fields (p : GtkIconThemePrivate) :
  exists evs,
    run_theme_changed_idle p
    = set_theme_changed_idle false (set_trace (trace p ++ evs) p).
Proof.
  unfold run_theme_changed_idle. cbv zeta.
  change (screen (emit EvSignalChanged p)) with (screen p).
  change (is_screen_singleton (emit EvSignalChanged p))
    with (is_screen_singleton p).
  destruct (screen p) as [s|]; [destruct (is_screen_singleton p) |].
  - exists [EvSignalChanged; EvResetWidgets s]. unfold emit. cbn.
    now rewrite <- app_assoc.
  - now exists [EvSignalChanged].
  - now exists [EvSignalChanged].
Qed.

(** The entry points that switch the theme (a screen, a change of its
    setting, a theme name set or unset by the application) write the theme
    name, the screen and the two flags, and may carry out a theme change: a
    property that survives those writes and a theme change survives them. *)
Lemma theme_switch_preserves (P : GtkIconThemePrivate -> Prop)
    (p : GtkIconThemePrivate) :
  (forall v q, P q -> P (set_current_theme v q)) ->
  (forall v q, P q -> P (set_custom_theme v q)) ->
  (forall v q, P q -> P (set_screen v q)) ->
  (forall v q, P q -> P (set_is_screen_singleton v q)) ->
  (forall q, P q -> P (do_theme_change q)) ->
  P p ->
  (forall gtk_icon_theme_name, P (update_current_theme gtk_icon_theme_name p))
  /\ (forall new_screen gtk_icon_theme_name,
        P (gtk_icon_theme_set_screen new_screen gtk_icon_theme_name p))
  /\ (forall theme_name gtk_icon_theme_name,
        P (gtk_icon_theme_set_custom_theme theme_name gtk_icon_theme_name p)).
Proof.
  intros Hcur Hcustom Hscreen Hsingle Hchange Hp.
  assert (Hupdate : forall settings q, P q -> P (update_current_theme settings q)).
  { intros settings q Hq. unfold update_current_theme.
    destruct (negb (custom_theme q)); [| exact Hq].
    destruct (theme_changed _ _); [| exact Hq].
    apply Hchange. now apply Hcur. }
  split; [intros settings; now apply Hupdate |]. split.
  - intros new_screen settings. unfold gtk_icon_theme_set_screen.
    apply Hupdate. now apply Hscreen.
  - intros theme_name settings. unfold gtk_icon_theme_set_custom_theme.
    destruct (is_screen_singleton p); [exact Hp |].
    destruct theme_name as [name|].
    + cbv zeta.
      destruct (match current_theme (set_custom_theme true p) with
                | Some current => negb (String.eqb name current)
                | None => true
                end).
      * apply Hchange. apply Hcur. now apply Hcustom.
      * now apply Hcustom.
    + destruct (custom_theme p); [| exact Hp].
      apply Hupdate. now apply Hcustom.
Qed.

(** The same for the state in which [gtk_icon_theme_get_for_screen] leaves a
    new icon theme. *)
Lemma for_screen_preserves (P : GtkIconThemePrivate -> Prop)
    (path : list string) (supports_svg : bool) (new_screen : GdkScreen)
    (gtk_icon_theme_name : GdkScreen -> option string) :
  (forall v q, P q -> P (set_current_theme v q)) ->
  (forall v q, P q -> P (set_custom_theme v q)) ->
  (forall v q, P q -> P (set_screen v q)) ->
  (forall v q, P q -> P (set_is_screen_singleton v q)) ->
  (forall q, P q -> P (do_theme_change q)) ->
  P (init_priv path supports_svg) ->
  P (gtk_icon_theme_for_screen path supports_svg new_screen gtk_icon_theme_name).
Proof.
  intros Hcur Hcustom Hscreen Hsingle Hchange Hp.
  unfold gtk_icon_theme_for_screen. apply Hsingle.
  now apply (theme_switch_preserves P (init_priv path supports_svg)).
Qed.

Section LruAlongRuns.
Context {bits : LookupFlagBits}.

(** A cache hit hands out the cached icon info and takes it off the LRU
    list. *)
Lemma choose_icon_hit (fuel : nat) (g : Builtins) (fs : FileSystem) (now : Z)
    (p p1 : GtkIconThemePrivate) (icon_names : list string)
    (size scale flags : Z) (h : handle) :
  ensure_valid_themes fuel fs now p = Ok p1 ->
  info_cache_lookup (info_cache p1)
    {| k_icon_names := icon_names; k_size := size; k_scale := scale;
       k_flags := flags |} = Some h ->
  choose_icon fuel g fs now p icon_names size scale flags
  = Ok (Some h, remove_from_lru_cache h (emit (EvObjectRef h) p1)).
Proof.
  intros Hvalid Hhit. unfold choose_icon. rewrite Hvalid. simpl.
  now rewrite Hhit.
Qed.

Lemma choose_icon_lru_ok (fuel : nat) (g : Builtins) (fs : FileSystem)
    (now : Z) (p : GtkIconThemePrivate) (icon_names : list string)
    (size scale flags : Z) (r : option handle * GtkIconThemePrivate) :
  lru_ok p ->
  choose_icon fuel g fs now p icon_names size scale flags = Ok r ->
  lru_ok (snd r).
Proof.
  intros Hok. unfold choose_icon.
  destruct (ensure_valid_themes fuel fs now p) as [p1| |] eqn:Hvalid;
    try discriminate.
  pose proof (ensure_valid_themes_lru_ok fuel fs now p p1 Hok Hvalid) as Hok1.
  simpl.
  destruct (info_cache_lookup (info_cache p1) _) as [h|].
  - intros [= <-]. simpl.
    now apply (remove_from_lru_cache_ok h (emit (EvObjectRef h) p1)).
  - destruct (find_icon g p1 icon_names size scale _ _) as [[[info origin]|]| |];
      simpl; try discriminate.
    + destruct (match origin with
                | Some (theme, icon_name) => _
                | None => Ok None
                end) as [u| |]; simpl; try discriminate.
      now intros [= <-].
    + now intros [= <-].
Qed.

Lemma run_op_lru_ok (g : Builtins) (op : theme_op)
    (p p' : GtkIconThemePrivate) :
  lru_ok p -> run_op g op p = Ok p' -> lru_ok p'.
Proof.
  intros Hok. destruct op; simpl.
  - destruct (choose_icon fuel g fs now p icon_names size scale flags)
      as [r| |] eqn:Hrun; simpl; try discriminate.
    intros [= <-]. eapply choose_icon_lru_ok; eassumption.
  - unfold proxy_pixbuf_destroy.
    destruct (default false (i_in_cache <$> heap p !! icon_info)).
    + destruct (ensure_in_lru_cache_ok icon_info p Hok) as (q & -> & Hq & _).
      simpl. now intros [= <-].
    + simpl. now intros [= <-].
  - intros [= <-]. unfold gtk_icon_info_finalize.
    destruct (heap p !! icon_info) as [info|]; [| exact Hok].
    destruct (i_in_cache info); [| exact Hok].
    destruct (i_key info) as [key|]; [| exact Hok].
    destruct (info_cache_take (info_cache p) key) as [rest [value|]];
      [| exact Hok].
    destruct (icon_info_uncached_frame value (set_info_cache rest p)) as [Hpf _].
    exact (purge_frame_lru_ok _ _ Hpf Hok).
  - intros [= <-]. unfold gtk_icon_theme_rescan_if_needed.
    pose proof (rescan_themes_lru fs now p) as Hlru.
    destruct (rescan_themes fs now p) as [changed pr]. simpl in Hlru.
    assert (Hokr : lru_ok pr) by (unfold lru_ok; now rewrite Hlru).
    destruct changed; simpl; [now apply do_theme_change_lru_ok | exact Hokr].
  - intros [= <-]. unfold gtk_icon_theme_set_search_path.
    now apply do_theme_change_lru_ok.
  - intros [= <-].
    destruct (theme_switch_preserves lru_ok p) as (_ & _ & H);
      auto using do_theme_change_lru_ok.
  - intros [= <-].
    destruct (theme_switch_preserves lru_ok p) as (_ & H & _);
      auto using do_theme_change_lru_ok.
  - intros [= <-].
    destruct (theme_switch_preserves lru_ok p) as (H & _ & _);
      auto using do_theme_change_lru_ok.
  - now apply ensure_valid_themes_lru_ok.
  - intros [= <-]. destruct (run_theme_changed_idle_fields p) as [evs ->].
    exact Hok.
Qed.

Lemma reachable_lru_ok (g : Builtins) (p : GtkIconThemePrivate) :
  reachable g p -> lru_ok p.
Proof.
  assert (Hinit : forall path supports_svg, lru_ok (init_priv path supports_svg)).
  { intros path supports_svg.
    split; [simpl; unfold INFO_CACHE_LRU_SIZE; lia | constructor]. }
  induction 1 as [path supports_svg | path supports_svg new_screen settings
                  | op p p' _ IH Hrun].
  - apply Hinit.
  - apply (for_screen_preserves lru_ok); auto using do_theme_change_lru_ok.
  - eapply run_op_lru_ok; eassumption.
Qed.

(** A run of entry points from a reachable state ends in a reachable
    state. *)
Lemma reachable_run_ops (g : Builtins) (ops : list theme_op) :
  forall p p', reachable g p -> run_ops g ops p = Ok p' -> reachable g p'.
Proof.
  induction ops as [|op ops IH]; intros p p' Hp Hrun; simpl in Hrun.
  - now injection Hrun as <-.
  - destruct (run_op g op p) as [p1| |] eqn:Hop; try discriminate.
    simpl in Hrun. eapply IH; [| exact Hrun].
    eapply reachable_step; eassumption.
Qed.

(** C5.  In every state an icon theme reaches, the LRU side list holds at
    most 32 entries, each once.  From such a state, parking an entry never
    fails and leaves it at the head of a list of at most 32 entries; parking
    a new entry on a full list first drops the reference of the tail entry
    (the least recently touched one) and removes it; parking an entry that
    is already on the list moves it to the head without adding a copy; and a
    hit in the primary cache takes the entry off the list. *)
Theorem lru_never_exceeds_32 (g : Builtins) (p : GtkIconThemePrivate) :
  reachable g p ->
  ((length (info_cache_lru p) <= 32)%nat /\ NoDup (info_cache_lru p))
  /\ (forall h, exists p', ensure_in_lru_cache h p = Ok p'
        /\ (length (info_cache_lru p') <= 32)%nat
        /\ NoDup (info_cache_lru p')
        /\ head (info_cache_lru p') = Some h)
  /\ (forall h front victim,
        h ∉ info_cache_lru p ->
        info_cache_lru p = front ++ [victim] -> length front = 31%nat ->
        exists p', ensure_in_lru_cache h p = Ok p'
          /\ info_cache_lru p' = h :: front
          /\ trace p' = trace p ++ [EvObjectUnref victim; EvObjectRef h])
  /\ (forall h, h ∈ info_cache_lru p ->
        exists p', ensure_in_lru_cache h p = Ok p'
          /\ info_cache_lru p' = h :: g_list_remove (info_cache_lru p) h
          /\ length (info_cache_lru p') = length (info_cache_lru p)
          /\ trace p' = trace p)
  /\ (forall fuel fs now icon_names size scale flags p1 h,
        ensure_valid_themes fuel fs now p = Ok p1 ->
        info_cache_lookup (info_cache p1)
          {| k_icon_names := icon_names; k_size := size; k_scale := scale;
             k_flags := flags |} = Some h ->
        exists p', choose_icon fuel g fs now p icon_names size scale flags
                   = Ok (Some h, p')
          /\ (h ∉ info_cache_lru p')
          /\ (length (info_cache_lru p') <= 32)%nat).
Proof.
  intros Hreach. pose proof (reachable_lru_ok g p Hreach) as Hok.
  split; [exact Hok |]. split; [| split; [| split]].
  - intros h. destruct (ensure_in_lru_cache_ok h p Hok) as (p' & Hrun & [Hl Hn] & Hh).
    exists p'. auto.
  - intros h front victim Hnotin Hlru Hlen.
    apply (ensure_in_lru_cache_full h victim front p Hnotin Hlru).
    unfold INFO_CACHE_LRU_SIZE. lia.
  - intros h Hin. rewrite (ensure_in_lru_cache_present h p Hin).
    eexists. split; [reflexivity |]. split; [reflexivity |].
    split; [| reflexivity]. simpl.
    now rewrite (g_list_remove_length (info_cache_lru p) h Hin).
  - intros fuel fs now icon_names size scale flags p1 h Hvalid Hhit.
    rewrite (choose_icon_hit fuel g fs now p p1 icon_names size scale flags h
               Hvalid Hhit).
    eexists. split; [reflexivity |].
    pose proof (ensure_valid_themes_lru_ok fuel fs now p p1 Hok Hvalid) as Hok1.
    destruct (remove_from_lru_cache_ok h (emit (EvObjectRef h) p1) Hok1)
      as [[Hl _] Hnotin].
    split; [exact Hnotin | exact Hl].
Qed.

End LruAlongRuns.

(** C5 on the state after thirty-three lookups and thirty-two releases: the
    list holds the icon infos 31, ..., 0.  Parking the icon info 32, which
    is in the primary cache and not on the list, drops the reference of 0,
    the tail, and puts 32 at the head; parking 5 again moves it to the head
    of a list of the same length; and the lookup of the size 19 again hits
    the primary cache and takes the icon info 3 off the list. *)
Lemma lru_never_exceeds_32_witness :
  exists p,
    @run_ops gtk3_flag_bits no_builtins ops_fill_lru priv_fresh = Ok p
    /\ @reachable gtk3_flag_bits no_builtins p
    /\ info_cache_lru p = rev (seq 0 32)
    /\ is_cached p 32%nat = true
    /\ (exists p', ensure_in_lru_cache 32%nat p = Ok p'
          /\ info_cache_lru p' = 32%nat :: rev (seq 1 31)
          /\ trace p' = trace p ++ [EvObjectUnref 0%nat; EvObjectRef 32%nat])
    /\ (exists p', ensure_in_lru_cache 5%nat p = Ok p'
          /\ info_cache_lru p' = 5%nat :: (rev (seq 6 26) ++ rev (seq 0 5))
          /\ length (info_cache_lru p') = 32%nat
          /\ trace p' = trace p)
    /\ (exists p', @choose_icon gtk3_flag_bits 3 no_builtins fs_gnome_only 0 p
                     ["edit-cut"] 19 1 0 = Ok (Some 3%nat, p')
          /\ (3%nat ∉ info_cache_lru p')
          /\ (length (info_cache_lru p') <= 32)%nat).
Proof.
  assert (Hrun : exists p,
            @run_ops gtk3_flag_bits no_builtins ops_fill_lru priv_fresh = Ok p
            /\ info_cache_lru p = rev (seq 0 32)
            /\ is_cached p 32%nat = true
            /\ exists p1,
                 ensure_valid_themes 3 fs_gnome_only 0 p = Ok p1
                 /\ info_cache_lookup (info_cache p1)
                      {| k_icon_names := ["edit-cut"]; k_size := 19;
                         k_scale := 1; k_flags := 0 |} = Some 3%nat).
  { eexists. split; [vm_compute; reflexivity |].
    split; [vm_compute; reflexivity |]. split; [vm_compute; reflexivity |].
    eexists. split; vm_compute; reflexivity. }
  destruct Hrun as (p & Hrun & Hlru & Hcached & p1 & Hvalid & Hhit).
  assert (Hreach : @reachable gtk3_flag_bits no_builtins p).
  { eapply reachable_run_ops; [| exact Hrun]. apply reachable_init. }
  destruct (@lru_never_exceeds_32 gtk3_flag_bits no_builtins p Hreach)
    as (_ & _ & Hfull & Hmove & Hhitp).
  exists p. split; [exact Hrun |]. split; [exact Hreach |].
  split; [exact Hlru |]. split; [exact Hcached |].
  split; [| split].
  - destruct (Hfull 32%nat (rev (seq 1 31)) 0%nat) as (p' & Hp' & Hl' & Ht').
    + rewrite Hlru. intros Hin. apply list_elem_of_In, in_rev, in_seq in Hin. lia.
    + rewrite Hlru. reflexivity.
    + reflexivity.
    + exists p'. auto.
  - destruct (Hmove 5%nat) as (p' & Hp' & Hl' & Hn' & Ht').
    + rewrite Hlru, list_elem_of_In, <- in_rev, in_seq. lia.
    + exists p'. split; [exact Hp' |]. rewrite Hn', Hl', Hlru.
      split; [reflexivity |]. split; [reflexivity | exact Ht'].
  - destruct (Hhitp 3%nat fs_gnome_only 0 ["edit-cut"] 19 1 0 p1 3%nat Hvalid Hhit)
      as (p' & Hp' & Hnot & Hlen).
    exists p'. auto.
Defined.

(** ** Symbolic recolouring: reuse of rendered rasters *)







(** C9 on an empty memo list: a request for grey renders raster 0; a request
    whose red channel is off by 0.00005 gets raster 0 again and adds nothing;
    a request whose red channel is off by 0.0002 renders raster 1 into a
    cell of its own. *)
Example symbolic_render_near_and_far :
  let first := load_symbolic_internal (render_fresh 0) [] (Some grey) None
                 None None true in
  let near := load_symbolic_internal (render_fresh 1) (snd first)
                (Some grey_near) None None None true in
  let far := load_symbolic_internal (render_fresh 1) (snd first)
               (Some grey_far) None None None true in
  fst first = Some 0%nat /\ length (snd first) = 1%nat
  /\ fst near = Some 0%nat /\ snd near = snd first
  /\ fst far = Some 1%nat /\ map sc_pixbuf (snd far) = [1%nat; 0%nat].
Proof. vm_compute. repeat split; reflexivity. Qed.


(* ===================================================================== *)
(** * Part III: further properties of the code                            *)
(* ===================================================================== *)

(** ** Strings *)

Lemma string_app_nil (b : string) : ("" ++ b)%string = b.
Proof. reflexivity. Qed.

Lemma string_app_cons (x : ascii) (a b : string) :
  (String x a ++ b)%string = String x (a ++ b).
Proof. reflexivity. Qed.

Ltac string_simpl := rewrite ?string_app_nil, ?string_app_cons; simpl.

Lemma string_app_assoc (a b c : string) :
  ((a ++ b) ++ c)%string = (a ++ (b ++ c))%string.
Proof. induction a as [|x a IH]; string_simpl; congruence. Qed.

Lemma string_length_app (a b : string) :
  String.length (a ++ b) = (String.length a + String.length b)%nat.
Proof. induction a as [|x a IH]; string_simpl; [reflexivity | now rewrite IH]. Qed.

Lemma substring_0_0 (s : string) : substring 0 0 s = "".
Proof. now destruct s. Qed.

Lemma substring_0_app (a b : string) :
  substring 0 (String.length a) (a ++ b) = a.
Proof.
  induction a as [|x a IH]; string_simpl; [apply substring_0_0 | now rewrite IH].
Qed.

Lemma substring_0_length (s : string) : substring 0 (String.length s) s = s.
Proof. induction s as [|x s IH]; simpl; [reflexivity | now rewrite IH]. Qed.

Lemma substring_skip_app (a b : string) :
  substring (String.length a) (String.length b) (a ++ b) = b.
Proof.
  induction a as [|x a IH]; string_simpl; [apply substring_0_length | exact IH].
Qed.

Lemma substring_split (s : string) (n : nat) :
  (n <= String.length s)%nat ->
  s = (substring 0 n s ++ substring n (String.length s - n) s)%string.
Proof.
  revert n. induction s as [|x s IH]; intros [|n] Hn; simpl in *;
    try reflexivity; try lia.
  - string_simpl. now rewrite substring_0_length.
  - string_simpl. f_equal. apply IH. lia.
Qed.

(** A string with a given suffix is some head followed by that suffix. *)
Lemma g_str_has_suffix_split (str suffix : string) :
  g_str_has_suffix str suffix = true ->
  str = (substring 0 (String.length str - String.length suffix) str
         ++ suffix)%string.
Proof.
  unfold g_str_has_suffix.
  destruct (Nat.ltb_spec (String.length str) (String.length suffix)) as [|Hle];
    [discriminate |].
  intros Heq. apply String.eqb_eq in Heq.
  rewrite (substring_split str (String.length str - String.length suffix))
    at 1 by lia.
  f_equal. rewrite <- Heq at 3. f_equal. lia.
Qed.

(** Whether [a ++ s] ends in [t], for [s] and [t] of the same length. *)
Lemma g_str_has_suffix_app (a s t : string) :
  String.length s = String.length t ->
  g_str_has_suffix (a ++ s) t = String.eqb s t.
Proof.
  intros Hlen. unfold g_str_has_suffix. rewrite string_length_app.
  destruct (Nat.ltb_spec (String.length a + String.length s)
              (String.length t)); [lia |].
  replace (String.length a + String.length s - String.length t)%nat
    with (String.length a) by lia.
  rewrite <- Hlen. now rewrite substring_skip_app.
Qed.

Lemma strrchr_index_app (a t : string) (c : ascii) :
  strrchr_index t c = None ->
  strrchr_index (a ++ String c t) c = Some (String.length a).
Proof.
  intros Ht. induction a as [|x a IH]; string_simpl.
  - rewrite Ht. now rewrite Ascii.eqb_refl.
  - now rewrite IH.
Qed.

(** [strrchr] finds the last occurrence: what follows it holds no other. *)
Lemma strrchr_index_Some (s : string) (c : ascii) (i : nat) :
  strrchr_index s c = Some i ->
  exists tail,
    s = (substring 0 i s ++ String c tail)%string
    /\ strrchr_index tail c = None.
Proof.
  revert i. induction s as [|x s IH]; intros i; simpl; [discriminate |].
  destruct (strrchr_index s c) as [j|] eqn:Hs.
  - intros [= <-]. destruct (IH j eq_refl) as (tail & Heq & Htail).
    exists tail. split; [| exact Htail]. string_simpl. now rewrite <- Heq.
  - destruct (Ascii.eqb_spec x c) as [-> |]; [| discriminate].
    intros [= <-]. exists s. split; [reflexivity | exact Hs].
Qed.

Lemma strrchr_dash_None (s : string) :
  strrchr_index s "-"%char = None <-> count_dashes s = O.
Proof.
  induction s as [|x s IH]; simpl; [tauto |].
  destruct (strrchr_index s "-"%char) as [j|].
  - split; [discriminate |]. destruct (Ascii.eqb x "-"%char); [discriminate |].
    intros H. apply IH in H. discriminate.
  - destruct (Ascii.eqb x "-"%char); [split; discriminate |].
    split; intros _; [now apply IH | reflexivity].
Qed.

Lemma count_dashes_app (a b : string) :
  count_dashes (a ++ b) = (count_dashes a + count_dashes b)%nat.
Proof.
  induction a as [|x a IH]; string_simpl; [reflexivity |].
  destruct (Ascii.eqb x "-"%char); simpl; now rewrite IH.
Qed.

(** ** SuffixClassifier: file names and back *)

Lemma suffix_from_name_app (base ext : string) :
  String.length ext = 4%nat ->
  suffix_from_name (base ++ ext)
  = (if String.eqb ext ".png" then ICON_SUFFIX_PNG
     else if String.eqb ext ".svg" then ICON_SUFFIX_SVG
     else if String.eqb ext ".xpm" then ICON_SUFFIX_XPM
     else ICON_SUFFIX_NONE).
Proof.
  intros Hlen. unfold suffix_from_name.
  now rewrite !g_str_has_suffix_app by exact Hlen.
Qed.

(** The three recognised suffixes all have the shape handled by
    [strip_suffix] and [suffix_from_name]: a dot and three letters. *)
Lemma string_from_suffix_Ok (suffix : Z) (ext : string) :
  string_from_suffix suffix = Ok ext ->
  (suffix = ICON_SUFFIX_XPM /\ ext = ".xpm")
  \/ (suffix = ICON_SUFFIX_SVG /\ ext = ".svg")
  \/ (suffix = ICON_SUFFIX_PNG /\ ext = ".png").
Proof.
  unfold string_from_suffix.
  destruct (Z.eqb_spec suffix ICON_SUFFIX_XPM);
    [intros [= <-]; now left |].
  destruct (Z.eqb_spec suffix ICON_SUFFIX_SVG);
    [intros [= <-]; right; now left |].
  destruct (Z.eqb_spec suffix ICON_SUFFIX_PNG);
    [intros [= <-]; right; now right | discriminate].
Qed.

Lemma strip_suffix_app (base rest : string) :
  strrchr_index rest "."%char = None ->
  strip_suffix (base ++ String "."%char rest) = base.
Proof.
  intros Hrest. unfold strip_suffix.
  rewrite strrchr_index_app by exact Hrest. apply substring_0_app.
Qed.

(** X1.  A file name made of a base name and the extension of a recognised
    format is taken apart again into that base name and that format,
    whatever dots or dashes the base name contains; and only the three
    formats XPM, SVG and PNG have an extension at all. *)
Theorem icon_file_name_round_trip (base : string) (suffix : Z) (ext : string) :
  string_from_suffix suffix = Ok ext ->
  suffix_from_name (base ++ ext) = suffix
  /\ strip_suffix (base ++ ext) = base
  /\ suffix <> ICON_SUFFIX_NONE
  /\ (forall other,
        other <> ICON_SUFFIX_XPM -> other <> ICON_SUFFIX_SVG ->
        other <> ICON_SUFFIX_PNG -> string_from_suffix other = Abort).
Proof.
  intros Hext. split; [| split; [| split]].
  - destruct (string_from_suffix_Ok _ _ Hext) as [[-> ->]|[[-> ->]|[-> ->]]];
      now rewrite suffix_from_name_app.
  - destruct (string_from_suffix_Ok _ _ Hext) as [[_ ->]|[[_ ->]|[_ ->]]];
      now apply strip_suffix_app.
  - destruct (string_from_suffix_Ok _ _ Hext) as [[-> _]|[[-> _]|[-> _]]];
      discriminate.
  - intros other Hx Hs Hp. unfold string_from_suffix.
    destruct (Z.eqb_spec other ICON_SUFFIX_XPM); [tauto |].
    destruct (Z.eqb_spec other ICON_SUFFIX_SVG); [tauto |].
    destruct (Z.eqb_spec other ICON_SUFFIX_PNG); [tauto | reflexivity].
Qed.

(** X1 at the file name of a symbolic icon with a dotted base name. *)
Lemma icon_file_name_round_trip_witness :
  string_from_suffix ICON_SUFFIX_SVG = Ok ".svg"
  /\ suffix_from_name "org.gnome.Files-symbolic.svg" = ICON_SUFFIX_SVG
  /\ strip_suffix "org.gnome.Files-symbolic.svg" = "org.gnome.Files-symbolic".
Proof.
  split; [reflexivity |].
  pose proof (icon_file_name_round_trip "org.gnome.Files-symbolic"
                ICON_SUFFIX_SVG ".svg" eq_refl) as (H1 & H2 & _).
  split; [exact H1 | exact H2].
Defined.

(** ** ThemeIndex: what a directory scan records *)

Lemma has_bit_lor (a b bit : Z) :
  has_bit (Z.lor a b) bit = has_bit a bit || has_bit b bit.
Proof.
  unfold has_bit. rewrite Z.land_lor_distr_l.
  destruct (Z.eqb_spec (Z.land a bit) 0) as [Ha|Ha];
    destruct (Z.eqb_spec (Z.land b bit) 0) as [Hb|Hb];
    destruct (Z.eqb_spec (Z.lor (Z.land a bit) (Z.land b bit)) 0) as [Hab|Hab];
    try reflexivity; exfalso.
  - apply Hab. now apply Z.lor_eq_0_iff.
  - apply Z.lor_eq_0_iff in Hab. tauto.
  - apply Z.lor_eq_0_iff in Hab. tauto.
  - apply Z.lor_eq_0_iff in Hab. tauto.
Qed.

Lemma suffix_from_name_cases (name : string) :
  suffix_from_name name = ICON_SUFFIX_NONE \/ is_format (suffix_from_name name).
Proof.
  unfold suffix_from_name, is_format.
  destruct (g_str_has_suffix name ".png"); [tauto |].
  destruct (g_str_has_suffix name ".svg"); [tauto |].
  destruct (g_str_has_suffix name ".xpm"); tauto.
Qed.

Lemma has_bit_format (suffix bit : Z) :
  suffix = ICON_SUFFIX_NONE \/ is_format suffix -> is_format bit ->
  has_bit suffix bit = true <-> suffix = bit.
Proof.
  unfold is_format.
  intros [-> |[-> |[-> | ->]]] [-> |[-> | ->]]; vm_compute; split; congruence.
Qed.

(** A sidecar file name is not an image file name. *)
Lemma icon_file_not_image (name : string) :
  g_str_has_suffix name ".icon" = true ->
  suffix_from_name name = ICON_SUFFIX_NONE.
Proof.
  intros H. apply g_str_has_suffix_split in H. rewrite H.
  change ".icon" with ("." ++ "icon")%string.
  rewrite <- string_app_assoc. now rewrite suffix_from_name_app.
Qed.

(** One iteration of the [while ((name = g_dir_read_name (gdir)))] loop. *)
Lemma scan_directory_fold (names : list string)
    (icons0 : gmap string Z) (all0 : gset string) :
  let acc :=
    fold_left
      (fun (acc : gmap string Z * gset string) name =>
         if g_str_has_suffix name ".icon" then acc
         else
           let suffix := suffix_from_name name in
           if suffix =? ICON_SUFFIX_NONE then acc
           else
             let base_name := strip_suffix name in
             let hash_suffix := default 0 (fst acc !! base_name) in
             (<[base_name := Z.lor hash_suffix suffix]> (fst acc),
              {[base_name]} ∪ snd acc))
      names (icons0, all0) in
  (forall base bit, is_format bit ->
     has_bit (default 0 (fst acc !! base)) bit = true
     <-> has_bit (default 0 (icons0 !! base)) bit = true
         \/ exists name, In name names /\ suffix_from_name name = bit
                         /\ strip_suffix name = base)
  /\ (forall base,
        base ∈ snd acc
        <-> base ∈ all0
            \/ exists name, In name names
                            /\ suffix_from_name name <> ICON_SUFFIX_NONE
                            /\ strip_suffix name = base).
Proof.
  revert icons0 all0. induction names as [|name names IH]; intros icons0 all0.
  - simpl. split; intros; split; try tauto; intros [?|(? & [] & _)]; assumption.
  - cbn [fold_left]. cbv zeta.
    destruct (g_str_has_suffix name ".icon") eqn:Hicon.
    { pose proof (icon_file_not_image name Hicon) as Hnone.
      destruct (IH icons0 all0) as [IH1 IH2]. cbv zeta in IH1, IH2.
      split.
      - intros base bit Hbit. rewrite (IH1 base bit Hbit). split.
        + intros [?|(n & Hin & Hn)]; [now left | right].
          exists n. split; [now right | exact Hn].
        + intros [?|(n & [<-|Hin] & Hs & Hb)]; [now left | | right; eauto].
          exfalso. rewrite Hnone in Hs. subst bit.
          destruct Hbit as [?|[?|?]]; discriminate.
      - intros base. rewrite (IH2 base). split.
        + intros [?|(n & Hin & Hn)]; [now left | right].
          exists n. split; [now right | exact Hn].
        + intros [?|(n & [<-|Hin] & Hs & Hb)]; [now left | | right; eauto].
          congruence. }
    destruct (Z.eqb_spec (suffix_from_name name) ICON_SUFFIX_NONE) as [Hnone|Hsome].
    { destruct (IH icons0 all0) as [IH1 IH2]. cbv zeta in IH1, IH2.
      split.
      - intros base bit Hbit. rewrite (IH1 base bit Hbit). split.
        + intros [?|(n & Hin & Hn)]; [now left | right].
          exists n. split; [now right | exact Hn].
        + intros [?|(n & [<-|Hin] & Hs & Hb)]; [now left | | right; eauto].
          exfalso. rewrite Hnone in Hs. subst bit.
          destruct Hbit as [?|[?|?]]; discriminate.
      - intros base. rewrite (IH2 base). split.
        + intros [?|(n & Hin & Hn)]; [now left | right].
          exists n. split; [now right | exact Hn].
        + intros [?|(n & [<-|Hin] & Hs & Hb)]; [now left | | right; eauto].
          congruence. }
    cbn [fst snd].
    match goal with
    | |- context [fold_left ?f names (?i1, ?a1)] =>
        destruct (IH i1 a1) as [IH1 IH2]
    end.
    cbv zeta in IH1, IH2. split.
    + intros base bit Hbit. rewrite (IH1 base bit Hbit).
      destruct (decide (strip_suffix name = base)) as [Heq|Hne].
      * subst base. rewrite lookup_insert_eq. cbn [default from_option id].
        rewrite has_bit_lor.
        rewrite orb_true_iff.
        rewrite (has_bit_format (suffix_from_name name) bit)
          by (auto using suffix_from_name_cases).
        split.
        -- intros [[?|Hs]|(n & Hin & Hn)].
           ++ now left.
           ++ right. exists name. split; [now left | split; [exact Hs | reflexivity]].
           ++ right. exists n. split; [now right | exact Hn].
        -- intros [?|(n & [<-|Hin] & Hs & Hb)].
           ++ left. now left.
           ++ left. now right.
           ++ right. eauto.
      * rewrite lookup_insert_ne by exact Hne. split.
        -- intros [?|(n & Hin & Hn)]; [now left | right].
           exists n. split; [now right | exact Hn].
        -- intros [?|(n & [<-|Hin] & Hs & Hb)]; [now left | tauto | right; eauto].
    + intros base. rewrite (IH2 base). rewrite elem_of_union, elem_of_singleton.
      split.
      * intros [[-> |?]|(n & Hin & Hn)].
        -- right. exists name. split; [now left | split; [exact Hsome | reflexivity]].
        -- now left.
        -- right. exists n. split; [now right | exact Hn].
      * intros [?|(n & [<-|Hin] & Hs & Hb)].
        -- left. now right.
        -- left. left. now symmetry.
        -- right. eauto.
Qed.

(** X2.  After the scan of a theme directory, the table of the directory
    has the bit of a format set under a base name exactly when the listing
    holds a file made of that base name and the extension of that format;
    the set of all icon names grows by exactly the base names of such
    files.  Sidecar files (.icon) and files of other types leave no trace,
    and a directory that cannot be opened is scanned as an empty one. *)
Theorem scan_directory_records (fs : FileSystem) (all_icons : gset string)
    (full_dir : string) :
  let names := default [] (fs_read_dir fs full_dir) in
  let scanned := scan_directory fs all_icons full_dir in
  (forall base bit, is_format bit ->
     has_bit (default 0 (fst scanned !! base)) bit = true
     <-> exists name, In name names /\ suffix_from_name name = bit
                      /\ strip_suffix name = base)
  /\ (forall base,
        base ∈ snd scanned
        <-> base ∈ all_icons
            \/ exists name, In name names
                            /\ suffix_from_name name <> ICON_SUFFIX_NONE
                            /\ strip_suffix name = base)
  /\ (forall base ext suffix,
        string_from_suffix suffix = Ok ext ->
        In (base ++ ext)%string names ->
        has_bit (default 0 (fst scanned !! base)) suffix = true
        /\ base ∈ snd scanned).
Proof.
  intros names scanned.
  assert (Hfold : (forall base bit, is_format bit ->
     has_bit (default 0 (fst scanned !! base)) bit = true
     <-> exists name, In name names /\ suffix_from_name name = bit
                      /\ strip_suffix name = base)
  /\ (forall base,
        base ∈ snd scanned
        <-> base ∈ all_icons
            \/ exists name, In name names
                            /\ suffix_from_name name <> ICON_SUFFIX_NONE
                            /\ strip_suffix name = base)).
  { subst names scanned. unfold scan_directory.
    destruct (fs_read_dir fs full_dir) as [names|]; cbn [default].
    - destruct (scan_directory_fold names ∅ all_icons) as [H1 H2].
      cbv zeta in H1, H2. split; [| exact H2].
      intros base bit Hbit. rewrite (H1 base bit Hbit).
      rewrite lookup_empty. cbn [default]. split; [| tauto].
      intros [H|H]; [| exact H]. destruct Hbit as [-> |[-> | ->]]; discriminate.
    - cbn [fst snd]. split.
      + intros base bit Hbit. rewrite lookup_empty. cbn [default]. split.
        * destruct Hbit as [-> |[-> | ->]]; discriminate.
        * intros (? & [] & _).
      + intros base. split; [tauto |]. intros [?|(? & [] & _)]. assumption. }
  destruct Hfold as [H1 H2]. split; [exact H1 | split; [exact H2 |]].
  intros base ext suffix Hext Hin.
  assert (Hrt : suffix_from_name (base ++ ext) = suffix
                /\ strip_suffix (base ++ ext) = base
                /\ suffix <> ICON_SUFFIX_NONE).
  { destruct (string_from_suffix_Ok _ _ Hext) as [[-> ->]|[[-> ->]|[-> ->]]];
      (split; [now rewrite suffix_from_name_app
              | split; [now apply strip_suffix_app | discriminate]]). }
  destruct Hrt as (Hs & Hb & Hne). split.
  - apply H1.
    + destruct (string_from_suffix_Ok _ _ Hext) as [[-> _]|[[-> _]|[-> _]]];
        unfold is_format; tauto.
    + exists (base ++ ext)%string. tauto.
  - apply H2. right. exists (base ++ ext)%string.
    split; [exact Hin | split; [congruence | exact Hb]].
Qed.

(** ** Generic fallback names *)

Lemma strrchr_dash_Some (s : string) (p : nat) :
  strrchr_index s "-"%char = Some p ->
  drops_last_component s (substring 0 p s)
  /\ count_dashes s = S (count_dashes (substring 0 p s)).
Proof.
  intros Hp. destruct (strrchr_index_Some _ _ _ Hp) as (tail & Heq & Htail).
  apply strrchr_dash_None in Htail. split.
  - exists tail. split; [exact Heq | exact Htail].
  - rewrite Heq at 1. rewrite count_dashes_app. simpl. rewrite Htail. lia.
Qed.

(** The loop runs as often as there are dashes, so [strrchr] always finds
    one: the list is built without a store through NULL. *)
Lemma nonsymbolic_names_loop_spec (dashes : nat) (s : string) :
  count_dashes s = dashes ->
  exists rest,
    nonsymbolic_names_loop dashes s = Ok rest
    /\ length rest = dashes
    /\ fallback_chain (s :: rest)
    /\ (forall x, last (s :: rest) = Some x -> count_dashes x = O).
Proof.
  revert s. induction dashes as [|dashes IH]; intros s Hs.
  - exists []. simpl. repeat split; try reflexivity. intros x [= <-]. exact Hs.
  - simpl. destruct (strrchr_index s "-"%char) as [p|] eqn:Hp.
    + destruct (strrchr_dash_Some s p Hp) as [Hdrop Hcount].
      destruct (IH (substring 0 p s)) as (rest & -> & Hlen & Hchain & Hlast);
        [lia |].
      exists (substring 0 p s :: rest). simpl.
      split; [reflexivity |]. split; [now rewrite Hlen |].
      split; [split; [exact Hdrop | exact Hchain] |].
      intros x Hx. apply Hlast. exact Hx.
    + apply strrchr_dash_None in Hp. lia.
Qed.

(** X3.  The list of names tried under the generic-fallback flag is always
    built (the code never stores through a NULL pointer while cutting the
    name), and it is: the requested name, then that name with one more
    trailing dash-separated component removed at each step, down to the
    first component.  For a name ending in -symbolic the components are
    removed in front of that ending, and the whole series of symbolic names
    comes before the same series without the ending.  A lookup with the
    flag is [choose_icon] on that list; a lookup that asks both to suppress
    and to force SVG, or for a scale below 1, returns nothing and leaves the
    icon theme as it was. *)
Theorem generic_fallback_names_spec (icon_name : string) :
  let is_symbolic := g_str_has_suffix icon_name "-symbolic" in
  exists base rest,
    icon_name = (if is_symbolic then base ++ "-symbolic" else base)%string
    /\ generic_fallback_names icon_name
       = Ok (if is_symbolic
             then map (fun name => (name ++ "-symbolic")%string) (base :: rest)
                  ++ base :: rest
             else base :: rest)
    /\ length rest = count_dashes base
    /\ fallback_chain (base :: rest)
    /\ (forall x, last (base :: rest) = Some x -> count_dashes x = O)
    /\ (forall (bits : LookupFlagBits) (fallback : FallbackFlagBit)
               fuel g fs now priv size scale flags,
          gtk_icon_theme_lookup_icon_for_scale fuel g fs now priv icon_name
            size scale flags
          = if has_bit flags GTK_ICON_LOOKUP_NO_SVG
               && has_bit flags GTK_ICON_LOOKUP_FORCE_SVG
            then Ok (None, priv)
            else if scale <? 1 then Ok (None, priv)
            else choose_icon fuel g fs now priv
                   (if has_bit flags GTK_ICON_LOOKUP_GENERIC_FALLBACK
                    then if is_symbolic
                         then map (fun name => (name ++ "-symbolic")%string)
                                (base :: rest) ++ base :: rest
                         else base :: rest
                    else [icon_name])
                   size scale flags).
Proof.
  intros is_symbolic.
  set (base := if is_symbolic
               then substring 0 (String.length icon_name - 9) icon_name
               else icon_name).
  destruct (nonsymbolic_names_loop_spec (count_dashes base) base eq_refl)
    as (rest & Hloop & Hlen & Hchain & Hlast).
  assert (Hnames : generic_fallback_names icon_name
       = Ok (if is_symbolic
             then map (fun name => (name ++ "-symbolic")%string) (base :: rest)
                  ++ base :: rest
             else base :: rest)).
  { unfold generic_fallback_names. fold is_symbolic. fold base.
    rewrite Hloop. reflexivity. }
  exists base, rest. split; [| split; [exact Hnames |]].
  - subst base. destruct is_symbolic eqn:Hsym; [| reflexivity].
    exact (g_str_has_suffix_split icon_name "-symbolic" Hsym).
  - split; [exact Hlen | split; [exact Hchain | split; [exact Hlast |]]].
    intros bits fallback fuel g fs now priv size scale flags.
    unfold gtk_icon_theme_lookup_icon_for_scale.
    destruct (has_bit flags GTK_ICON_LOOKUP_NO_SVG);
      destruct (has_bit flags GTK_ICON_LOOKUP_FORCE_SVG); cbn [negb orb andb];
      try reflexivity;
      rewrite Z.geb_leb;
      (destruct (Z.leb_spec 1 scale); destruct (Z.ltb_spec scale 1);
       cbn [negb]; try lia; try reflexivity;
       destruct (has_bit flags GTK_ICON_LOOKUP_GENERIC_FALLBACK);
       [rewrite Hnames |]; reflexivity).
Qed.

(** The names tried for network-wired-symbolic under the flag. *)
Example generic_fallback_names_network :
  generic_fallback_names "network-wired-symbolic"
  = Ok ["network-wired-symbolic"; "network-symbolic";
        "network-wired"; "network"].
Proof. reflexivity. Qed.

(** [gtk_icon_theme_lookup_icon] is the lookup at scale 1. *)
Lemma gtk_icon_theme_lookup_icon_scale_1 {bits : LookupFlagBits}
    {fallback : FallbackFlagBit} (fuel : nat) (g : Builtins) (fs : FileSystem)
    (now : Z) (priv : GtkIconThemePrivate) (icon_name : string)
    (size flags : Z) :
  gtk_icon_theme_lookup_icon fuel g fs now priv icon_name size flags
  = gtk_icon_theme_lookup_icon_for_scale fuel g fs now priv icon_name size 1
      flags.
Proof.
  unfold gtk_icon_theme_lookup_icon, gtk_icon_theme_lookup_icon_for_scale.
  now destruct (negb (negb (has_bit flags GTK_ICON_LOOKUP_NO_SVG)
                      || negb (has_bit flags GTK_ICON_LOOKUP_FORCE_SVG))).
Qed.

(** On the installation with the gnome theme only, a lookup of edit-cut-rtl
    with the generic-fallback flag finds edit-cut. *)
Example lookup_icon_falls_back :
  exists p info,
    @gtk_icon_theme_lookup_icon gtk3_flag_bits gtk3_fallback_bit 3 no_builtins
      fs_gnome_only 0 priv_fresh "edit-cut-rtl" 24 (Z.shiftl 1 3)
    = Ok (Some 0%nat, p)
    /\ heap p !! 0%nat = Some info
    /\ i_filename info = Some "/usr/share/icons/gnome/24x24/edit-cut.png".
Proof.
  eexists _, _. split; [vm_compute; reflexivity |].
  split; vm_compute; reflexivity.
Qed.

(** ** DirectoryMatcher: what a lookup in one theme returns *)

Lemma best_suffix_cases (suffix : Z) (allow_svg : bool) :
  best_suffix suffix allow_svg = ICON_SUFFIX_NONE
  \/ is_format (best_suffix suffix allow_svg).
Proof.
  unfold best_suffix, is_format.
  destruct (has_bit suffix ICON_SUFFIX_PNG); [tauto |].
  destruct (allow_svg && has_bit suffix ICON_SUFFIX_SVG); [tauto |].
  destruct (has_bit suffix ICON_SUFFIX_XPM); tauto.
Qed.

Lemma string_from_suffix_format (suffix : Z) :
  is_format suffix -> exists ext, string_from_suffix suffix = Ok ext.
Proof. intros [-> | [-> | ->]]; eexists; reflexivity. Qed.

(** The distance is defined for every directory of a theme. *)
Lemma theme_dir_size_difference_defined (dir : IconThemeDir) (size scale : Z) :
  d_type dir <> ICON_THEME_DIR_UNTHEMED ->
  exists difference, theme_dir_size_difference dir size scale = Ok difference.
Proof.
  intros Hty. unfold theme_dir_size_difference.
  destruct (d_type dir); [| | | congruence].
  - eexists; reflexivity.
  - destruct (_ <? _); [eexists; reflexivity |].
    destruct (_ >? _); eexists; reflexivity.
  - cbv zeta. destruct (_ <? _); [eexists; reflexivity |].
    destruct (_ >? _); eexists; reflexivity.
Qed.

(** One iteration of the scan, by cases: a directory without the icon is
    skipped; a directory with the icon becomes the running best when there
    is none yet or when the comparison prefers it. *)
Lemma scan_step_cases (icon_name : string) (size scale : Z) (allow_svg : bool)
    (best : best_match) (d : IconThemeDir) :
  d_type d <> ICON_THEME_DIR_UNTHEMED ->
  (~ is_candidate icon_name allow_svg d
   /\ scan_step icon_name size scale allow_svg best d = Ok best)
  \/ (is_candidate icon_name allow_svg d
      /\ exists dd,
           theme_dir_size_difference d size scale = Ok dd
           /\ scan_step icon_name size scale allow_svg best d
              = Ok (match best with
                    | None => Some (d, dd)
                    | Some (m, dm) =>
                        if compare_dir_matches d dd m dm size scale
                        then Some (d, dd) else best
                    end)).
Proof.
  intros Hty. unfold scan_step, is_candidate.
  destruct (Z.eqb_spec (best_suffix (fst (theme_dir_get_icon_suffix d icon_name))
                          allow_svg) ICON_SUFFIX_NONE) as [He|He]; simpl.
  - left. split; [tauto | reflexivity].
  - right. split; [exact He |].
    destruct (theme_dir_size_difference_defined d size scale Hty) as [dd Hdd].
    exists dd. split; [exact Hdd |]. rewrite Hdd. simpl.
    destruct best as [[m dm]|]; [| reflexivity].
    now destruct (compare_dir_matches d dd m dm size scale).
Qed.

Lemma scan_dirs_best_among (icon_name : string) (size scale : Z)
    (allow_svg : bool) (dirs : list IconThemeDir) :
  Forall (fun d => d_type d <> ICON_THEME_DIR_UNTHEMED) dirs ->
  forall seen best,
    best_among icon_name size scale allow_svg seen best ->
    exists best',
      scan_dirs icon_name size scale allow_svg dirs best = Ok best'
      /\ best_among icon_name size scale allow_svg (seen ++ dirs) best'.
Proof.
  intros Hall. induction Hall as [|d dirs Hd Hall IH]; intros seen best Hbest.
  - exists best. simpl. rewrite app_nil_r. auto.
  - simpl.
    assert (Hnext : exists best1,
              scan_step icon_name size scale allow_svg best d = Ok best1
              /\ best_among icon_name size scale allow_svg (seen ++ [d]) best1).
    { destruct (scan_step_cases icon_name size scale allow_svg best d Hd)
        as [[Hno Hstep] | [Hc (dd & Hdd & Hstep)]].
      - exists best. split; [exact Hstep |].
        destruct best as [[m dm]|]; simpl in *.
        + destruct Hbest as (Hin & Hbest). split; [| exact Hbest].
          apply in_or_app. now left.
        + intros x Hx. apply in_app_or in Hx. destruct Hx as [Hx | [<- | []]];
            [now apply Hbest | exact Hno].
      - eexists. split; [exact Hstep |].
        assert (Hd' : best_among icon_name size scale allow_svg (seen ++ [d])
                        (Some (d, dd))).
        { simpl. split; [apply in_or_app; right; now left | tauto]. }
        destruct best as [[m dm]|]; [| exact Hd'].
        destruct (compare_dir_matches d dd m dm size scale); [exact Hd' |].
        simpl in *. destruct Hbest as (Hin & Hbest). split; [| exact Hbest].
        apply in_or_app. now left. }
    destruct Hnext as (best1 & Hstep & Hbest1). rewrite Hstep. simpl.
    destruct (IH (seen ++ [d]) best1 Hbest1) as (best' & Hscan & Hbest').
    exists best'. split; [exact Hscan |].
    now rewrite <- app_assoc in Hbest'.
Qed.

(** X4.  A lookup in one theme, built-in icons aside, never hits an
    assertion on the directories of a loaded theme.  It returns nothing
    exactly when no directory of the theme holds the icon in a format that
    may be loaded.  Otherwise the icon info describes one of the theme's
    directories that hold the icon: it carries that directory's type, size,
    scale and threshold, and its file name is the directory path, the icon
    name and the extension of the best format found there. *)
Theorem theme_lookup_icon_finds (g : Builtins) (theme : IconTheme)
    (icon_name : string) (size scale : Z) (allow_svg use_builtin : bool) :
  Forall (fun d => d_type d <> ICON_THEME_DIR_UNTHEMED) (t_dirs theme) ->
  use_builtin = false \/ t_name theme <> DEFAULT_THEME_NAME ->
  exists r,
    theme_lookup_icon g theme icon_name size scale allow_svg use_builtin = Ok r
    /\ (r = None
        <-> forall d, In d (t_dirs theme) ->
                      ~ is_candidate icon_name allow_svg d)
    /\ (forall info, r = Some info ->
          exists d ext,
            In d (t_dirs theme) /\ is_candidate icon_name allow_svg d
            /\ i_dir_type info = d_type d /\ i_dir_size info = d_size d
            /\ i_dir_scale info = d_scale d
            /\ i_threshold info = d_threshold d
            /\ string_from_suffix
                 (best_suffix (fst (theme_dir_get_icon_suffix d icon_name))
                    allow_svg) = Ok ext
            /\ i_filename info
               = (fun path => g_build_filename path (icon_name ++ ext)%string)
                   <$> d_dir d).
Proof.
  intros Hall Hplain.
  assert (Hdefault : use_builtin && String.eqb (t_name theme) DEFAULT_THEME_NAME
                     = false).
  { destruct Hplain as [-> | Hne]; [reflexivity |].
    apply String.eqb_neq in Hne. rewrite Hne. apply andb_false_r. }
  unfold theme_lookup_icon, lookup_dirs. rewrite Hdefault. cbn [andb].
  destruct (scan_dirs_best_among icon_name size scale allow_svg (t_dirs theme)
              Hall [] None) as (best & Hscan & Hbest); [intros d [] |].
  rewrite Hscan. simpl in Hbest. cbn [mbind result_bind].
  destruct best as [[m dm]|]; simpl in Hbest.
  - destruct Hbest as (Hin & Hc & Hdm).
    pose proof Hc as Hc'. unfold is_candidate in Hc'.
    destruct (best_suffix_cases (fst (theme_dir_get_icon_suffix m icon_name))
                allow_svg) as [Hnone | Hfmt]; [contradiction |].
    destruct (string_from_suffix_format _ Hfmt) as [ext Hext].
    unfold icon_info_from_dir. cbv zeta.
    destruct (Z.eqb_spec (best_suffix (fst (theme_dir_get_icon_suffix m icon_name))
                            allow_svg) ICON_SUFFIX_NONE); [contradiction |].
    rewrite Hext.
    destruct (d_dir m) as [path|] eqn:Hpath; cbn [mbind result_bind];
      (eexists; split; [reflexivity |]; split;
       [split; [discriminate | intros Hno; exfalso; exact (Hno m Hin Hc)] |];
       intros info [= <-]; exists m, ext; rewrite Hpath;
       repeat split; try assumption; reflexivity).
  - exists None. split; [reflexivity |]. split; [tauto | discriminate].
Qed.

(** X4 on the theme Foo, which ships edit-cut as a PNG in its 24x24
    directory. *)
Lemma theme_lookup_icon_finds_witness :
  exists info,
    theme_lookup_icon no_builtins theme_child "edit-cut" 24 1 true false
    = Ok (Some info)
    /\ i_filename info = Some "/usr/share/icons/Foo/24x24/edit-cut.png".
Proof.
  destruct (theme_lookup_icon_finds no_builtins theme_child "edit-cut" 24 1
              true false) as (r & Hr & Hnone & Hsome).
  - repeat constructor. discriminate.
  - now left.
  - destruct r as [info|].
    + exists info. split; [exact Hr |].
      vm_compute in Hr. injection Hr as <-. reflexivity.
    + exfalso. vm_compute in Hr. discriminate.
Defined.

(** ** DirectoryMatcher: downscaling is preferred *)

(** "If scaling, *always* prefer downscaling": an inexact directory below
    the requested size never replaces an exact or larger one. *)
Lemma compare_keeps_exact_or_larger (d m : IconThemeDir) (dd dm size scale : Z) :
  0 <= dd -> 0 <= dm ->
  compare_dir_matches d dd m dm size scale = true ->
  dm = 0 \/ d_size m >= size ->
  dd = 0 \/ d_size d >= size.
Proof.
  intros Hdd Hdm. unfold compare_dir_matches. cbv zeta.
  destruct (Z.eqb_spec dd 0) as [Hz|Hz]; [now left |].
  rewrite !Z.geb_leb, Z.gtb_ltb.
  destruct (Z.leb_spec size (d_size d)); [intros _ _; right; lia |].
  cbn [andb].
  destruct (Z.ltb_spec (d_size d) size); [| lia].
  destruct (Z.leb_spec size (d_size m)); cbn [andb]; [discriminate |].
  destruct (Z.ltb_spec dd dm).
  - intros _ [-> | ?]; lia.
  - destruct (Z.ltb_spec dm dd); [discriminate |].
    intros _ [-> | ?]; lia.
Qed.

(** A directory with the icon that is at least as large as the request
    replaces a running best that is inexact and smaller. *)
Lemma compare_larger_wins (d m : IconThemeDir) (dd dm size scale : Z) :
  d_size d >= size ->
  compare_dir_matches d dd m dm size scale = false ->
  dm = 0 \/ d_size m >= size.
Proof.
  intros Hd. unfold compare_dir_matches. cbv zeta.
  destruct (Z.eqb_spec dm 0) as [Hz|Hz]; [now left |].
  destruct (Z.eqb_spec dd 0) as [Hy|Hy]; cbn [negb]; [discriminate |].
  rewrite !Z.geb_leb.
  destruct (Z.leb_spec size (d_size d)); [| lia]. cbn [andb].
  destruct (Z.ltb_spec (d_size m) size); [discriminate |].
  intros _. right. lia.
Qed.

Lemma scan_step_downscale (icon_name : string) (size scale : Z)
    (allow_svg : bool) (best best' : best_match) (d : IconThemeDir) :
  small_request size scale -> themed_dir d ->
  distance_nonneg best ->
  scan_step icon_name size scale allow_svg best d = Ok best' ->
  distance_nonneg best'
  /\ (exact_or_larger size best -> exact_or_larger size best')
  /\ (is_candidate icon_name allow_svg d -> d_size d >= size ->
      exact_or_larger size best').
Proof.
  intros Hreq Hd Hnn Hstep.
  destruct (scan_step_cases icon_name size scale allow_svg best d (td_type _ Hd))
    as [[Hno Hs] | [Hc (dd & Hdd & Hs)]];
    rewrite Hs in Hstep; injection Hstep as <-.
  - split; [exact Hnn | split; [tauto | contradiction]].
  - destruct (theme_dir_size_difference_nonneg d size scale Hreq Hd)
      as (dd' & Hdd' & Hpos).
    rewrite Hdd in Hdd'. injection Hdd' as <-.
    destruct best as [[m dm]|]; simpl in *.
    + destruct (compare_dir_matches d dd m dm size scale) eqn:Hcmp; simpl.
      * split; [exact Hpos |]. split; [| intros _ Hbig; now right].
        now apply (compare_keeps_exact_or_larger d m dd dm size scale).
      * split; [exact Hnn |]. split; [tauto |].
        intros _ Hbig.
        now apply (compare_larger_wins d m dd dm size scale).
    + split; [exact Hpos |]. split; [tauto | intros _ Hbig; now right].
Qed.

Lemma scan_dirs_downscale (icon_name : string) (size scale : Z)
    (allow_svg : bool) (dirs : list IconThemeDir) :
  small_request size scale -> Forall themed_dir dirs ->
  forall best best',
    distance_nonneg best ->
    scan_dirs icon_name size scale allow_svg dirs best = Ok best' ->
    exact_or_larger size best
    \/ (exists c, In c dirs /\ is_candidate icon_name allow_svg c
                  /\ d_size c >= size) ->
    exact_or_larger size best'.
Proof.
  intros Hreq Hall. induction Hall as [|d dirs Hd Hall IH];
    intros best best' Hnn Hscan Hwhy.
  - simpl in Hscan. injection Hscan as <-.
    destruct Hwhy as [H | (c & [] & _)]. exact H.
  - simpl in Hscan.
    destruct (scan_step icon_name size scale allow_svg best d) as [best1| |]
      eqn:Hstep; try discriminate.
    cbn [mbind result_bind] in Hscan.
    destruct (scan_step_downscale icon_name size scale allow_svg best best1 d
                Hreq Hd Hnn Hstep) as (Hnn1 & Hkeep & Hnew).
    apply (IH best1 best' Hnn1 Hscan).
    destruct Hwhy as [H | (c & [<- | Hin] & Hc & Hbig)].
    + left. now apply Hkeep.
    + left. now apply Hnew.
    + right. eauto.
Qed.

(** X5.  On small sizes and scales: when some directory of the scanned list
    holds the icon at a nominal size that is at least the requested size,
    the directory the scan selects is either an exact match (distance 0) or
    itself at least as large as the requested size.  The matcher never
    settles for scaling a smaller image up while a larger one is
    available. *)
Theorem scan_prefers_downscaling (icon_name : string) (size scale : Z)
    (allow_svg : bool) (dirs : list IconThemeDir) (c : IconThemeDir) :
  small_request size scale -> Forall themed_dir dirs ->
  In c dirs -> is_candidate icon_name allow_svg c -> d_size c >= size ->
  exists m dm,
    scan_dirs icon_name size scale allow_svg dirs None = Ok (Some (m, dm))
    /\ In m dirs /\ is_candidate icon_name allow_svg m
    /\ (dm = 0 \/ d_size m >= size).
Proof.
  intros Hreq Hall Hin Hc Hbig.
  assert (Hty : Forall (fun d => d_type d <> ICON_THEME_DIR_UNTHEMED) dirs).
  { eapply Forall_impl; [exact Hall |]. intros d Hd. exact (td_type _ Hd). }
  destruct (scan_dirs_best_among icon_name size scale allow_svg dirs Hty [] None)
    as (best & Hscan & Hbest); [intros d [] |].
  assert (Hpref : exact_or_larger size best).
  { apply (scan_dirs_downscale icon_name size scale allow_svg dirs Hreq Hall
             None best I Hscan). right. eauto. }
  destruct best as [[m dm]|]; [| destruct Hpref].
  simpl in Hbest. destruct Hbest as (Hm & Hcm & _).
  exists m, dm. repeat split; assumption.
Qed.

(** X5 on the list Threshold 22 (exact for the request 24), Fixed 48: the
    larger directory is there, and the selection is not an inexact smaller
    one. *)
Lemma scan_prefers_downscaling_witness :
  exists m dm,
    scan_dirs "edit-cut" 24 1 true
      [mk_dir ICON_THEME_DIR_THRESHOLD 22 22 22 2 1
         "/usr/share/icons/Foo/22x22" png_icon; fixed_48] None
    = Ok (Some (m, dm))
    /\ (dm = 0 \/ d_size m >= 24).
Proof.
  destruct (scan_prefers_downscaling "edit-cut" 24 1 true
              [mk_dir ICON_THEME_DIR_THRESHOLD 22 22 22 2 1
                 "/usr/share/icons/Foo/22x22" png_icon; fixed_48] fixed_48)
    as (m & dm & Hscan & _ & _ & Hpref).
  - split; unfold small; lia.
  - repeat constructor; try discriminate; unfold small; simpl; lia.
  - simpl. auto.
  - apply is_candidate_png; reflexivity.
  - simpl. lia.
  - exists m, dm. split; assumption.
Defined.

(** An exact match below the requested size loses against an inexact
    directory above it that is scanned later. *)
Example exact_smaller_loses_to_larger :
  theme_dir_size_difference
    (mk_dir ICON_THEME_DIR_THRESHOLD 22 22 22 2 1
       "/usr/share/icons/Foo/22x22" png_icon) 24 1 = Ok 0
  /\ scan_dirs "edit-cut" 24 1 true
       [mk_dir ICON_THEME_DIR_THRESHOLD 22 22 22 2 1
          "/usr/share/icons/Foo/22x22" png_icon; fixed_48] None
     = Ok (Some (fixed_48, 24)).
Proof. split; vm_compute; reflexivity. Qed.

(** ** BuiltinRegistry *)




Lemma find_builtin_icon_head (g : Builtins) (table : gmap string (list BuiltinIcon))
    (icon_name : string) (icon : BuiltinIcon) (icons : list BuiltinIcon)
    (size scale : Z) :
  icon_theme_builtin_icons g = Some table ->
  table !! icon_name = Some (icon :: icons) ->
  in_int (b_size icon - 2) -> in_int (b_size icon + 2) ->
  b_size icon - 2 <= int_mul size scale <= b_size icon + 2 ->
  find_builtin_icon g icon_name size scale = (Some icon, G_MAXINT).
Proof.
  intros Htable Hicons Hlo Hhi Hnear. unfold find_builtin_icon.
  rewrite Htable, Hicons. cbn [default from_option id find_builtin_loop].
  rewrite int_sub_exact, int_add_exact by assumption.
  destruct (Z.ltb_spec (int_mul size scale) (b_size icon - 2)); [lia |].
  rewrite Z.gtb_ltb.
  destruct (Z.ltb_spec (b_size icon + 2) (int_mul size scale)); [lia |].
  reflexivity.
Qed.

(** X7.  An icon registered as built-in under a name at some size is what
    the built-in lookup returns for that name at every requested pixel size
    within 2 of the registered size, shadowing the icons registered under
    the name before; the icons registered under other names are found as
    before.  In the default theme, with built-in icons enabled and no
    directory holding the name, the lookup returns an icon info without
    file name whose built-in raster is the registered one. *)
Theorem add_builtin_icon_found (g : Builtins) (icon_name : string)
    (registered : Z) (p : pixbuf) (size scale : Z) :
  in_int (registered - 2) -> in_int (registered + 2) ->
  registered - 2 <= int_mul size scale <= registered + 2 ->
  let g' := gtk_icon_theme_add_builtin_icon icon_name registered p g in
  find_builtin_icon g' icon_name size scale
  = (Some {| b_size := registered; b_pixbuf := p |}, G_MAXINT)
  /\ (forall other request request_scale,
        other <> icon_name ->
        find_builtin_icon g' other request request_scale
        = find_builtin_icon g other request request_scale)
  /\ (forall theme allow_svg,
        t_name theme = DEFAULT_THEME_NAME ->
        scan_dirs icon_name size scale allow_svg (lookup_dirs g theme true) None
        = Ok None ->
        exists info,
          theme_lookup_icon g' theme icon_name size scale allow_svg true
          = Ok (Some info)
          /\ i_filename info = None
          /\ gtk_icon_info_get_builtin_pixbuf info = Some p
          /\ i_dir_size info = registered).
Proof.
  intros Hlo Hhi Hnear g'.
  assert (Hfound : find_builtin_icon g' icon_name size scale
                   = (Some {| b_size := registered; b_pixbuf := p |}, G_MAXINT)).
  { eapply find_builtin_icon_head; try reflexivity; try assumption.
    unfold g', gtk_icon_theme_add_builtin_icon; cbn [icon_theme_builtin_icons].
    apply lookup_insert_eq. }
  split; [exact Hfound | split].
  - intros other request request_scale Hne.
    unfold find_builtin_icon, g', gtk_icon_theme_add_builtin_icon.
    cbn [icon_theme_builtin_icons].
    rewrite lookup_insert_ne by congruence.
    destruct (icon_theme_builtin_icons g) as [table|]; cbn [default from_option id];
      [reflexivity |].
    now rewrite lookup_empty.
  - intros theme allow_svg Hname Hscan.
    assert (Hdirs : lookup_dirs g' theme true = lookup_dirs g theme true)
      by reflexivity.
    unfold theme_lookup_icon. rewrite Hname, String.eqb_refl. cbn [andb].
    rewrite Hfound. change (G_MAXINT =? 0) with false. cbv iota.
    rewrite Hdirs, Hscan. cbn [mbind result_bind].
    eexists. split; [reflexivity |]. repeat split.
Qed.

(** X7 for an icon registered at size 24 in an empty registry and requested
    at size 22. *)
Lemma add_builtin_icon_found_witness :
  find_builtin_icon
    (gtk_icon_theme_add_builtin_icon "gtk-ok" 24 7%nat no_builtins)
    "gtk-ok" 22 1
  = (Some {| b_size := 24; b_pixbuf := 7%nat |}, G_MAXINT).
Proof.
  refine (proj1 (add_builtin_icon_found no_builtins "gtk-ok" 24 7%nat 22 1
                   _ _ _)); vm_compute; intuition discriminate.
Defined.

(** ** IconInfoCache: repeated lookups *)

(** A completed call that is not nested in a load leaves a valid registry
    and the loading flag cleared. *)
Lemma ensure_valid_themes_post (fuel : nat) (fs : FileSystem) (now : Z)
    (p q : GtkIconThemePrivate) :
  loading_themes p = false ->
  ensure_valid_themes fuel fs now p = Ok q ->
  loading_themes q = false /\ themes_valid q = true.
Proof.
  intros Hloading. unfold ensure_valid_themes. rewrite Hloading.
  set (p0 := set_loading_themes true p).
  set (p1 := if themes_valid p0 then _ else p0).
  destruct (themes_valid p1) eqn:Hv1; cbn [negb].
  - cbn [mbind result_bind]. intros [= <-]. split; [reflexivity | exact Hv1].
  - destruct (load_themes fuel fs now p1) as [q1| |] eqn:Hload;
      cbn [mbind result_bind]; try discriminate.
    intros [= <-].
    destruct (load_themes_frame fuel fs now p1 q1 Hload) as (q0 & _ & ->).
    split; [reflexivity |].
    destruct (themes_valid p); [| reflexivity].
    destruct (queue_theme_changed_spec
                (set_last_stat_time now (set_themes_valid true q0)))
      as (_ & _ & _ & Hv & _).
    cbn [themes_valid set_loading_themes]. now rewrite Hv.
Qed.

Lemma info_cache_lookup_head (cache : list (IconInfoKey * handle))
    (key : IconInfoKey) (h : handle) :
  info_cache_lookup ((key, h) :: cache) key = Some h.
Proof.
  simpl. unfold icon_info_key_equal. rewrite !Z.eqb_refl. simpl.
  now rewrite (proj2 (icon_names_equal_eq _ _) eq_refl).
Qed.

Lemma remove_from_lru_cache_keeps (h : handle) (p : GtkIconThemePrivate) :
  info_cache (remove_from_lru_cache h p) = info_cache p
  /\ heap (remove_from_lru_cache h p) = heap p
  /\ themes (remove_from_lru_cache h p) = themes p
  /\ themes_valid (remove_from_lru_cache h p) = themes_valid p
  /\ loading_themes (remove_from_lru_cache h p) = loading_themes p
  /\ last_stat_time (remove_from_lru_cache h p) = last_stat_time p.
Proof.
  unfold remove_from_lru_cache.
  destruct (g_list_find (info_cache_lru p) h); repeat split.
Qed.

Section RepeatedLookups.
Context {bits : LookupFlagBits}.

(** What a completed [choose_icon] leaves behind: a valid registry, and the
    icon info it returned stored in the primary cache under the key of the
    request. *)
Lemma choose_icon_post (fuel : nat) (g : Builtins) (fs : FileSystem) (now : Z)
    (p p1 : GtkIconThemePrivate) (icon_names : list string)
    (size scale flags : Z) (r : option handle) :
  loading_themes p = false ->
  choose_icon fuel g fs now p icon_names size scale flags = Ok (r, p1) ->
  loading_themes p1 = false /\ themes_valid p1 = true
  /\ match r with
     | Some h =>
         info_cache_lookup (info_cache p1)
           {| k_icon_names := icon_names; k_size := size; k_scale := scale;
              k_flags := flags |} = Some h
     | None => ensure_valid_themes fuel fs now p = Ok p1
     end.
Proof.
  intros Hloading. unfold choose_icon.
  destruct (ensure_valid_themes fuel fs now p) as [q| |] eqn:Hvalid;
    cbn [mbind result_bind]; try discriminate.
  destruct (ensure_valid_themes_post fuel fs now p q Hloading Hvalid)
    as [Hl Hv].
  destruct (info_cache_lookup (info_cache q) _) as [h|] eqn:Hlook.
  - intros [= <- <-].
    destruct (remove_from_lru_cache_keeps h (emit (EvObjectRef h) q))
      as (Hc & _ & _ & Hv' & Hl' & _).
    rewrite Hc, Hv', Hl'. auto.
  - destruct (find_icon g q icon_names size scale _ _) as [[[info origin]|]| |];
      cbn [mbind result_bind]; try discriminate.
    + destruct (match origin with
                | Some (theme, icon_name) => _
                | None => Ok None
                end) as [u| |]; cbn [mbind result_bind]; try discriminate.
      intros [= <- <-]. split; [exact Hl | split; [exact Hv |]].
      apply info_cache_lookup_head.
    + intros [= <- <-]. auto.
Qed.

(** X8.  Lookups are memoised.  After a lookup that returned an icon info,
    the same request (same names, size, scale and flags) made again within 5
    time units of the last stat pass returns the very same icon info, taken
    from the primary cache: no theme is searched, whatever the file system
    and the built-in registry hold by then, no new icon info is created and
    the cache is left as it is; the only effects are a reference on the icon
    info and its removal from the LRU list.  A lookup that found nothing
    stores nothing: it leaves the state that [ensure_valid_themes]
    produced. *)
Theorem choose_icon_memoized (fuel fuel' : nat) (g g' : Builtins)
    (fs fs' : FileSystem) (now now' : Z) (p p1 : GtkIconThemePrivate)
    (icon_names : list string) (size scale flags : Z) (r : option handle) :
  loading_themes p = false ->
  choose_icon fuel g fs now p icon_names size scale flags = Ok (r, p1) ->
  match r with
  | Some h =>
      Z.abs (now' - last_stat_time p1) <= 5 ->
      exists p2,
        choose_icon fuel' g' fs' now' p1 icon_names size scale flags
        = Ok (Some h, p2)
        /\ p2 = remove_from_lru_cache h (emit (EvObjectRef h) p1)
        /\ heap p2 = heap p1 /\ info_cache p2 = info_cache p1
        /\ themes p2 = themes p1
  | None => ensure_valid_themes fuel fs now p = Ok p1
  end.
Proof.
  intros Hloading Hrun.
  destruct (choose_icon_post fuel g fs now p p1 icon_names size scale flags r
              Hloading Hrun) as (Hl & Hv & Hr).
  destruct r as [h|]; [| exact Hr].
  intros Hnear.
  destruct (ensure_valid_themes_cases fuel' fs' now' p1 Hl) as (Hsame & _).
  specialize (Hsame Hv Hnear).
  eexists. split; [| split; [reflexivity |]].
  - unfold choose_icon. rewrite Hsame. cbn [mbind result_bind].
    now rewrite Hr.
  - destruct (remove_from_lru_cache_keeps h (emit (EvObjectRef h) p1))
      as (Hc & Hh & Ht & _).
    rewrite Hc, Hh, Ht. repeat split.
Qed.

End RepeatedLookups.

(** X8 on the themes Foo and Bar: edit-cut is looked up at time 0 and again
    at time 3, with no recursion budget; both lookups return the icon
    info 0. *)
Lemma choose_icon_memoized_witness :
  exists p1,
    priv_after_lookup = Ok (Some 0%nat, p1)
    /\ exists p2,
         @choose_icon gtk3_flag_bits 0 no_builtins fs_gnome_only 3 p1
           ["edit-cut"] 24 1 0 = Ok (Some 0%nat, p2)
         /\ heap p2 = heap p1.
Proof.
  assert (Hfirst : exists p1,
            priv_after_lookup = Ok (Some 0%nat, p1)
            /\ Z.abs (3 - last_stat_time p1) <= 5).
  { eexists. split; [vm_compute; reflexivity | vm_compute; discriminate]. }
  destruct Hfirst as (p1 & Hfirst & Hnear).
  exists p1. split; [exact Hfirst |].
  destruct (@choose_icon_memoized gtk3_flag_bits 1 0 no_builtins
              no_builtins fs_gnome_only fs_gnome_only 0 3
              priv_child_parent p1 ["edit-cut"] 24 1 0 (Some 0%nat)
              eq_refl Hfirst Hnear) as (p2 & Hrun & _ & Hheap & _).
  exists p2. split; [exact Hrun | exact Hheap].
Defined.

(** ** IconInfoCache: the cache, the marks and the LRU list *)

Lemma icon_info_key_equal_eq (a b : IconInfoKey) :
  icon_info_key_equal a b = true -> a = b.
Proof.
  unfold icon_info_key_equal.
  destruct (Z.eqb_spec (k_size a) (k_size b)); [| discriminate].
  destruct (Z.eqb_spec (k_scale a) (k_scale b)); [| discriminate].
  destruct (Z.eqb_spec (k_flags a) (k_flags b)); [| discriminate].
  simpl. intros Hn. apply icon_names_equal_eq in Hn.
  destruct a, b; simpl in *; congruence.
Qed.

Lemma cache_ok_same (p q : GtkIconThemePrivate) :
  info_cache q = info_cache p -> info_cache_lru q = info_cache_lru p ->
  heap q = heap p -> cache_ok p -> cache_ok q.
Proof.
  intros Hc Hl Hh [H1 H2 H3 H4].
  split; unfold is_cached in *; rewrite ?Hc, ?Hl, ?Hh; assumption.
Qed.

(** What un-caching one icon info does: its mark is cleared, and it leaves
    the LRU list if it was marked. *)
Lemma icon_info_uncached_effect (h : handle) (p : GtkIconThemePrivate) :
  info_cache (icon_info_uncached h p) = info_cache p
  /\ (forall x, is_cached (icon_info_uncached h p) x
                = if decide (x = h) then false else is_cached p x)
  /\ info_cache_lru (icon_info_uncached h p)
     = (if is_cached p h then g_list_remove (info_cache_lru p) h
        else info_cache_lru p)
  /\ (forall x, x <> h -> heap (icon_info_uncached h p) !! x = heap p !! x).
Proof.
  assert (Hheap : heap (icon_info_uncached h p)
                  = alter (set_in_cache false) h (heap p)).
  { unfold icon_info_uncached.
    destruct (default false (i_in_cache <$> heap p !! h)); [| reflexivity].
    now destruct (remove_from_lru_cache_keeps h
                    (set_heap (alter (set_in_cache false) h (heap p)) p))
      as (_ & -> & _). }
  split; [apply icon_info_uncached_frame |]. split; [| split].
  - intros x. unfold is_cached. rewrite Hheap.
    destruct (decide (x = h)) as [-> | Hne].
    + rewrite list_lookup_alter. rewrite decide_True by reflexivity.
      match goal with
      | |- context [set_in_cache false <$> ?o] => destruct o; reflexivity
      end.
    + now rewrite list_lookup_alter_ne by congruence.
  - unfold icon_info_uncached. fold (is_cached p h).
    destruct (is_cached p h); [| reflexivity].
    now rewrite remove_from_lru_cache_lru.
  - intros x Hne. rewrite Hheap. now rewrite list_lookup_alter_ne by congruence.
Qed.

Lemma uncached_fold_effect (l : list (IconInfoKey * handle)) :
  forall p,
    NoDup (info_cache_lru p) ->
    let q := fold_left (fun p0 (entry : IconInfoKey * handle) =>
                          icon_info_uncached (snd entry) p0) l p in
    (forall x, x ∈ info_cache_lru q ->
               x ∈ info_cache_lru p /\ ~ (x ∈ l.*2 /\ is_cached p x = true))
    /\ (forall x, is_cached q x = true -> is_cached p x = true /\ x ∉ l.*2).
Proof.
  induction l as [|[k v] l IH]; intros p Hnd; cbv zeta.
  - simpl. split; intros x Hx; (split; [exact Hx |]).
    + intros [Hin _]. now apply elem_of_nil in Hin.
    + apply not_elem_of_nil.
  - cbn [fold_left snd].
    destruct (icon_info_uncached_effect v p) as (_ & Hmarks & Hlru & _).
    assert (Hnd1 : NoDup (info_cache_lru (icon_info_uncached v p))).
    { rewrite Hlru. destruct (is_cached p v); [| exact Hnd].
      now apply g_list_remove_NoDup. }
    destruct (IH (icon_info_uncached v p) Hnd1) as [IH1 IH2].
    cbv zeta in IH1, IH2. split.
    + intros x Hx. destruct (IH1 x Hx) as [Hin Hno]. split.
      * rewrite Hlru in Hin. destruct (is_cached p v); [| exact Hin].
        eapply elem_of_sublist; [exact Hin | apply g_list_remove_sublist].
      * intros [Hxl Hxm]. rewrite fmap_cons, elem_of_cons in Hxl. simpl in Hxl.
        destruct (decide (x = v)) as [-> | Hne].
        -- rewrite Hlru, Hxm in Hin.
           exact (g_list_remove_not_in _ _ Hnd Hin).
        -- apply Hno. split; [tauto |]. rewrite Hmarks.
           now destruct (decide (x = v)).
    + intros x Hx. destruct (IH2 x Hx) as [Hm Hnot].
      rewrite Hmarks in Hm. destruct (decide (x = v)); [discriminate |].
      split; [exact Hm |]. rewrite fmap_cons, not_elem_of_cons. simpl. tauto.
Qed.

(** Purging the primary cache of a consistent state leaves both caches
    empty and no icon info marked. *)
Lemma info_cache_remove_all_empty (p : GtkIconThemePrivate) :
  cache_ok p -> NoDup (info_cache_lru p) ->
  info_cache (info_cache_remove_all p) = []
  /\ info_cache_lru (info_cache_remove_all p) = []
  /\ (forall x, is_cached (info_cache_remove_all p) x = false).
Proof.
  intros Hok Hnd. unfold info_cache_remove_all.
  destruct (uncached_fold_effect (info_cache p) p Hnd) as [H1 H2].
  cbv zeta in H1, H2.
  set (q := fold_left _ (info_cache p) p) in *.
  split; [reflexivity |].
  change (info_cache_lru q = [] /\ (forall x, is_cached q x = false)).
  clearbody q. split.
  - apply elem_of_nil_inv. intros x Hx.
    destruct (H1 x Hx) as [Hin Hno].
    apply Hno. pose proof (co_lru p Hok x Hin) as Hval. split; [exact Hval |].
    apply list_elem_of_fmap in Hval as ([k h] & -> & Hentry). simpl.
    destruct (co_entries p Hok k h Hentry) as (info & Hheap & Hmark & _).
    unfold is_cached. now rewrite Hheap.
  - intros x. destruct (is_cached q x) eqn:Hm; [| reflexivity]. exfalso.
    destruct (H2 x Hm) as [Hmp Hnot]. exact (Hnot (co_marked p Hok x Hmp)).
Qed.

Lemma cache_ok_empty (p : GtkIconThemePrivate) :
  info_cache p = [] -> info_cache_lru p = [] ->
  (forall x, is_cached p x = false) -> cache_ok p.
Proof.
  intros Hc Hl Hm. split; rewrite ?Hc, ?Hl.
  - intros key h Hin. now apply elem_of_nil in Hin.
  - intros h Hh. rewrite Hm in Hh. discriminate.
  - constructor.
  - intros h Hin. now apply elem_of_nil in Hin.
Qed.

(** The caches after a theme change: empty. *)
Lemma do_theme_change_empty (p : GtkIconThemePrivate) :
  cache_ok p -> NoDup (info_cache_lru p) ->
  info_cache (do_theme_change p) = []
  /\ info_cache_lru (do_theme_change p) = []
  /\ (forall x, is_cached (do_theme_change p) x = false).
Proof.
  intros Hok Hnd.
  destruct (info_cache_remove_all_empty p Hok Hnd) as (Hc & Hl & Hm).
  unfold do_theme_change.
  destruct (negb (themes_valid (info_cache_remove_all p))); [auto |].
  unfold queue_theme_changed.
  destruct (negb (theme_changed_idle (blow_themes (info_cache_remove_all p))));
    auto.
Qed.

Lemma rescan_themes_same (fs : FileSystem) (now : Z) (p : GtkIconThemePrivate) :
  info_cache (snd (rescan_themes fs now p)) = info_cache p
  /\ info_cache_lru (snd (rescan_themes fs now p)) = info_cache_lru p
  /\ heap (snd (rescan_themes fs now p)) = heap p.
Proof.
  unfold rescan_themes.
  destruct (rescan_dirs_spec fs (dir_mtimes p) p) as (stated & rest & _ & Hsnd & _).
  destruct (rescan_dirs fs (dir_mtimes p) p) as [changed q]. simpl in Hsnd.
  subst q. now destruct changed.
Qed.

Lemma ensure_valid_themes_cache_ok (fuel : nat) (fs : FileSystem) (now : Z)
    (p p' : GtkIconThemePrivate) :
  cache_ok p -> NoDup (info_cache_lru p) ->
  ensure_valid_themes fuel fs now p = Ok p' -> cache_ok p'.
Proof.
  intros Hok Hnd. unfold ensure_valid_themes.
  destruct (loading_themes p); [now intros [= <-] |].
  set (p0 := set_loading_themes true p).
  assert (Hok0 : cache_ok p0) by (now apply (cache_ok_same p)).
  assert (Hnd0 : NoDup (info_cache_lru p0)) by exact Hnd.
  set (p1 := if themes_valid p0 then _ else p0).
  assert (Hok1 : cache_ok p1).
  { subst p1. destruct (themes_valid p0); [| exact Hok0].
    destruct (Z.abs (now - last_stat_time p0) >? 5); [| exact Hok0].
    destruct (rescan_themes_same fs now p0) as (Hc & Hl & Hh).
    destruct (rescan_themes fs now p0) as [changed pr]. simpl in Hc, Hl, Hh.
    assert (Hokr : cache_ok pr) by (now apply (cache_ok_same p0)).
    destruct changed; [| exact Hokr].
    destruct (info_cache_remove_all_empty pr Hokr) as (Hc' & Hl' & Hm');
      [now rewrite Hl |].
    now apply cache_ok_empty. }
  clearbody p1. clear Hok0 Hnd0. clearbody p0.
  destruct (negb (themes_valid p1)).
  - destruct (load_themes fuel fs now p1) as [q| |] eqn:Hload; simpl;
      try discriminate.
    intros [= <-].
    destruct (load_themes_frame fuel fs now p1 q Hload) as (q0 & Hfr & ->).
    assert (Hokq : cache_ok q0).
    { apply (cache_ok_same p1); [apply (fr_info_cache _ _ Hfr)
        | apply (fr_info_cache_lru _ _ Hfr) | apply (fr_heap _ _ Hfr) | exact Hok1]. }
    destruct (themes_valid p); [| now apply (cache_ok_same q0)].
    unfold queue_theme_changed.
    destruct (negb (theme_changed_idle _)); now apply (cache_ok_same q0).
  - simpl. intros [= <-]. now apply (cache_ok_same p1).
Qed.

Lemma info_cache_lookup_None (cache : list (IconInfoKey * handle))
    (key : IconInfoKey) :
  info_cache_lookup cache key = None -> key ∉ cache.*1.
Proof.
  induction cache as [|[k h] cache IH]; simpl; [intros _; apply not_elem_of_nil |].
  destruct (icon_info_key_equal key k) eqn:He; [discriminate |].
  intros Hnone. rewrite not_elem_of_cons. split; [| now apply IH].
  intros ->. unfold icon_info_key_equal in He. rewrite !Z.eqb_refl in He.
  simpl in He. now rewrite (proj2 (icon_names_equal_eq _ _) eq_refl) in He.
Qed.

Lemma info_cache_take_Some (cache rest : list (IconInfoKey * handle))
    (key : IconInfoKey) (v : handle) :
  info_cache_take cache key = (rest, Some v) ->
  exists pre post,
    cache = pre ++ (key, v) :: post /\ rest = pre ++ post.
Proof.
  revert rest. induction cache as [|[k h] cache IH]; intros rest; simpl;
    [discriminate |].
  destruct (icon_info_key_equal key k) eqn:He.
  - intros [= <- <-]. apply icon_info_key_equal_eq in He. subst k.
    now exists [], cache.
  - destruct (info_cache_take cache key) as [rest' found].
    intros [= <- ->]. destruct (IH rest' eq_refl) as (pre & post & -> & ->).
    now exists ((k, h) :: pre), post.
Qed.

(** Parking touches the LRU list only, and adds nothing but the parked
    icon info. *)
Lemma ensure_in_lru_cache_members (h : handle) (p q : GtkIconThemePrivate) :
  ensure_in_lru_cache h p = Ok q ->
  info_cache q = info_cache p /\ heap q = heap p
  /\ (forall x, x ∈ info_cache_lru q -> x = h \/ x ∈ info_cache_lru p).
Proof.
  unfold ensure_in_lru_cache, add_to_lru_cache.
  destruct (g_list_find (info_cache_lru p) h).
  - intros [= <-]. split; [reflexivity | split; [reflexivity |]].
    intros x Hx. simpl in Hx. apply elem_of_cons in Hx as [-> | Hx]; [now left |].
    right. eapply elem_of_sublist; [exact Hx | apply g_list_remove_sublist].
  - intros [= <-]. unfold ensure_lru_cache_space.
    destruct (info_cache_lru p !! (INFO_CACHE_LRU_SIZE - 1)%nat) as [victim|].
    + split; [reflexivity | split; [reflexivity |]].
      intros x Hx. simpl in Hx. apply elem_of_cons in Hx as [-> | Hx]; [now left |].
      right. eapply elem_of_sublist; [exact Hx | apply sublist_delete].
    + split; [reflexivity | split; [reflexivity |]].
      intros x Hx. simpl in Hx. apply elem_of_cons in Hx as [-> | Hx]; auto.
Qed.

(** Storing a new icon info under a key that is not in the cache. *)
Lemma cache_ok_insert (p : GtkIconThemePrivate) (key : IconInfoKey)
    (forced_size : bool) (info : GtkIconInfo) :
  cache_ok p -> key ∉ (info_cache p).*1 ->
  cache_ok (set_info_cache ((key, length (heap p)) :: info_cache p)
              (set_heap (heap p ++ [annotate key forced_size info]) p)).
Proof.
  intros [H1 H2 H3 H4] Hfresh. split; cbn [info_cache heap info_cache_lru
    set_info_cache set_heap].
  - intros k h Hin. apply elem_of_cons in Hin as [[= -> ->] | Hin].
    + eexists. split; [apply list_lookup_middle; reflexivity |]. split; reflexivity.
    + destruct (H1 k h Hin) as (i & Hh & Hrest).
      exists i. split; [| exact Hrest]. now apply lookup_app_l_Some.
  - intros h Hh. rewrite fmap_cons. cbn [snd].
    destruct (decide (h = length (heap p))) as [-> | Hne]; [now left |].
    right. apply H2. unfold is_cached in *.
    cbn [heap set_info_cache set_heap] in Hh.
    destruct (decide (h < length (heap p))%nat) as [Hlt | Hge].
    + now rewrite lookup_app_l in Hh by exact Hlt.
    + rewrite lookup_ge_None_2 in Hh; [discriminate |].
      rewrite length_app. simpl. lia.
  - rewrite fmap_cons. cbn [fst]. now apply NoDup_cons.
  - intros h Hin. rewrite fmap_cons. right. now apply H4.
Qed.

Section CachesAlongRuns.
Context {bits : LookupFlagBits}.

Lemma choose_icon_cache_ok (fuel : nat) (g : Builtins) (fs : FileSystem)
    (now : Z) (p : GtkIconThemePrivate) (icon_names : list string)
    (size scale flags : Z) (r : option handle * GtkIconThemePrivate) :
  cache_ok p -> NoDup (info_cache_lru p) ->
  choose_icon fuel g fs now p icon_names size scale flags = Ok r ->
  cache_ok (snd r).
Proof.
  intros Hok Hnd. unfold choose_icon.
  destruct (ensure_valid_themes fuel fs now p) as [p1| |] eqn:Hvalid;
    try discriminate.
  pose proof (ensure_valid_themes_cache_ok fuel fs now p p1 Hok Hnd Hvalid)
    as Hok1.
  cbn [mbind result_bind].
  destruct (info_cache_lookup (info_cache p1) _) as [h|] eqn:Hlook.
  - intros [= <-]. cbn [snd].
    destruct (remove_from_lru_cache_keeps h (emit (EvObjectRef h) p1))
      as (Hc & Hh & _).
    destruct Hok1 as [H1 H2 H3 H4].
    split; unfold is_cached; rewrite ?Hc, ?Hh; try assumption.
    intros x Hx. rewrite remove_from_lru_cache_lru in Hx. apply H4.
    eapply elem_of_sublist; [exact Hx | apply g_list_remove_sublist].
  - apply info_cache_lookup_None in Hlook.
    destruct (find_icon g p1 icon_names size scale _ _) as [[[info origin]|]| |];
      cbn [mbind result_bind]; try discriminate.
    + destruct (match origin with
                | Some (theme, icon_name) => _
                | None => Ok None
                end) as [u| |]; cbn [mbind result_bind]; try discriminate.
      intros [= <-]. cbn [snd]. now apply cache_ok_insert.
    + now intros [= <-].
Qed.

Lemma proxy_pixbuf_destroy_cache_ok (h : handle) (p p' : GtkIconThemePrivate) :
  cache_ok p -> proxy_pixbuf_destroy h p = Ok p' -> cache_ok p'.
Proof.
  intros Hok. unfold proxy_pixbuf_destroy. fold (is_cached p h).
  destruct (is_cached p h) eqn:Hm.
  - destruct (ensure_in_lru_cache h p) as [q| |] eqn:Hpark;
      cbn [mbind result_bind]; try discriminate.
    intros [= <-].
    destruct (ensure_in_lru_cache_members h p q Hpark) as (Hc & Hh & Hl).
    destruct Hok as [H1 H2 H3 H4].
    split; unfold is_cached; cbn [info_cache heap info_cache_lru emit set_trace];
      rewrite ?Hc, ?Hh; try assumption.
    intros x Hx. destruct (Hl x Hx) as [-> | Hin]; [now apply H2 | now apply H4].
  - cbn [mbind result_bind]. intros [= <-]. now apply (cache_ok_same p).
Qed.

Lemma gtk_icon_info_finalize_cache_ok (h : handle) (p : GtkIconThemePrivate) :
  cache_ok p -> NoDup (info_cache_lru p) ->
  cache_ok (gtk_icon_info_finalize h p).
Proof.
  intros Hok Hnd. unfold gtk_icon_info_finalize.
  destruct (heap p !! h) as [info|]; [| exact Hok].
  destruct (i_in_cache info); [| exact Hok].
  destruct (i_key info) as [key|]; [| exact Hok].
  destruct (info_cache_take (info_cache p) key) as [rest [v|]] eqn:Htake;
    [| exact Hok].
  destruct (info_cache_take_Some _ _ _ _ Htake) as (pre & post & Hcache & ->).
  destruct Hok as [H1 H2 H3 H4].
  assert (Hv : forall k x, (k, x) ∈ pre ++ post -> x <> v).
  { intros k x Hin ->.
    assert (Hin' : (k, v) ∈ info_cache p).
    { rewrite Hcache. rewrite elem_of_app, elem_of_cons.
      apply elem_of_app in Hin. tauto. }
    assert (Hkey : (key, v) ∈ info_cache p).
    { rewrite Hcache. rewrite elem_of_app, elem_of_cons. tauto. }
    destruct (H1 k v Hin') as (i1 & Hh1 & _ & Hk1).
    destruct (H1 key v Hkey) as (i2 & Hh2 & _ & Hk2).
    assert (Heq : k = key) by congruence. subst k.
    rewrite Hcache, fmap_app, fmap_cons in H3. cbn [fst] in H3.
    apply NoDup_app in H3 as (_ & Hdisj & Hpost).
    apply NoDup_cons in Hpost as [Hnot _].
    apply elem_of_app in Hin as [Hin | Hin].
    - apply (Hdisj key).
      + apply list_elem_of_fmap. now exists (key, v).
      + now left.
    - apply Hnot. apply list_elem_of_fmap. now exists (key, v). }
  set (p0 := set_info_cache (pre ++ post) p).
  destruct (icon_info_uncached_effect v p0) as (Hc & Hmarks & Hlru & Hheap).
  assert (Hmv : is_cached p v = true).
  { destruct (H1 key v) as (i & Hh & Hm & _).
    - rewrite Hcache, elem_of_app, elem_of_cons. tauto.
    - unfold is_cached. now rewrite Hh. }
  change (is_cached p0 v) with (is_cached p v) in Hlru. rewrite Hmv in Hlru.
  change (info_cache_lru p0) with (info_cache_lru p) in Hlru.
  assert (Hsub : forall x, x ∈ (pre ++ post).*2 -> x ∈ (info_cache p).*2).
  { intros x Hx. rewrite Hcache. rewrite fmap_app, elem_of_app in Hx.
    rewrite fmap_app, fmap_cons, elem_of_app, elem_of_cons. tauto. }
  assert (Hback : forall x, x ∈ (info_cache p).*2 -> x <> v ->
                            x ∈ (pre ++ post).*2).
  { intros x Hx Hne. rewrite Hcache in Hx.
    rewrite fmap_app, fmap_cons, elem_of_app, elem_of_cons in Hx.
    rewrite fmap_app, elem_of_app. cbn [snd] in Hx. tauto. }
  split; rewrite ?Hc; cbn [info_cache set_info_cache p0].
  - intros k x Hin. pose proof (Hv k x Hin) as Hne.
    destruct (H1 k x) as (i & Hh & Hm & Hk).
    { rewrite Hcache. rewrite elem_of_app, elem_of_cons.
      apply elem_of_app in Hin. tauto. }
    exists i. split; [| split; [exact Hm | exact Hk]].
    rewrite (Hheap x Hne). exact Hh.
  - intros x Hx. rewrite Hmarks in Hx.
    destruct (decide (x = v)) as [-> | Hne]; [discriminate |].
    apply Hback; [| exact Hne]. now apply H2.
  - rewrite Hcache, fmap_app, fmap_cons in H3. rewrite fmap_app.
    apply NoDup_app in H3 as (Hpre & Hdisj & Hpost).
    apply NoDup_cons in Hpost as [_ Hpost].
    apply NoDup_app. split; [exact Hpre | split; [| exact Hpost]].
    intros x Hx1 Hx2. apply (Hdisj x Hx1). now right.
  - intros x Hx. rewrite Hlru in Hx.
    assert (Hne : x <> v).
    { intros ->. exact (g_list_remove_not_in _ _ Hnd Hx). }
    apply Hback; [| exact Hne]. apply H4.
    eapply elem_of_sublist; [exact Hx | apply g_list_remove_sublist].
Qed.

Lemma do_theme_change_cache_ok (p : GtkIconThemePrivate) :
  cache_ok p -> NoDup (info_cache_lru p) -> cache_ok (do_theme_change p).
Proof.
  intros Hok Hnd.
  destruct (do_theme_change_empty p Hok Hnd) as (Hc & Hl & Hm).
  now apply cache_ok_empty.
Qed.

(** The caches survive the entry points that switch the theme. *)
Lemma theme_switch_cache_ok (p : GtkIconThemePrivate) :
  cache_ok p -> NoDup (info_cache_lru p) ->
  (forall gtk_icon_theme_name,
      cache_ok (update_current_theme gtk_icon_theme_name p))
  /\ (forall new_screen gtk_icon_theme_name,
        cache_ok (gtk_icon_theme_set_screen new_screen gtk_icon_theme_name p))
  /\ (forall theme_name gtk_icon_theme_name,
        cache_ok (gtk_icon_theme_set_custom_theme theme_name
                    gtk_icon_theme_name p)).
Proof.
  intros Hok Hnd.
  destruct (theme_switch_preserves
              (fun q => cache_ok q /\ NoDup (info_cache_lru q)) p)
    as (H1 & H2 & H3).
  - intros v q [Hq Hn]. split; [now apply (cache_ok_same q) | exact Hn].
  - intros v q [Hq Hn]. split; [now apply (cache_ok_same q) | exact Hn].
  - intros v q [Hq Hn]. split; [now apply (cache_ok_same q) | exact Hn].
  - intros v q [Hq Hn]. split; [now apply (cache_ok_same q) | exact Hn].
  - intros q [Hq Hn]. split; [now apply do_theme_change_cache_ok |].
    destruct (do_theme_change_empty q Hq Hn) as (_ & -> & _). constructor.
  - now split.
  - split; [| split]; intros; [apply H1 | apply H2 | apply H3].
Qed.

Lemma run_op_cache_ok (g : Builtins) (op : theme_op)
    (p p' : GtkIconThemePrivate) :
  cache_ok p -> NoDup (info_cache_lru p) ->
  run_op g op p = Ok p' -> cache_ok p'.
Proof.
  intros Hok Hnd. destruct op; simpl.
  - destruct (choose_icon fuel g fs now p icon_names size scale flags)
      as [r| |] eqn:Hrun; simpl; try discriminate.
    intros [= <-]. eapply choose_icon_cache_ok; eassumption.
  - now apply proxy_pixbuf_destroy_cache_ok.
  - intros [= <-]. now apply gtk_icon_info_finalize_cache_ok.
  - intros [= <-]. unfold gtk_icon_theme_rescan_if_needed.
    destruct (rescan_themes_same fs now p) as (Hc & Hl & Hh).
    destruct (rescan_themes fs now p) as [changed pr]. simpl in Hc, Hl, Hh.
    assert (Hokr : cache_ok pr) by (now apply (cache_ok_same p)).
    destruct changed; simpl; [| exact Hokr].
    apply do_theme_change_cache_ok; [exact Hokr | now rewrite Hl].
  - intros [= <-]. unfold gtk_icon_theme_set_search_path.
    apply do_theme_change_cache_ok; [now apply (cache_ok_same p) | exact Hnd].
  - intros [= <-]. now apply theme_switch_cache_ok.
  - intros [= <-]. now apply theme_switch_cache_ok.
  - intros [= <-]. now apply theme_switch_cache_ok.
  - now apply ensure_valid_themes_cache_ok.
  - intros [= <-]. destruct (run_theme_changed_idle_fields p) as [evs ->].
    now apply (cache_ok_same p).
Qed.

Lemma reachable_cache_ok (g : Builtins) (p : GtkIconThemePrivate) :
  reachable g p -> cache_ok p.
Proof.
  induction 1 as [path supports_svg | path supports_svg new_screen settings
                  | op p p' Hreach IH Hrun].
  - apply cache_ok_empty; reflexivity.
  - unfold gtk_icon_theme_for_screen.
    apply (cache_ok_same
             (gtk_icon_theme_set_screen (Some new_screen) settings
                (init_priv path supports_svg))); try reflexivity.
    apply theme_switch_cache_ok; [apply cache_ok_empty; reflexivity |].
    constructor.
  - eapply run_op_cache_ok; [exact IH | | exact Hrun].
    exact (proj2 (reachable_lru_ok g p Hreach)).
Qed.

(** X9.  In every state an icon theme reaches, the two caches fit together:
    every icon info on the LRU list is still an entry of the primary cache;
    every entry of the primary cache is an icon info marked as cached that
    carries the key it is stored under; no key is stored twice; and an icon
    info marked as cached is an entry.  A new search path, and a rescan on
    request that finds a changed directory, leave both the primary cache and
    the LRU list empty and no icon info marked. *)
Theorem caches_consistent (g : Builtins) (p : GtkIconThemePrivate) :
  reachable g p ->
  (forall h, h ∈ info_cache_lru p ->
     exists key info,
       (key, h) ∈ info_cache p /\ heap p !! h = Some info
       /\ i_in_cache info = true /\ i_key info = Some key)
  /\ (forall key h, (key, h) ∈ info_cache p ->
        exists info,
          heap p !! h = Some info
          /\ i_in_cache info = true /\ i_key info = Some key)
  /\ NoDup (info_cache p).*1
  /\ (forall h, is_cached p h = true -> h ∈ (info_cache p).*2)
  /\ (forall path,
        let q := gtk_icon_theme_set_search_path path p in
        info_cache q = [] /\ info_cache_lru q = []
        /\ forall h, is_cached q h = false)
  /\ (forall fs now,
        fst (gtk_icon_theme_rescan_if_needed fs now p) = true ->
        let q := snd (gtk_icon_theme_rescan_if_needed fs now p) in
        info_cache q = [] /\ info_cache_lru q = []
        /\ forall h, is_cached q h = false).
Proof.
  intros Hreach.
  pose proof (reachable_cache_ok g p Hreach) as Hok.
  pose proof (proj2 (reachable_lru_ok g p Hreach)) as Hnd.
  split; [| split; [exact (co_entries p Hok) |
                    split; [exact (co_keys p Hok) |
                            split; [exact (co_marked p Hok) |]]]].
  - intros h Hin. pose proof (co_lru p Hok h Hin) as Hval.
    apply list_elem_of_fmap in Hval as ([k x] & -> & Hentry). cbn [snd].
    destruct (co_entries p Hok k x Hentry) as (info & Hheap & Hm & Hk).
    exists k, info. auto.
  - split.
    + intros path q. subst q. unfold gtk_icon_theme_set_search_path.
      apply do_theme_change_empty; [| exact Hnd].
      now apply (cache_ok_same p).
    + intros fs now. unfold gtk_icon_theme_rescan_if_needed.
      destruct (rescan_themes_same fs now p) as (Hc & Hl & Hh).
      destruct (rescan_themes fs now p) as [changed pr]. simpl in Hc, Hl, Hh.
      destruct changed; cbn [fst snd]; [| discriminate].
      intros _. apply do_theme_change_empty; [| now rewrite Hl].
      now apply (cache_ok_same p).
Qed.

End CachesAlongRuns.

(** X9 on the state after the first lookup of edit-cut and the release of
    its raster: the icon info 0 is parked on the LRU list and is an entry
    of the primary cache. *)
Lemma caches_consistent_witness :
  exists p,
    @reachable gtk3_flag_bits no_builtins p
    /\ info_cache_lru p = [0%nat]
    /\ exists key info,
         (key, 0%nat) ∈ info_cache p /\ heap p !! 0%nat = Some info
         /\ i_in_cache info = true /\ i_key info = Some key.
Proof.
  assert (Hrun : exists p,
            @run_op gtk3_flag_bits no_builtins
              (OpChooseIcon 3 fs_gnome_only 0 ["edit-cut"] 24 1 0) priv_fresh
            = Ok p
            /\ exists p', @run_op gtk3_flag_bits no_builtins
                            (OpProxyDestroy 0%nat) p = Ok p'
                          /\ info_cache_lru p' = [0%nat]).
  { eexists. split; [vm_compute; reflexivity |].
    eexists. split; [vm_compute; reflexivity | reflexivity]. }
  destruct Hrun as (p & Hp & p' & Hp' & Hlru).
  exists p'.
  assert (Hreach : @reachable gtk3_flag_bits no_builtins p').
  { eapply reachable_step; [| exact Hp'].
    eapply reachable_step; [apply reachable_init | exact Hp]. }
  split; [exact Hreach | split; [exact Hlru |]].
  destruct (@caches_consistent gtk3_flag_bits no_builtins p' Hreach)
    as (Hparked & Hentries & _).
  destruct (Hparked 0%nat) as (key & _ & Hin & _).
  - rewrite Hlru. now left.
  - destruct (Hentries key 0%nat Hin) as (info & Hheap & Hmark & Hkey).
    exists key, info. auto.
Defined.

(** ** ThemeRegistry: the unthemed icons *)

(** A file name that is classified as an image ends in the extension of its
    format. *)
Lemma suffix_from_name_ext (file : string) :
  suffix_from_name file <> ICON_SUFFIX_NONE ->
  exists base ext,
    file = (base ++ ext)%string /\ String.length ext = 4%nat
    /\ string_from_suffix (suffix_from_name file) = Ok ext.
Proof.
  unfold suffix_from_name.
  destruct (g_str_has_suffix file ".png") eqn:Hpng.
  { intros _. eexists _, ".png".
    split; [exact (g_str_has_suffix_split _ _ Hpng) | split; reflexivity]. }
  destruct (g_str_has_suffix file ".svg") eqn:Hsvg.
  { intros _. eexists _, ".svg".
    split; [exact (g_str_has_suffix_split _ _ Hsvg) | split; reflexivity]. }
  destruct (g_str_has_suffix file ".xpm") eqn:Hxpm; [| congruence].
  intros _. eexists _, ".xpm".
  split; [exact (g_str_has_suffix_split _ _ Hxpm) | split; reflexivity].
Qed.

(** The directory in front of an image file name does not change its
    format. *)
Lemma suffix_from_name_build (dir file : string) :
  suffix_from_name file <> ICON_SUFFIX_NONE ->
  suffix_from_name (g_build_filename dir file) = suffix_from_name file.
Proof.
  intros Hne. destruct (suffix_from_name_ext file Hne) as (base & ext & Hfile & Hlen & Hext).
  unfold g_build_filename. rewrite Hfile at 1.
  rewrite <- !string_app_assoc. rewrite suffix_from_name_app by exact Hlen.
  destruct (string_from_suffix_Ok _ _ Hext) as [[-> ->] | [[-> ->] | [-> ->]]];
    reflexivity.
Qed.

Lemma load_unthemed_file_ok (dir file : string)
    (acc : gmap string UnthemedIcon * gset string) :
  unthemed_table_ok (fst acc) (snd acc) ->
  unthemed_table_ok (fst (load_unthemed_file dir acc file))
                    (snd (load_unthemed_file dir acc file)).
Proof.
  intros Hok. unfold load_unthemed_file.
  destruct (Z.eqb_spec (suffix_from_name file) ICON_SUFFIX_NONE) as [Hnone | Hsome];
    [exact Hok |].
  pose proof (suffix_from_name_build dir file Hsome) as Hbuild.
  assert (Hkind : suffix_from_name file = ICON_SUFFIX_SVG
                  \/ suffix_from_name file = ICON_SUFFIX_PNG
                  \/ suffix_from_name file = ICON_SUFFIX_XPM).
  { destruct (suffix_from_name_cases file) as [? | [? | [? | ?]]]; tauto. }
  destruct (fst acc !! strip_suffix file) as [icon|] eqn:Hold.
  - destruct (Hok _ _ Hold) as [Hicon Hin]. cbn [fst snd].
    pose proof (uo_svg _ Hicon) as Hs. pose proof (uo_no_svg _ Hicon) as Hn.
    intros name icon' Hlook.
    destruct (decide (name = strip_suffix file)) as [-> | Hne];
      [| rewrite lookup_insert_ne in Hlook by congruence; now apply Hok].
    rewrite lookup_insert_eq in Hlook. injection Hlook as <-.
    split; [| exact Hin].
    destruct (Z.eqb_spec (suffix_from_name file) ICON_SUFFIX_SVG) as [Hsvg | Hnsvg].
    + destruct (svg_filename icon) as [old|]; [exact Hicon |].
      split; cbn [svg_filename no_svg_filename].
      * intros f [= <-]. congruence.
      * exact Hn.
      * left. eauto.
    + assert (Hraster : suffix_from_name (g_build_filename dir file)
                        = ICON_SUFFIX_PNG
                        \/ suffix_from_name (g_build_filename dir file)
                           = ICON_SUFFIX_XPM).
      { rewrite Hbuild. tauto. }
      destruct (no_svg_filename icon) as [old|].
      * destruct (suffix_from_name file >? suffix_from_name old);
          [| exact Hicon].
        split; cbn [svg_filename no_svg_filename].
        -- exact Hs.
        -- now intros f [= <-].
        -- right. eauto.
      * split; cbn [svg_filename no_svg_filename].
        -- exact Hs.
        -- now intros f [= <-].
        -- right. eauto.
  - cbn [fst snd]. intros name icon' Hlook.
    destruct (decide (name = strip_suffix file)) as [-> | Hne].
    + rewrite lookup_insert_eq in Hlook. injection Hlook as <-.
      split; [| apply elem_of_union; left; now apply elem_of_singleton].
      destruct (Z.eqb_spec (suffix_from_name file) ICON_SUFFIX_SVG) as [Hsvg | Hnsvg];
        split; cbn [svg_filename no_svg_filename]; try discriminate.
      * intros f [= <-]. congruence.
      * left. eauto.
      * intros f [= <-]. rewrite Hbuild. tauto.
      * right. eauto.
    + rewrite lookup_insert_ne in Hlook by congruence.
      destruct (Hok _ _ Hlook) as [Hicon Hin]. split; [exact Hicon |].
      apply elem_of_union. now right.
Qed.

Lemma load_unthemed_root_ok (fs : FileSystem) (p : GtkIconThemePrivate)
    (dir : string) :
  unthemed_table_ok (unthemed_icons p) (all_icons p) ->
  unthemed_table_ok (unthemed_icons (load_unthemed_root fs p dir))
                    (all_icons (load_unthemed_root fs p dir)).
Proof.
  intros Hok. unfold load_unthemed_root.
  destruct (fs_stat_dir fs dir) as [mtime|]; [| exact Hok].
  destruct (fs_icon_cache fs dir) as [c|]; [exact Hok |].
  destruct (fs_read_dir fs dir) as [files|]; [| exact Hok].
  cbn [unthemed_icons all_icons set_all_icons set_unthemed_icons
       set_dir_mtimes emit set_trace].
  assert (H : forall acc,
            unthemed_table_ok (fst acc) (snd acc) ->
            unthemed_table_ok (fst (fold_left (load_unthemed_file dir) files acc))
                              (snd (fold_left (load_unthemed_file dir) files acc))).
  { induction files as [|file files IH]; intros acc Hacc; [exact Hacc |].
    simpl. apply IH. now apply load_unthemed_file_ok. }
  exact (H (unthemed_icons p, all_icons p) Hok).
Qed.

Lemma load_unthemed_roots_ok (fs : FileSystem) (roots : list string) :
  forall p,
    unthemed_table_ok (unthemed_icons p) (all_icons p) ->
    unthemed_table_ok (unthemed_icons (fold_left (load_unthemed_root fs) roots p))
                      (all_icons (fold_left (load_unthemed_root fs) roots p)).
Proof.
  induction roots as [|r roots IH]; intros p Hok; [exact Hok |].
  simpl. apply IH. now apply load_unthemed_root_ok.
Qed.

(** X10.  After every completed load, each entry of the table of unthemed
    icons (image files found directly in a search-path root) is well
    formed: its SVG slot, if filled, holds a file name ending in .svg, its
    other slot, if filled, one ending in .png or .xpm, and at least one slot
    is filled; and its name is in the set of all icon names.  So the file name
    handed out for an unthemed icon always is that of an image file, it is
    an SVG file only when SVG loading is allowed, and then only when no PNG
    file of that name was found. *)
Theorem unthemed_icons_well_formed (fuel : nat) (fs : FileSystem) (now : Z)
    (p q : GtkIconThemePrivate) (name : string) (icon : UnthemedIcon) :
  load_themes fuel fs now p = Ok q ->
  unthemed_icons q !! name = Some icon ->
  unthemed_icon_ok icon /\ name ∈ all_icons q
  /\ forall size allow_svg f,
       i_filename (unthemed_icon_info icon size allow_svg) = Some f ->
       suffix_from_name f <> ICON_SUFFIX_NONE
       /\ (suffix_from_name f = ICON_SUFFIX_SVG ->
           allow_svg = true
           /\ forall f', no_svg_filename icon = Some f' ->
                         suffix_from_name f' = ICON_SUFFIX_XPM).
Proof.
  intros Hload Hlook.
  destruct (load_themes_inv fuel fs now p q Hload) as (p2 & p3 & _ & _ & _ & ->).
  assert (Hok : unthemed_table_ok
                  (unthemed_icons (fold_left (load_unthemed_root fs) (search_path p3)
                     (set_unthemed_icons ∅ (set_themes (rev (themes p3)) p3))))
                  (all_icons (fold_left (load_unthemed_root fs) (search_path p3)
                     (set_unthemed_icons ∅ (set_themes (rev (themes p3)) p3))))).
  { apply load_unthemed_roots_ok. intros n i Hn.
    cbn [unthemed_icons set_unthemed_icons] in Hn. now rewrite lookup_empty in Hn. }
  destruct (Hok name icon Hlook) as [Hicon Hin].
  split; [exact Hicon | split; [exact Hin |]].
  destruct Hicon as [Hs Hn Hany].
  intros size allow_svg f. unfold unthemed_icon_info.
  destruct (svg_filename icon) as [sf|] eqn:Hsf;
    destruct (no_svg_filename icon) as [nf|] eqn:Hnf;
    destruct allow_svg; cbn [andb negb bool_decide];
    rewrite ?bool_decide_eq_true_2 by eauto;
    rewrite ?bool_decide_eq_false_2 by (intros [? ?]; discriminate);
    cbn [andb negb]; try discriminate.
  - destruct (Z.eqb_spec (suffix_from_name nf) ICON_SUFFIX_PNG) as [Hp | Hp];
      cbn [negb]; intros [= <-].
    + rewrite Hp. split; discriminate.
    + rewrite (Hs _ eq_refl). split; [discriminate |]. intros _.
      split; [reflexivity |]. intros f' [= <-].
      destruct (Hn _ eq_refl); [contradiction | assumption].
  - intros [= <-]. destruct (Hn _ eq_refl) as [-> | ->]; split; discriminate.
  - intros [= <-]. rewrite (Hs _ eq_refl). split; [discriminate |].
    intros _. split; [reflexivity | discriminate].
  - intros [= <-]. destruct (Hn _ eq_refl) as [-> | ->]; split; discriminate.
  - intros [= <-]. destruct (Hn _ eq_refl) as [-> | ->]; split; discriminate.
Qed.

(** X10 on a root that holds logo.svg, logo.xpm and logo.png, read in that
    order: the entry for logo is well formed. *)
Lemma unthemed_icons_well_formed_witness :
  exists q icon,
    load_themes 3 fs_foo 0 priv_foo_current = Ok q
    /\ unthemed_icons q !! "logo" = Some icon
    /\ unthemed_icon_ok icon.
Proof.
  assert (Hrun : exists q, load_themes 3 fs_foo 0 priv_foo_current = Ok q
                           /\ exists icon, unthemed_icons q !! "logo" = Some icon).
  { eexists. split; [vm_compute; reflexivity |].
    eexists. vm_compute. reflexivity. }
  destruct Hrun as (q & Hload & icon & Hlook).
  exists q, icon. split; [exact Hload | split; [exact Hlook |]].
  exact (proj1 (unthemed_icons_well_formed 3 fs_foo 0 priv_foo_current q
                  "logo" icon Hload Hlook)).
Defined.

(** On that root the PNG file replaces the XPM file found before it, and
    the lookup returns the PNG even when SVG loading is allowed. *)
Example unthemed_png_beats_svg :
  (q ← load_themes 3 fs_foo 0 priv_foo_current;
   Ok ((fun icon => i_filename (unthemed_icon_info icon 24 true))
         <$> unthemed_icons q !! "logo"))
  = Ok (Some (Some "/usr/share/icons/logo.png")).
Proof. vm_compute. reflexivity. Qed.

(** ** The sizes an icon is available at *)

Lemma add_dir_size_spec (icon_name : string) (sizes : gset Z)
    (d : IconThemeDir) :
  sizes ⊆ add_dir_size icon_name sizes d
  /\ (forall s, s ∈ add_dir_size icon_name sizes d ->
        s ∈ sizes
        \/ (s = -1 /\ holds_svg_only icon_name d)
        \/ (s = d_size d /\ holds_raster icon_name d))
  /\ (holds_raster icon_name d -> d_size d ∈ add_dir_size icon_name sizes d)
  /\ (holds_svg_only icon_name d -> is_scalable d = true ->
      -1 ∈ add_dir_size icon_name sizes d).
Proof.
  unfold add_dir_size, holds_raster, holds_svg_only. cbv zeta.
  destruct (is_scalable d) eqn:Hsc; cbn [negb andb].
  - destruct (Z.eqb_spec (fst (theme_dir_get_icon_suffix d icon_name))
                ICON_SUFFIX_NONE) as [Hn | Hn]; cbn [negb].
    + repeat split; try set_solver. intros He. rewrite Hn in He. discriminate.
    + destruct (Z.eqb_spec (fst (theme_dir_get_icon_suffix d icon_name))
                  ICON_SUFFIX_SVG) as [Hs | Hs]; set_solver.
  - destruct (bool_decide_reflect (d_size d ∈ sizes)) as [Hin | Hin].
    + repeat split; try set_solver.
    + destruct (Z.eqb_spec (fst (theme_dir_get_icon_suffix d icon_name))
                  ICON_SUFFIX_NONE) as [Hn | Hn]; cbn [negb].
      * repeat split; try set_solver.
      * destruct (Z.eqb_spec (fst (theme_dir_get_icon_suffix d icon_name))
                    ICON_SUFFIX_SVG) as [Hs | Hs]; set_solver.
Qed.

Lemma add_dir_sizes_spec (icon_name : string) (dirs : list IconThemeDir) :
  forall sizes,
    let final := fold_left (add_dir_size icon_name) dirs sizes in
    sizes ⊆ final
    /\ (forall s, s ∈ final ->
          s ∈ sizes
          \/ (s = -1 /\ exists d, d ∈ dirs /\ holds_svg_only icon_name d)
          \/ (exists d, d ∈ dirs /\ d_size d = s /\ holds_raster icon_name d))
    /\ (forall d, d ∈ dirs -> holds_raster icon_name d -> d_size d ∈ final)
    /\ (forall d, d ∈ dirs -> holds_svg_only icon_name d ->
                  is_scalable d = true -> -1 ∈ final).
Proof.
  induction dirs as [|d dirs IH]; intros sizes; cbv zeta.
  - simpl. repeat split; try set_solver.
  - cbn [fold_left].
    destruct (add_dir_size_spec icon_name sizes d) as (H1 & H2 & H3 & H4).
    destruct (IH (add_dir_size icon_name sizes d)) as (I1 & I2 & I3 & I4).
    cbv zeta in I1, I2, I3, I4.
    split; [set_solver |]. split; [| split].
    + intros s Hs. destruct (I2 s Hs) as [Hin | [[-> (x & Hx & Hsvg)] | (x & Hx & Hsz & Hr)]].
      * destruct (H2 s Hin) as [? | [[-> ?] | [-> ?]]].
        -- now left.
        -- right. left. split; [reflexivity |]. exists d. split; [now left | assumption].
        -- right. right. exists d. split; [now left | auto].
      * right. left. split; [reflexivity |]. exists x. split; [now right | assumption].
      * right. right. exists x. split; [now right | auto].
    + intros x Hx Hr. apply elem_of_cons in Hx as [-> | Hx]; [| now apply I3].
      apply I1. now apply H3.
    + intros x Hx Hsvg Hsc. apply elem_of_cons in Hx as [-> | Hx]; [| now apply (I4 x)].
      apply I1. now apply H4.
Qed.

Lemma fold_left_themes_dirs (icon_name : string) (l : list IconTheme) :
  forall sizes,
    fold_left (fun sizes theme =>
                 fold_left (add_dir_size icon_name) (t_dirs theme) sizes) l sizes
    = fold_left (add_dir_size icon_name) (concat (map t_dirs l)) sizes.
Proof.
  induction l as [|t l IH]; intros sizes; [reflexivity |].
  simpl. rewrite fold_left_app. apply IH.
Qed.

Lemma add_builtin_sizes_spec (icons : list BuiltinIcon) :
  forall (sizes : gset Z) (s : Z),
    s ∈ fold_left (fun (sizes : gset Z) icon => {[ b_size icon ]} ∪ sizes)
          icons sizes
    <-> s ∈ sizes \/ exists icon, icon ∈ icons /\ b_size icon = s.
Proof.
  induction icons as [|icon icons IH]; intros sizes s; simpl.
  - split; [now left | intros [? | (? & Hin & _)]; [assumption |]].
    now apply elem_of_nil in Hin.
  - rewrite IH. rewrite elem_of_union, elem_of_singleton. split.
    + intros [[-> | ?] | (x & Hx & Hs)].
      * right. exists icon. split; [now left | reflexivity].
      * now left.
      * right. exists x. split; [now right | assumption].
    + intros [? | (x & Hx & Hs)]; [left; now right |].
      apply elem_of_cons in Hx as [-> | Hx]; [left; now left |].
      right. eauto.
Qed.

Section IconSizesSpec.
Variable g_hash_table_foreach_order : gset Z -> list Z.
(** Each key is visited once. *)
Hypothesis g_hash_table_foreach_once :
  forall sizes : gset Z, g_hash_table_foreach_order sizes ≡ₚ elements sizes.

(** X11.  The array returned for an icon name ends in 0 and, before it,
    lists each size once.  Every size listed is accounted for: -1 by a
    directory that holds the icon as an SVG file only, another size by a
    directory of that nominal size that holds the icon in another format or
    by a built-in icon registered at that size.  Conversely the nominal size
    of every directory that holds the icon in a format other than SVG alone
    is listed, every registered size is, and -1 is listed when a Scalable
    directory holds the icon as an SVG file only.  The directories are those
    of the loaded themes and, once the compiled-in index is set up, its
    five directories. *)
Theorem icon_sizes_listed (fuel : nat) (g : Builtins) (ensured : bool)
    (fs : FileSystem) (now : Z) (p q : GtkIconThemePrivate)
    (icon_name : string) (result : list Z) :
  gtk_icon_theme_get_icon_sizes g_hash_table_foreach_order fuel g ensured fs
    now p icon_name = Ok (result, q) ->
  let dirs := concat (map t_dirs (themes q))
              ++ (if ensured then builtin_dirs g else []) in
  let registered :=
    default [] (icon_theme_builtin_icons g ≫= fun table => table !! icon_name) in
  exists listed,
    result = listed ++ [0] /\ NoDup listed
    /\ ensure_valid_themes fuel fs now p = Ok q
    /\ (forall s, s ∈ listed ->
          (s = -1 /\ exists d, d ∈ dirs /\ holds_svg_only icon_name d)
          \/ (exists d, d ∈ dirs /\ d_size d = s /\ holds_raster icon_name d)
          \/ (exists icon, icon ∈ registered /\ b_size icon = s))
    /\ (forall d, d ∈ dirs -> holds_raster icon_name d -> d_size d ∈ listed)
    /\ (forall d, d ∈ dirs -> holds_svg_only icon_name d ->
                  is_scalable d = true -> -1 ∈ listed)
    /\ (forall icon, icon ∈ registered -> b_size icon ∈ listed).
Proof.
  unfold gtk_icon_theme_get_icon_sizes.
  destruct (ensure_valid_themes fuel fs now p) as [q'| |]; try discriminate.
  cbn [mbind result_bind]. intros [= <- <-].
  set (dirs := concat (map t_dirs (themes q'))
               ++ (if ensured then builtin_dirs g else [])).
  set (registered :=
         default [] (icon_theme_builtin_icons g ≫= fun table => table !! icon_name)).
  set (sizes := icon_sizes g ensured q' icon_name).
  exists (g_hash_table_foreach_order sizes).
  pose proof (g_hash_table_foreach_once sizes) as Hperm.
  assert (Hmem : forall s, s ∈ g_hash_table_foreach_order sizes <-> s ∈ sizes).
  { intros s. rewrite Hperm. apply elem_of_elements. }
  split; [reflexivity |]. split.
  { rewrite Hperm. apply NoDup_elements. }
  split; [reflexivity |].
  (* the table after the loops over the directories *)
  set (S1 := fold_left (add_dir_size icon_name) dirs ∅).
  assert (HS1 : fold_left (add_dir_size icon_name)
                  (if ensured then builtin_dirs g else [])
                  (fold_left (fun sizes theme =>
                     fold_left (add_dir_size icon_name) (t_dirs theme) sizes)
                     (themes q') ∅) = S1).
  { subst S1 dirs. now rewrite fold_left_themes_dirs, fold_left_app. }
  destruct (add_dir_sizes_spec icon_name dirs ∅) as (_ & D2 & D3 & D4).
  cbv zeta in D2, D3, D4. fold S1 in D2, D3, D4.
  assert (Hsizes : forall s, s ∈ sizes
                     <-> s ∈ S1 \/ exists icon, icon ∈ registered /\ b_size icon = s).
  { intros s. subst sizes registered. unfold icon_sizes. cbv zeta. rewrite HS1.
    destruct (icon_theme_builtin_icons g) as [table|]; cbn [mbind option_bind].
    - rewrite add_builtin_sizes_spec.
      now destruct (table !! icon_name).
    - cbn [default from_option id]. split; [now left |].
      intros [? | (x & Hx & _)]; [assumption |]. now apply elem_of_nil in Hx. }
  split; [| split; [| split]].
  - intros s Hs. apply Hmem, Hsizes in Hs. destruct Hs as [Hs | Hs]; [| tauto].
    destruct (D2 s Hs) as [Hempty | [? | ?]]; [| tauto | tauto].
    now apply elem_of_empty in Hempty.
  - intros d Hd Hr. apply Hmem, Hsizes. left. now apply D3.
  - intros d Hd Hsvg Hsc. apply Hmem, Hsizes. left. now apply (D4 d).
  - intros icon Hicon. apply Hmem, Hsizes. right. eauto.
Qed.

End IconSizesSpec.

(** X11 on the themes Foo (edit-cut.png at 24) and Bar, with the keys
    visited in the order of [elements]. *)
Lemma icon_sizes_listed_witness :
  exists listed,
    gtk_icon_theme_get_icon_sizes elements 0 no_builtins false fs_gnome_only 0
      priv_child_parent "edit-cut"
    = Ok (listed ++ [0], priv_child_parent)
    /\ NoDup listed /\ 24 ∈ listed.
Proof.
  assert (Hrun : gtk_icon_theme_get_icon_sizes elements 0 no_builtins false
                   fs_gnome_only 0 priv_child_parent "edit-cut"
                 = Ok (elements (icon_sizes no_builtins false priv_child_parent
                                   "edit-cut") ++ [0], priv_child_parent)).
  { reflexivity. }
  destruct (icon_sizes_listed elements (fun sizes => reflexivity _) 0
              no_builtins false fs_gnome_only 0 priv_child_parent
              priv_child_parent "edit-cut" _ Hrun)
    as (listed & Heq & Hnd & _ & _ & Hraster & _).
  exists listed. split; [now rewrite Hrun, Heq | split; [exact Hnd |]].
  apply (Hraster (mk_dir ICON_THEME_DIR_FIXED 24 24 24 2 1
                    "/usr/share/icons/Foo/24x24" [("edit-cut", ICON_SUFFIX_PNG)])).
  - apply elem_of_app. left. simpl. now left.
  - split; vm_compute; discriminate.
Defined.

(** ** The search path and the unthemed icons *)

Lemma load_unthemed_file_adds (dir file : string)
    (acc : gmap string UnthemedIcon * gset string) :
  suffix_from_name file <> ICON_SUFFIX_NONE ->
  file_loaded (fst (load_unthemed_file dir acc file)) file.
Proof.
  intros Hsome. unfold load_unthemed_file, file_loaded, slot_covers.
  pose proof (suffix_from_name_build dir file Hsome) as Hbuild.
  destruct (Z.eqb_spec (suffix_from_name file) ICON_SUFFIX_NONE) as [? | _];
    [contradiction |].
  destruct (fst acc !! strip_suffix file) as [icon|]; cbn [fst];
    rewrite lookup_insert_eq; eexists; (split; [reflexivity |]).
  - destruct (Z.eqb_spec (suffix_from_name file) ICON_SUFFIX_SVG) as [Hsvg | Hnsvg].
    + destruct (svg_filename icon) eqn:Hs; [rewrite Hs |]; eauto.
    + destruct (no_svg_filename icon) as [old|] eqn:Hn.
      * destruct (Z.gtb_spec (suffix_from_name file) (suffix_from_name old)).
        -- eexists. split; [reflexivity |]. rewrite Hbuild. lia.
        -- exists old. split; [exact Hn | lia].
      * eexists. split; [reflexivity |]. rewrite Hbuild. lia.
  - destruct (Z.eqb_spec (suffix_from_name file) ICON_SUFFIX_SVG) as [Hsvg | Hnsvg];
      cbn [svg_filename no_svg_filename]; [eauto |].
    eexists. split; [reflexivity |]. rewrite Hbuild. lia.
Qed.

Lemma load_unthemed_file_keeps (dir file file0 : string)
    (acc : gmap string UnthemedIcon * gset string) :
  file_loaded (fst acc) file0 ->
  file_loaded (fst (load_unthemed_file dir acc file)) file0.
Proof.
  intros (icon0 & Hlook & Hcov). unfold load_unthemed_file.
  destruct (Z.eqb_spec (suffix_from_name file) ICON_SUFFIX_NONE) as [? | Hsome];
    [now exists icon0 |].
  pose proof (suffix_from_name_build dir file Hsome) as Hbuild.
  destruct (decide (strip_suffix file0 = strip_suffix file)) as [Heq | Hne].
  - rewrite <- Heq. rewrite Hlook. cbn [fst]. unfold file_loaded.
    rewrite lookup_insert_eq. eexists. split; [reflexivity |].
    unfold slot_covers in *.
    remember (suffix_from_name file0 =? ICON_SUFFIX_SVG) as svg0 eqn:Hsvg0.
    destruct (Z.eqb_spec (suffix_from_name file) ICON_SUFFIX_SVG) as [Hsvg | Hnsvg].
    + destruct (svg_filename icon0) eqn:Hs; [rewrite Hs; exact Hcov |].
      cbn [svg_filename no_svg_filename].
      destruct svg0; [eauto | exact Hcov].
    + destruct (no_svg_filename icon0) as [old|] eqn:Hn.
      * destruct (Z.gtb_spec (suffix_from_name file) (suffix_from_name old));
          [| rewrite Hn; exact Hcov].
        cbn [svg_filename no_svg_filename].
        destruct svg0; [exact Hcov |].
        destruct Hcov as (f & [= <-] & Hle).
        eexists. split; [reflexivity |]. rewrite Hbuild. lia.
      * cbn [svg_filename no_svg_filename].
        destruct svg0; [exact Hcov |].
        now destruct Hcov as (f & [=] & _).
  - exists icon0. split; [| exact Hcov].
    destruct (fst acc !! strip_suffix file); cbn [fst];
      now rewrite lookup_insert_ne by congruence.
Qed.

Lemma load_unthemed_files_keep (dir file0 : string) (files : list string) :
  forall acc,
    file_loaded (fst acc) file0 ->
    file_loaded (fst (fold_left (load_unthemed_file dir) files acc)) file0.
Proof.
  induction files as [|file files IH]; intros acc Hacc; [exact Hacc |].
  simpl. apply IH. now apply load_unthemed_file_keeps.
Qed.

Lemma load_unthemed_files_add (dir file0 : string) (files : list string) :
  file0 ∈ files -> suffix_from_name file0 <> ICON_SUFFIX_NONE ->
  forall acc,
    file_loaded (fst (fold_left (load_unthemed_file dir) files acc)) file0.
Proof.
  intros Hin Hsome. induction files as [|file files IH]; intros acc.
  - now apply elem_of_nil in Hin.
  - simpl. apply elem_of_cons in Hin as [<- | Hin]; [| now apply IH].
    apply load_unthemed_files_keep. now apply load_unthemed_file_adds.
Qed.

Lemma load_unthemed_root_keeps (fs : FileSystem) (p : GtkIconThemePrivate)
    (dir file0 : string) :
  file_loaded (unthemed_icons p) file0 ->
  file_loaded (unthemed_icons (load_unthemed_root fs p dir)) file0.
Proof.
  intros Hok. unfold load_unthemed_root.
  destruct (fs_stat_dir fs dir) as [mtime|]; [| exact Hok].
  destruct (fs_icon_cache fs dir) as [c|]; [exact Hok |].
  destruct (fs_read_dir fs dir) as [files|]; [| exact Hok].
  cbn [unthemed_icons all_icons set_all_icons set_unthemed_icons
       set_dir_mtimes emit set_trace].
  exact (load_unthemed_files_keep dir file0 files
           (unthemed_icons p, all_icons p) Hok).
Qed.

Lemma load_unthemed_roots_add (fs : FileSystem) (dir file0 : string)
    (files : list string) (roots : list string) :
  dir ∈ roots ->
  is_Some (fs_stat_dir fs dir) -> fs_icon_cache fs dir = None ->
  fs_read_dir fs dir = Some files -> file0 ∈ files ->
  suffix_from_name file0 <> ICON_SUFFIX_NONE ->
  forall p,
    file_loaded (unthemed_icons (fold_left (load_unthemed_root fs) roots p))
                file0.
Proof.
  intros Hin [mtime Hstat] Hcache Hread Hfile Hsome.
  assert (Hkeep : forall roots p,
            file_loaded (unthemed_icons p) file0 ->
            file_loaded
              (unthemed_icons (fold_left (load_unthemed_root fs) roots p)) file0).
  { clear. induction roots as [|r roots IH]; intros p Hp; [exact Hp |].
    simpl. apply IH. now apply load_unthemed_root_keeps. }
  induction roots as [|r roots IH]; intros p.
  - now apply elem_of_nil in Hin.
  - simpl. apply elem_of_cons in Hin as [<- | Hin]; [| now apply IH].
    apply Hkeep. unfold load_unthemed_root. rewrite Hstat, Hcache, Hread.
    cbn [unthemed_icons all_icons set_all_icons set_unthemed_icons
         set_dir_mtimes emit set_trace].
    now apply load_unthemed_files_add.
Qed.

(** A completed load takes up every image file of every readable
    search-path root that has no icon cache. *)
Lemma load_themes_unthemed_complete (fuel : nat) (fs : FileSystem) (now : Z)
    (p q : GtkIconThemePrivate) (dir file : string) (files : list string) :
  load_themes fuel fs now p = Ok q ->
  dir ∈ search_path p ->
  is_Some (fs_stat_dir fs dir) -> fs_icon_cache fs dir = None ->
  fs_read_dir fs dir = Some files -> file ∈ files ->
  suffix_from_name file <> ICON_SUFFIX_NONE ->
  file_loaded (unthemed_icons q) file /\ strip_suffix file ∈ all_icons q.
Proof.
  intros Hrun Hdir Hstat Hcache Hread Hfile Hsome.
  destruct (load_themes_inv fuel fs now p q Hrun)
    as (p2 & p3 & Huser & Hdef & _ & ->).
  pose proof (load_user_themes_growth fuel fs _ p2 Huser) as (Hf2 & _).
  pose proof (insert_theme_growth fuel fs p2 _ p3 Hdef) as (Hf3 & _).
  assert (Hpath : search_path p3 = search_path p).
  { rewrite (fr_search_path _ _ Hf3), (fr_search_path _ _ Hf2). reflexivity. }
  cbn [unthemed_icons all_icons set_last_stat_time set_themes_valid].
  rewrite Hpath.
  match goal with
  | |- file_loaded (unthemed_icons (fold_left _ _ ?init)) _ /\ _ =>
      pose proof (load_unthemed_roots_add fs dir file files (search_path p)
                    Hdir Hstat Hcache Hread Hfile Hsome init) as Hloaded;
      pose proof (load_unthemed_roots_ok fs (search_path p) init) as Hok
  end.
  split; [exact Hloaded |].
  destruct Hloaded as (icon & Hlook & _).
  apply (Hok ltac:(intros n i Hn; cbn in Hn; now rewrite lookup_empty in Hn)
           _ _ Hlook).
Qed.

Lemma do_theme_change_invalidates (p : GtkIconThemePrivate) :
  themes_valid (do_theme_change p) = false
  /\ search_path (do_theme_change p) = search_path p
  /\ loading_themes (do_theme_change p) = loading_themes p
  /\ theme_changed_idle (do_theme_change p)
     = (themes_valid p || theme_changed_idle p).
Proof.
  destruct (info_cache_remove_all_frame p) as [Hf _].
  unfold do_theme_change.
  pose proof (pf_themes_valid _ _ Hf) as Hv.
  pose proof (pf_search_path _ _ Hf) as Hs.
  pose proof (pf_loading_themes _ _ Hf) as Hl.
  pose proof (pf_theme_changed_idle _ _ Hf) as Hi.
  destruct (themes_valid (info_cache_remove_all p)) eqn:Hvalid; cbn [negb];
    rewrite <- Hv.
  - unfold queue_theme_changed.
    change (theme_changed_idle (blow_themes (info_cache_remove_all p)))
      with (theme_changed_idle (info_cache_remove_all p)).
    destruct (theme_changed_idle (info_cache_remove_all p)) eqn:Hidle;
      cbn [negb]; rewrite <- Hi; repeat split; assumption.
  - repeat split; assumption.
Qed.

Lemma ensure_valid_themes_invalid (fuel : nat) (fs : FileSystem) (now : Z)
    (p q : GtkIconThemePrivate) :
  loading_themes p = false -> themes_valid p = false ->
  ensure_valid_themes fuel fs now p = Ok q ->
  exists q1, load_themes fuel fs now (set_loading_themes true p) = Ok q1
             /\ q = set_loading_themes false q1.
Proof.
  intros Hl Hv. unfold ensure_valid_themes. rewrite Hl.
  cbn [themes_valid set_loading_themes]. rewrite Hv. cbn [negb].
  change (themes_valid (set_loading_themes true p)) with (themes_valid p).
  rewrite Hv. cbn [negb].
  destruct (load_themes fuel fs now (set_loading_themes true p)) as [q1| |];
    cbn [mbind result_bind]; try discriminate.
  intros [= <-]. eauto.
Qed.

(** X12.  After the search path is replaced, appended to or prepended to,
    the theme is invalid; the validation that follows reloads it with the
    new path, and takes up every image file (.png, .svg, .xpm) found
    directly in a directory of the new path that is readable and has no
    icon cache: the name without extension is an unthemed icon, its entry
    holds an SVG file if the file is one, and otherwise a file of the same
    format or of PNG format, and the name is in the set of all icon names.
    The change is notified when the theme was valid before. *)
Theorem search_path_edit_loads_icons (fuel : nat) (fs : FileSystem) (now : Z)
    (p : GtkIconThemePrivate) (dir file : string) (files : list string) :
  loading_themes p = false ->
  is_Some (fs_stat_dir fs dir) -> fs_icon_cache fs dir = None ->
  fs_read_dir fs dir = Some files -> file ∈ files ->
  suffix_from_name file <> ICON_SUFFIX_NONE ->
  let loads (edited : GtkIconThemePrivate) (path : list string) :=
    themes_valid edited = false
    /\ gtk_icon_theme_get_search_path edited = path
    /\ theme_changed_idle edited = (themes_valid p || theme_changed_idle p)
    /\ forall q, ensure_valid_themes fuel fs now edited = Ok q ->
         themes_valid q = true
         /\ gtk_icon_theme_get_search_path q = path
         /\ file_loaded (unthemed_icons q) file
         /\ strip_suffix file ∈ all_icons q in
  loads (gtk_icon_theme_append_search_path dir p) (search_path p ++ [dir])
  /\ loads (gtk_icon_theme_prepend_search_path dir p) (dir :: search_path p)
  /\ forall path, dir ∈ path ->
       loads (gtk_icon_theme_set_search_path path p) path.
Proof.
  intros Hl Hstat Hcache Hread Hfile Hsome loads.
  assert (H : forall path, dir ∈ path ->
            loads (do_theme_change (set_search_path path p)) path).
  { intros path Hdir. subst loads. cbv beta.
    destruct (do_theme_change_invalidates (set_search_path path p))
      as (Hv & Hs & Hl' & Hi).
    split; [exact Hv |]. split; [exact Hs |]. split; [exact Hi |].
    intros q Hrun.
    assert (Hl0 : loading_themes (do_theme_change (set_search_path path p))
                  = false) by (rewrite Hl'; exact Hl).
    destruct (ensure_valid_themes_post fuel fs now _ q Hl0 Hrun) as [_ Hvq].
    destruct (ensure_valid_themes_invalid fuel fs now _ q Hl0 Hv Hrun)
      as (q1 & Hload & ->).
    split; [exact Hvq |].
    destruct (load_themes_frame fuel fs now _ q1 Hload) as (q0 & Hfr & Hq1).
    assert (Hpath : search_path q1 = path).
    { rewrite Hq1. cbn [search_path set_last_stat_time set_themes_valid].
      rewrite (fr_search_path _ _ Hfr). exact Hs. }
    split; [exact Hpath |].
    apply (load_themes_unthemed_complete fuel fs now _ q1 dir file files Hload);
      try assumption.
    cbn [search_path set_loading_themes]. rewrite Hs. exact Hdir. }
  split; [| split].
  - apply H. apply elem_of_app. right. now left.
  - apply H. now left.
  - exact H.
Qed.

(** X12 on a fresh icon theme to which /usr/share/icons of the installation
    with the theme Foo is appended: logo.png is taken up. *)
Lemma search_path_edit_loads_icons_witness :
  exists q,
    ensure_valid_themes 3 fs_foo 0
      (gtk_icon_theme_append_search_path "/usr/share/icons" priv_fresh) = Ok q
    /\ file_loaded (unthemed_icons q) "logo.png" /\ "logo" ∈ all_icons q.
Proof.
  assert (Hrun : exists q,
            ensure_valid_themes 3 fs_foo 0
              (gtk_icon_theme_append_search_path "/usr/share/icons" priv_fresh)
            = Ok q).
  { eexists. vm_compute. reflexivity. }
  destruct Hrun as (q & Hrun). exists q. split; [exact Hrun |].
  destruct (search_path_edit_loads_icons 3 fs_foo 0 priv_fresh
              "/usr/share/icons" "logo.png"
              ["Foo"; "logo.svg"; "logo.xpm"; "logo.png"]
              eq_refl ltac:(eexists; reflexivity) eq_refl eq_refl
              ltac:(repeat constructor) ltac:(vm_compute; discriminate))
    as ((_ & _ & _ & Hq) & _).
  destruct (Hq q Hrun) as (_ & _ & Hloaded & Hall).
  split; assumption.
Defined.

(** ** ThemeRegistry: which themes become active *)

Lemma usable_growth_refl (fs : FileSystem) (p : GtkIconThemePrivate) :
  usable_growth fs p p.
Proof. split; [reflexivity |]. exists []. split; [reflexivity | constructor]. Qed.

Lemma usable_growth_trans (fs : FileSystem) (p q r : GtkIconThemePrivate) :
  usable_growth fs p q -> usable_growth fs q r -> usable_growth fs p r.
Proof.
  intros (Hs1 & a1 & Ha1 & Hu1) (Hs2 & a2 & Ha2 & Hu2).
  split; [congruence |]. exists (a2 ++ a1). split.
  - now rewrite Ha2, Ha1, app_assoc.
  - apply Forall_app. split; [now rewrite <- Hs1 | exact Hu1].
Qed.

(** The theme list after the body of [insert_theme]: the name is prepended
    exactly when the theme is usable. *)
Lemma insert_theme_body_names (fs : FileSystem) (p : GtkIconThemePrivate)
    (theme_name : string) :
  (theme_usable fs (search_path p) theme_name ->
   theme_names (fst (insert_theme_body fs p theme_name))
   = theme_name :: theme_names p)
  /\ (~ theme_usable fs (search_path p) theme_name ->
      theme_names (fst (insert_theme_body fs p theme_name)) = theme_names p).
Proof.
  unfold insert_theme_body, theme_names, theme_usable.
  destruct (stat_theme_roots_frame fs theme_name (search_path p) p) as [Hf0 Ht0].
  set (p0 := stat_theme_roots fs theme_name (search_path p) p) in *.
  set (p1 := set_dir_mtimes (rev (dir_mtimes p0)) p0).
  assert (Hs1 : search_path p1 = search_path p) by exact (fr_search_path _ _ Hf0).
  assert (Ht1 : themes p1 = themes p) by exact Ht0.
  cbv zeta. rewrite Hs1.
  destruct (find_theme_file fs theme_name (search_path p)) as [tf|] eqn:Hfile.
  - simpl. destruct (tf_directories tf) as [dirs|].
    + match goal with
      | |- context [fold_left (theme_subdir_load fs tf) dirs ?init] =>
          destruct (theme_subdirs_load_frame fs tf dirs init) as [_ Hta];
          set (st0 := fold_left (theme_subdir_load fs tf) dirs init) in *
      end.
      simpl in Hta.
      set (st1 := match tf_scaled_directories tf with
                  | Some scaled_dirs =>
                      fold_left (theme_subdir_load fs tf) scaled_dirs st0
                  | None => st0
                  end).
      assert (Htb : themes (fst st1) = themes (fst st0)).
      { subst st1. destruct (tf_scaled_directories tf) as [sd|]; [| reflexivity].
        apply theme_subdirs_load_frame. }
      clearbody st1 st0. simpl. split; [intros _ | intros H; destruct H; eauto].
      rewrite Htb, Hta. simpl. (rewrite ?Ht1, ?Ht0; auto).
    + simpl. split; [intros [? [=]] | intros _]. (rewrite ?Ht1, ?Ht0; auto).
  - simpl. destruct (String.eqb_spec theme_name DEFAULT_THEME_NAME) as [-> | Hne];
      simpl.
    + split; [intros _ | tauto]. (rewrite ?Ht1, ?Ht0; auto).
    + split; [tauto | intros _]. (rewrite ?Ht1, ?Ht0; auto).
Qed.

Lemma insert_theme_body_usable (fs : FileSystem) (p : GtkIconThemePrivate)
    (theme_name : string) :
  usable_growth fs p (fst (insert_theme_body fs p theme_name)).
Proof.
  destruct (insert_theme_body_spec fs p theme_name) as [Hf _].
  destruct (insert_theme_body_names fs p theme_name) as [Hyes Hno].
  split; [exact (fr_search_path _ _ Hf) |].
  destruct (find_theme_file fs theme_name (search_path p)) as [tf|] eqn:Hfile.
  - destruct (tf_directories tf) as [dirs|] eqn:Hdirs.
    + exists [theme_name]. split.
      * apply Hyes. unfold theme_usable. rewrite Hfile, Hdirs. eauto.
      * constructor; [| constructor]. unfold theme_usable.
        rewrite Hfile, Hdirs. eauto.
    + exists []. split; [| constructor]. apply Hno. unfold theme_usable.
      rewrite Hfile, Hdirs. now intros [? [=]].
  - destruct (String.eqb_spec theme_name DEFAULT_THEME_NAME) as [-> | Hne].
    + exists [DEFAULT_THEME_NAME]. split.
      * apply Hyes. unfold theme_usable. now rewrite Hfile.
      * constructor; [| constructor]. unfold theme_usable. now rewrite Hfile.
    + exists []. split; [| constructor]. apply Hno. unfold theme_usable.
      now rewrite Hfile.
Qed.

Lemma for_each_usable (fs : FileSystem)
    (f : GtkIconThemePrivate -> string -> result GtkIconThemePrivate)
    (l : list string) :
  (forall s a s', f s a = Ok s' -> usable_growth fs s s') ->
  forall s s', for_each f l s = Ok s' -> usable_growth fs s s'.
Proof.
  intros Hf. induction l as [|a l IH]; intros s s' Hrun; simpl in Hrun.
  - injection Hrun as <-. apply usable_growth_refl.
  - destruct (f s a) as [s1| |] eqn:Hfa; try discriminate. simpl in Hrun.
    eapply usable_growth_trans; [eapply Hf; eassumption | now apply IH].
Qed.

Lemma insert_theme_usable (fuel : nat) (fs : FileSystem) :
  forall (p : GtkIconThemePrivate) (theme_name : string) p',
    insert_theme fuel fs p theme_name = Ok p' -> usable_growth fs p p'.
Proof.
  induction fuel as [|fuel IH]; intros p theme_name p' Hrun; simpl in Hrun;
    [discriminate |].
  destruct (existsb _ (themes p)) eqn:Hex.
  - injection Hrun as <-. apply usable_growth_refl.
  - pose proof (insert_theme_body_usable fs p theme_name) as Hbody.
    destruct (insert_theme_body fs p theme_name) as [p1 parents].
    eapply usable_growth_trans; [exact Hbody |]. simpl.
    eapply for_each_usable; [| exact Hrun]. intros s a s'. apply IH.
Qed.

(** Inserting a usable theme that is not yet active puts its name behind
    everything the call adds, directly in front of the old list. *)
Lemma insert_theme_first (fuel : nat) (fs : FileSystem)
    (p p' : GtkIconThemePrivate) (theme_name : string) :
  insert_theme fuel fs p theme_name = Ok p' ->
  ~ In theme_name (theme_names p) ->
  theme_usable fs (search_path p) theme_name ->
  exists added, theme_names p' = added ++ theme_name :: theme_names p.
Proof.
  destruct fuel as [|fuel]; [discriminate |]. intros Hrun Hnew Husable.
  simpl in Hrun.
  destruct (existsb _ (themes p)) eqn:Hex.
  { apply existsb_theme_name in Hex. contradiction. }
  pose proof (proj1 (insert_theme_body_names fs p theme_name) Husable) as Hbody.
  destruct (insert_theme_body fs p theme_name) as [p1 parents]. simpl in *.
  assert (Hg : usable_growth fs p1 p').
  { eapply for_each_usable; [| exact Hrun]. intros s a s'.
    apply insert_theme_usable. }
  destruct Hg as (_ & added & Hadded & _). exists added.
  now rewrite Hadded, Hbody.
Qed.

(** The configured theme, when usable, heads the list of a load that started
    without themes. *)
Lemma load_themes_current_first (fuel : nat) (fs : FileSystem) (now : Z)
    (p q : GtkIconThemePrivate) (name : string) :
  themes p = [] ->
  load_themes fuel fs now p = Ok q ->
  current_theme p = Some name ->
  theme_usable fs (search_path p) name ->
  exists rest, theme_names q = name :: rest.
Proof.
  intros Hempty Hrun Hname Hyes.
  destruct (load_themes_inv fuel fs now p q Hrun)
    as (p2 & p3 & Huser & Hdef & Hnames & _).
  set (p0 := set_all_icons ∅ p) in *.
  assert (Hn0 : theme_names p0 = []).
  { unfold theme_names. change (themes p0) with (themes p). now rewrite Hempty. }
  unfold load_user_themes in Huser.
  change (current_theme p0) with (current_theme p) in Huser.
  rewrite Hname in Huser.
  destruct (insert_theme fuel fs p0 name) as [p1| |] eqn:Hcur; try discriminate.
  cbn [mbind result_bind] in Huser.
  destruct (insert_theme_first fuel fs p0 p1 name Hcur) as (a1 & Ha1).
  { now rewrite Hn0. }
  { exact Hyes. }
  rewrite Hn0 in Ha1.
  destruct (insert_theme_usable fuel fs p1 _ p2 Huser) as (_ & a2 & Ha2 & _).
  destruct (insert_theme_usable fuel fs p2 _ p3 Hdef) as (_ & a3 & Ha3 & _).
  exists (rev a1 ++ rev a2 ++ rev a3).
  rewrite Hnames, Ha3, Ha2, Ha1, !rev_app_distr. simpl.
  now rewrite <- !app_assoc.
Qed.

(** X13.  After a completed load that started from an empty theme list,
    every active theme is usable: the first index.theme found for its name
    on the search path parses and has the key Directories, or there is no
    such file and the theme is the default theme.  In particular a default
    theme whose index.theme lacks Directories is not active.  When the
    configured theme is usable it heads the list, so it is searched before
    the themes it inherits from and before the two that are always added;
    when it is not usable it is not in the list at all.  The default theme
    is in the list exactly when it is usable. *)
Theorem active_themes_usable (fuel : nat) (fs : FileSystem) (now : Z)
    (p q : GtkIconThemePrivate) :
  themes p = [] ->
  load_themes fuel fs now p = Ok q ->
  (forall name, In name (theme_names q) -> theme_usable fs (search_path p) name)
  /\ (forall name, current_theme p = Some name ->
        (theme_usable fs (search_path p) name ->
         exists rest, theme_names q = name :: rest)
        /\ (~ theme_usable fs (search_path p) name ->
            ~ In name (theme_names q)))
  /\ (In DEFAULT_THEME_NAME (theme_names q)
      <-> theme_usable fs (search_path p) DEFAULT_THEME_NAME).
Proof.
  intros Hempty Hrun.
  destruct (load_themes_inv fuel fs now p q Hrun)
    as (p2 & p3 & Huser & Hdef & Hnames & _).
  set (p0 := set_all_icons ∅ p) in *.
  assert (Hn0 : theme_names p0 = []).
  { unfold theme_names. change (themes p0) with (themes p). now rewrite Hempty. }
  assert (Hs0 : search_path p0 = search_path p) by reflexivity.
  unfold load_user_themes in Huser.
  destruct (match current_theme p0 with
            | Some name => insert_theme fuel fs p0 name
            | None => Ok p0
            end) as [p1| |] eqn:Hcur; try discriminate.
  cbn [mbind result_bind] in Huser.
  assert (Hg1 : usable_growth fs p0 p1).
  { destruct (current_theme p0); [eapply insert_theme_usable; exact Hcur |].
    injection Hcur as <-. apply usable_growth_refl. }
  pose proof (insert_theme_usable fuel fs p1 _ p2 Huser) as Hg2.
  pose proof (insert_theme_usable fuel fs p2 _ p3 Hdef) as Hg3.
  pose proof (usable_growth_trans fs _ _ _ Hg1 Hg2) as Hg12.
  pose proof (usable_growth_trans fs _ _ _ Hg12 Hg3) as Hg.
  destruct Hg as (_ & added & Hadded & Husable).
  rewrite Hn0, app_nil_r in Hadded. rewrite Hs0 in Husable.
  assert (Hall : forall name, In name (theme_names q) ->
                              theme_usable fs (search_path p) name).
  { intros name Hin. rewrite Hnames, <- in_rev, Hadded in Hin.
    rewrite Forall_forall in Husable. apply Husable.
    now apply list_elem_of_In. }
  split; [exact Hall |]. split.
  - intros name Hname. split; [| intros Hno Hin; apply Hno; now apply Hall].
    intros Hyes.
    exact (load_themes_current_first fuel fs now p q name Hempty Hrun Hname Hyes).
  - split; [apply Hall |]. intros Hyes.
    rewrite Hnames, <- in_rev.
    destruct (in_dec string_dec DEFAULT_THEME_NAME (theme_names p2))
      as [Hin | Hnew].
    + destruct Hg3 as (_ & a3 & -> & _). apply in_or_app. now right.
    + destruct (insert_theme_first fuel fs p2 p3 _ Hdef Hnew) as (a3 & ->).
      * destruct Hg12 as (-> & _). now rewrite Hs0.
      * apply in_or_app. right. now left.
Qed.

(** X13 on the installation with the theme Foo configured. *)
Lemma active_themes_usable_witness :
  exists q rest,
    load_themes 3 fs_foo 0 priv_foo_current = Ok q
    /\ theme_names q = "Foo" :: rest
    /\ In DEFAULT_THEME_NAME (theme_names q).
Proof.
  assert (Hrun : exists q, load_themes 3 fs_foo 0 priv_foo_current = Ok q).
  { eexists. vm_compute. reflexivity. }
  destruct Hrun as (q & Hrun).
  destruct (active_themes_usable 3 fs_foo 0 priv_foo_current q eq_refl Hrun)
    as (_ & Hfirst & Hdefault).
  destruct (proj1 (Hfirst "Foo" eq_refl)) as (rest & Hrest).
  { unfold theme_usable. vm_compute. eauto. }
  exists q, rest. split; [exact Hrun | split; [exact Hrest |]].
  apply Hdefault. reflexivity.
Defined.

(** ** Staleness: [gtk_icon_theme_rescan_if_needed] *)

Lemma classic_changed (fs : FileSystem) (dir_mtime : IconThemeDirMtime) :
  dir_changed fs dir_mtime \/ ~ dir_changed fs dir_mtime.
Proof.
  unfold dir_changed. destruct (fs_stat_dir fs (m_dir dir_mtime)) as [t|].
  - destruct (Z.eq_dec (m_mtime dir_mtime) t); tauto.
  - destruct (Z.eq_dec (m_mtime dir_mtime) 0); tauto.
Qed.

(** The stat pass stops at the first tracked directory that changed. *)
Lemma rescan_dirs_first (fs : FileSystem) (ds : list IconThemeDirMtime) :
  forall p,
    fst (rescan_dirs fs ds p) = true ->
    exists stated d rest,
      ds = stated ++ d :: rest
      /\ Forall (fun dir_mtime => ~ dir_changed fs dir_mtime) stated
      /\ dir_changed fs d
      /\ snd (rescan_dirs fs ds p)
         = set_trace (trace p ++ map rescan_event (stated ++ [d])) p.
Proof.
  induction ds as [|dm ds IH]; intros p; [discriminate |].
  cbn [rescan_dirs]. cbv zeta.
  assert (Hcase : (match fs_stat_dir fs (m_dir dm) with
                   | Some st_mtime => m_mtime dm =? st_mtime
                   | None => false
                   end
                   || (m_mtime dm =? 0)
                      && bool_decide (fs_stat_dir fs (m_dir dm) = None)) = true
                  <-> ~ dir_changed fs dm).
  { unfold dir_changed. destruct (fs_stat_dir fs (m_dir dm)) as [t|]; simpl.
    - rewrite andb_false_r, orb_false_r, Z.eqb_eq. split; [tauto |].
      intros H. destruct (Z.eq_dec (m_mtime dm) t); tauto.
    - rewrite andb_true_r, Z.eqb_eq. split; [tauto |].
      intros H. destruct (Z.eq_dec (m_mtime dm) 0); tauto. }
  set (p1 := emit (EvStat IN_RESCAN_THEMES (m_dir dm)) p).
  assert (Hnext : fst (rescan_dirs fs ds p1) = true ->
                  ~ dir_changed fs dm ->
                  exists stated d rest,
                    dm :: ds = stated ++ d :: rest
                    /\ Forall (fun dir_mtime => ~ dir_changed fs dir_mtime) stated
                    /\ dir_changed fs d
                    /\ snd (rescan_dirs fs ds p1)
                       = set_trace (trace p ++ map rescan_event (stated ++ [d])) p).
  { intros Hfst Hsame. destruct (IH p1 Hfst) as (stated & d & rest & -> & Hst & Hd & ->).
    exists (dm :: stated), d, rest. split; [reflexivity |].
    split; [now constructor |]. split; [exact Hd |].
    subst p1. unfold emit. destruct p; cbn. now rewrite <- app_assoc. }
  destruct (match fs_stat_dir fs (m_dir dm) with
            | Some st_mtime => m_mtime dm =? st_mtime
            | None => false
            end) eqn:Hfirst.
  - intros Hfst. apply Hnext; [exact Hfst |]. apply Hcase. reflexivity.
  - destruct ((m_mtime dm =? 0)
              && bool_decide (fs_stat_dir fs (m_dir dm) = None)) eqn:Hsecond.
    + intros Hfst. apply Hnext; [exact Hfst |]. apply Hcase. reflexivity.
    + intros _. exists [], dm, ds. split; [reflexivity |].
      split; [constructor |]. split.
      * destruct (classic_changed fs dm) as [H | H]; [exact H |].
        apply Hcase in H. discriminate.
      * reflexivity.
Qed.

Lemma do_theme_change_tears_down (p : GtkIconThemePrivate) :
  info_cache (do_theme_change p) = []
  /\ last_stat_time (do_theme_change p) = last_stat_time p
  /\ (themes_valid p = true ->
      themes (do_theme_change p) = [] /\ dir_mtimes (do_theme_change p) = []
      /\ unthemed_icons (do_theme_change p) = ∅
      /\ all_icons (do_theme_change p) = ∅).
Proof.
  destruct (info_cache_remove_all_frame p) as [Hf Hempty].
  unfold do_theme_change.
  pose proof (pf_themes_valid _ _ Hf) as Hv.
  pose proof (pf_last_stat_time _ _ Hf) as Ht.
  destruct (themes_valid (info_cache_remove_all p)) eqn:Hvalid; cbn [negb].
  - unfold queue_theme_changed.
    destruct (negb (theme_changed_idle (blow_themes (info_cache_remove_all p))));
      (split; [exact Hempty | split; [exact Ht | intros _; repeat split]]).
  - split; [exact Hempty | split; [exact Ht |]]. congruence.
Qed.

(** X14.  [gtk_icon_theme_rescan_if_needed] returns TRUE exactly when some
    tracked directory differs from its record (another modification time,
    or gone after having been there).  When it returns FALSE the state is
    untouched but for the time of the stat pass, which becomes the present
    reading, and the stats of all tracked directories in the trace; a
    second call then returns FALSE again.  When it returns TRUE the stat
    pass stopped at the first directory that changed and the theme change
    was carried out on that state: the time of the stat pass is kept, the
    cache of lookups is emptied and the theme is invalid; if it was valid,
    the theme list, the tracked directories and the unthemed icons are
    dropped and a change notification is pending. *)
Theorem rescan_if_needed_spec (fs : FileSystem) (now : Z)
    (p : GtkIconThemePrivate) :
  let r := gtk_icon_theme_rescan_if_needed fs now p in
  (fst r = true <-> Exists (dir_changed fs) (dir_mtimes p))
  /\ (fst r = false ->
      snd r = set_last_stat_time now
                (set_trace (trace p ++ map rescan_event (dir_mtimes p)) p)
      /\ forall now', fst (gtk_icon_theme_rescan_if_needed fs now' (snd r))
                      = false)
  /\ (fst r = true ->
      (exists stated d rest,
         dir_mtimes p = stated ++ d :: rest
         /\ Forall (fun dir_mtime => ~ dir_changed fs dir_mtime) stated
         /\ dir_changed fs d
         /\ snd r = do_theme_change
                      (set_trace (trace p ++ map rescan_event (stated ++ [d])) p))
      /\ last_stat_time (snd r) = last_stat_time p
      /\ info_cache (snd r) = []
      /\ themes_valid (snd r) = false
      /\ theme_changed_idle (snd r) = (themes_valid p || theme_changed_idle p)
      /\ (themes_valid p = true ->
          themes (snd r) = [] /\ dir_mtimes (snd r) = []
          /\ unthemed_icons (snd r) = ∅ /\ all_icons (snd r) = ∅)).
Proof.
  cbv zeta.
  assert (Hiff : fst (gtk_icon_theme_rescan_if_needed fs now p) = true
                 <-> Exists (dir_changed fs) (dir_mtimes p)).
  { unfold gtk_icon_theme_rescan_if_needed, rescan_themes.
    destruct (rescan_dirs_spec fs (dir_mtimes p) p) as (_ & _ & _ & _ & Hfst & _).
    destruct (rescan_dirs fs (dir_mtimes p) p) as [[] q]; exact Hfst. }
  split; [exact Hiff |]. split.
  - intros Hfalse.
    assert (Hsame : ~ Exists (dir_changed fs) (dir_mtimes p)).
    { rewrite <- Hiff, Hfalse. discriminate. }
    unfold gtk_icon_theme_rescan_if_needed.
    rewrite (rescan_themes_unchanged fs now p Hsame). cbn [snd].
    split; [reflexivity |]. intros now'.
    rewrite rescan_themes_unchanged; [reflexivity | exact Hsame].
  - intros Htrue. unfold gtk_icon_theme_rescan_if_needed, rescan_themes in *.
    pose proof (rescan_dirs_first fs (dir_mtimes p) p) as Hfirst.
    destruct (rescan_dirs fs (dir_mtimes p) p) as [[] q]; [| discriminate].
    destruct (Hfirst eq_refl) as (stated & d & rest & Hds & Hst & Hd & Hq).
    cbn [snd] in Hq |- *. subst q.
    set (p1 := set_trace (trace p ++ map rescan_event (stated ++ [d])) p).
    destruct (do_theme_change_invalidates p1) as (Hv & _ & _ & Hi).
    destruct (do_theme_change_tears_down p1) as (Hc & Ht & Hdown).
    split; [exists stated, d, rest; auto |].
    split; [exact Ht |]. split; [exact Hc |]. split; [exact Hv |].
    split; [exact Hi | exact Hdown].
Qed.

Example rescan_if_needed_never_loaded (fs : FileSystem) (now : Z) :
  fst (gtk_icon_theme_rescan_if_needed fs now priv_fresh) = false.
Proof. reflexivity. Qed.

(** ** ThemeIndex: the directories of the loaded themes *)

Lemma mtime_le_refl (a : IconThemeDirMtime) : mtime_le a a.
Proof. repeat split; auto. Qed.

Lemma mtime_le_trans (a b c : IconThemeDirMtime) :
  mtime_le a b -> mtime_le b c -> mtime_le a c.
Proof.
  intros (H1 & H2 & H3) (H4 & H5 & H6). repeat split; try congruence.
  intros x Hx. auto.
Qed.

Lemma tracking_grows_refl (p : GtkIconThemePrivate) : tracking_grows p p.
Proof.
  split; [| reflexivity]. intros a Ha. exists a. split; [exact Ha |].
  apply mtime_le_refl.
Qed.

Lemma tracking_grows_trans (p q r : GtkIconThemePrivate) :
  tracking_grows p q -> tracking_grows q r -> tracking_grows p r.
Proof.
  intros [H1 S1] [H2 S2]. split; [| set_solver].
  intros a Ha. destruct (H1 a Ha) as (b & Hb & Hab).
  destruct (H2 b Hb) as (c & Hc & Hbc). exists c. split; [exact Hc |].
  eapply mtime_le_trans; eassumption.
Qed.

(** A tracked theme directory stays tracked while the records and the set of
    icon names grow. *)
Lemma dir_tracked_in_mono (ds ds' : list IconThemeDirMtime)
    (all all' : gset string) (d : IconThemeDir) :
  (forall a, a ∈ ds -> exists b, b ∈ ds' /\ mtime_le a b) ->
  all ⊆ all' ->
  dir_tracked_in ds all d -> dir_tracked_in ds' all' d.
Proof.
  intros Hds Hall (dm & Hin & Hm & Hdir & Hicons).
  destruct (Hds dm Hin) as (b & Hb & Hdirb & Hmb & Hcb).
  exists b. split; [exact Hb |]. split; [congruence |].
  split; [now rewrite Hdirb |].
  destruct (d_cache d) as [icons|].
  - destruct Hicons as (c & Hc & ->). exists c. split; [now apply Hcb | reflexivity].
  - intros name Hname. apply Hall. now apply Hicons.
Qed.

Lemma dir_tracked_mono (p q : GtkIconThemePrivate) (d : IconThemeDir) :
  tracking_grows p q -> dir_tracked p d -> dir_tracked q d.
Proof. intros [Hds Hall]. now apply dir_tracked_in_mono. Qed.

(** Every name [scan_directory] records is added to the set of all icon
    names, which only grows. *)
Lemma scan_directory_keys (fs : FileSystem) (all : gset string)
    (full_dir : string) :
  all ⊆ snd (scan_directory fs all full_dir)
  /\ forall name, is_Some (fst (scan_directory fs all full_dir) !! name) ->
                  name ∈ snd (scan_directory fs all full_dir).
Proof.
  unfold scan_directory. destruct (fs_read_dir fs full_dir) as [names|].
  2:{ split; [reflexivity |]. intros name [x Hx]. cbn in Hx.
      now rewrite lookup_empty in Hx. }
  assert (H : forall (acc : gmap string Z * gset string),
            (forall name, is_Some (fst acc !! name) -> name ∈ snd acc) ->
            let r := fold_left
              (fun (acc : gmap string Z * gset string) name =>
                 if g_str_has_suffix name ".icon" then acc
                 else
                   let suffix := suffix_from_name name in
                   if suffix =? ICON_SUFFIX_NONE then acc
                   else
                     let base_name := strip_suffix name in
                     let hash_suffix := default 0 (fst acc !! base_name) in
                     (<[base_name := Z.lor hash_suffix suffix]> (fst acc),
                      {[base_name]} ∪ snd acc))
              names acc in
            snd acc ⊆ snd r
            /\ forall name, is_Some (fst r !! name) -> name ∈ snd r).
  { induction names as [|n names IH]; intros acc Hacc; cbv zeta.
    - split; [reflexivity | exact Hacc].
    - cbn [fold_left].
      destruct (g_str_has_suffix n ".icon"); [now apply IH |].
      destruct (suffix_from_name n =? ICON_SUFFIX_NONE); [now apply IH |].
      cbv zeta.
      match goal with
      | |- context [fold_left _ names ?acc1] =>
          destruct (IH acc1) as [I1 I2]
      end.
      + cbn [fst snd]. intros name Hname.
        destruct (decide (name = strip_suffix n)) as [-> | Hne].
        * apply elem_of_union. left. now apply elem_of_singleton.
        * rewrite lookup_insert_ne in Hname by congruence.
          apply elem_of_union. right. now apply Hacc.
      + cbv zeta in I1, I2. split; [| exact I2].
        cbn [snd] in I1. intros x Hx. apply I1. apply elem_of_union. now right. }
  apply (H (∅, all)). intros name [x Hx]. cbn in Hx.
  now rewrite lookup_empty in Hx.
Qed.

(** The loop of [theme_subdir_load] over the tracked directories: the
    records keep their place, path and modification time; the directories
    it adds are built by [mk], and each sits under a record of the list as
    it is afterwards. *)
Lemma theme_subdir_loop_spec (fs : FileSystem) (subdir : string)
    (mk : string -> option (gmap string Z) -> gmap string Z -> IconThemeDir) :
  (forall f c i, d_dir (mk f c i) = Some f /\ d_subdir (mk f c i) = subdir
                 /\ d_cache (mk f c i) = c /\ d_icons (mk f c i) = i) ->
  forall (ds : list IconThemeDirMtime) (all : gset string)
         (theme_dirs : list IconThemeDir),
    let r := theme_subdir_loop fs subdir mk ds all theme_dirs in
    Forall2 mtime_le ds (fst (fst r))
    /\ all ⊆ snd (fst r)
    /\ exists new,
         snd r = new ++ theme_dirs
         /\ Forall (fun d => dir_tracked_in (fst (fst r)) (snd (fst r)) d
                             /\ exists f c i, d = mk f c i) new.
Proof.
  intros Hmk. induction ds as [|dm ds IH]; intros all theme_dirs; cbv zeta.
  - cbn. split; [constructor |]. split; [reflexivity |].
    exists []. split; [reflexivity | constructor].
  - cbn [theme_subdir_loop].
    assert (Hskip :
      let r := theme_subdir_loop fs subdir mk ds all theme_dirs in
      Forall2 mtime_le (dm :: ds) (dm :: fst (fst r))
      /\ all ⊆ snd (fst r)
      /\ exists new,
           snd r = new ++ theme_dirs
           /\ Forall (fun d => dir_tracked_in (dm :: fst (fst r)) (snd (fst r)) d
                               /\ exists f c i, d = mk f c i) new).
    { cbv zeta. destruct (IH all theme_dirs) as (I1 & I2 & new & I3 & I4).
      cbv zeta in I1, I2, I3, I4.
      split; [constructor; [apply mtime_le_refl | exact I1] |].
      split; [exact I2 |]. exists new. split; [exact I3 |].
      eapply Forall_impl; [exact I4 |]. intros d [Hd Hmkd]. split; [| exact Hmkd].
      eapply dir_tracked_in_mono; [| reflexivity | exact Hd].
      intros a Ha. exists a. split; [now right | apply mtime_le_refl]. }
    destruct (Z.eqb_spec (m_mtime dm) 0) as [Hzero | Hnz].
    { cbv zeta in Hskip.
      destruct (theme_subdir_loop fs subdir mk ds all theme_dirs)
        as [[d' all'] dirs']. exact Hskip. }
    destruct (bool_decide (is_Some (m_cache dm))
              || bool_decide (is_Some (fs_stat_dir fs
                                         (g_build_filename (m_dir dm) subdir))))
      eqn:Hthere.
    2:{ cbv zeta in Hskip.
        destruct (theme_subdir_loop fs subdir mk ds all theme_dirs)
          as [[d' all'] dirs']. exact Hskip. }
    cbv zeta.
    set (cache := match m_cache dm with
                  | Some c => Some c
                  | None => fs_icon_cache fs (m_dir dm)
                  end).
    set (dm' := {| m_dir := m_dir dm; m_mtime := m_mtime dm; m_cache := cache |}).
    assert (Hle : mtime_le dm dm').
    { split; [reflexivity |]. split; [reflexivity |].
      intros c Hc. subst dm' cache. cbn. now rewrite Hc. }
    set (made := match cache with
                 | Some c =>
                     (mk (g_build_filename (m_dir dm) subdir)
                         (Some (default ∅ (c !! subdir))) ∅, all)
                 | None =>
                     let '(icons, all1) :=
                       scan_directory fs all
                         (g_build_filename (m_dir dm) subdir) in
                     (mk (g_build_filename (m_dir dm) subdir) None icons, all1)
                 end).
    assert (Hmade : all ⊆ snd made
                    /\ dir_tracked_in [dm'] (snd made) (fst made)
                    /\ exists f c i, fst made = mk f c i).
    { subst made. destruct cache as [c|] eqn:Hcache.
      - cbn [fst snd]. split; [reflexivity |]. split; [| eauto].
        destruct (Hmk (g_build_filename (m_dir dm) subdir)
                      (Some (default ∅ (c !! subdir))) ∅) as (M1 & M2 & M3 & M4).
        exists dm'. split; [now left |]. split; [exact Hnz |].
        split; [now rewrite M1, M2 |]. rewrite M3, M2.
        exists c. split; reflexivity.
      - destruct (scan_directory_keys fs all (g_build_filename (m_dir dm) subdir))
          as [S1 S2].
        destruct (scan_directory fs all (g_build_filename (m_dir dm) subdir))
          as [icons all1].
        cbn [fst snd] in *. split; [exact S1 |]. split; [| eauto].
        destruct (Hmk (g_build_filename (m_dir dm) subdir) None icons)
          as (M1 & M2 & M3 & M4).
        exists dm'. split; [now left |]. split; [exact Hnz |].
        split; [now rewrite M1, M2 |]. rewrite M3, M4. exact S2. }
    destruct made as [dir all1]. cbn [fst snd] in Hmade.
    destruct Hmade as (Hall1 & Htracked & Hbuilt).
    destruct (IH all1 (dir :: theme_dirs)) as (I1 & I2 & new & I3 & I4).
    cbv zeta in I1, I2, I3, I4.
    destruct (theme_subdir_loop fs subdir mk ds all1 (dir :: theme_dirs))
      as [[d' all'] dirs']. cbn [fst snd] in *.
    split; [constructor; assumption |]. split; [set_solver |].
    exists (new ++ [dir]). split; [now rewrite <- app_assoc |].
    apply Forall_app. split.
    + eapply Forall_impl; [exact I4 |]. intros d [Hd Hmkd]. split; [| exact Hmkd].
      eapply dir_tracked_in_mono; [| reflexivity | exact Hd].
      intros a Ha. exists a. split; [now right | apply mtime_le_refl].
    + constructor; [| constructor]. split; [| exact Hbuilt].
      eapply dir_tracked_in_mono; [| exact I2 | exact Htracked].
      intros a Ha. apply elem_of_cons in Ha as [-> | Ha];
        [| now apply elem_of_nil in Ha].
      exists dm'. split; [now left | apply mtime_le_refl].
Qed.

Lemma Forall2_mtime_le_grows (ds ds' : list IconThemeDirMtime) :
  Forall2 mtime_le ds ds' ->
  forall a, a ∈ ds -> exists b, b ∈ ds' /\ mtime_le a b.
Proof.
  induction 1 as [|x y l l' Hxy _ IH]; intros a Ha.
  - now apply elem_of_nil in Ha.
  - apply elem_of_cons in Ha as [-> | Ha].
    + exists y. split; [now left | exact Hxy].
    + destruct (IH a Ha) as (b & Hb & Hab). exists b. split; [now right | exact Hab].
Qed.

(** One sub-directory of a descriptor: nothing happens without the key
    Size; otherwise the directories added carry the parameters of the
    group and are tracked. *)
Lemma theme_subdir_load_spec (fs : FileSystem) (tf : ThemeFile)
    (st : GtkIconThemePrivate * list IconThemeDir) (subdir : string) :
  let r := theme_subdir_load fs tf st subdir in
  tracking_grows (fst st) (fst r)
  /\ ((tf_groups tf !! subdir) ≫= g_size = None -> r = st)
  /\ exists new,
       snd r = new ++ snd st
       /\ Forall (fun d => dir_tracked (fst r) d /\ d_subdir d = subdir
                           /\ dir_of_group tf d) new.
Proof.
  cbv zeta. unfold theme_subdir_load.
  destruct (tf_groups tf !! subdir) as [grp|] eqn:Hgrp; cbn [mbind option_bind].
  2:{ split; [apply tracking_grows_refl |]. split; [reflexivity |].
      exists []. split; [reflexivity | constructor]. }
  destruct (g_size grp) as [size|] eqn:Hsize.
  2:{ split; [apply tracking_grows_refl |]. split; [reflexivity |].
      exists []. split; [reflexivity | constructor]. }
  match goal with
  | |- context [theme_subdir_loop fs subdir ?mk0 _ _ _] => set (mk := mk0)
  end.
  assert (Hmk : forall f c i, d_dir (mk f c i) = Some f /\ d_subdir (mk f c i) = subdir
                 /\ d_cache (mk f c i) = c /\ d_icons (mk f c i) = i).
  { intros f c i. repeat split. }
  destruct (theme_subdir_loop_spec fs subdir mk Hmk (dir_mtimes (fst st))
              (all_icons (fst st)) (snd st)) as (L1 & L2 & new & L3 & L4).
  cbv zeta in L1, L2, L3, L4.
  destruct (theme_subdir_loop fs subdir mk (dir_mtimes (fst st))
              (all_icons (fst st)) (snd st)) as [[ds all] dirs].
  cbn [fst snd] in *.
  split; [| split; [discriminate |]].
  - split; [| exact L2]. cbn [dir_mtimes set_dir_mtimes set_all_icons].
    now apply Forall2_mtime_le_grows.
  - exists new. split; [exact L3 |].
    eapply Forall_impl; [exact L4 |]. intros d [Hd (f & c & i & ->)].
    split; [exact Hd |]. split; [reflexivity |].
    exists grp. subst mk. cbn [d_subdir d_size d_min_size d_max_size d_threshold
                               d_scale d_type].
    split; [exact Hgrp |]. split; [exact Hsize |].
    repeat (split; [reflexivity |]).
    destruct (g_type grp) as [type_string|]; cbn [mbind option_bind].
    + destruct (String.eqb_spec type_string "Fixed") as [Hf | Hnf].
      { rewrite Hf. split; [tauto |]. split; [split; discriminate | discriminate]. }
      destruct (String.eqb_spec type_string "Scalable") as [Hs | Hns].
      { rewrite Hs. split; [split; discriminate |]. split; [tauto | discriminate]. }
      split; [split; [discriminate | intros [= ?]; contradiction] |].
      split; [split; [discriminate | intros [= ?]; contradiction] | discriminate].
    + split; [split; discriminate |]. split; [split; discriminate | discriminate].
Qed.

Lemma theme_subdirs_load_spec (fs : FileSystem) (tf : ThemeFile)
    (subdirs : list string) :
  forall st : GtkIconThemePrivate * list IconThemeDir,
    let r := fold_left (theme_subdir_load fs tf) subdirs st in
    tracking_grows (fst st) (fst r)
    /\ exists new,
         snd r = new ++ snd st
         /\ Forall (fun d => dir_tracked (fst r) d /\ d_subdir d ∈ subdirs
                             /\ dir_of_group tf d) new.
Proof.
  induction subdirs as [|subdir subdirs IH]; intros st; cbv zeta.
  - cbn. split; [apply tracking_grows_refl |].
    exists []. split; [reflexivity | constructor].
  - cbn [fold_left].
    destruct (theme_subdir_load_spec fs tf st subdir) as (H1 & _ & new1 & H2 & H3).
    cbv zeta in H1, H2, H3.
    destruct (IH (theme_subdir_load fs tf st subdir)) as (I1 & new2 & I2 & I3).
    cbv zeta in I1, I2, I3.
    split; [eapply tracking_grows_trans; eassumption |].
    exists (new2 ++ new1). split; [now rewrite I2, H2, app_assoc |].
    apply Forall_app. split.
    + eapply Forall_impl; [exact I3 |]. intros d (Hd & Hs & Hg).
      split; [exact Hd |]. split; [now right | exact Hg].
    + eapply Forall_impl; [exact H3 |]. intros d (Hd & -> & Hg).
      split; [eapply dir_tracked_mono; eassumption |].
      split; [now left | exact Hg].
Qed.

Lemma stat_theme_roots_grows (fs : FileSystem) (theme_name : string)
    (roots : list string) :
  forall p, tracking_grows p (stat_theme_roots fs theme_name roots p).
Proof.
  induction roots as [|root roots IH]; intros p; [apply tracking_grows_refl |].
  cbn [stat_theme_roots]. cbv zeta.
  eapply tracking_grows_trans; [| apply IH].
  split; [| reflexivity]. intros a Ha. exists a.
  split; [now right | apply mtime_le_refl].
Qed.

(** The invariant survives growth of the records when the theme list and
    the search path are the same. *)
Lemma themes_loaded_mono (fs : FileSystem) (p q : GtkIconThemePrivate) :
  tracking_grows p q -> search_path q = search_path p ->
  (forall theme, theme ∈ themes q -> theme ∈ themes p) ->
  themes_loaded fs p -> themes_loaded fs q.
Proof.
  intros Hg Hs Ht Hp theme d Htheme Hd.
  destruct (Hp theme d (Ht theme Htheme) Hd) as (Htr & tf & Hfile & Hrest).
  split; [eapply dir_tracked_mono; eassumption |].
  exists tf. now rewrite Hs.
Qed.

Lemma insert_theme_body_loaded (fs : FileSystem) (p : GtkIconThemePrivate)
    (theme_name : string) :
  themes_loaded fs p ->
  themes_loaded fs (fst (insert_theme_body fs p theme_name))
  /\ tracking_grows p (fst (insert_theme_body fs p theme_name)).
Proof.
  intros Hp. unfold insert_theme_body.
  destruct (stat_theme_roots_frame fs theme_name (search_path p) p) as [Hf0 Ht0].
  pose proof (stat_theme_roots_grows fs theme_name (search_path p) p) as Hg0.
  set (p0 := stat_theme_roots fs theme_name (search_path p) p) in *.
  set (p1 := set_dir_mtimes (rev (dir_mtimes p0)) p0).
  assert (Hs1 : search_path p1 = search_path p) by exact (fr_search_path _ _ Hf0).
  assert (Ht1 : themes p1 = themes p) by exact Ht0.
  assert (Hg1 : tracking_grows p p1).
  { eapply tracking_grows_trans; [exact Hg0 |]. split; [| reflexivity].
    intros a Ha. exists a. split; [| apply mtime_le_refl].
    change (dir_mtimes p1) with (rev (dir_mtimes p0)).
    apply list_elem_of_In. rewrite <- in_rev.
    now apply list_elem_of_In. }
  assert (Hl1 : themes_loaded fs p1).
  { apply (themes_loaded_mono fs p p1 Hg1 Hs1); [| exact Hp].
    intros theme. now rewrite Ht1. }
  cbv zeta. rewrite Hs1.
  destruct (find_theme_file fs theme_name (search_path p)) as [tf|] eqn:Hfile.
  - cbn [is_Some bool_decide orb]. rewrite bool_decide_eq_true_2 by eauto.
    cbn [orb].
    set (p2 := set_themes (new_theme theme_name :: themes p1) p1).
    destruct (tf_directories tf) as [dirs|] eqn:Hdirs.
    + destruct (theme_subdirs_load_spec fs tf dirs (p2, [])) as (A1 & newa & A2 & A3).
      destruct (theme_subdirs_load_frame fs tf dirs (p2, [])) as [Fa Ta].
      cbv zeta in A1, A2, A3.
      set (st0 := fold_left (theme_subdir_load fs tf) dirs (p2, [])) in *.
      set (st1 := match tf_scaled_directories tf with
                  | Some scaled_dirs =>
                      fold_left (theme_subdir_load fs tf) scaled_dirs st0
                  | None => st0
                  end).
      assert (B : tracking_grows (fst st0) (fst st1)
                  /\ load_frame (fst st0) (fst st1)
                  /\ themes (fst st1) = themes (fst st0)
                  /\ exists newb,
                       snd st1 = newb ++ snd st0
                       /\ Forall (fun d => dir_tracked (fst st1) d
                                   /\ d_subdir d
                                      ∈ default [] (tf_scaled_directories tf)
                                   /\ dir_of_group tf d) newb).
      { subst st1. destruct (tf_scaled_directories tf) as [sd|].
        - destruct (theme_subdirs_load_spec fs tf sd st0) as (B1 & newb & B2 & B3).
          destruct (theme_subdirs_load_frame fs tf sd st0) as [Fb Tb].
          split; [exact B1 |]. split; [exact Fb |]. split; [exact Tb |].
          exists newb. split; [exact B2 | exact B3].
        - split; [apply tracking_grows_refl |]. split; [apply load_frame_refl |].
          split; [reflexivity |]. exists []. split; [reflexivity | constructor]. }
      destruct B as (B1 & Fb & Tb & newb & B2 & B3).
      cbn [fst snd] in A1, A2, Fa, Ta.
      assert (Hg : tracking_grows p (fst st1)).
      { eapply tracking_grows_trans; [exact Hg1 |].
        eapply tracking_grows_trans; [| exact B1].
        eapply tracking_grows_trans; [| exact A1].
        split; [intros a Ha; exists a; split; [exact Ha | apply mtime_le_refl]
               | reflexivity]. }
      assert (Hs : search_path (fst st1) = search_path p).
      { rewrite (fr_search_path _ _ Fb), (fr_search_path _ _ Fa). exact Hs1. }
      clearbody st1 st0. cbn [fst snd].
      split; [| exact Hg].
      intros theme d Htheme Hd.
      cbn [themes set_themes] in Htheme.
      apply elem_of_cons in Htheme as [-> | Htheme].
      * cbn [t_dirs t_name] in Hd |- *.
        apply list_elem_of_In in Hd. rewrite <- in_rev in Hd.
        apply list_elem_of_In in Hd.
        rewrite B2, A2, app_nil_r in Hd.
        assert (Hboth : dir_tracked (fst st1) d
                        /\ d_subdir d ∈ listed_subdirs tf
                        /\ dir_of_group tf d).
        { unfold listed_subdirs. rewrite Hdirs. cbn [default from_option id].
          apply elem_of_app in Hd as [Hd | Hd].
          - rewrite Forall_forall in B3. destruct (B3 d Hd) as (X1 & X2 & X3).
            split; [exact X1 |]. split; [| exact X3].
            apply elem_of_app. now right.
          - rewrite Forall_forall in A3. destruct (A3 d Hd) as (X1 & X2 & X3).
            split; [apply (dir_tracked_mono (fst st0)); assumption |].
            split; [| exact X3]. apply elem_of_app. now left. }
        destruct Hboth as (X1 & X2 & X3).
        split; [exact X1 |]. exists tf. cbn [search_path set_themes].
        rewrite Hs. auto.
      * rewrite Tb, Ta in Htheme.
        change (themes p2) with (new_theme theme_name :: themes p0) in Htheme.
        cbn [tail] in Htheme. rewrite Ht0 in Htheme.
        destruct (Hp theme d Htheme Hd) as (Htr & tf' & Hfile' & Hrest).
        split; [eapply (dir_tracked_mono p); [exact Hg | exact Htr] |].
        exists tf'. cbn [search_path set_themes]. rewrite Hs. auto.
    + cbn [fst]. split; [| exact Hg1].
      apply (themes_loaded_mono fs p1); [apply tracking_grows_refl | reflexivity
                                         | | exact Hl1].
      intros theme Htheme. exact Htheme.
  - cbn [fst].
    destruct (bool_decide (is_Some None) || String.eqb theme_name DEFAULT_THEME_NAME).
    + split; [| exact Hg1]. intros theme d Htheme Hd.
      cbn [themes set_themes] in Htheme.
      apply elem_of_cons in Htheme as [-> | Htheme].
      * cbn in Hd. now apply elem_of_nil in Hd.
      * apply (themes_loaded_mono fs p1 _ (tracking_grows_refl _) eq_refl
                 (fun _ H => H) Hl1 theme d Htheme Hd).
    + split; [exact Hl1 | exact Hg1].
Qed.

Lemma insert_theme_loaded (fuel : nat) (fs : FileSystem) :
  forall (p : GtkIconThemePrivate) (theme_name : string) p',
    insert_theme fuel fs p theme_name = Ok p' ->
    themes_loaded fs p -> themes_loaded fs p' /\ tracking_grows p p'.
Proof.
  induction fuel as [|fuel IH]; intros p theme_name p' Hrun Hp; simpl in Hrun;
    [discriminate |].
  destruct (existsb _ (themes p)) eqn:Hex.
  - injection Hrun as <-. split; [exact Hp | apply tracking_grows_refl].
  - destruct (insert_theme_body_loaded fs p theme_name Hp) as [Hbody Hgrow].
    destruct (insert_theme_body fs p theme_name) as [p1 parents].
    cbn [fst] in Hbody, Hgrow.
    assert (H : forall l s s',
              for_each (insert_theme fuel fs) l s = Ok s' ->
              themes_loaded fs s -> themes_loaded fs s' /\ tracking_grows s s').
    { induction l as [|a l IHl]; intros s s' Hl Hs; simpl in Hl.
      - injection Hl as <-. split; [exact Hs | apply tracking_grows_refl].
      - destruct (insert_theme fuel fs s a) as [s1| |] eqn:Hfa; try discriminate.
        simpl in Hl. destruct (IH s a s1 Hfa Hs) as [Hs1 Hg1].
        destruct (IHl s1 s' Hl Hs1) as [Hs' Hg'].
        split; [exact Hs' | eapply tracking_grows_trans; eassumption]. }
    destruct (H parents p1 p' Hrun Hbody) as [Hp' Hg'].
    split; [exact Hp' | eapply tracking_grows_trans; eassumption].
Qed.

Lemma load_unthemed_file_grows (dir file : string)
    (acc : gmap string UnthemedIcon * gset string) :
  snd acc ⊆ snd (load_unthemed_file dir acc file).
Proof.
  unfold load_unthemed_file.
  destruct (suffix_from_name file =? ICON_SUFFIX_NONE); [reflexivity |].
  destruct (fst acc !! strip_suffix file); cbn [snd]; [reflexivity |].
  intros x Hx. apply elem_of_union. now right.
Qed.

Lemma load_unthemed_root_grows (fs : FileSystem) (p : GtkIconThemePrivate)
    (dir : string) :
  tracking_grows p (load_unthemed_root fs p dir).
Proof.
  assert (Happ : forall (x : IconThemeDirMtime) a,
            a ∈ dir_mtimes p ->
            exists b, b ∈ dir_mtimes p ++ [x] /\ mtime_le a b).
  { intros x a Ha. exists a. split; [| apply mtime_le_refl].
    apply elem_of_app. now left. }
  unfold load_unthemed_root.
  destruct (fs_stat_dir fs dir) as [mtime|]; [| split; [apply Happ | reflexivity]].
  destruct (fs_icon_cache fs dir) as [c|]; [split; [apply Happ | reflexivity] |].
  destruct (fs_read_dir fs dir) as [files|]; [| split; [apply Happ | reflexivity]].
  split; [apply Happ |].
  cbn [all_icons set_all_icons set_unthemed_icons set_dir_mtimes emit set_trace].
  assert (H : forall acc : gmap string UnthemedIcon * gset string,
            snd acc ⊆ snd (fold_left (load_unthemed_file dir) files acc)).
  { induction files as [|file files IH]; intros acc; [reflexivity |].
    simpl. etransitivity; [apply (load_unthemed_file_grows dir file) | apply IH]. }
  exact (H (unthemed_icons p, all_icons p)).
Qed.

Lemma load_unthemed_roots_grow (fs : FileSystem) (roots : list string) :
  forall p, tracking_grows p (fold_left (load_unthemed_root fs) roots p).
Proof.
  induction roots as [|r roots IH]; intros p; [apply tracking_grows_refl |].
  simpl. eapply tracking_grows_trans; [apply load_unthemed_root_grows | apply IH].
Qed.

(** A completed load that started without themes leaves every directory of
    every theme loaded from the descriptor of its theme and tracked. *)
Lemma load_themes_loaded (fuel : nat) (fs : FileSystem) (now : Z)
    (p q : GtkIconThemePrivate) :
  themes p = [] -> load_themes fuel fs now p = Ok q -> themes_loaded fs q.
Proof.
  intros Hempty Hrun.
  destruct (load_themes_inv fuel fs now p q Hrun)
    as (p2 & p3 & Huser & Hdef & _ & ->).
  set (p0 := set_all_icons ∅ p) in *.
  assert (H0 : themes_loaded fs p0).
  { intros theme d Htheme. change (themes p0) with (themes p) in Htheme.
    rewrite Hempty in Htheme. now apply elem_of_nil in Htheme. }
  unfold load_user_themes in Huser.
  destruct (match current_theme p0 with
            | Some name => insert_theme fuel fs p0 name
            | None => Ok p0
            end) as [p1| |] eqn:Hcur; try discriminate.
  cbn [mbind result_bind] in Huser.
  assert (H1 : themes_loaded fs p1).
  { destruct (current_theme p0);
      [exact (proj1 (insert_theme_loaded fuel fs p0 _ p1 Hcur H0)) |].
    now injection Hcur as <-. }
  destruct (insert_theme_loaded fuel fs p1 _ p2 Huser H1) as [H2 _].
  destruct (insert_theme_loaded fuel fs p2 _ p3 Hdef H2) as [H3 _].
  set (p4 := set_unthemed_icons ∅ (set_themes (rev (themes p3)) p3)).
  destruct (load_unthemed_roots_frame fs (search_path p3) p4) as [Hf Ht].
  pose proof (load_unthemed_roots_grow fs (search_path p3) p4) as Hg.
  set (p5 := fold_left (load_unthemed_root fs) (search_path p3) p4) in *.
  intros theme d Htheme Hd.
  change (theme ∈ themes p5) in Htheme. rewrite Ht in Htheme.
  change (themes p4) with (rev (themes p3)) in Htheme.
  apply list_elem_of_In in Htheme. rewrite <- in_rev in Htheme.
  apply list_elem_of_In in Htheme.
  destruct (H3 theme d Htheme Hd) as (Htr & tf & Hfile & Hrest).
  split.
  - apply (dir_tracked_mono p4 p5 d Hg). exact Htr.
  - exists tf. split; [| exact Hrest].
    change (search_path
              (set_last_stat_time now (set_themes_valid true p5)))
      with (search_path p5).
    rewrite (fr_search_path _ _ Hf). exact Hfile.
Qed.

(** X15.  After a completed load that started without themes, every
    directory of every active theme comes from the descriptor of its theme:
    its sub-directory is listed under Directories or ScaledDirectories and
    has a group with the key Size, and its parameters are those of the
    group (MinSize and MaxSize default to the size, Threshold to 2, Scale to
    1, and the type is Threshold unless Type is Fixed or Scalable; no
    directory is of the unthemed kind).  The directory lies right under a
    tracked directory that existed when it was recorded.  Its icons are
    taken from the index of that tracked directory when there is one (and
    then nothing is scanned), and from a scan otherwise, in which case every
    name the scan recorded is in the set of all icon names. *)
Theorem theme_directories_loaded (fuel : nat) (fs : FileSystem) (now : Z)
    (p q : GtkIconThemePrivate) (theme : IconTheme) (d : IconThemeDir) :
  themes p = [] ->
  load_themes fuel fs now p = Ok q ->
  theme ∈ themes q -> d ∈ t_dirs theme ->
  (exists theme_file,
     find_theme_file fs (t_name theme) (search_path p) = Some theme_file
     /\ d_subdir d ∈ listed_subdirs theme_file
     /\ dir_of_group theme_file d)
  /\ (exists dir_mtime,
        dir_mtime ∈ dir_mtimes q /\ m_mtime dir_mtime <> 0
        /\ d_dir d = Some (g_build_filename (m_dir dir_mtime) (d_subdir d))
        /\ match d_cache d with
           | Some icons =>
               exists cache, m_cache dir_mtime = Some cache
                             /\ icons = default ∅ (cache !! d_subdir d)
           | None =>
               forall name,
                 fst (theme_dir_get_icon_suffix d name) <> ICON_SUFFIX_NONE ->
                 name ∈ all_icons q
           end).
Proof.
  intros Hempty Hrun Htheme Hd.
  destruct (load_themes_loaded fuel fs now p q Hempty Hrun theme d Htheme Hd)
    as (Htr & tf & Hfile & Hrest).
  split.
  - exists tf. split; [| exact Hrest].
    destruct (load_themes_frame fuel fs now p q Hrun) as (q0 & Hfr & ->).
    rewrite <- (fr_search_path _ _ Hfr). exact Hfile.
  - destruct Htr as (dm & Hin & Hm & Hdir & Hicons).
    exists dm. split; [exact Hin |]. split; [exact Hm |]. split; [exact Hdir |].
    unfold theme_dir_get_icon_suffix.
    destruct (d_cache d) as [icons|]; [exact Hicons |].
    intros name Hname. apply Hicons. cbn [fst] in Hname.
    destruct (d_icons d !! name); [eauto | contradiction].
Qed.

(** X15 on the installation with the theme Foo configured: its directory
    24x24 is Fixed, of size 24, right under /usr/share/icons/Foo. *)
Lemma theme_directories_loaded_witness :
  exists q theme d,
    load_themes 3 fs_foo 0 priv_foo_current = Ok q
    /\ theme ∈ themes q /\ d ∈ t_dirs theme
    /\ d_dir d = Some "/usr/share/icons/Foo/24x24"
    /\ exists theme_file, dir_of_group theme_file d.
Proof.
  assert (Hrun : exists q theme d,
            load_themes 3 fs_foo 0 priv_foo_current = Ok q
            /\ head (themes q) = Some theme /\ head (t_dirs theme) = Some d
            /\ d_dir d = Some "/usr/share/icons/Foo/24x24").
  { eexists _, _, _. split; [vm_compute; reflexivity |].
    split; [vm_compute; reflexivity |]. split; vm_compute; reflexivity. }
  destruct Hrun as (q & theme & d & Hrun & Htheme & Hd & Hdir).
  assert (Htheme' : theme ∈ themes q).
  { destruct (themes q); [discriminate |]. injection Htheme as ->. now left. }
  assert (Hd' : d ∈ t_dirs theme).
  { destruct (t_dirs theme); [discriminate |]. injection Hd as ->. now left. }
  exists q, theme, d. split; [exact Hrun |]. split; [exact Htheme' |].
  split; [exact Hd' |]. split; [exact Hdir |].
  destruct (theme_directories_loaded 3 fs_foo 0 priv_foo_current q theme d
              eq_refl Hrun Htheme' Hd') as ((tf & _ & _ & Hgroup) & _).
  exists tf. exact Hgroup.
Defined.

(** The tracked directory of X15 need not be a directory of the theme
    itself: the loop of [theme_subdir_load] runs over all tracked
    directories, those recorded for the themes inserted before included.
    Here the default theme, whose own directory has no 24x24, gets the
    directory 24x24 of the theme Foo. *)
Example theme_directory_under_other_theme :
  exists q,
    load_themes 3 fs_foo_hicolor 0 priv_foo_current = Ok q
    /\ map (fun theme => (t_name theme, map d_dir (t_dirs theme))) (themes q)
       = [("Foo", [Some "/usr/share/icons/Foo/24x24"]);
          ("hicolor", [Some "/usr/share/icons/Foo/24x24"])].
Proof. eexists. split; vm_compute; reflexivity. Qed.

(** ** The registry along the life of an icon theme *)

Lemma registry_inv_same (p q : GtkIconThemePrivate) :
  registry_of q = registry_of p -> registry_inv p -> registry_inv q.
Proof.
  unfold registry_of. intros [= Ht Hd Ha Hu Hv] [H1 H2 H3].
  split.
  - rewrite Hv, Ht. exact H1.
  - intros theme d Htheme Hdir. rewrite Ht in Htheme.
    unfold dir_tracked. rewrite Hd, Ha. now apply (H2 theme d).
  - intros name. rewrite Hu, Ha. apply H3.
Qed.

Lemma purge_frame_registry (p q : GtkIconThemePrivate) :
  purge_frame p q -> registry_of q = registry_of p.
Proof.
  intros Hf. unfold registry_of.
  now rewrite (pf_themes _ _ Hf), (pf_dir_mtimes _ _ Hf), (pf_all_icons _ _ Hf),
    (pf_unthemed_icons _ _ Hf), (pf_themes_valid _ _ Hf).
Qed.

Lemma remove_from_lru_cache_registry (h : handle) (p : GtkIconThemePrivate) :
  registry_of (remove_from_lru_cache h p) = registry_of p.
Proof.
  unfold remove_from_lru_cache.
  now destruct (g_list_find (info_cache_lru p) h).
Qed.

Lemma ensure_in_lru_cache_registry (h : handle) (p q : GtkIconThemePrivate) :
  ensure_in_lru_cache h p = Ok q -> registry_of q = registry_of p.
Proof.
  unfold ensure_in_lru_cache, add_to_lru_cache, ensure_lru_cache_space.
  destruct (g_list_find (info_cache_lru p) h); [now intros [= <-] |].
  destruct (info_cache_lru p !! (INFO_CACHE_LRU_SIZE - 1)%nat);
    now intros [= <-].
Qed.

Lemma blow_themes_inv (p : GtkIconThemePrivate) : registry_inv (blow_themes p).
Proof.
  split.
  - reflexivity.
  - intros theme d Htheme. now apply elem_of_nil in Htheme.
  - intros name [x Hx]. cbn in Hx. now rewrite lookup_empty in Hx.
Qed.

Lemma do_theme_change_inv (p : GtkIconThemePrivate) :
  registry_inv p -> registry_inv (do_theme_change p).
Proof.
  intros Hp. unfold do_theme_change.
  destruct (info_cache_remove_all_frame p) as [Hf _].
  destruct (negb (themes_valid (info_cache_remove_all p))).
  - apply (registry_inv_same p); [now apply purge_frame_registry | exact Hp].
  - apply (registry_inv_same (blow_themes (info_cache_remove_all p)));
      [| apply blow_themes_inv].
    unfold queue_theme_changed.
    now destruct (negb (theme_changed_idle (blow_themes (info_cache_remove_all p)))).
Qed.

Lemma load_themes_registry_inv (fuel : nat) (fs : FileSystem) (now : Z)
    (p q : GtkIconThemePrivate) :
  themes p = [] -> load_themes fuel fs now p = Ok q -> registry_inv q.
Proof.
  intros Hempty Hrun.
  pose proof (load_themes_loaded fuel fs now p q Hempty Hrun) as Hloaded.
  destruct (load_themes_inv fuel fs now p q Hrun)
    as (p2 & p3 & _ & _ & _ & Hq).
  split.
  - rewrite Hq. discriminate.
  - intros theme d Htheme Hd. exact (proj1 (Hloaded theme d Htheme Hd)).
  - intros name [icon Hicon]. rewrite Hq in Hicon |- *.
    cbn [unthemed_icons all_icons set_last_stat_time set_themes_valid]
      in Hicon |- *.
    match type of Hicon with
    | unthemed_icons (fold_left _ ?roots ?init) !! _ = _ =>
        pose proof (load_unthemed_roots_ok fs roots init) as Hok
    end.
    apply (Hok ltac:(intros n i Hn; cbn in Hn; now rewrite lookup_empty in Hn)
             _ _ Hicon).
Qed.

Lemma rescan_themes_registry (fs : FileSystem) (now : Z)
    (p : GtkIconThemePrivate) :
  registry_of (snd (rescan_themes fs now p)) = registry_of p.
Proof.
  unfold rescan_themes.
  destruct (rescan_dirs_spec fs (dir_mtimes p) p) as (stated & rest & _ & Hsnd & _).
  destruct (rescan_dirs fs (dir_mtimes p) p) as [[] q]; cbn [snd] in *;
    now subst q.
Qed.

Lemma ensure_valid_themes_inv (fuel : nat) (fs : FileSystem) (now : Z)
    (p q : GtkIconThemePrivate) :
  registry_inv p -> ensure_valid_themes fuel fs now p = Ok q -> registry_inv q.
Proof.
  intros Hp. unfold ensure_valid_themes.
  destruct (loading_themes p); [now intros [= <-] |].
  set (p0 := set_loading_themes true p).
  assert (H0 : registry_inv p0) by (now apply (registry_inv_same p)).
  set (p1 := if themes_valid p0 then _ else p0).
  assert (H1 : registry_inv p1).
  { subst p1. destruct (themes_valid p0); [| exact H0].
    destruct (Z.abs (now - last_stat_time p0) >? 5); [| exact H0].
    pose proof (rescan_themes_registry fs now p0) as Hr.
    destruct (rescan_themes fs now p0) as [[] pr]; cbn [snd] in Hr.
    - apply blow_themes_inv.
    - now apply (registry_inv_same p0). }
  clearbody p1.
  destruct (themes_valid p1) eqn:Hv1; cbn [negb].
  - cbn [mbind result_bind]. intros [= <-]. now apply (registry_inv_same p1).
  - destruct (load_themes fuel fs now p1) as [q1| |] eqn:Hload;
      cbn [mbind result_bind]; try discriminate.
    intros [= <-].
    pose proof (load_themes_registry_inv fuel fs now p1 q1
                  (ri_invalid _ H1 Hv1) Hload) as Hq1.
    apply (registry_inv_same q1); [| exact Hq1].
    destruct (themes_valid p); [| reflexivity].
    unfold queue_theme_changed. now destruct (negb (theme_changed_idle q1)).
Qed.

Section RegistryAlongRuns.
Context {bits : LookupFlagBits}.

Lemma choose_icon_inv (fuel : nat) (g : Builtins) (fs : FileSystem) (now : Z)
    (p : GtkIconThemePrivate) (icon_names : list string)
    (size scale flags : Z) (r : option handle * GtkIconThemePrivate) :
  registry_inv p ->
  choose_icon fuel g fs now p icon_names size scale flags = Ok r ->
  registry_inv (snd r).
Proof.
  intros Hp. unfold choose_icon.
  destruct (ensure_valid_themes fuel fs now p) as [p1| |] eqn:Hvalid;
    try discriminate.
  pose proof (ensure_valid_themes_inv fuel fs now p p1 Hp Hvalid) as H1.
  cbn [mbind result_bind].
  destruct (info_cache_lookup (info_cache p1) _) as [h|].
  - intros [= <-]. cbn [snd]. apply (registry_inv_same p1); [| exact H1].
    now rewrite remove_from_lru_cache_registry.
  - destruct (find_icon g p1 icon_names size scale _ _) as [[[info origin]|]| |];
      cbn [mbind result_bind]; try discriminate.
    + destruct (match origin with
                | Some (theme, icon_name) => _
                | None => Ok None
                end) as [u| |]; cbn [mbind result_bind]; try discriminate.
      intros [= <-]. cbn [snd]. now apply (registry_inv_same p1).
    + now intros [= <-].
Qed.

Lemma run_op_inv (g : Builtins) (op : theme_op) (p p' : GtkIconThemePrivate) :
  registry_inv p -> run_op g op p = Ok p' -> registry_inv p'.
Proof.
  intros Hp. destruct op; simpl.
  - destruct (choose_icon fuel g fs now p icon_names size scale flags)
      as [r| |] eqn:Hrun; simpl; try discriminate.
    intros [= <-]. eapply choose_icon_inv; eassumption.
  - unfold proxy_pixbuf_destroy.
    destruct (default false (i_in_cache <$> heap p !! icon_info)).
    + destruct (ensure_in_lru_cache icon_info p) as [q| |] eqn:Hpark;
        cbn [mbind result_bind]; try discriminate.
      intros [= <-]. apply (registry_inv_same p); [| exact Hp].
      exact (ensure_in_lru_cache_registry _ _ _ Hpark).
    + cbn [mbind result_bind]. intros [= <-]. now apply (registry_inv_same p).
  - intros [= <-]. unfold gtk_icon_info_finalize.
    destruct (heap p !! icon_info) as [info|]; [| exact Hp].
    destruct (i_in_cache info); [| exact Hp].
    destruct (i_key info) as [key|]; [| exact Hp].
    destruct (info_cache_take (info_cache p) key) as [rest [v|]]; [| exact Hp].
    apply (registry_inv_same (set_info_cache rest p));
      [| now apply (registry_inv_same p)].
    apply purge_frame_registry. apply icon_info_uncached_frame.
  - intros [= <-]. unfold gtk_icon_theme_rescan_if_needed.
    pose proof (rescan_themes_registry fs now p) as Hr.
    destruct (rescan_themes fs now p) as [changed pr]. cbn [snd] in Hr.
    assert (Hpr : registry_inv pr) by (now apply (registry_inv_same p)).
    destruct changed; cbn [snd]; [now apply do_theme_change_inv | exact Hpr].
  - intros [= <-]. unfold gtk_icon_theme_set_search_path.
    apply do_theme_change_inv. now apply (registry_inv_same p).
  - intros [= <-].
    destruct (theme_switch_preserves registry_inv p) as (_ & _ & H);
      auto using do_theme_change_inv;
      intros v q Hq; now apply (registry_inv_same q).
  - intros [= <-].
    destruct (theme_switch_preserves registry_inv p) as (_ & H & _);
      auto using do_theme_change_inv;
      intros v q Hq; now apply (registry_inv_same q).
  - intros [= <-].
    destruct (theme_switch_preserves registry_inv p) as (H & _ & _);
      auto using do_theme_change_inv;
      intros v q Hq; now apply (registry_inv_same q).
  - now apply ensure_valid_themes_inv.
  - intros [= <-]. destruct (run_theme_changed_idle_fields p) as [evs ->].
    now apply (registry_inv_same p).
Qed.

Lemma reachable_registry_inv (g : Builtins) (p : GtkIconThemePrivate) :
  reachable g p -> registry_inv p.
Proof.
  assert (Hinit : forall path supports_svg,
            registry_inv (init_priv path supports_svg)).
  { intros path supports_svg. split.
    - reflexivity.
    - intros theme d Htheme. now apply elem_of_nil in Htheme.
    - intros name [x Hx]. cbn in Hx. now rewrite lookup_empty in Hx. }
  induction 1 as [path supports_svg | path supports_svg new_screen settings
                  | op p p' Hreach IH Hrun].
  - apply Hinit.
  - apply (for_screen_preserves registry_inv); auto using do_theme_change_inv;
      intros v q Hq; now apply (registry_inv_same q).
  - eapply run_op_inv; eassumption.
Qed.

Section HasIconSpec.
Variable gtk_icon_cache_has_icon : gmap string (gmap string Z) -> string -> bool.

(** X16.  [gtk_icon_theme_has_icon], called in any state an icon theme
    reaches, answers TRUE for every icon a lookup could find outside the
    compiled-in index: an icon that a theme directory without an icon cache
    holds, an unthemed icon, and a registered built-in icon; whatever
    [_gtk_icon_cache_has_icon] answers.  For a theme directory that is read
    through an icon cache it answers TRUE as well, provided
    [_gtk_icon_cache_has_icon] finds every name that the index lists in
    some sub-directory.  The state it leaves is the one the validation of
    the themes leaves. *)
Theorem has_icon_complete (fuel : nat) (g : Builtins) (ensured : bool)
    (fs : FileSystem) (now : Z) (p q : GtkIconThemePrivate)
    (icon_name : string) (b : bool) :
  reachable g p ->
  gtk_icon_theme_has_icon gtk_icon_cache_has_icon fuel g ensured fs now p
    icon_name = Ok (b, q) ->
  ensure_valid_themes fuel fs now p = Ok q
  /\ (forall theme d,
        theme ∈ themes q -> d ∈ t_dirs theme -> d_cache d = None ->
        fst (theme_dir_get_icon_suffix d icon_name) <> ICON_SUFFIX_NONE ->
        b = true)
  /\ (is_Some (unthemed_icons q !! icon_name) -> b = true)
  /\ (forall table,
        icon_theme_builtin_icons g = Some table ->
        is_Some (table !! icon_name) -> b = true)
  /\ ((forall cache, index_lists_icon cache icon_name = true ->
                     gtk_icon_cache_has_icon cache icon_name = true) ->
      forall theme d,
        theme ∈ themes q -> d ∈ t_dirs theme ->
        fst (theme_dir_get_icon_suffix d icon_name) <> ICON_SUFFIX_NONE ->
        b = true).
Proof.
  intros Hreach. unfold gtk_icon_theme_has_icon.
  destruct (ensure_valid_themes fuel fs now p) as [q'| |] eqn:Hvalid;
    cbn [mbind result_bind]; try discriminate.
  intros [= Hb <-].
  pose proof (ensure_valid_themes_inv fuel fs now p q'
                (reachable_registry_inv g p Hreach) Hvalid) as [_ Htracked Hunthemed].
  split; [reflexivity |].
  set (cached := existsb (fun dir_mtime =>
                    match m_cache dir_mtime with
                    | Some cache => gtk_icon_cache_has_icon cache icon_name
                    | None => false
                    end) (dir_mtimes q')) in *.
  assert (Hall : icon_name ∈ all_icons q' -> b = true).
  { intros Hin. rewrite <- Hb. destruct cached; [reflexivity |].
    now rewrite bool_decide_eq_true_2 by exact Hin. }
  assert (Hscanned : forall theme d,
            theme ∈ themes q' -> d ∈ t_dirs theme -> d_cache d = None ->
            fst (theme_dir_get_icon_suffix d icon_name) <> ICON_SUFFIX_NONE ->
            b = true).
  { intros theme d Htheme Hd Hnone Hsuffix. apply Hall.
    destruct (Htracked theme d Htheme Hd) as (dm & _ & _ & _ & Hicons).
    unfold theme_dir_get_icon_suffix in Hsuffix.
    rewrite Hnone in Hicons, Hsuffix. apply Hicons. cbn [fst] in Hsuffix.
    destruct (d_icons d !! icon_name); [eauto | contradiction]. }
  split; [exact Hscanned |]. split; [intros Hu; apply Hall; now apply Hunthemed |].
  split.
  - intros table Htable Hreg. rewrite <- Hb.
    destruct cached; [reflexivity |].
    destruct (bool_decide (icon_name ∈ all_icons q')); [reflexivity |].
    destruct (ensured && gtk_icon_cache_has_icon (builtin_cache g) icon_name);
      [reflexivity |].
    rewrite Htable. now apply bool_decide_eq_true_2.
  - intros Hindex theme d Htheme Hd Hsuffix.
    destruct (d_cache d) as [icons|] eqn:Hcache;
      [| now apply (Hscanned theme d)].
    destruct (Htracked theme d Htheme Hd) as (dm & Hin & _ & _ & Hicons).
    rewrite Hcache in Hicons. destruct Hicons as (c & Hc & Hview).
    assert (Hlisted : index_lists_icon c icon_name = true).
    { unfold index_lists_icon. apply bool_decide_eq_true_2.
      unfold theme_dir_get_icon_suffix in Hsuffix. rewrite Hcache in Hsuffix.
      cbn [fst] in Hsuffix.
      destruct (icons !! icon_name) as [flags|] eqn:Hflags;
        [| now destruct Hsuffix].
      rewrite Hview in Hflags.
      destruct (c !! d_subdir d) as [view|] eqn:Hsub;
        [| cbn in Hflags; now rewrite lookup_empty in Hflags].
      exists (d_subdir d), view. split; [exact Hsub |].
      cbn [default from_option id] in Hflags. eauto. }
    rewrite <- Hb.
    assert (Hex : cached = true).
    { subst cached. apply existsb_exists. exists dm.
      split; [now apply list_elem_of_In |]. rewrite Hc. now apply Hindex. }
    now rewrite Hex.
Qed.

End HasIconSpec.
End RegistryAlongRuns.

(** X16 after a lookup on the installation with the gnome theme only: the
    query for edit-cut answers TRUE. *)
Lemma has_icon_complete_witness :
  exists p q,
    @reachable gtk3_flag_bits no_builtins p
    /\ gtk_icon_theme_has_icon index_lists_icon 3 no_builtins false
         fs_gnome_only 0 p "edit-cut" = Ok (true, q).
Proof.
  assert (Hrun : exists p,
            @run_op gtk3_flag_bits no_builtins
              (OpChooseIcon 3 fs_gnome_only 0 ["edit-cut"] 24 1 0) priv_fresh
            = Ok p
            /\ exists b q,
                 gtk_icon_theme_has_icon index_lists_icon 3 no_builtins false
                   fs_gnome_only 0 p "edit-cut" = Ok (b, q)
                 /\ exists theme d,
                      head (themes q) = Some theme
                      /\ head (t_dirs theme) = Some d
                      /\ d_cache d = None
                      /\ default 0 (d_icons d !! "edit-cut") = ICON_SUFFIX_PNG).
  { eexists. split; [vm_compute; reflexivity |].
    eexists _, _. split; [vm_compute; reflexivity |].
    eexists _, _. split; [vm_compute; reflexivity |].
    split; [vm_compute; reflexivity |]. split; vm_compute; reflexivity. }
  destruct Hrun as (p & Hp & b & q & Hhas & theme & d & Htheme & Hd & Hcache & Hpng).
  assert (Hreach : @reachable gtk3_flag_bits no_builtins p).
  { eapply reachable_step; [apply reachable_init | exact Hp]. }
  exists p, q. split; [exact Hreach |].
  destruct (@has_icon_complete gtk3_flag_bits index_lists_icon 3 no_builtins
              false fs_gnome_only 0 p q "edit-cut" b Hreach Hhas)
    as (_ & Hscanned & _).
  rewrite Hhas. f_equal. f_equal. apply (Hscanned theme d).
  - destruct (themes q); [discriminate |]. injection Htheme as ->. now left.
  - destruct (t_dirs theme); [discriminate |]. injection Hd as ->. now left.
  - exact Hcache.
  - unfold theme_dir_get_icon_suffix. rewrite Hcache. cbn [fst]. rewrite Hpng.
    discriminate.
Defined.

(** ** Switching the theme *)


Section SwitchingThemes.
Context {bits : LookupFlagBits}.



End SwitchingThemes.


(** An icon theme of a screen follows the setting of the screen and refuses
    a custom theme. *)
Example screen_singleton_keeps_theme :
  let p := gtk_icon_theme_for_screen ["/usr/share/icons"] true 0%nat
             (fun _ => Some "Foo") in
  current_theme p = Some "Foo"
  /\ gtk_icon_theme_set_custom_theme (Some "Bar") (fun _ => Some "Foo") p = p.
Proof. split; reflexivity. Qed.

(** ** Staleness: the reload and its notification *)




















(** C6, counterexample.  On the icon theme that looked up edit-cut at time
    0, with /usr/share/icons/hicolor recorded as absent:
    - the directory /usr/share/icons/hicolor appears with the modification
      time 0; the call at time 10 stats the tracked directories and reloads
      nothing, although the existence of a tracked directory differs from
      what was recorded;
    - /usr/share/icons/gnome is touched, the call at time 10 reloads, the
      directory is touched again and the call at time 20 reloads again,
      before the idle callback has run: two invalidations of a valid
      registry, one notification queued and one signal emitted. *)
Lemma one_signal_for_two_invalidations :
  exists p,
    @run_ops gtk3_flag_bits no_builtins
      [OpChooseIcon 3 fs_gnome_only 0 ["edit-cut"] 24 1 0] priv_fresh = Ok p
    /\ themes_valid p = true /\ signals_emitted (trace p) = 0%nat
    /\ Forall (recorded_on fs_gnome_only) (dir_mtimes p)
    /\ (exists dir_mtime,
          dir_mtime ∈ dir_mtimes p
          /\ m_dir dir_mtime = "/usr/share/icons/hicolor"
          /\ fs_stat_dir fs_gnome_only (m_dir dir_mtime) = None
          /\ fs_stat_dir fs_gnome_epoch (m_dir dir_mtime) = Some 0)
    /\ ensure_valid_themes 3 fs_gnome_epoch 10 p
       = Ok (set_last_stat_time 10
               (set_trace (trace p ++ map rescan_event (dir_mtimes p)) p))
    /\ exists p1 p2,
         Exists (dir_changed (fs_gnome_touched 2000)) (dir_mtimes p)
         /\ ensure_valid_themes 3 (fs_gnome_touched 2000) 10 p = Ok p1
         /\ themes_valid p1 = true
         /\ Exists (dir_changed (fs_gnome_touched 3000)) (dir_mtimes p1)
         /\ ensure_valid_themes 3 (fs_gnome_touched 3000) 20 p1 = Ok p2
         /\ idle_adds (trace p2) = 1%nat
         /\ signals_emitted (trace p2) = 0%nat
         /\ signals_emitted (trace (run_theme_changed_idle p2)) = 1%nat
         /\ theme_changed_idle (run_theme_changed_idle p2) = false.
Proof.
  eexists. split; [vm_compute; reflexivity |].
  split; [reflexivity |]. split; [reflexivity |].
  split.
  { repeat (constructor; [vm_compute; reflexivity |]). constructor. }
  split.
  { eexists. split; [apply list_elem_of_further, list_elem_of_here |].
    repeat split. }
  split; [vm_compute; reflexivity |].
  eexists. eexists.
  split; [apply Exists_cons_hd; vm_compute; discriminate |].
  split; [vm_compute; reflexivity |].
  split; [reflexivity |].
  split; [apply Exists_cons_hd; vm_compute; discriminate |].
  split; [vm_compute; reflexivity |].
  repeat split.
Qed.
